(* ===== verification/_CoqProject ===== *)
-Q . S2P
Prelude.v
Machine.v
State.v
Util.v
Console.v
Memory.v
Pmm.v
Paging.v
Supply.v
Heap.v
HeapSpec.v
HeapProof.v
HeapMap.v
Frames.v
Alloc.v
StackMemory.v
Task.v
TaskProof.v
Input.v
Timer.v
Interrupts.v
Stubs.v
Shell.v
Boot.v
Booted.v
MemoryProps.v
HeapProps.v
TaskStacks.v
Multitask.v
Preemption.v
TaskProps.v
SwitchProps.v
ConsoleProps.v
InputProps.v
ShellProps.v
ShellQuery.v
ShellMemory.v
ShellSafe.v
Running.v
DeviceProps.v
BootProps.v
MultitaskProps.v
HeapRace.v
ShellSession.v
