(* ===== verification/Prelude.v ===== *)
(** * JarvisOS: a verification development

    JarvisOS is a small 32-bit x86 kernel: it boots through Multiboot, manages
    physical frames, page tables and a heap, runs tasks preemptively from the
    timer interrupt, and offers a shell on the VGA screen, the PS/2 keyboard and
    a serial port.  This library models the C files and the assembly that saves
    and restores contexts, definition by definition, and proves what makes each
    part correct and what the parts achieve together.

    ** The model

    A C function is a computation [K A] over one state, [kernel] (State.v): a
    record with the static variables of each file, and the [machine] (Machine.v):
    RAM as bytes at physical addresses, registers, the MMU and the history of
    port I/O.  A computation ends with a value ([Ok]), a processor exception
    ([Trap]: a page fault, a divide error), a halt ([Halted]), a reset of the
    machine ([MachineReset]: the keyboard controller's command 0xFE), or it has
    used up its fuel ([NoFuel]).  [wp m Q k] says that [m] started in [k] returns, and
    returns with [Q]: every theorem of this form includes termination and the
    absence of exceptions.  Integers of the C types are [Z] with the wrap-around
    written out (below); signed overflow wraps, as gcc makes it on this target.
    Bitmap, page tables, block headers, stacks and the Multiboot map live in the
    RAM of the model and are reached through the MMU, so aliasing and faults are
    those of the machine.

    ** The parts

    - Prelude.v: C arithmetic, the monad, its rules and automation.
    - Machine.v, State.v: the machine; [window], an interval of virtual addresses
      that behaves as a private array; the static variables.
    - Util.v (src/util.c), Console.v (src/serial.c to send, src/vga.c),
      Input.v (src/keyboard.c, src/serial.c to receive, the ring of src/shell.c),
      Timer.v (src/timer.c), Interrupts.v (src/idt.c, src/isr.c),
      Memory.v (src/memory.c, src/multiboot.h), Shell.v (the rest of src/shell.c),
      Boot.v (src/kernel.c).
    - Pmm.v (src/pmm.c): the bitmap represents a set of used frames.
    - Paging.v (src/paging.c): the tables represent finite maps from table numbers
      to frames and from page numbers to entries ([paging_inv]).  Supply.v: how many
      frames it takes to map a run of pages.
    - Heap.v (src/heap.c); HeapSpec.v, the heap as a list of blocks; HeapProof.v,
      the code implements it inside a window; HeapMap.v, the heap on top of the
      page tables ([heap_inv]), which grows if and only if address space and frames
      suffice ([can_extend]).
    - Alloc.v: [Allocator], the interface between the heap and its clients, an
      invariant over the map of live allocations with laws for [kmalloc], [kfree],
      loads and stores; [client J] implements it for any further memory [J] that
      the managers spare.  Frames.v: what each piece of code leaves alone, found by
      type class search.
    - Task.v (src/task.c, src/switch.asm): the scheduler, and [context_switch]
      instruction by instruction; TaskProof.v, its refinement of transformations of
      the task table; TaskStacks.v, the ownership of the stacks, against
      [Allocator].
    - StackMemory.v: where stacks lie, and that writing to one disturbs nothing
      else.  Multitask.v: the invariant [system] of the running kernel, and what
      each call and interrupt means for every task.  Running.v: the step relation
      [step] (a task computes, an interrupt arrives, a task calls the kernel or
      runs a careful line of the shell) and what any number of steps keeps.
    - ShellQuery.v: [Query], the commands that change nothing but the console,
      found by type class search.  ShellMemory.v: the managers composed below the
      other commands.  ShellSafe.v: [careful] lines, and what each command does to
      the running system.
    - Stubs.v (src/isr.asm): delivery of an interrupt, the entry stubs, the common
      stubs and [iret]; Preemption.v: their round trip.
    - Booted.v: a concrete machine with 256 KB of RAM, for the witnesses; the one of
      [paging_init_identity] has 32 MB.
    - MemoryProps.v, HeapProps.v, TaskProps.v, SwitchProps.v, ConsoleProps.v,
      InputProps.v, ShellProps.v, DeviceProps.v, BootProps.v, MultitaskProps.v,
      HeapRace.v: the properties.  ShellSession.v: those of the shell inside the
      running system.

    ** What the theorems show

    Boot ([kernel_boots]): from any machine whose Multiboot map leaves enough
    frames, the kernel comes up with memory map, paging, heap, scheduler and
    interrupt table in order.  The reached state satisfies [system].

    Multitasking: every state reached from there keeps [system]
    ([running_system]); a task that loses the processor finds its registers and
    stack unchanged, whatever the others do meanwhile ([resumes_exactly]); an
    interrupt is invisible to the task it interrupts, also when the task is
    switched away inside it ([preemption_invisible]); a new task begins as it
    should ([new_task_begins]); ticks and yields exchange register files and touch
    nobody else ([scheduling_is_private]); a breakpoint resumes
    ([breakpoint_resumes]), every other exception is reported in full before the
    processor stops ([exception_reported]).  The scheduler implements round robin, keeps its table
    well formed and starves nobody; stacks of dead tasks are freed once.

    Memory: frames as a set, page tables as maps, the walk of the code as that of
    the MMU, the heap as first fit with merging, allocations that are disjoint and
    keep their bytes, errors that change nothing.  [kmalloc] returns null exactly
    when nothing fits and address space or free frames do not suffice to grow
    ([kmalloc_first_fit]).  A change of a page table is followed by the [invlpg] of
    its page.  The identity window is 16 MB, or all of RAM where there is less
    ([paging_init_identity]); the README asks for 16 MB, the code does not.

    Devices and shell: the screen as a scrolling list of lines, outside which
    nothing is stored ([vga_stray] would show it), bounded waiting for the UART, acknowledgement before the handler, the input ring as a queue under
    interrupts, the line editor as an edit of a string, the calculator end to end,
    numbers printed and read back.  Every line of the shell that is careful (it does
    not stop or restart the machine, nor wait, does not ask [kmalloc] for more than [KMALLOC_MAX]
    bytes, beyond which the sums of heap.c wrap, and neither frees nor unmaps what
    is in use) returns, keeps [system] and disturbs no task but the one it kills
    ([shell_line_harmless]); so does a whole session at the console: [shell_poll]
    echoes every key in the ring and executes every line, one after the other
    ([console_session], [dialogue]).

    Where the code falls short of what it means to do, a theorem says exactly what
    happens: [tick_corrupts_heap] (the timer frees memory between the test and the
    merge of [coalesce], and the heap hands out what is in use), [unmap_breaks_heap] (the shell unmaps the first page of the heap, and
    every [kmalloc] faults from then on), [calc_computes] (INT_MIN / -1 stops the
    system), [print_int_atoi] (INT_MIN prints as a minus sign),
    [timer_sleep_waits] (a sleep is up to 20 ms shorter than what is asked for),
    [timer_sleep_wraps], [kmalloc_size_wraps].

    ** Parameters, fuel and bounds

    What a port answers is [io_env], any function of the I/O history; what a symbol
    of the linker is, [sym]; the code segment of the kernel, [cs_sel]; what happens
    while the kernel task is halted, [wait].  Loops over memory structures run on
    fuel computed from the state ([heap_fuel], one turn per possible header, is
    shown to suffice wherever [heap_inv] holds); the wait for the UART has
    TX_SPIN_LIMIT + 2 turns, one more than it can use; the digits of a number 12.
    The receive loop of the serial port, sleeping, the poll loop and the main loop
    last as long as the device or the user decides: their fuel is an argument, and
    their theorems say how much is enough.

    A call of the scheduler needs 48 bytes of stack ([room]) and an interrupt 64
    more; nothing in the code checks for them, so they are hypotheses.  Booting
    needs 33 free frames besides those of the page tables ([ram_ok]).

    ** Not modelled

    - src/boot.asm, src/idt_load.asm and the linker script: the boot stack is an
      interval of the kernel image, [lidt] sets the [idtr] of the model.
    - The TLB: the MMU of the model walks the tables at every access, so a stale
      entry is never used; [invlpg] is an event of the log, whose place after the
      change the theorems state.
    - What a machine does after a reset, after a halt or after an exception that the
      kernel reports: these outcomes are final.
    - The stack frames of C functions: a handler's stack pointer is the one it was
      called with, and registers that a C function may clobber keep their values
      until a stub or [context_switch] loads them.  [preemption_invisible] and
      [continues] therefore allow any registers, the stack pointer apart.
    - Interrupts inside kernel functions: [step] is one function, one handler or a
      stretch of a task's own computation.  [ring_fifo] interleaves at the level of
      single accesses, and HeapRace.v puts the timer interrupt inside [coalesce].
    - The idle loops of [task_exit] and of the exception handler; [counter_task] is
      modelled for any number of turns.
    - The host-side agent, the screenshot tool, the build. *)
From stdpp Require Import prelude gmap list.
From Stdlib Require Import Lia ZArith.

#[local] Open Scope Z_scope.

(** ** Arithmetic of the C types

    The kernel is compiled with [-m32]: [uint32_t], pointers and [size_t] are
    32 bits wide and wrap, [int] is 32 bits wide (gcc computes it modulo 2^32
    on this target), [char] is signed. *)

Definition u8 (x : Z) : Z := x mod 0x100.
Definition u16 (x : Z) : Z := x mod 0x10000.
Definition u32 (x : Z) : Z := x mod 0x100000000.
Definition s32 (x : Z) : Z := (x + 0x80000000) mod 0x100000000 - 0x80000000.
Definition s8 (x : Z) : Z := (x + 0x80) mod 0x100 - 0x80.

Declare Scope c_scope.
Delimit Scope c_scope with C.
Notation "x +u y" := (u32 (x + y)) (at level 50, left associativity) : c_scope.
Notation "x -u y" := (u32 (x - y)) (at level 50, left associativity) : c_scope.
Notation "x *u y" := (u32 (x * y)) (at level 40, left associativity) : c_scope.
Notation "x &u y" := (Z.land x y) (at level 42, left associativity) : c_scope.
Notation "x |u y" := (Z.lor x y) (at level 44, left associativity) : c_scope.
Notation "x >>u n" := (Z.shiftr x n) (at level 45, left associativity) : c_scope.
Notation "x <<u n" := (u32 (Z.shiftl x n)) (at level 45, left associativity) : c_scope.
Notation "~u x" := (u32 (Z.lnot x)) (at level 35, right associativity) : c_scope.
#[global] Open Scope c_scope.

(** [zlia]: linear arithmetic with division and remainder by constants. *)
Ltac zlia := Z.to_euclidean_division_equations; lia.

(** ** Outcomes and the kernel monad

    A piece of kernel code, run in a state, returns a value, raises a CPU
    exception (vector and error code), stops the processor for good, resets the
    machine, or (for a loop run on fuel) does not finish within its fuel. *)
Inductive outcome (S A : Type) : Type :=
  | Ok (a : A) (s : S)
  | Trap (vector err : Z) (s : S)
  | Halted (s : S)
  | MachineReset (s : S)
  | NoFuel (s : S).
Arguments Ok {S A} a s.
Arguments Trap {S A} vector err s.
Arguments Halted {S A} s.
Arguments MachineReset {S A} s.
Arguments NoFuel {S A} s.

Definition M (S A : Type) : Type := S → outcome S A.

Definition ret {S A} (a : A) : M S A := λ s, Ok a s.
Definition bind {S A B} (m : M S A) (f : A → M S B) : M S B := λ s,
  match m s with
  | Ok a s' => f a s'
  | Trap v e s' => Trap v e s'
  | Halted s' => Halted s'
  | MachineReset s' => MachineReset s'
  | NoFuel s' => NoFuel s'
  end.
Definition gets {S A} (f : S → A) : M S A := λ s, Ok (f s) s.
Definition modify {S} (f : S → S) : M S () := λ s, Ok () (f s).

Declare Scope monad_scope.
Delimit Scope monad_scope with M.
Notation "x <- m ;; f" := (bind m (λ x, f))
  (at level 100, m at next level, right associativity) : monad_scope.
Notation "m ;;; f" := (bind m (λ _, f))
  (at level 100, right associativity) : monad_scope.
#[global] Open Scope monad_scope.

(** [when b m]: the body of an [if] without [else]. *)
Definition when {S} (b : bool) (m : M S ()) : M S () := if b then m else ret tt.

(** [for_range n lo body]: [for (i = lo; i < lo + n; i++) body(i)]. *)
Fixpoint for_range {S} (n : nat) (lo : Z) (body : Z → M S ()) : M S () :=
  match n with
  | O => ret tt
  | S n => body lo ;;; for_range n (lo + 1) body
  end.

(** [for_find n lo body]: the same loop with a body that may leave the
    function early with a value ([Some]). *)
Fixpoint for_find {S A} (n : nat) (lo : Z) (body : Z → M S (option A)) : M S (option A) :=
  match n with
  | O => ret None
  | S n =>
      r <- body lo ;;
      match r with Some a => ret (Some a) | None => for_find n (lo + 1) body end
  end.

(** [while_fuel n body a]: a [while] loop over the loop variables [a]; the
    body either goes on with new values ([inl]) or leaves ([inr]). *)
Fixpoint while_fuel {S A B} (n : nat) (body : A → M S (A + B)) (a : A) : M S B :=
  match n with
  | O => λ s, NoFuel s
  | S n =>
      r <- body a ;;
      match r with inl a' => while_fuel n body a' | inr b => ret b end
  end.

#[global] Typeclasses Opaque ret bind gets modify when for_range for_find while_fuel.

(** ** Weakest preconditions (total: the code returns, no exception) *)
Definition wp {S A} (m : M S A) (Q : A → S → Prop) (s : S) : Prop :=
  match m s with Ok a s' => Q a s' | _ => False end.

Section wp.
Context {S : Type}.

Lemma wp_ok {A} (m : M S A) a s s' (Q : A → S → Prop) :
  m s = Ok a s' → Q a s' → wp m Q s.
Proof. unfold wp. by intros ->. Qed.

Lemma wp_inv {A} (m : M S A) (Q : A → S → Prop) s :
  wp m Q s → ∃ a s', m s = Ok a s' ∧ Q a s'.
Proof. unfold wp. destruct (m s); naive_solver. Qed.

Lemma wp_result {A} (m : M S A) (Q : A → S → Prop) s a s' : wp m Q s → m s = Ok a s' → Q a s'.
Proof. unfold wp. intros H He. by rewrite He in H. Qed.

Lemma wp_mono {A} (m : M S A) (Q Q' : A → S → Prop) s :
  wp m Q s → (∀ a s', Q a s' → Q' a s') → wp m Q' s.
Proof. unfold wp. destruct (m s); naive_solver. Qed.

(** The result may be used as an equation. *)
Lemma wp_eqn {A} (m : M S A) (Q : A → S → Prop) s : wp m Q s → wp m (λ a s', m s = Ok a s' ∧ Q a s') s.
Proof. unfold wp. by destruct (m s). Qed.

Lemma wp_conj {A} (m : M S A) (Q Q' : A → S → Prop) s :
  wp m Q s → wp m Q' s → wp m (λ a s', Q a s' ∧ Q' a s') s.
Proof. unfold wp. destruct (m s); naive_solver. Qed.

Lemma wp_bind {A B} (m : M S A) (f : A → M S B) (Q : B → S → Prop) s :
  wp (bind m f) Q s = wp m (λ a s', wp (f a) Q s') s.
Proof. unfold wp, bind. by destruct (m s). Qed.

Lemma wp_ret {A} (a : A) (Q : A → S → Prop) s : wp (ret a) Q s = Q a s.
Proof. done. Qed.

Lemma wp_gets {A} (f : S → A) (Q : A → S → Prop) s : wp (gets f) Q s = Q (f s) s.
Proof. done. Qed.

Lemma wp_modify (f : S → S) (Q : () → S → Prop) s : wp (modify f) Q s = Q tt (f s).
Proof. done. Qed.

Lemma wp_when (b : bool) (m : M S ()) (Q : () → S → Prop) s :
  (b = true → wp m Q s) → (b = false → Q tt s) → wp (when b m) Q s.
Proof. destruct b; unfold when; [auto | rewrite wp_ret; auto]. Qed.

(** A loop keeps its invariant. *)
Lemma wp_for_range (I : Z → S → Prop) n lo body (Q : () → S → Prop) s :
  I lo s →
  (∀ i s, lo ≤ i < lo + Z.of_nat n → I i s → wp (body i) (λ _ s', I (i + 1) s') s) →
  (∀ s', I (lo + Z.of_nat n) s' → Q tt s') →
  wp (for_range n lo body) Q s.
Proof.
  revert lo s. induction n as [|n IH]; intros lo s HI Hb HQ; cbn [for_range].
  - rewrite wp_ret. apply HQ. by replace (lo + Z.of_nat 0) with lo by lia.
  - rewrite wp_bind. eapply wp_mono; [apply Hb; [lia | done]|].
    intros [] s' HI'. apply IH; [done | |].
    + intros i s'' ?. apply Hb. lia.
    + intros s'' HI''. apply HQ. by replace (lo + Z.of_nat (Datatypes.S n))
        with (lo + 1 + Z.of_nat n) by lia.
Qed.

Lemma wp_for_find {A} (I : Z → S → Prop) n lo (body : Z → M S (option A))
    (Q : option A → S → Prop) s :
  I lo s →
  (∀ i s, lo ≤ i < lo + Z.of_nat n → I i s →
     wp (body i) (λ r s', match r with Some a => Q (Some a) s' | None => I (i + 1) s' end) s) →
  (∀ s', I (lo + Z.of_nat n) s' → Q None s') →
  wp (for_find n lo body) Q s.
Proof.
  revert lo s. induction n as [|n IH]; intros lo s HI Hb HQ; cbn [for_find].
  - rewrite wp_ret. apply HQ. by replace (lo + Z.of_nat 0) with lo by lia.
  - rewrite wp_bind. eapply wp_mono; [apply Hb; [lia | done]|].
    intros [a|] s' HI'; [done|]. apply IH; [done | |].
    + intros i s'' ?. apply Hb. lia.
    + intros s'' HI''. apply HQ. by replace (lo + Z.of_nat (Datatypes.S n))
        with (lo + 1 + Z.of_nat n) by lia.
Qed.

(** A [while] loop with a variant: enough fuel, and the loop returns. *)
Lemma wp_while_fuel {A B} (I : A → S → Prop) (variant : A → S → nat) n
    (body : A → M S (A + B)) a (Q : B → S → Prop) s :
  I a s → (variant a s < n)%nat →
  (∀ a s, I a s →
     wp (body a) (λ r s', match r with
                          | inl a' => I a' s' ∧ (variant a' s' < variant a s)%nat
                          | inr b => Q b s' end) s) →
  wp (while_fuel n body a) Q s.
Proof.
  revert a s. induction n as [|n IH]; intros a s HI Hv Hb; [lia|].
  cbn [while_fuel]. rewrite wp_bind. eapply wp_mono; [by apply Hb|].
  intros [a'|b] s'; [|done]. intros [HI' Hlt]. apply IH; [done | lia | done].
Qed.
End wp.

Create Rewrite HintDb wp.
#[export] Hint Rewrite @wp_bind @wp_ret @wp_gets @wp_modify : wp.

(** [wp_go] runs the administrative steps, [wp_use H] applies the
    specification [H] of the call at the head. *)
Ltac wp_go := autorewrite with wp; cbn beta iota.
Tactic Notation "wp_use" uconstr(H) := eapply wp_mono; [eapply H|].

(** ** Wrap-around facts *)
Lemma u32_small x : 0 ≤ x < 0x100000000 → u32 x = x.
Proof. unfold u32. apply Z.mod_small. Qed.
Lemma u32_range x : 0 ≤ u32 x < 0x100000000.
Proof. unfold u32. zlia. Qed.
Lemma u8_range x : 0 ≤ u8 x < 0x100.
Proof. unfold u8. zlia. Qed.
Lemma u8_small x : 0 ≤ x < 0x100 → u8 x = x.
Proof. unfold u8. apply Z.mod_small. Qed.
Lemma s32_small x : -0x80000000 ≤ x < 0x80000000 → s32 x = x.
Proof. unfold s32. zlia. Qed.
Lemma u32_idem x : u32 (u32 x) = u32 x.
Proof. apply u32_small, u32_range. Qed.

Create HintDb kernel.
#[export] Hint Resolve u32_range u8_range : kernel.

(** ** Bits of 32-bit words *)
Lemma testbit_u32 x i : 0 ≤ i < 32 → Z.testbit (u32 x) i = Z.testbit x i.
Proof.
  intros ?. unfold u32. change 0x100000000 with (2 ^ 32).
  apply Z.mod_pow2_bits_low. lia.
Qed.

Lemma testbit_one b i : 0 ≤ b < 32 → 0 ≤ i < 32 → Z.testbit (1 <<u b) i = (i =? b).
Proof.
  intros ??. rewrite testbit_u32 by done. rewrite Z.shiftl_1_l.
  rewrite Z.pow2_bits_eqb by lia. apply Z.eqb_sym.
Qed.

Lemma testbit_set w b i :
  0 ≤ b < 32 → 0 ≤ i < 32 → Z.testbit (w |u (1 <<u b)) i = (i =? b) || Z.testbit w i.
Proof. intros. by rewrite Z.lor_spec, testbit_one, orb_comm. Qed.

Lemma testbit_clear w b i :
  0 ≤ b < 32 → 0 ≤ i < 32 →
  Z.testbit (w &u ~u (1 <<u b)) i = negb (i =? b) && Z.testbit w i.
Proof.
  intros. rewrite Z.land_spec, testbit_u32, Z.lnot_spec, testbit_one by lia.
  apply andb_comm.
Qed.

Lemma land_bit w b : 0 ≤ b → Z.land (w >>u b) 1 = Z.b2z (Z.testbit w b).
Proof.
  intros. change 1 with (Z.ones 1) at 1. rewrite Z.land_ones by lia.
  rewrite Z.testbit_spec' by done. by rewrite Z.shiftr_div_pow2 by lia.
Qed.

Lemma bits_bound n x : 0 ≤ n →
  0 ≤ x < 2 ^ n ↔ 0 ≤ x ∧ ∀ i, n ≤ i → Z.testbit x i = false.
Proof.
  intros Hn. split.
  - intros [? Hx]. split; [done|]. intros i Hi.
    destruct (decide (x = 0)) as [->|]; [apply Z.bits_0|].
    apply Z.bits_above_log2; [done|]. apply Z.log2_lt_pow2 in Hx; lia.
  - intros [Hx Hb]. split; [done|].
    destruct (decide (x = 0)) as [->|]; [by apply Z.pow_pos_nonneg|].
    apply Z.log2_lt_pow2; [lia|]. apply Z.nle_gt. intros Hl.
    apply Hb in Hl. rewrite Z.bit_log2 in Hl by lia. done.
Qed.

Lemma u32_bits x : 0 ≤ x < 0x100000000 ↔ 0 ≤ x ∧ ∀ i, 32 ≤ i → Z.testbit x i = false.
Proof. by apply (bits_bound 32). Qed.

Lemma lor_bound n x y : 0 ≤ n → 0 ≤ x < 2 ^ n → 0 ≤ y < 2 ^ n → 0 ≤ Z.lor x y < 2 ^ n.
Proof.
  intros Hn. rewrite !bits_bound by done. intros [? Hx] [? Hy].
  split; [by apply Z.lor_nonneg|]. intros i Hi. by rewrite Z.lor_spec, Hx, Hy.
Qed.

Lemma lor_u32 x y :
  0 ≤ x < 0x100000000 → 0 ≤ y < 0x100000000 → 0 ≤ Z.lor x y < 0x100000000.
Proof. by apply (lor_bound 32). Qed.

Lemma land_u32 x y : 0 ≤ x < 0x100000000 → 0 ≤ Z.land x y < 0x100000000.
Proof.
  rewrite !u32_bits. intros [? Hx]. split; [apply Z.land_nonneg; by left|].
  intros i Hi. by rewrite Z.land_spec, Hx.
Qed.

(** A word is all ones exactly when its 32 bits are set. *)
Lemma all_ones w :
  0 ≤ w < 0x100000000 → (w = 0xFFFFFFFF ↔ ∀ i, 0 ≤ i < 32 → Z.testbit w i = true).
Proof.
  intros Hw. change 0xFFFFFFFF with (Z.ones 32). split.
  - intros -> i ?. by apply Z.ones_spec_low.
  - intros Hb. apply Z.bits_inj'. intros i Hi.
    destruct (decide (i < 32)).
    + rewrite Hb, Z.ones_spec_low by lia. done.
    + rewrite Z.ones_spec_high by lia. apply u32_bits in Hw as [_ Hw]. apply Hw. lia.
Qed.
Lemma ldiff_u32 x y : 0 ≤ x < 0x100000000 → 0 ≤ Z.ldiff x y < 0x100000000.
Proof. rewrite Z.ldiff_land. apply land_u32. Qed.

#[export] Hint Resolve lor_u32 land_u32 ldiff_u32 : kernel.

(** Rounding to a page: [x & ~0xFFF]. *)
Lemma land_page x : 0 ≤ x < 0x100000000 → Z.land x 0xFFFFF000 = x - x mod 0x1000.
Proof.
  intros Hx. change 0xFFFFF000 with (Z.ldiff (Z.ones 32) (Z.ones 12)).
  rewrite Z.ldiff_land, Z.land_assoc, Z.land_ones by lia.
  rewrite Z.mod_small by (change (2 ^ 32) with 0x100000000; lia).
  rewrite <- Z.ldiff_land, Z.ldiff_ones_r, Z.shiftr_div_pow2, Z.shiftl_mul_pow2 by lia.
  change (2 ^ 12) with 0x1000. zlia.
Qed.

Lemma land_offset x : Z.land x 0xFFF = x mod 0x1000.
Proof. change 0xFFF with (Z.ones 12). by rewrite Z.land_ones by lia. Qed.

(** Or-ing an offset below a page address is an addition. *)
Lemma lor_page x y : x mod 0x1000 = 0 → 0 ≤ y < 0x1000 → Z.lor x y = x + y.
Proof.
  intros Hx Hy. symmetry. apply Z.add_nocarry_lor. apply Z.bits_inj_0. intros n.
  rewrite Z.land_spec. destruct (decide (n < 0)); [by rewrite Z.testbit_neg_r|].
  destruct (decide (n < 12)).
  - replace x with (x / 0x1000 * 2 ^ 12) by (change (2 ^ 12) with 0x1000; zlia).
    by rewrite Z.mul_pow2_bits_low by lia.
  - replace y with (y mod 2 ^ 12) by (change (2 ^ 12) with 0x1000; by apply Z.mod_small).
    rewrite Z.mod_pow2_bits_high by lia. apply andb_false_r.
Qed.

Lemma testbit0_page x y : x mod 0x1000 = 0 → Z.testbit (x + y) 0 = Z.testbit y 0.
Proof.
  intros Hx. rewrite !Z.bit0_odd, Z.odd_add.
  replace x with (2 * (0x800 * (x / 0x1000))) at 1 by zlia.
  rewrite Z.odd_mul. cbn. by destruct (Z.odd y).
Qed.
