(* ===== verification/Machine.v ===== *)
(** * The machine the kernel runs on

    RAM as bytes at physical addresses, the control registers the kernel
    writes, the 32-bit MMU walk, little-endian loads and stores through it,
    and port I/O.  The devices are not part of the sources: their answers come
    from [io_env], an arbitrary function of the I/O history.  [window] is the
    interface the components are verified against: an interval of virtual
    addresses that behaves like a private array of bytes. *)
From stdpp Require Import prelude gmap list strings.
From Stdlib Require Import Lia ZArith.
From S2P Require Import Prelude.

#[local] Open Scope Z_scope.

(** ** State *)
Inductive io_event := Inb (port v : Z) | Outb (port v : Z) | Invlpg (va : Z).

(** The keyboard controller's command port; the command 0xFE pulses the reset
    line of the processor. *)
Definition KBC_COMMAND : Z := 0x64.
Definition KBC_RESET : Z := 0xFE.
Definition resets (port data : Z) : bool := (port =? KBC_COMMAND) && (u8 data =? KBC_RESET).

Record regfile := Regfile {
  r_eax : Z; r_ecx : Z; r_edx : Z; r_ebx : Z;
  r_esp : Z; r_ebp : Z; r_esi : Z; r_edi : Z;
  r_eflags : Z; r_eip : Z
}.

Record machine := Machine {
  phys : gmap Z Z;                    (* RAM: physical address -> byte *)
  cr0_pg : bool;                      (* CR0 bit 31 *)
  cr3 : Z;
  cr2 : Z;
  regs : regfile;
  io_log : list io_event;             (* port I/O so far, latest first *)
  io_env : list io_event → Z → Z;     (* what a port answers, given the log *)
  sym : string → Z                    (* the addresses the linker assigned *)
}.

Definition set_phys (v : gmap Z Z) (m : machine) : machine :=
  {| phys := v; cr0_pg := cr0_pg m; cr3 := cr3 m; cr2 := cr2 m; regs := regs m;
     io_log := io_log m; io_env := io_env m; sym := sym m |}.
Definition set_cr (pg : bool) (c3 : Z) (m : machine) : machine :=
  {| phys := phys m; cr0_pg := pg; cr3 := c3; cr2 := cr2 m; regs := regs m;
     io_log := io_log m; io_env := io_env m; sym := sym m |}.
Definition set_cr2 (v : Z) (m : machine) : machine :=
  {| phys := phys m; cr0_pg := cr0_pg m; cr3 := cr3 m; cr2 := v; regs := regs m;
     io_log := io_log m; io_env := io_env m; sym := sym m |}.
Definition set_regs (v : regfile) (m : machine) : machine :=
  {| phys := phys m; cr0_pg := cr0_pg m; cr3 := cr3 m; cr2 := cr2 m; regs := v;
     io_log := io_log m; io_env := io_env m; sym := sym m |}.
Definition log_io (e : io_event) (m : machine) : machine :=
  {| phys := phys m; cr0_pg := cr0_pg m; cr3 := cr3 m; cr2 := cr2 m; regs := regs m;
     io_log := e :: io_log m; io_env := io_env m; sym := sym m |}.

Definition set_log (v : list io_event) (m : machine) : machine :=
  {| phys := phys m; cr0_pg := cr0_pg m; cr3 := cr3 m; cr2 := cr2 m; regs := regs m;
     io_log := v; io_env := io_env m; sym := sym m |}.

(** The end of the kernel image, exported by linker.ld. *)
Definition kernel_end (m : machine) : Z := sym m "kernel_end".

(** ** Bytes and little-endian words *)
Definition rd8 (ph : gmap Z Z) (p : Z) : Z := u8 (default 0 (ph !! p)).

Fixpoint le_combine (bs : list Z) : Z :=
  match bs with [] => 0 | b :: bs => b + 0x100 * le_combine bs end.
Fixpoint le_split (n : nat) (v : Z) : list Z :=
  match n with O => [] | S n => u8 v :: le_split n (v / 0x100) end.

Definition rd32 (ph : gmap Z Z) (p : Z) : Z := le_combine (rd8 ph <$> seqZ p 4).

Fixpoint write_list (ps bs : list Z) (ph : gmap Z Z) : gmap Z Z :=
  match ps, bs with
  | p :: ps, b :: bs => write_list ps bs (<[p := b]> ph)
  | _, _ => ph
  end.

(** ** The MMU

    Two levels, 4 KB pages, bit 0 of an entry is "present" (Intel manual
    vol. 3, ch. 4, as paging.c describes it).  CR0.WP is clear, so the write
    bit does not restrict the kernel. *)
Definition frame_of (e : Z) : Z := Z.land e 0xFFFFF000.

Definition mmu_walk (ph : gmap Z Z) (dir va : Z) : option Z :=
  let pde := rd32 ph (frame_of dir + 4 * (Z.shiftr va 22)) in
  if Z.testbit pde 0 then
    let pte := rd32 ph (frame_of pde + 4 * (Z.land (Z.shiftr va 12) 0x3FF)) in
    if Z.testbit pte 0 then Some (frame_of pte + Z.land va 0xFFF) else None
  else None.

Definition mmu (m : machine) (va : Z) : option Z :=
  if cr0_pg m then mmu_walk (phys m) (cr3 m) va else Some va.

(** Translate [n] consecutive bytes; [inl] is the first address that faults. *)
Fixpoint mmu_list (m : machine) (n : nat) (va : Z) : Z + list Z :=
  match n with
  | O => inr []
  | S n =>
      match mmu m va with
      | None => inl va
      | Some p =>
          match mmu_list m n (u32 (va + 1)) with
          | inl f => inl f
          | inr ps => inr (p :: ps)
          end
      end
  end.

Definition m_load (n : nat) (va : Z) (m : machine) : Z + Z :=
  match mmu_list m n va with
  | inl f => inl f
  | inr ps => inr (le_combine (rd8 (phys m) <$> ps))
  end.

Definition m_store (n : nat) (va v : Z) (m : machine) : Z + machine :=
  match mmu_list m n va with
  | inl f => inl f
  | inr ps => inr (set_phys (write_list ps (le_split n v) (phys m)) m)
  end.

(** ** Bytes and words: lemmas *)
Lemma rd8_range ph p : 0 ≤ rd8 ph p < 0x100.
Proof. apply u8_range. Qed.
#[export] Hint Resolve rd8_range : kernel.

Lemma rd8_insert ph p q b :
  rd8 (<[p := b]> ph) q = if decide (p = q) then u8 b else rd8 ph q.
Proof.
  unfold rd8. case_decide; subst.
  - by rewrite lookup_insert_eq.
  - by rewrite lookup_insert_ne.
Qed.

Lemma le_combine_range bs :
  Forall (λ b, 0 ≤ b < 0x100) bs → 0 ≤ le_combine bs < 0x100 ^ Z.of_nat (length bs).
Proof.
  induction 1 as [|b bs Hb _ IH]; cbn [le_combine length]; [lia|].
  rewrite Nat2Z.inj_succ, Z.pow_succ_r by lia. lia.
Qed.

Lemma le_combine_split n v : le_combine (le_split n v) = v mod 0x100 ^ Z.of_nat n.
Proof.
  revert v. induction n as [|n IH]; intros v; cbn [le_combine le_split].
  - cbn. by rewrite Z.mod_1_r.
  - rewrite IH, Nat2Z.inj_succ, Z.pow_succ_r by lia. unfold u8.
    rewrite (Z.rem_mul_r v 0x100) by lia. done.
Qed.

Lemma length_le_split n v : length (le_split n v) = n.
Proof. revert v. induction n; intros; cbn; [done | by f_equal]. Qed.

Lemma le_split_bytes n v : Forall (λ b, 0 ≤ b < 0x100) (le_split n v).
Proof. revert v. induction n; intros; cbn [le_split]; auto using u8_range. Qed.

Lemma rd32_range ph p : 0 ≤ rd32 ph p < 0x100000000.
Proof.
  unfold rd32.
  pose proof (le_combine_range (rd8 ph <$> seqZ p 4)) as H.
  rewrite length_fmap, length_seqZ in H. apply H.
  apply Forall_fmap, Forall_forall. intros; apply rd8_range.
Qed.
#[export] Hint Resolve rd32_range : kernel.

Lemma rd32_ext ph ph' p :
  (∀ q, p ≤ q < p + 4 → rd8 ph q = rd8 ph' q) → rd32 ph p = rd32 ph' p.
Proof.
  intros H. unfold rd32. f_equal. apply list_fmap_ext.
  intros i q Hq%lookup_seqZ. apply H. lia.
Qed.

Lemma write_list_other ps bs ph q : q ∉ ps → rd8 (write_list ps bs ph) q = rd8 ph q.
Proof.
  revert bs ph. induction ps as [|p ps IH]; intros [|b bs] ph Hq; cbn; try done.
  rewrite not_elem_of_cons in Hq. destruct Hq as [Hq Hps].
  rewrite IH by done. rewrite rd8_insert. by case_decide.
Qed.

Lemma write_list_lookup ps bs ph i p b :
  NoDup ps → ps !! i = Some p → bs !! i = Some b →
  rd8 (write_list ps bs ph) p = u8 b.
Proof.
  revert bs ph i. induction ps as [|p' ps IH]; intros [|b' bs] ph i Hnd Hp Hb; try done.
  apply NoDup_cons in Hnd as [Hni Hnd]. cbn [write_list].
  destruct i as [|i]; simplify_eq/=.
  - rewrite write_list_other by done. rewrite rd8_insert. by case_decide.
  - by eapply IH.
Qed.

(** ** Changes confined to a set of physical addresses *)
Record agrees_outside (P : Z → Prop) (m m' : machine) : Prop := {
  ao_pg : cr0_pg m' = cr0_pg m;
  ao_cr3 : cr3 m' = cr3 m;
  ao_rd8 : ∀ p, ¬ P p → rd8 (phys m') p = rd8 (phys m) p
}.

#[export] Instance agrees_outside_refl P : Reflexive (agrees_outside P).
Proof. intros m. by split. Qed.
#[export] Instance agrees_outside_trans P : Transitive (agrees_outside P).
Proof.
  intros m1 m2 m3 [? ? H1] [? ? H2]. split; [congruence..|].
  intros p Hp. by rewrite H2, H1.
Qed.
Lemma agrees_outside_sym P m m' : agrees_outside P m m' → agrees_outside P m' m.
Proof. intros []. split; [done..|]. intros; symmetry; auto. Qed.
Lemma agrees_outside_mono (P Q : Z → Prop) m m' :
  (∀ p, P p → Q p) → agrees_outside P m m' → agrees_outside Q m m'.
Proof. intros ? []. split; auto. Qed.

Lemma agrees_rd32 P m m' p :
  agrees_outside P m m' → (∀ q, p ≤ q < p + 4 → ¬ P q) →
  rd32 (phys m') p = rd32 (phys m) p.
Proof. intros [] H. apply rd32_ext. auto. Qed.

(** ** Windows *)
Definition image (tr : Z → Z) (lo hi p : Z) : Prop := ∃ a, lo ≤ a < hi ∧ p = tr a.

Record window (tr : Z → Z) (lo hi : Z) (m : machine) : Prop := {
  win_range : 0 ≤ lo ∧ hi ≤ 0x100000000;
  win_inj : ∀ a b, lo ≤ a < hi → lo ≤ b < hi → tr a = tr b → a = b;
  win_stable : ∀ m', agrees_outside (image tr lo hi) m m' →
               ∀ a, lo ≤ a < hi → mmu m' a = Some (tr a)
}.

Definition vb (tr : Z → Z) (m : machine) (a : Z) : Z := rd8 (phys m) (tr a).
Definition vw (tr : Z → Z) (m : machine) (a : Z) : Z := le_combine (vb tr m <$> seqZ a 4).

Lemma window_step tr lo hi m m' :
  window tr lo hi m → agrees_outside (image tr lo hi) m m' → window tr lo hi m'.
Proof.
  intros [? ? Hs] Hm. split; [done..|]. intros m'' Hm''. apply Hs. by etrans.
Qed.

Lemma window_sub tr lo hi lo' hi' m :
  window tr lo hi m → lo ≤ lo' → hi' ≤ hi → window tr lo' hi' m.
Proof.
  intros [? Hi Hs] ??. split; [lia | |].
  - intros a b ??. apply Hi; lia.
  - intros m' Hm a ?. apply Hs; [|lia]. eapply agrees_outside_mono, Hm.
    intros p (x & ? & ->). exists x. split; [lia | done].
Qed.

Lemma window_mmu tr lo hi m a : window tr lo hi m → lo ≤ a < hi → mmu m a = Some (tr a).
Proof. intros [? ? Hs] ?. by apply Hs. Qed.

Lemma mmu_list_tr tr m n a :
  (∀ x, a ≤ x < a + Z.of_nat n → mmu m x = Some (tr x)) →
  0 ≤ a → a + Z.of_nat n ≤ 0x100000000 →
  mmu_list m n a = inr (tr <$> seqZ a (Z.of_nat n)).
Proof.
  revert a. induction n as [|n IH]; intros a Hm Hlo Hhi; [done|].
  cbn [mmu_list]. rewrite Hm by lia.
  rewrite (seqZ_cons _ (Z.of_nat (S n))) by lia.
  replace (Z.pred (Z.of_nat (S n))) with (Z.of_nat n) by lia.
  destruct n as [|n']; [done|].
  rewrite u32_small by lia. rewrite IH; [done | | lia | lia].
  intros x ?. apply Hm. lia.
Qed.

Lemma window_mmu_list tr lo hi m n a :
  window tr lo hi m → lo ≤ a → a + Z.of_nat n ≤ hi →
  mmu_list m n a = inr (tr <$> seqZ a (Z.of_nat n)).
Proof.
  intros Hw ??. pose proof (win_range _ _ _ _ Hw).
  apply mmu_list_tr; [|lia..]. intros x ?. eapply window_mmu; [done | lia].
Qed.

Lemma window_NoDup tr lo hi m n a :
  window tr lo hi m → lo ≤ a → a + n ≤ hi → NoDup (tr <$> seqZ a n).
Proof.
  intros [_ Hi _] ??. apply NoDup_fmap_2_strong; [|apply NoDup_seqZ].
  intros x y Hx%elem_of_seqZ Hy%elem_of_seqZ. apply Hi; lia.
Qed.

(** The result of storing [n] bytes of [v] at [a]. *)
Record stored (tr : Z → Z) (n : nat) (a v : Z) (m m' : machine) : Prop := {
  st_phys : ∃ ph, m' = set_phys ph m;
  st_other : agrees_outside (image tr a (a + Z.of_nat n)) m m';
  st_bytes : ∀ i b, le_split n v !! i = Some b → vb tr m' (a + Z.of_nat i) = b
}.

Lemma window_store tr lo hi m n a v :
  window tr lo hi m → lo ≤ a → a + Z.of_nat n ≤ hi →
  ∃ m', m_store n a v m = inr m' ∧ stored tr n a v m m'.
Proof.
  intros Hw ??. unfold m_store. erewrite window_mmu_list by done.
  eexists. split; [done|]. split.
  - by eexists.
  - split; [done..|]. intros p Hp. cbn. apply write_list_other.
    intros (x & -> & Hx)%list_elem_of_fmap. apply Hp. exists x.
    apply elem_of_seqZ in Hx. split; [lia | done].
  - intros i b Hb. unfold vb. cbn [phys set_phys].
    assert (i < n)%nat. { apply lookup_lt_Some in Hb. by rewrite length_le_split in Hb. }
    erewrite (write_list_lookup _ _ _ i _ b).
    + apply u8_small. pose proof (le_split_bytes n v) as HF.
      rewrite Forall_lookup in HF. by eapply HF.
    + by eapply window_NoDup.
    + rewrite list_lookup_fmap, lookup_seqZ_lt by lia. done.
    + done.
Qed.

Lemma window_load4 tr lo hi m a :
  window tr lo hi m → lo ≤ a → a + 4 ≤ hi → m_load 4 a m = inr (vw tr m a).
Proof.
  intros Hw ??. unfold m_load. erewrite window_mmu_list by done.
  unfold vw, vb. by rewrite <- list_fmap_compose.
Qed.

Lemma vw_ext tr m m' a :
  (∀ x, a ≤ x < a + 4 → vb tr m x = vb tr m' x) → vw tr m a = vw tr m' a.
Proof.
  intros H. unfold vw. f_equal. apply list_fmap_ext.
  intros i q Hq%lookup_seqZ. apply H. lia.
Qed.

Lemma vw_range tr m a : 0 ≤ vw tr m a < 0x100000000.
Proof.
  unfold vw. pose proof (le_combine_range (vb tr m <$> seqZ a 4)) as H.
  rewrite length_fmap, length_seqZ in H. apply H.
  apply Forall_fmap, Forall_forall. intros; apply rd8_range.
Qed.
#[export] Hint Resolve vw_range : kernel.

Lemma stored_vw_same tr a v m m' : stored tr 4 a v m m' → vw tr m' a = u32 v.
Proof.
  intros [_ _ Hb]. unfold vw.
  assert (vb tr m' <$> seqZ a 4 = le_split 4 v) as ->.
  { apply list_eq_same_length with 4%nat.
    - by rewrite length_le_split.
    - by rewrite length_fmap, length_seqZ.
    - intros i x y Hi Hx Hy. apply Hb in Hy.
      rewrite list_lookup_fmap, lookup_seqZ_lt in Hx by lia. by simplify_eq/=. }
  by rewrite le_combine_split.
Qed.

Lemma stored_vb_other tr lo hi n a v m m' x :
  window tr lo hi m → stored tr n a v m m' → lo ≤ a → a + Z.of_nat n ≤ hi →
  lo ≤ x < hi → x < a ∨ a + Z.of_nat n ≤ x → vb tr m' x = vb tr m x.
Proof.
  intros [_ Hi _] [_ [_ _ Ho] _] ????. apply Ho.
  intros (y & ? & Hy). apply Hi in Hy; lia.
Qed.

Lemma stored_vw_other tr lo hi n a v m m' x :
  window tr lo hi m → stored tr n a v m m' → lo ≤ a → a + Z.of_nat n ≤ hi →
  lo ≤ x → x + 4 ≤ hi → x + 4 ≤ a ∨ a + Z.of_nat n ≤ x → vw tr m' x = vw tr m x.
Proof.
  intros. apply vw_ext. intros. eapply stored_vb_other; [done..| |]; lia.
Qed.

Lemma stored_image tr lo hi n a v m m' :
  stored tr n a v m m' → lo ≤ a → a + Z.of_nat n ≤ hi →
  agrees_outside (image tr lo hi) m m'.
Proof.
  intros [_ Ho _] ??. eapply agrees_outside_mono, Ho.
  intros p (x & ? & ->). exists x. split; [lia | done].
Qed.

Lemma stored_window tr lo hi n a v m m' :
  window tr lo hi m → stored tr n a v m m' → lo ≤ a → a + Z.of_nat n ≤ hi →
  window tr lo hi m'.
Proof. intros. by eapply window_step, stored_image. Qed.

(** With paging off every interval of the address space is a window. *)
Lemma window_flat lo hi m :
  cr0_pg m = false → 0 ≤ lo → hi ≤ 0x100000000 → window id lo hi m.
Proof.
  intros Hpg ??. split; [lia | done |].
  intros m' [Hpg' _ _] a _. unfold mmu. by rewrite Hpg', Hpg.
Qed.
