(* ===== verification/State.v ===== *)
(** * The state of the kernel

    One record per C file holding that file's static variables, gathered with
    the machine in [kernel]; every function of the kernel is a computation
    over this state.  Arrays are lists of the declared length. *)
From stdpp Require Import prelude gmap list.
From Stdlib Require Import Lia ZArith.
From S2P Require Import Prelude Machine.

#[local] Open Scope Z_scope.

(** ** Structures *)

(** src/memory.c:11-15, the element type of [regions]. *)
Record region := Region { r_base : Z; r_len : Z; r_type : Z }.

(** src/task.h:10-15. *)
Inductive task_state_t := TASK_UNUSED | TASK_READY | TASK_RUNNING | TASK_DEAD.
#[export] Instance task_state_t_eq_dec : EqDecision task_state_t.
Proof. solve_decision. Defined.

(** src/task.h:17-25; [name] holds 16 characters. *)
Record task_t := Task {
  esp : Z; stack_base : Z; task_id : Z; name : list Z;
  state : task_state_t; slices : Z; counter : Z
}.

(** src/idt.h:8-14. *)
Record idt_entry := IdtEntry {
  base_low : Z; selector : Z; always0 : Z; flags : Z; base_high : Z
}.

(** src/isr.h:6-11. *)
Record registers := Registers {
  ds : Z; edi : Z; esi : Z; ebp : Z; esp_dummy : Z; ebx : Z; edx : Z; ecx : Z; eax : Z;
  int_no : Z; err_code : Z; eip : Z; cs : Z; eflags : Z; useresp : Z; ss : Z
}.

(** ** Static variables, file by file *)
(** src/memory.c:6-15, the statics. *)
Record memory_state := {
  total_kb : Z;
  usable_kb : Z;
  highest : Z;
  region_count : Z;
  regions : list region
}.
Definition set_total_kb (v : Z) (s : memory_state) : memory_state :=
  {| total_kb := v; usable_kb := usable_kb s; highest := highest s; region_count := region_count s; regions := regions s |}.
Definition set_usable_kb (v : Z) (s : memory_state) : memory_state :=
  {| total_kb := total_kb s; usable_kb := v; highest := highest s; region_count := region_count s; regions := regions s |}.
Definition set_highest (v : Z) (s : memory_state) : memory_state :=
  {| total_kb := total_kb s; usable_kb := usable_kb s; highest := v; region_count := region_count s; regions := regions s |}.
Definition set_region_count (v : Z) (s : memory_state) : memory_state :=
  {| total_kb := total_kb s; usable_kb := usable_kb s; highest := highest s; region_count := v; regions := regions s |}.
Definition set_regions (v : list region) (s : memory_state) : memory_state :=
  {| total_kb := total_kb s; usable_kb := usable_kb s; highest := highest s; region_count := region_count s; regions := v |}.

(** src/pmm.c:8-11, the statics. *)
Record pmm_state := {
  bitmap : Z;
  total_frames : Z;
  used_frames : Z;
  bitmap_size : Z
}.
Definition set_bitmap (v : Z) (s : pmm_state) : pmm_state :=
  {| bitmap := v; total_frames := total_frames s; used_frames := used_frames s; bitmap_size := bitmap_size s |}.
Definition set_total_frames (v : Z) (s : pmm_state) : pmm_state :=
  {| bitmap := bitmap s; total_frames := v; used_frames := used_frames s; bitmap_size := bitmap_size s |}.
Definition set_used_frames (v : Z) (s : pmm_state) : pmm_state :=
  {| bitmap := bitmap s; total_frames := total_frames s; used_frames := v; bitmap_size := bitmap_size s |}.
Definition set_bitmap_size (v : Z) (s : pmm_state) : pmm_state :=
  {| bitmap := bitmap s; total_frames := total_frames s; used_frames := used_frames s; bitmap_size := v |}.

(** src/paging.c:26-31, the statics. *)
Record paging_state := {
  page_directory : Z;
  dir_phys : Z;
  identity_end : Z;
  table_count : Z;
  mapped_pages : Z;
  paging_enabled : Z
}.
Definition set_page_directory (v : Z) (s : paging_state) : paging_state :=
  {| page_directory := v; dir_phys := dir_phys s; identity_end := identity_end s; table_count := table_count s; mapped_pages := mapped_pages s; paging_enabled := paging_enabled s |}.
Definition set_dir_phys (v : Z) (s : paging_state) : paging_state :=
  {| page_directory := page_directory s; dir_phys := v; identity_end := identity_end s; table_count := table_count s; mapped_pages := mapped_pages s; paging_enabled := paging_enabled s |}.
Definition set_identity_end (v : Z) (s : paging_state) : paging_state :=
  {| page_directory := page_directory s; dir_phys := dir_phys s; identity_end := v; table_count := table_count s; mapped_pages := mapped_pages s; paging_enabled := paging_enabled s |}.
Definition set_table_count (v : Z) (s : paging_state) : paging_state :=
  {| page_directory := page_directory s; dir_phys := dir_phys s; identity_end := identity_end s; table_count := v; mapped_pages := mapped_pages s; paging_enabled := paging_enabled s |}.
Definition set_mapped_pages (v : Z) (s : paging_state) : paging_state :=
  {| page_directory := page_directory s; dir_phys := dir_phys s; identity_end := identity_end s; table_count := table_count s; mapped_pages := v; paging_enabled := paging_enabled s |}.
Definition set_paging_enabled (v : Z) (s : paging_state) : paging_state :=
  {| page_directory := page_directory s; dir_phys := dir_phys s; identity_end := identity_end s; table_count := table_count s; mapped_pages := mapped_pages s; paging_enabled := v |}.

(** src/heap.c:25-27, the statics. *)
Record heap_state := {
  heap_head : Z;
  brk : Z;
  heap_ready : Z
}.
Definition set_heap_head (v : Z) (s : heap_state) : heap_state :=
  {| heap_head := v; brk := brk s; heap_ready := heap_ready s |}.
Definition set_brk (v : Z) (s : heap_state) : heap_state :=
  {| heap_head := heap_head s; brk := v; heap_ready := heap_ready s |}.
Definition set_heap_ready (v : Z) (s : heap_state) : heap_state :=
  {| heap_head := heap_head s; brk := brk s; heap_ready := v |}.

(** src/task.c:12-16, the statics. *)
Record sched_state := {
  tasks : list task_t;
  current : Z;
  sched_enabled : Z;
  switches : Z;
  quantum_left : Z
}.
Definition set_tasks (v : list task_t) (s : sched_state) : sched_state :=
  {| tasks := v; current := current s; sched_enabled := sched_enabled s; switches := switches s; quantum_left := quantum_left s |}.
Definition set_current (v : Z) (s : sched_state) : sched_state :=
  {| tasks := tasks s; current := v; sched_enabled := sched_enabled s; switches := switches s; quantum_left := quantum_left s |}.
Definition set_sched_enabled (v : Z) (s : sched_state) : sched_state :=
  {| tasks := tasks s; current := current s; sched_enabled := v; switches := switches s; quantum_left := quantum_left s |}.
Definition set_switches (v : Z) (s : sched_state) : sched_state :=
  {| tasks := tasks s; current := current s; sched_enabled := sched_enabled s; switches := v; quantum_left := quantum_left s |}.
Definition set_quantum_left (v : Z) (s : sched_state) : sched_state :=
  {| tasks := tasks s; current := current s; sched_enabled := sched_enabled s; switches := switches s; quantum_left := v |}.

(** src/serial.c:21-23, the statics. *)
Record serial_state := {
  serial_ready : Z;
  rx_count : Z;
  tx_count : Z
}.
Definition set_serial_ready (v : Z) (s : serial_state) : serial_state :=
  {| serial_ready := v; rx_count := rx_count s; tx_count := tx_count s |}.
Definition set_rx_count (v : Z) (s : serial_state) : serial_state :=
  {| serial_ready := serial_ready s; rx_count := v; tx_count := tx_count s |}.
Definition set_tx_count (v : Z) (s : serial_state) : serial_state :=
  {| serial_ready := serial_ready s; rx_count := rx_count s; tx_count := v |}.

(** src/vga.c:9-12, the statics; [vga_cells] is the text buffer that [vga] points
    to, [vga_stray] collects what is stored through [vga] outside of it. *)
Record vga_state := {
  vga_cells : list Z;
  vga_stray : gmap Z Z;
  cursor_row : Z;
  cursor_col : Z;
  color : Z
}.
Definition set_vga_cells (v : list Z) (s : vga_state) : vga_state :=
  {| vga_cells := v; vga_stray := vga_stray s; cursor_row := cursor_row s; cursor_col := cursor_col s; color := color s |}.
Definition set_vga_stray (v : gmap Z Z) (s : vga_state) : vga_state :=
  {| vga_cells := vga_cells s; vga_stray := v; cursor_row := cursor_row s; cursor_col := cursor_col s; color := color s |}.
Definition set_cursor_row (v : Z) (s : vga_state) : vga_state :=
  {| vga_cells := vga_cells s; vga_stray := vga_stray s; cursor_row := v; cursor_col := cursor_col s; color := color s |}.
Definition set_cursor_col (v : Z) (s : vga_state) : vga_state :=
  {| vga_cells := vga_cells s; vga_stray := vga_stray s; cursor_row := cursor_row s; cursor_col := v; color := color s |}.
Definition set_color (v : Z) (s : vga_state) : vga_state :=
  {| vga_cells := vga_cells s; vga_stray := vga_stray s; cursor_row := cursor_row s; cursor_col := cursor_col s; color := v |}.

(** src/idt.c:5-6, the statics. *)
Record idt_state := {
  idt_table : list idt_entry;
  idtp_limit : Z;
  idtp_base : Z;
  idtr : option (Z * Z)
}.
Definition set_idt_table (v : list idt_entry) (s : idt_state) : idt_state :=
  {| idt_table := v; idtp_limit := idtp_limit s; idtp_base := idtp_base s; idtr := idtr s |}.
Definition set_idtp_limit (v : Z) (s : idt_state) : idt_state :=
  {| idt_table := idt_table s; idtp_limit := v; idtp_base := idtp_base s; idtr := idtr s |}.
Definition set_idtp_base (v : Z) (s : idt_state) : idt_state :=
  {| idt_table := idt_table s; idtp_limit := idtp_limit s; idtp_base := v; idtr := idtr s |}.
Definition set_idtr (v : option (Z * Z)) (s : idt_state) : idt_state :=
  {| idt_table := idt_table s; idtp_limit := idtp_limit s; idtp_base := idtp_base s; idtr := v |}.

(** src/shell.c:488-494, the statics. *)
Record shell_state := {
  line_buf : list Z;
  line_len : Z;
  ring : list Z;
  ring_head : Z;
  ring_tail : Z
}.
Definition set_line_buf (v : list Z) (s : shell_state) : shell_state :=
  {| line_buf := v; line_len := line_len s; ring := ring s; ring_head := ring_head s; ring_tail := ring_tail s |}.
Definition set_line_len (v : Z) (s : shell_state) : shell_state :=
  {| line_buf := line_buf s; line_len := v; ring := ring s; ring_head := ring_head s; ring_tail := ring_tail s |}.
Definition set_ring (v : list Z) (s : shell_state) : shell_state :=
  {| line_buf := line_buf s; line_len := line_len s; ring := v; ring_head := ring_head s; ring_tail := ring_tail s |}.
Definition set_ring_head (v : Z) (s : shell_state) : shell_state :=
  {| line_buf := line_buf s; line_len := line_len s; ring := ring s; ring_head := v; ring_tail := ring_tail s |}.
Definition set_ring_tail (v : Z) (s : shell_state) : shell_state :=
  {| line_buf := line_buf s; line_len := line_len s; ring := ring s; ring_head := ring_head s; ring_tail := v |}.

(** ** The whole kernel *)
Record kernel := {
  mach : machine;
  mem_st : memory_state;
  pmm_st : pmm_state;
  paging_st : paging_state;
  heap_st : heap_state;
  sched_st : sched_state;
  serial_st : serial_state;
  vga_st : vga_state;
  idt_st : idt_state;
  shell_st : shell_state;
  ticks : Z;
  shift_down : Z
}.
Definition upd_mach (f : machine → machine) (k : kernel) : kernel :=
  {| mach := f (k.(mach)); mem_st := mem_st k; pmm_st := pmm_st k; paging_st := paging_st k; heap_st := heap_st k; sched_st := sched_st k; serial_st := serial_st k; vga_st := vga_st k; idt_st := idt_st k; shell_st := shell_st k; ticks := ticks k; shift_down := shift_down k |}.
Definition upd_mem_st (f : memory_state → memory_state) (k : kernel) : kernel :=
  {| mach := mach k; mem_st := f (k.(mem_st)); pmm_st := pmm_st k; paging_st := paging_st k; heap_st := heap_st k; sched_st := sched_st k; serial_st := serial_st k; vga_st := vga_st k; idt_st := idt_st k; shell_st := shell_st k; ticks := ticks k; shift_down := shift_down k |}.
Definition upd_pmm_st (f : pmm_state → pmm_state) (k : kernel) : kernel :=
  {| mach := mach k; mem_st := mem_st k; pmm_st := f (k.(pmm_st)); paging_st := paging_st k; heap_st := heap_st k; sched_st := sched_st k; serial_st := serial_st k; vga_st := vga_st k; idt_st := idt_st k; shell_st := shell_st k; ticks := ticks k; shift_down := shift_down k |}.
Definition upd_paging_st (f : paging_state → paging_state) (k : kernel) : kernel :=
  {| mach := mach k; mem_st := mem_st k; pmm_st := pmm_st k; paging_st := f (k.(paging_st)); heap_st := heap_st k; sched_st := sched_st k; serial_st := serial_st k; vga_st := vga_st k; idt_st := idt_st k; shell_st := shell_st k; ticks := ticks k; shift_down := shift_down k |}.
Definition upd_heap_st (f : heap_state → heap_state) (k : kernel) : kernel :=
  {| mach := mach k; mem_st := mem_st k; pmm_st := pmm_st k; paging_st := paging_st k; heap_st := f (k.(heap_st)); sched_st := sched_st k; serial_st := serial_st k; vga_st := vga_st k; idt_st := idt_st k; shell_st := shell_st k; ticks := ticks k; shift_down := shift_down k |}.
Definition upd_sched_st (f : sched_state → sched_state) (k : kernel) : kernel :=
  {| mach := mach k; mem_st := mem_st k; pmm_st := pmm_st k; paging_st := paging_st k; heap_st := heap_st k; sched_st := f (k.(sched_st)); serial_st := serial_st k; vga_st := vga_st k; idt_st := idt_st k; shell_st := shell_st k; ticks := ticks k; shift_down := shift_down k |}.
Definition upd_serial_st (f : serial_state → serial_state) (k : kernel) : kernel :=
  {| mach := mach k; mem_st := mem_st k; pmm_st := pmm_st k; paging_st := paging_st k; heap_st := heap_st k; sched_st := sched_st k; serial_st := f (k.(serial_st)); vga_st := vga_st k; idt_st := idt_st k; shell_st := shell_st k; ticks := ticks k; shift_down := shift_down k |}.
Definition upd_vga_st (f : vga_state → vga_state) (k : kernel) : kernel :=
  {| mach := mach k; mem_st := mem_st k; pmm_st := pmm_st k; paging_st := paging_st k; heap_st := heap_st k; sched_st := sched_st k; serial_st := serial_st k; vga_st := f (k.(vga_st)); idt_st := idt_st k; shell_st := shell_st k; ticks := ticks k; shift_down := shift_down k |}.
Definition upd_idt_st (f : idt_state → idt_state) (k : kernel) : kernel :=
  {| mach := mach k; mem_st := mem_st k; pmm_st := pmm_st k; paging_st := paging_st k; heap_st := heap_st k; sched_st := sched_st k; serial_st := serial_st k; vga_st := vga_st k; idt_st := f (k.(idt_st)); shell_st := shell_st k; ticks := ticks k; shift_down := shift_down k |}.
Definition upd_shell_st (f : shell_state → shell_state) (k : kernel) : kernel :=
  {| mach := mach k; mem_st := mem_st k; pmm_st := pmm_st k; paging_st := paging_st k; heap_st := heap_st k; sched_st := sched_st k; serial_st := serial_st k; vga_st := vga_st k; idt_st := idt_st k; shell_st := f (k.(shell_st)); ticks := ticks k; shift_down := shift_down k |}.
Definition upd_ticks (f : Z → Z) (k : kernel) : kernel :=
  {| mach := mach k; mem_st := mem_st k; pmm_st := pmm_st k; paging_st := paging_st k; heap_st := heap_st k; sched_st := sched_st k; serial_st := serial_st k; vga_st := vga_st k; idt_st := idt_st k; shell_st := shell_st k; ticks := f (k.(ticks)); shift_down := shift_down k |}.
Definition upd_shift_down (f : Z → Z) (k : kernel) : kernel :=
  {| mach := mach k; mem_st := mem_st k; pmm_st := pmm_st k; paging_st := paging_st k; heap_st := heap_st k; sched_st := sched_st k; serial_st := serial_st k; vga_st := vga_st k; idt_st := idt_st k; shell_st := shell_st k; ticks := ticks k; shift_down := f (k.(shift_down)) |}.

(** ** Primitive operations *)
Definition K (A : Type) : Type := M kernel A.

Definition on_mach {A} (f : machine → A) : K A := gets (λ k, f (mach k)).
Definition upd_machine (f : machine → machine) : K () := modify (upd_mach f).
Definition mem_g {A} (f : memory_state → A) : K A := gets (λ k, f (mem_st k)).
Definition pmm_g {A} (f : pmm_state → A) : K A := gets (λ k, f (pmm_st k)).
Definition paging_g {A} (f : paging_state → A) : K A := gets (λ k, f (paging_st k)).
Definition heap_g {A} (f : heap_state → A) : K A := gets (λ k, f (heap_st k)).
Definition sched_g {A} (f : sched_state → A) : K A := gets (λ k, f (sched_st k)).
Definition serial_g {A} (f : serial_state → A) : K A := gets (λ k, f (serial_st k)).
Definition vga_g {A} (f : vga_state → A) : K A := gets (λ k, f (vga_st k)).
Definition idt_g {A} (f : idt_state → A) : K A := gets (λ k, f (idt_st k)).
Definition shell_g {A} (f : shell_state → A) : K A := gets (λ k, f (shell_st k)).

(** A load or store that the MMU refuses raises exception 14 with the address
    in CR2; the error code says "not present", and bit 1 a write. *)
Definition page_fault {A} (va err : Z) : K A := λ k, Trap 14 err (upd_mach (set_cr2 va) k).

Definition load (n : nat) (va : Z) : K Z := λ k,
  match m_load n va (mach k) with
  | inl f => page_fault f 0 k
  | inr v => Ok v k
  end.
Definition store (n : nat) (va v : Z) : K () := λ k,
  match m_store n va v (mach k) with
  | inl f => page_fault f 2 k
  | inr m => Ok tt (upd_mach (λ _, m) k)
  end.
Definition load32 (va : Z) : K Z := load 4 va.
Definition store32 (va v : Z) : K () := store 4 va v.

(** src/io.h:6-10. *)
Definition inb (port : Z) : K Z := λ k,
  let v := u8 (io_env (mach k) (io_log (mach k)) port) in
  Ok v (upd_mach (log_io (Inb port v)) k).
(** src/io.h:12-14.  The write that pulses the reset line is the last thing the
    processor does. *)
Definition outb (port data : Z) : K () := λ k,
  let k' := upd_mach (log_io (Outb port (u8 data))) k in
  if resets port data then MachineReset k' else Ok tt k'.

Lemma outb_writes port data : port ≠ KBC_COMMAND →
  outb port data = modify (upd_mach (log_io (Outb port (u8 data)))).
Proof. intros Hp. unfold outb, resets. by rewrite (proj2 (Z.eqb_neq _ _) Hp). Qed.

(** [cli; hlt] in a loop: nothing runs any more. *)
Definition halt_forever {A} : K A := λ k, Halted k.
(** [idiv] refuses a zero divisor and a quotient that does not fit. *)
Definition divide_error {A} : K A := λ k, Trap 0 0 k.

Lemma wp_load32 tr lo hi a (Q : Z → kernel → Prop) k :
  window tr lo hi (mach k) → lo ≤ a → a + 4 ≤ hi →
  Q (vw tr (mach k) a) k → wp (load32 a) Q k.
Proof. intros. unfold wp, load32, load. by erewrite window_load4. Qed.

(** A load from an identity-mapped word reads physical memory. *)
Lemma wp_load32_id a (Q : Z → kernel → Prop) k :
  (∀ x, a ≤ x < a + 4 → mmu (mach k) x = Some x) → 0 ≤ a → a + 4 ≤ 0x100000000 →
  Q (rd32 (phys (mach k)) a) k → wp (load32 a) Q k.
Proof.
  intros Hm ?? HQ. unfold wp, load32, load, m_load.
  rewrite (mmu_list_tr id) by done. by rewrite list_fmap_id.
Qed.

Lemma wp_store tr lo hi n a v (Q : () → kernel → Prop) k :
  window tr lo hi (mach k) → lo ≤ a → a + Z.of_nat n ≤ hi →
  (∀ m', stored tr n a v (mach k) m' → Q tt (upd_mach (λ _, m') k)) →
  wp (store n a v) Q k.
Proof.
  intros Hw ?? HQ. unfold wp, store.
  destruct (window_store tr lo hi (mach k) n a v) as (m' & -> & Hst); auto.
Qed.

Lemma wp_store32 tr lo hi a v (Q : () → kernel → Prop) k :
  window tr lo hi (mach k) → lo ≤ a → a + 4 ≤ hi →
  (∀ m', stored tr 4 a v (mach k) m' → Q tt (upd_mach (λ _, m') k)) →
  wp (store32 a v) Q k.
Proof. intros. by eapply wp_store. Qed.
