(* ===== verification/Util.v ===== *)
(** * util.c: C strings, number parsing, memset

    A C string is the list of its characters up to the terminating NUL;
    reading at the end of the list reads that NUL.  [lit] writes a C literal,
    with its escapes, as such a list. *)
From stdpp Require Import prelude gmap list strings.
From Stdlib Require Import Lia ZArith Ascii.
From S2P Require Import Prelude Machine State.

#[local] Open Scope Z_scope.

Abbreviation cstr := (list Z).

Definition ch (a : ascii) : Z := s8 (Z.of_N (N_of_ascii a)).
Fixpoint lit (s : string) : cstr :=
  match s with
  | EmptyString => []
  | String c1 (String c2 rest as s') =>
      if decide (c1 = "\"%char) then
        if decide (c2 = "n"%char) then 10 :: lit rest
        else if decide (c2 = "b"%char) then 8 :: lit rest
        else ch c2 :: lit rest
      else ch c1 :: lit s'
  | String c s' => ch c :: lit s'
  end.

(** [*s] *)
Definition deref (s : cstr) : Z := default 0 (head s).

(** src/util.c:3-6; the result compares the characters as unsigned. *)
Fixpoint strcmp (a b : cstr) : Z :=
  match a, b with
  | x :: a', y :: b' =>
      if negb (x =? 0) && (x =? y) then strcmp a' b' else u8 x - u8 y
  | _, _ => u8 (deref a) - u8 (deref b)
  end.

(** src/util.c:8-12. *)
Fixpoint strlen (s : cstr) : Z :=
  match s with
  | [] => 0
  | c :: s' => if c =? 0 then 0 else s32 (strlen s' + 1)
  end.

(** src/util.c:14-19. *)
Fixpoint starts_with (str prefix : cstr) : bool :=
  match prefix with
  | [] => true
  | p :: prefix' =>
      if p =? 0 then true
      else if deref str =? p then starts_with (tail str) prefix' else false
  end.

Definition is_digit (c : Z) : bool := (48 <=? c) && (c <=? 57).

(** src/util.c:24, the digit loop of [atoi]. *)
Fixpoint atoi_loop (s : cstr) (n : Z) : Z :=
  match s with
  | c :: s' => if is_digit c then atoi_loop s' (s32 (s32 (n * 10) + (c - 48))) else n
  | [] => n
  end.
(** src/util.c:21-26. *)
Definition atoi (s : cstr) : Z :=
  if deref s =? 45 then s32 (atoi_loop (tail s) 0 * -1) else s32 (atoi_loop s 0 * 1).

Definition hex_digit (c : Z) : option Z :=
  if (48 <=? c) && (c <=? 57) then Some (c - 48)
  else if (97 <=? c) && (c <=? 102) then Some (c - 97 + 10)
  else if (65 <=? c) && (c <=? 70) then Some (c - 65 + 10)
  else None.

(** src/util.c:31, [while ( *s == ' ') s++]. *)
Fixpoint skip_spaces (s : cstr) : cstr :=
  match s with c :: s' => if c =? 32 then skip_spaces s' else s | [] => [] end.

(** src/util.c:33-42. *)
Fixpoint hex_loop (s : cstr) (n : Z) : Z :=
  match s with
  | [] => n
  | c :: s' =>
      if c =? 0 then n
      else match hex_digit c with
           | Some d => hex_loop s' (u32 (u32 (n * 16) + d))
           | None => n
           end
  end.
(** src/util.c:29-44. *)
Definition atoi_hex (s : cstr) : Z :=
  let s := skip_spaces s in
  let s := if (deref s =? 48) && ((deref (tail s) =? 120) || (deref (tail s) =? 88))
           then tail (tail s) else s in
  hex_loop s 0.

(** src/util.c:46-50. *)
Definition memset (dest val count : Z) : K Z :=
  for_range (Z.to_nat count) 0 (λ i, store 1 (dest +u i) (u8 val)) ;;;
  ret dest.

(** ** [memset] fills a window *)
Lemma memset_window tr lo hi dest val count (Q : Z → kernel → Prop) k :
  window tr lo hi (mach k) → 0 ≤ count → lo ≤ dest → dest + count ≤ hi →
  (∀ m', agrees_outside (image tr dest (dest + count)) (mach k) m' →
         (∃ ph, m' = set_phys ph (mach k)) →
         (∀ x, dest ≤ x < dest + count → vb tr m' x = u8 val) →
         Q dest (upd_mach (λ _, m') k)) →
  wp (memset dest val count) Q k.
Proof.
  intros Hw Hc Hlo Hhi HQ. unfold memset. wp_go.
  pose proof (window_sub _ _ _ dest (dest + count) _ Hw Hlo Hhi) as Hw'.
  apply wp_for_range with (I := λ i k', ∃ m',
    k' = upd_mach (λ _, m') k ∧
    agrees_outside (image tr dest (dest + count)) (mach k) m' ∧
    (∃ ph, m' = set_phys ph (mach k)) ∧
    ∀ x, dest ≤ x < dest + i → vb tr m' x = u8 val).
  - exists (mach k). split_and!; [by destruct k | done | | lia].
    exists (phys (mach k)). by destruct (mach k).
  - intros i s Hi (m' & -> & Ha & [ph ->] & Hx).
    pose proof (win_range _ _ _ _ Hw) as Hr.
    rewrite u32_small by lia.
    assert (window tr dest (dest + count) (set_phys ph (mach k))) as Hw2
      by (by eapply window_step).
    eapply wp_store; [exact Hw2 | lia | lia |].
    intros m2 Hst. exists m2. split_and!.
    + done.
    + etrans; [done|]. eapply stored_image; [done | lia | lia].
    + destruct Hst as [[ph2 ->] _ _]. by exists ph2.
    + intros x Hxr. destruct (decide (x = dest + i)) as [->|Hne].
      * pose proof (st_bytes _ _ _ _ _ _ Hst 0 (u8 (u8 val)) eq_refl) as Hb.
        rewrite Z.add_0_r in Hb. rewrite Hb. apply u8_small, u8_range.
      * erewrite stored_vb_other; [apply Hx; lia| exact Hw2 |done|lia..].
  - intros s' (m' & -> & Ha & Hp & Hx). rewrite Z2Nat.id in Hx by lia.
    wp_go. apply HQ; auto.
Qed.
