(* ===== verification/Console.v ===== *)
(** * serial.c (transmit side) and vga.c: the console

    Every character printed goes to the VGA text buffer and, if a UART was
    found, to COM1.  The text buffer at 0xB8000 is device memory, kept as a
    list of 80*25 cells; a store that misses it is kept apart.  [console_only] is
    the frame every printing function respects: the rest of the kernel uses it to
    ignore what is printed. *)
From stdpp Require Import prelude gmap list strings.
From Stdlib Require Import Lia ZArith.
From S2P Require Import Prelude Machine State Util.

#[local] Open Scope Z_scope.

(** ** serial.c *)
Definition COM1 : Z := 0x3F8.
Definition REG_DATA : Z := 0.
Definition REG_IER : Z := 1.
Definition REG_FCR : Z := 2.
Definition REG_LCR : Z := 3.
Definition REG_MCR : Z := 4.
Definition REG_LSR : Z := 5.
Definition LSR_DATA_READY : Z := 0x01.
Definition LSR_THR_EMPTY : Z := 0x20.
Definition TX_SPIN_LIMIT : Z := 100000.

(** src/serial.c:25-42. *)
Definition serial_init : K () :=
  outb (COM1 + REG_IER) 0x00 ;;;
  outb (COM1 + REG_LCR) 0x80 ;;;
  outb (COM1 + REG_DATA) 0x03 ;;;
  outb (COM1 + REG_IER) 0x00 ;;;
  outb (COM1 + REG_LCR) 0x03 ;;;
  outb (COM1 + REG_FCR) 0xC7 ;;;
  outb (COM1 + REG_MCR) 0x0B ;;;
  outb (COM1 + REG_MCR) 0x1E ;;;
  outb (COM1 + REG_DATA) 0xAE ;;;
  b <- inb (COM1 + REG_DATA) ;;
  modify (upd_serial_st (set_serial_ready (if b =? 0xAE then 1 else 0))) ;;;
  outb (COM1 + REG_MCR) 0x0B ;;;
  r <- serial_g serial_ready ;;
  when (negb (r =? 0)) (outb (COM1 + REG_IER) 0x01).

(** src/serial.c:44. *)
Definition serial_is_ready : K Z := serial_g serial_ready.

(** src/serial.c:48-50, one turn of the wait for "transmitter empty". *)
Definition tx_wait (spins : Z) : K (Z + bool) :=
  s <- inb (COM1 + REG_LSR) ;;
  if negb (Z.land s LSR_THR_EMPTY =? 0) then ret (inr true)
  else if TX_SPIN_LIMIT <? spins + 1 then ret (inr false)
  else ret (inl (spins + 1)).

(** src/serial.c:46-53. *)
Definition tx (c : Z) : K () :=
  empty <- while_fuel (Z.to_nat (TX_SPIN_LIMIT + 2)) tx_wait 0 ;;
  if empty : bool then
    outb (COM1 + REG_DATA) (u8 c) ;;;
    modify (upd_serial_st (λ s, set_tx_count (tx_count s +u 1) s))
  else ret tt.

(** src/serial.c:55-59. *)
Definition serial_write_char (c : Z) : K () :=
  r <- serial_g serial_ready ;;
  if r =? 0 then ret tt
  else when (c =? 10) (tx 13) ;;; tx c.

(** A loop over the characters of a C string, up to its NUL. *)
Fixpoint str_iter (f : Z → K ()) (s : cstr) : K () :=
  match s with
  | [] => ret tt
  | c :: s' => if c =? 0 then ret tt else f c ;;; str_iter f s'
  end.

(** [each f l]: a loop over all the elements of an array. *)
Definition each (f : Z → K ()) : list Z → K () :=
  fix go l := match l with [] => ret tt | c :: l' => f c ;;; go l' end.

(** src/serial.c:61-63. *)
Definition serial_write (s : cstr) : K () := str_iter serial_write_char s.

(** src/serial.c:79-80. *)
Definition serial_rx_count : K Z := serial_g rx_count.
Definition serial_tx_count : K Z := serial_g tx_count.

(** ** vga.c *)
Definition VGA_WIDTH : Z := 80.
Definition VGA_HEIGHT : Z := 25.

(** src/vga.c:14-16: [(uint16_t) c | (uint16_t) color << 8]; [c] is a signed
    char, so its conversion to 16 bits extends the sign. *)
Definition vga_entry (c col : Z) : Z := Z.lor (u16 c) (u16 (Z.shiftl (u16 col) 8)).

(** [vga[i] = v].  [vga] is a pointer, so nothing keeps [i] on the screen: a store
    elsewhere ends up in [vga_stray], where it can be seen. *)
Definition on_screen (i : Z) : bool := (0 <=? i) && (i <? VGA_WIDTH * VGA_HEIGHT).
Definition vga_poke (i v : Z) : K () :=
  modify (upd_vga_st (λ s,
    if on_screen i then set_vga_cells (<[Z.to_nat i := v]> (vga_cells s)) s
    else set_vga_stray (<[i := v]> (vga_stray s)) s)).
Definition vga_peek (i : Z) : K Z := vga_g (λ s,
  default 0 (if on_screen i then vga_cells s !! Z.to_nat i else vga_stray s !! i)).
Definition set_row (v : Z) : K () := modify (upd_vga_st (set_cursor_row v)).
Definition set_col (v : Z) : K () := modify (upd_vga_st (set_cursor_col v)).

(** src/vga.c:18-23. *)
Definition clear_screen : K () :=
  col <- vga_g color ;;
  for_range (Z.to_nat (VGA_WIDTH * VGA_HEIGHT)) 0 (λ i, vga_poke i (vga_entry 32 col)) ;;;
  set_row 0 ;;;
  set_col 0.

(** src/vga.c:25-31. *)
Definition scroll : K () :=
  for_range (Z.to_nat ((VGA_HEIGHT - 1) * VGA_WIDTH)) 0
    (λ i, v <- vga_peek (i + VGA_WIDTH) ;; vga_poke i v) ;;;
  col <- vga_g color ;;
  for_range (Z.to_nat VGA_WIDTH) 0
    (λ x, vga_poke ((VGA_HEIGHT - 1) * VGA_WIDTH + x) (vga_entry 32 col)) ;;;
  set_row (VGA_HEIGHT - 1).

(** src/vga.c:33-48. *)
Definition putchar (c : Z) : K () :=
  serial_write_char c ;;;
  row <- vga_g cursor_row ;;
  cc <- vga_g cursor_col ;;
  (if c =? 10 then
     set_col 0 ;;; set_row (row +u 1)
   else
     col <- vga_g color ;;
     vga_poke (row * VGA_WIDTH + cc) (vga_entry c col) ;;;
     set_col (cc +u 1) ;;;
     when (VGA_WIDTH <=? (cc +u 1)) (set_col 0 ;;; set_row (row +u 1))) ;;;
  row <- vga_g cursor_row ;;
  when (VGA_HEIGHT <=? row) scroll.

(** src/vga.c:50-53. *)
Definition print (s : cstr) : K () := str_iter putchar s.

(** src/vga.c:60, [while (n > 0) { buf[len++] = '0' + (n % 10); n /= 10; }];
    [buf] is the used part of the array. *)
Fixpoint digits_loop (fuel : nat) (buf : list Z) (n : Z) : list Z :=
  match fuel with
  | O => buf
  | S fuel =>
      if 0 <? n then digits_loop fuel (buf ++ [48 + Z.rem n 10]) (Z.quot n 10) else buf
  end.
(** src/vga.c:55-62; an [int] has at most ten digits. *)
Definition print_int (n : Z) : K () :=
  let n := s32 n in
  if n =? 0 then putchar 48
  else
    when (n <? 0) (putchar 45) ;;;
    let n := if n <? 0 then s32 (- n) else n in
    let buf := digits_loop 12 [] n in
    each putchar (rev buf).

(** src/vga.c:64-69. *)
Definition hex_chars : cstr := lit "0123456789ABCDEF".
Definition print_hex (n : Z) : K () :=
  print (lit "0x") ;;;
  for_range 8 0 (λ i, putchar (default 0 (hex_chars !! Z.to_nat (Z.land (Z.shiftr n (28 - 4 * i)) 0xF)))).

(** src/vga.c:71-76. *)
Definition backspace : K () :=
  serial_write (lit "\b \b") ;;;
  cc <- vga_g cursor_col ;;
  if cc =? 0 then ret tt
  else
    set_col (cc -u 1) ;;;
    row <- vga_g cursor_row ;;
    cc <- vga_g cursor_col ;;
    col <- vga_g color ;;
    vga_poke (row * VGA_WIDTH + cc) (vga_entry 32 col).

#[global] Typeclasses Opaque inb outb str_iter each tx serial_write_char serial_write
  putchar print print_int print_hex backspace clear_screen.

(** ** The frame of the console *)
Definition console_only (k k' : kernel) : Prop :=
  ∃ v s l, k' = upd_vga_st (λ _, v) (upd_serial_st (λ _, s) (upd_mach (set_log l) k)).

#[export] Instance console_only_equiv : Equivalence console_only.
Proof.
  split.
  - intros k. exists (vga_st k), (serial_st k), (io_log (mach k)).
    destruct k as [[] ]; done.
  - intros k k' (v & s & l & ->).
    exists (vga_st k), (serial_st k), (io_log (mach k)). destruct k as [[] ]; done.
  - intros k1 k2 k3 (v & s & l & ->) (v' & s' & l' & ->).
    by exists v', s', l'.
Qed.

(** [ConsoleOp m]: [m] returns, and changes nothing but the console. *)
Class ConsoleOp {A} (m : K A) : Prop :=
  console_op k : wp m (λ _ k', console_only k k') k.

Section console_ops.
#[export] Instance ret_console {A} (a : A) : ConsoleOp (ret a).
Proof. intros k. by rewrite wp_ret. Qed.
#[export] Instance gets_console {A} (f : kernel → A) : ConsoleOp (gets f).
Proof. intros k. by rewrite wp_gets. Qed.
#[export] Instance bind_console {A B} (m : K A) (f : A → K B) :
  ConsoleOp m → (∀ a, ConsoleOp (f a)) → ConsoleOp (bind m f).
Proof.
  intros Hm Hf k. rewrite wp_bind. eapply wp_mono; [apply Hm|].
  cbn. intros a k1 H1. eapply wp_mono; [apply Hf|]. cbn. intros b k2 H2. by etrans.
Qed.
#[export] Instance when_console b (m : K ()) : ConsoleOp m → ConsoleOp (when b m).
Proof. destruct b; intros; [done | apply ret_console]. Qed.
#[export] Instance if_console {A} (b : bool) (m1 m2 : K A) :
  ConsoleOp m1 → ConsoleOp m2 → ConsoleOp (if b then m1 else m2).
Proof. by destruct b. Qed.
#[export] Instance for_console n lo (f : Z → K ()) :
  (∀ i, ConsoleOp (f i)) → ConsoleOp (for_range n lo f).
Proof.
  intros Hf. revert lo. induction n as [|n IH]; intros lo; cbn [for_range]; apply _.
Qed.
#[export] Instance str_iter_console f s : (∀ c, ConsoleOp (f c)) → ConsoleOp (str_iter f s).
Proof. intros. induction s; cbn [str_iter]; apply _. Qed.
#[export] Instance each_console f l : (∀ c, ConsoleOp (f c)) → ConsoleOp (each f l).
Proof. intros. induction l; cbn [each]; apply _. Qed.
Lemma upd_mach_log_console e k : console_only k (upd_mach (log_io e) k).
Proof.
  exists (vga_st k), (serial_st k), (e :: io_log (mach k)). by destruct k as [[] ].
Qed.
#[export] Instance inb_console p : ConsoleOp (inb p).
Proof. intros k. apply upd_mach_log_console. Qed.
Lemma outb_console p v : p ≠ KBC_COMMAND → ConsoleOp (outb p v).
Proof. intros Hp k. rewrite outb_writes by done. apply upd_mach_log_console. Qed.
#[export] Instance upd_vga_console f : ConsoleOp (modify (upd_vga_st f)).
Proof.
  intros k. rewrite wp_modify. exists (f (vga_st k)), (serial_st k), (io_log (mach k)).
  by destruct k as [[] ].
Qed.
#[export] Instance upd_serial_console f : ConsoleOp (modify (upd_serial_st f)).
Proof.
  intros k. rewrite wp_modify. exists (vga_st k), (f (serial_st k)), (io_log (mach k)).
  by destruct k as [[] ].
Qed.
End console_ops.
#[export] Hint Extern 2 (ConsoleOp (outb _ _)) => apply outb_console; discriminate : typeclass_instances.

(** The bounded wait of [tx] always ends. *)
#[export] Instance tx_console c : ConsoleOp (tx c).
Proof.
  intros k. unfold tx. wp_go.
  apply wp_while_fuel with (I := λ n k', 0 ≤ n ≤ TX_SPIN_LIMIT ∧ console_only k k')
    (variant := λ n _, Z.to_nat (TX_SPIN_LIMIT + 1 - n)).
  - split; [done | done].
  - unfold TX_SPIN_LIMIT. lia.
  - intros n k1 [Hn H1]. unfold tx_wait. wp_go.
    eapply wp_mono; [apply inb_console|]. cbn. intros s k2 H2.
    assert (console_only k k2) by (by etrans).
    case_match; [|case_match].
    + rewrite wp_ret. eapply wp_mono.
      { refine (console_op k2). }
      cbn. intros _ k3 H3. by etrans.
    + by rewrite wp_ret.
    + rewrite wp_ret. split; [split; [lia | done] | lia].
Qed.

#[export] Instance serial_write_char_console c : ConsoleOp (serial_write_char c).
Proof. unfold serial_write_char, serial_g. apply _. Qed.
#[export] Instance serial_write_console s : ConsoleOp (serial_write s).
Proof. unfold serial_write. apply _. Qed.
#[export] Instance putchar_console c : ConsoleOp (putchar c).
Proof. unfold putchar, scroll, vga_peek, vga_poke, set_row, set_col, vga_g. apply _. Qed.
#[export] Instance print_console s : ConsoleOp (print s).
Proof. unfold print. apply _. Qed.
#[export] Instance print_int_console n : ConsoleOp (print_int n).
Proof. unfold print_int. apply _. Qed.
#[export] Instance print_hex_console n : ConsoleOp (print_hex n).
Proof. unfold print_hex. apply _. Qed.
#[export] Instance backspace_console : ConsoleOp backspace.
Proof. unfold backspace, vga_poke, set_col, vga_g. apply _. Qed.
#[export] Instance clear_screen_console : ConsoleOp clear_screen.
Proof. unfold clear_screen, vga_poke, set_col, set_row, vga_g. apply _. Qed.
