(* ===== verification/Memory.v ===== *)
(** * memory.c: the Multiboot memory map

    [memory_init] walks the map GRUB left in memory and records its regions;
    the getters are what the frame allocator reads. *)
From stdpp Require Import prelude gmap list strings.
From Stdlib Require Import Lia ZArith.
From S2P Require Import Prelude Machine State Util Console.

#[local] Open Scope Z_scope.

Definition MAX_REGIONS : Z := 32.

(** Offsets of the packed structures of src/multiboot.h:6-35. *)
Definition mbi_flags : Z := 0.
Definition mbi_mmap_length : Z := 44.
Definition mbi_mmap_addr : Z := 48.
Definition entry_size : Z := 0.
Definition entry_addr : Z := 4.
Definition entry_len : Z := 12.
Definition entry_type : Z := 20.

(** src/memory.c:28-44, what one entry adds to the statics. *)
Definition memory_add (base len type : Z) (s : memory_state) : memory_state :=
  let s :=
    if region_count s <? MAX_REGIONS then
      set_region_count (region_count s + 1)
        (set_regions (<[Z.to_nat (region_count s) := Region base len type]> (regions s)) s)
    else s in
  let s := set_total_kb (total_kb s +u len / 1024) s in
  if type =? 1 then
    let s := set_usable_kb (usable_kb s +u len / 1024) s in
    if highest s <? (base +u len) then set_highest (base +u len) s else s
  else s.

(** src/memory.c:27-47, one turn of the loop over the entries. *)
Definition memory_entry (map_end entry : Z) : K (Z + ()) :=
  if entry <? map_end then
    addr <- load 8 (entry +u entry_addr) ;;
    len <- load 8 (entry +u entry_len) ;;
    type <- load32 (entry +u entry_type) ;;
    modify (upd_mem_st (memory_add (u32 addr) (u32 len) type)) ;;;
    size <- load32 (entry +u entry_size) ;;
    ret (inl ((entry +u size) +u 4))
  else ret (inr ()).

(** src/memory.c:17-48.  A turn advances by at least one byte unless the
    entry's size field is 2^32-4, so [mmap_length] turns are enough. *)
Definition memory_init (mbi : Z) : K () :=
  fl <- load32 (mbi +u mbi_flags) ;;
  if Z.land fl (Z.shiftl 1 6) =? 0 then
    print (lit "FATAL: GRUB provided no memory map.\n")
  else
    entry <- load32 (mbi +u mbi_mmap_addr) ;;
    mmap_length <- load32 (mbi +u mbi_mmap_length) ;;
    let map_end := entry +u mmap_length in
    while_fuel (S (Z.to_nat mmap_length)) (memory_entry map_end) entry.

(** [regions[i]] *)
Definition region_at (i : Z) (s : memory_state) : region :=
  default (Region 0 0 0) (regions s !! Z.to_nat i).

(** src/memory.c:50-62. *)
Definition memory_print_map : K () :=
  print (lit "Physical memory map (from GRUB):\n") ;;;
  n <- mem_g region_count ;;
  for_range (Z.to_nat n) 0 (λ i,
    r <- mem_g (region_at i) ;;
    print (lit "  ") ;;;
    print_hex (r_base r) ;;;
    print (lit " - ") ;;;
    print_hex ((r_base r +u r_len r) -u 1) ;;;
    print (lit "  ") ;;;
    print_int (r_len r / 1024) ;;;
    print (lit " KB  ") ;;;
    print (if r_type r =? 1 then lit "USABLE\n" else lit "RESERVED\n")).

(** src/memory.c:64-71, the getters. *)
Definition mem_total_kb : K Z := mem_g total_kb.
Definition mem_usable_kb : K Z := mem_g usable_kb.
Definition mem_highest_addr : K Z := mem_g highest.
Definition mem_region_count : K Z := mem_g region_count.
Definition mem_region_base (i : Z) : K Z := mem_g (λ s, r_base (region_at i s)).
Definition mem_region_len (i : Z) : K Z := mem_g (λ s, r_len (region_at i s)).
Definition mem_region_type (i : Z) : K Z := mem_g (λ s, r_type (region_at i s)).
