(* ===== verification/Pmm.v ===== *)
(** * pmm.c: the bitmap frame allocator

    The bitmap lives in RAM after the kernel image and is reached through the
    MMU.  [pmm_rep k S] says that it represents the set [S] of used frames;
    every operation is shown to implement the corresponding operation on
    sets. *)
From stdpp Require Import prelude gmap list strings.
From Stdlib Require Import Lia ZArith.
From S2P Require Import Prelude Machine State Util Console Memory.

#[local] Open Scope Z_scope.

Definition FRAME_SIZE : Z := 4096.

(** [&bitmap[i]] *)
Definition bitmap_word (b i : Z) : Z := b +u 4 * i.

(** src/pmm.c:16-18. *)
Definition frame_test (frame : Z) : K Z :=
  b <- pmm_g bitmap ;;
  w <- load32 (bitmap_word b (frame / 32)) ;;
  ret (Z.land (w >>u frame mod 32) 1).

(** src/pmm.c:20-26. *)
Definition frame_mark_used (frame : Z) : K () :=
  total <- pmm_g total_frames ;;
  if total <=? frame then ret tt
  else
    t <- frame_test frame ;;
    when (t =? 0) (
      b <- pmm_g bitmap ;;
      w <- load32 (bitmap_word b (frame / 32)) ;;
      store32 (bitmap_word b (frame / 32)) (w |u (1 <<u frame mod 32)) ;;;
      modify (upd_pmm_st (λ s, set_used_frames (used_frames s +u 1) s))).

(** src/pmm.c:28-34. *)
Definition frame_mark_free (frame : Z) : K () :=
  total <- pmm_g total_frames ;;
  if total <=? frame then ret tt
  else
    t <- frame_test frame ;;
    when (negb (t =? 0)) (
      b <- pmm_g bitmap ;;
      w <- load32 (bitmap_word b (frame / 32)) ;;
      store32 (bitmap_word b (frame / 32)) (w &u ~u (1 <<u frame mod 32)) ;;;
      modify (upd_pmm_st (λ s, set_used_frames (used_frames s -u 1) s))).

(** src/pmm.c:57-65, the body of the loop over the regions. *)
Definition pmm_init_region (r : Z) : K () :=
  type <- mem_region_type r ;;
  if negb (type =? 1) then ret tt
  else
    base <- mem_region_base r ;;
    len <- mem_region_len r ;;
    let start_frame := base / FRAME_SIZE in
    let frame_count := len / FRAME_SIZE in
    for_range (Z.to_nat frame_count) 0 (λ f, frame_mark_free (start_frame +u f)).

(** src/pmm.c:38-74. *)
Definition pmm_init : K () :=
  highest <- mem_highest_addr ;;
  modify (upd_pmm_st (set_total_frames (highest / FRAME_SIZE))) ;;;
  total <- pmm_g total_frames ;;
  modify (upd_pmm_st (set_bitmap_size (((total +u 31) / 32) *u 4))) ;;;
  kend <- on_mach kernel_end ;;
  let bitmap_addr := ((kend +u FRAME_SIZE) -u 1) &u ~u (FRAME_SIZE - 1) in
  modify (upd_pmm_st (set_bitmap bitmap_addr)) ;;;
  size <- pmm_g bitmap_size ;;
  for_range (Z.to_nat (size / 4)) 0 (λ i, store32 (bitmap_word bitmap_addr i) 0xFFFFFFFF) ;;;
  modify (upd_pmm_st (set_used_frames total)) ;;;
  n <- mem_region_count ;;
  for_range (Z.to_nat n) 0 pmm_init_region ;;;
  size <- pmm_g bitmap_size ;;
  let reserved_end := bitmap_addr +u size in
  let last_reserved_frame := reserved_end / FRAME_SIZE in
  for_range (Z.to_nat (last_reserved_frame + 1)) 0 frame_mark_used.

(** src/pmm.c:84-89, one bit of the scan of a word. *)
Definition pmm_alloc_bit (w b : Z) : K (option Z) :=
  base <- pmm_g bitmap ;;
  v <- load32 (bitmap_word base w) ;;
  if Z.land (v >>u b) 1 =? 0 then
    let frame := (w *u 32) +u b in
    total <- pmm_g total_frames ;;
    if total <=? frame then ret (Some 0)
    else
      frame_mark_used frame ;;;
      ret (Some (frame *u FRAME_SIZE))
  else ret None.

(** src/pmm.c:80-91, one word of the scan. *)
Definition pmm_alloc_word (w : Z) : K (option Z) :=
  base <- pmm_g bitmap ;;
  v <- load32 (bitmap_word base w) ;;
  if v =? 0xFFFFFFFF then ret None
  else for_find 32 0 (pmm_alloc_bit w).

(** src/pmm.c:78-93. *)
Definition pmm_alloc_frame : K Z :=
  size <- pmm_g bitmap_size ;;
  r <- for_find (Z.to_nat (size / 4)) 0 pmm_alloc_word ;;
  ret (default 0 r).

(** src/pmm.c:95-97. *)
Definition pmm_free_frame (addr : Z) : K () := frame_mark_free (addr / FRAME_SIZE).

(** src/pmm.c:99-103. *)
Definition pmm_total_frames : K Z := pmm_g total_frames.
Definition pmm_used_frames : K Z := pmm_g used_frames.
Definition pmm_free_frames : K Z :=
  t <- pmm_g total_frames ;; u <- pmm_g used_frames ;; ret (t -u u).
Definition pmm_bitmap_addr : K Z := pmm_g bitmap.
Definition pmm_bitmap_size : K Z := pmm_g bitmap_size.

(** ** Representation *)
Definition frame_bit (k : kernel) (f : Z) : bool :=
  Z.testbit (vw id (mach k) (bitmap (pmm_st k) + 4 * (f / 32))) (f mod 32).

Definition bm_lo (k : kernel) : Z := bitmap (pmm_st k).
Definition bm_hi (k : kernel) : Z := bitmap (pmm_st k) + bitmap_size (pmm_st k).

(** The shape of the allocator's data: the bitmap is a window of RAM, its size
    fits the number of frames, and the bits past the last frame are set. *)
Record pmm_wf (k : kernel) : Prop := {
  pw_window : window id (bm_lo k) (bm_hi k) (mach k);
  pw_total : 0 ≤ total_frames (pmm_st k) < 0x100000;
  pw_size : bitmap_size (pmm_st k) = 4 * ((total_frames (pmm_st k) + 31) / 32);
  pw_tail : ∀ f, total_frames (pmm_st k) ≤ f < 8 * bitmap_size (pmm_st k) → frame_bit k f = true
}.

Record pmm_rep (k : kernel) (U : gset Z) : Prop := {
  pr_wf : pmm_wf k;
  pr_bits : ∀ f, 0 ≤ f < total_frames (pmm_st k) → (frame_bit k f = true ↔ f ∈ U);
  pr_dom : ∀ f, f ∈ U → 0 ≤ f < total_frames (pmm_st k);
  pr_used : used_frames (pmm_st k) = Z.of_nat (size U)
}.

(** What an operation of the allocator may change: the bitmap and the count. *)
Record pmm_step (k k' : kernel) : Prop := {
  ps_shape : ∃ u ph, k' = upd_pmm_st (set_used_frames u) (upd_mach (set_phys ph) k);
  ps_mem : agrees_outside (image id (bm_lo k) (bm_hi k)) (mach k) (mach k')
}.

#[export] Instance pmm_step_refl : Reflexive pmm_step.
Proof.
  intros k. split; [|done]. exists (used_frames (pmm_st k)), (phys (mach k)).
  by destruct k as [[] ? []].
Qed.
#[export] Instance pmm_step_trans : Transitive pmm_step.
Proof.
  intros k1 k2 k3 [(u & ph & ->) H1] [(u' & ph' & ->) H2]. split.
  - by exists u', ph'.
  - by etrans.
Qed.

Lemma pmm_wf_words k f :
  pmm_wf k → 0 ≤ f < 8 * bitmap_size (pmm_st k) →
  bm_lo k ≤ bm_lo k + 4 * (f / 32) ∧ bm_lo k + 4 * (f / 32) + 4 ≤ bm_hi k ∧
  bitmap_word (bm_lo k) (f / 32) = bm_lo k + 4 * (f / 32).
Proof.
  intros [[Hr _ _] Ht Hs _] Hf. unfold bm_hi, bm_lo, bitmap_word in *.
  assert (4 * (f / 32) + 4 ≤ bitmap_size (pmm_st k)) by (rewrite Hs in *; zlia).
  assert (0 ≤ f / 32) by zlia.
  split_and!; [lia | lia |]. apply u32_small. lia.
Qed.

Lemma frame_test_spec k f (Q : Z → kernel → Prop) :
  pmm_wf k → 0 ≤ f < 8 * bitmap_size (pmm_st k) →
  Q (Z.b2z (frame_bit k f)) k → wp (frame_test f) Q k.
Proof.
  intros Hwf Hf HQ. destruct (pmm_wf_words k f Hwf Hf) as (? & ? & Hw).
  unfold frame_test, pmm_g. wp_go. fold (bm_lo k). rewrite Hw.
  eapply wp_load32; [apply (pw_window k Hwf) | done | done |].
  wp_go. rewrite land_bit by zlia. done.
Qed.

(** Rewriting the word of frame [f] so that only bit [f] changes. *)
Lemma bitmap_store k f w b u m' :
  pmm_wf k → 0 ≤ f < total_frames (pmm_st k) → 0 ≤ w < 0x100000000 →
  (∀ i, 0 ≤ i < 32 → Z.testbit w i =
     if i =? f mod 32 then b else Z.testbit (vw id (mach k) (bm_lo k + 4 * (f / 32))) i) →
  stored id 4 (bm_lo k + 4 * (f / 32)) w (mach k) m' →
  let k' := upd_pmm_st (set_used_frames u) (upd_mach (λ _, m') k) in
  pmm_wf k' ∧ pmm_step k k' ∧
  ∀ g, 0 ≤ g < 8 * bitmap_size (pmm_st k) →
    frame_bit k' g = if g =? f then b else frame_bit k g.
Proof.
  intros Hwf Hf Hw Hbit Hst k'.
  assert (f < 8 * bitmap_size (pmm_st k)) by (destruct Hwf as [_ _ -> _]; zlia).
  destruct (pmm_wf_words k f Hwf) as (Hlo & Hhi & _); [lia|].
  pose proof (pw_window k Hwf) as Hwin.
  assert (Hbits : ∀ g, 0 ≤ g < 8 * bitmap_size (pmm_st k) →
    frame_bit k' g = if g =? f then b else frame_bit k g).
  { intros g Hg. destruct (pmm_wf_words k g Hwf Hg) as (Hlo' & Hhi' & _).
    unfold frame_bit, k'. cbn [mach pmm_st upd_mach upd_pmm_st set_used_frames bitmap].
    fold (bm_lo k).
    destruct (decide (g / 32 = f / 32)) as [Heq|Hne].
    - rewrite Heq. erewrite stored_vw_same by done.
      rewrite u32_small, Hbit by (done || zlia).
      destruct (Z.eqb_spec g f) as [->|Hgf]; [by rewrite Z.eqb_refl|].
      destruct (Z.eqb_spec (g mod 32) (f mod 32)); [zlia | done].
    - erewrite (stored_vw_other id (bm_lo k) (bm_hi k)); [|done..| |]; [|lia..].
      destruct (Z.eqb_spec g f) as [->|]; done. }
  split_and!; [|split|exact Hbits].
  - split; [|exact (pw_total k Hwf)|exact (pw_size k Hwf)|].
    + by eapply (stored_window id (bm_lo k) (bm_hi k)).
    + intros g Hg. rewrite Hbits by (destruct Hwf; cbn in Hg; lia).
      destruct (Z.eqb_spec g f); [cbn in Hg; lia|]. by apply (pw_tail k Hwf).
  - destruct Hst as [[ph ->] _ _]. by exists u, ph.
  - eapply stored_image; [done | lia | lia].
Qed.

(** The set of used frames fits below [total_frames]. *)
Lemma range_size (U : gset Z) n : (∀ f, f ∈ U → 0 ≤ f < n) → 0 ≤ Z.of_nat (size U) ≤ Z.max 0 n.
Proof.
  intros HU. split; [lia|].
  assert (U ⊆ list_to_set (seqZ 0 n)) as Hs.
  { intros f Hf%HU. apply elem_of_list_to_set, elem_of_seqZ. lia. }
  apply subseteq_size in Hs. rewrite size_list_to_set in Hs by apply NoDup_seqZ.
  rewrite length_seqZ in Hs. lia.
Qed.

Lemma size_add (U : gset Z) f :
  Z.of_nat (size ({[f]} ∪ U)) = Z.of_nat (size U) + Z.b2z (bool_decide (f ∉ U)).
Proof.
  case_bool_decide as Hf; cbn [Z.b2z].
  - rewrite size_union by set_solver. rewrite size_singleton. lia.
  - replace ({[f]} ∪ U) with U by set_solver. lia.
Qed.

Lemma size_remove (U : gset Z) f :
  Z.of_nat (size (U ∖ {[f]})) = Z.of_nat (size U) - Z.b2z (bool_decide (f ∈ U)).
Proof.
  case_bool_decide as Hf; cbn [Z.b2z].
  - assert (size U = size (U ∖ {[f]}) + size ({[f]} : gset Z))%nat as ->; [|rewrite size_singleton; lia].
    rewrite <- size_union by set_solver. f_equal.
    apply set_eq. intros x. destruct (decide (x = f)); set_solver.
  - replace (U ∖ {[f]}) with U by set_solver. lia.
Qed.

Lemma pmm_rep_size k U : pmm_rep k U → 0 ≤ Z.of_nat (size U) < 0x100000.
Proof.
  intros Hr. pose proof (range_size U _ (pr_dom _ _ Hr)).
  pose proof (pw_total k (pr_wf _ _ Hr)). lia.
Qed.

Lemma pmm_total_bound k f : pmm_wf k → f < total_frames (pmm_st k) → f < 8 * bitmap_size (pmm_st k).
Proof. intros [_ _ -> _] ?. zlia. Qed.

(** After [bitmap_store], the new state represents the updated set. *)
Lemma pmm_rep_update k f b u m' U U' w :
  pmm_rep k U → 0 ≤ f < total_frames (pmm_st k) → 0 ≤ w < 0x100000000 →
  (∀ i, 0 ≤ i < 32 → Z.testbit w i =
     if i =? f mod 32 then b else Z.testbit (vw id (mach k) (bm_lo k + 4 * (f / 32))) i) →
  stored id 4 (bm_lo k + 4 * (f / 32)) w (mach k) m' →
  (∀ g, g ∈ U' ↔ if decide (g = f) then b = true else g ∈ U) →
  u = Z.of_nat (size U') →
  let k' := upd_pmm_st (set_used_frames u) (upd_mach (λ _, m') k) in
  pmm_rep k' U' ∧ pmm_step k k'.
Proof.
  intros Hr Hf Hw Hbit Hst HU Hu k'.
  destruct (bitmap_store k f w b u m' (pr_wf _ _ Hr) Hf Hw Hbit Hst) as (Hwf & Hstep & Hb).
  split; [|done]. split; [done| | |done].
  - intros g Hg. pose proof (pmm_total_bound k g (pr_wf _ _ Hr) ltac:(apply Hg)).
    change (total_frames (pmm_st k')) with (total_frames (pmm_st k)) in Hg.
    rewrite Hb by lia. rewrite HU. destruct (Z.eqb_spec g f); case_decide; try done.
    by apply (pr_bits _ _ Hr).
  - intros g Hg. apply HU in Hg. change (total_frames (pmm_st k')) with (total_frames (pmm_st k)).
    case_decide; [by subst|]. by apply (pr_dom _ _ Hr).
Qed.

Lemma mark_used_rep k U f :
  pmm_rep k U → 0 ≤ f →
  wp (frame_mark_used f) (λ _ k',
    pmm_rep k' (if decide (f < total_frames (pmm_st k)) then {[f]} ∪ U else U) ∧
    pmm_step k k') k.
Proof.
  intros Hr Hf. pose proof (pr_wf _ _ Hr) as Hwf.
  unfold frame_mark_used, pmm_g. wp_go. case_decide as Ht.
  2:{ destruct (Z.leb_spec (total_frames (pmm_st k)) f); [by rewrite wp_ret | lia]. }
  destruct (Z.leb_spec (total_frames (pmm_st k)) f); [lia|]. wp_go.
  pose proof (pmm_total_bound k f Hwf Ht) as Hb.
  apply frame_test_spec; [done | lia |].
  pose proof (pr_bits _ _ Hr f ltac:(lia)) as Hbit.
  apply wp_when.
  - intros Hz. destruct (frame_bit k f) eqn:Hfb; [done|].
    destruct (pmm_wf_words k f Hwf) as (Hlo & Hhi & Hword); [lia|].
    wp_go. fold (bm_lo k). rewrite Hword.
    eapply wp_load32; [apply (pw_window k Hwf) | done | done |]. wp_go.
    eapply wp_store32; [apply (pw_window k Hwf) | done | done |].
    intros m' Hst. wp_go.
    eapply (pmm_rep_update k f true _ m' U); [done | lia | | | exact Hst | | ].
    + apply lor_u32; auto with kernel.
    + intros i Hi. rewrite testbit_set by zlia. by destruct (i =? f mod 32).
    + intros g. case_decide; set_solver.
    + cbn [pmm_st upd_mach used_frames]. rewrite size_add, (pr_used _ _ Hr).
      pose proof (pmm_rep_size _ _ Hr).
      rewrite bool_decide_true by naive_solver. cbn. rewrite u32_small; lia.
  - intros Hz. destruct (frame_bit k f) eqn:Hfb; [|done].
    replace ({[f]} ∪ U) with U by set_solver. done.
Qed.

Lemma mark_free_rep k U f :
  pmm_rep k U → 0 ≤ f →
  wp (frame_mark_free f) (λ _ k', pmm_rep k' (U ∖ {[f]}) ∧ pmm_step k k') k.
Proof.
  intros Hr Hf. pose proof (pr_wf _ _ Hr) as Hwf.
  unfold frame_mark_free, pmm_g. wp_go.
  destruct (Z.leb_spec (total_frames (pmm_st k)) f) as [Ht|Ht].
  { wp_go. replace (U ∖ {[f]}) with U; [done|].
    assert (f ∉ U) by (intros ?%(pr_dom _ _ Hr); lia). set_solver. }
  wp_go. pose proof (pmm_total_bound k f Hwf Ht) as Hb.
  apply frame_test_spec; [done | lia |].
  pose proof (pr_bits _ _ Hr f ltac:(lia)) as Hbit.
  apply wp_when.
  - intros Hz. destruct (frame_bit k f) eqn:Hfb; [|done].
    destruct (pmm_wf_words k f Hwf) as (Hlo & Hhi & Hword); [lia|].
    wp_go. fold (bm_lo k). rewrite Hword.
    eapply wp_load32; [apply (pw_window k Hwf) | done | done |]. wp_go.
    eapply wp_store32; [apply (pw_window k Hwf) | done | done |].
    intros m' Hst. wp_go.
    eapply (pmm_rep_update k f false _ m' U); [done | lia | | | exact Hst | | ].
    + apply land_u32; auto with kernel.
    + intros i Hi. rewrite testbit_clear by zlia. by destruct (i =? f mod 32).
    + intros g. case_decide; set_solver.
    + cbn [pmm_st upd_mach used_frames]. rewrite size_remove, (pr_used _ _ Hr).
      pose proof (pmm_rep_size _ _ Hr) as Hsz.
      rewrite bool_decide_true by naive_solver. cbn.
      assert (f ∈ U) as HfU by naive_solver.
      assert (size ({[f]} : gset Z) ≤ size U)%nat as Hs1 by (apply subseteq_size; set_solver).
      rewrite size_singleton in Hs1.
      rewrite u32_small; lia.
  - intros Hz. destruct (frame_bit k f) eqn:Hfb; [done|].
    replace (U ∖ {[f]}) with U by set_solver. done.
Qed.

(** ** Allocation *)

(** What a frame allocator promises: the lowest frame not in use. *)
Definition least_free (U : gset Z) (n f : Z) : Prop :=
  0 ≤ f < n ∧ f ∉ U ∧ ∀ g, 0 ≤ g < f → g ∈ U.

Definition bits_below (k : kernel) (n : Z) : Prop := ∀ g, 0 ≤ g < n → frame_bit k g = true.

Lemma frame_bit_word k w b :
  0 ≤ w → 0 ≤ b < 32 →
  frame_bit k (32 * w + b) = Z.testbit (vw id (mach k) (bm_lo k + 4 * w)) b.
Proof.
  intros. unfold frame_bit, bm_lo. f_equal; [|zlia].
  do 2 f_equal. zlia.
Qed.

Definition alloc_post (k : kernel) (U : gset Z) (r : Z) (k' : kernel) : Prop :=
  (∃ f, least_free U (total_frames (pmm_st k)) f ∧ r = f * FRAME_SIZE ∧
        pmm_rep k' ({[f]} ∪ U) ∧ pmm_step k k') ∨
  (r = 0 ∧ k' = k ∧ ∀ f, 0 ≤ f < total_frames (pmm_st k) → f ∈ U).

Lemma wp_load_bitmap k w (Q : Z → kernel → Prop) :
  pmm_wf k → 0 ≤ w < bitmap_size (pmm_st k) / 4 →
  Q (vw id (mach k) (bm_lo k + 4 * w)) k → wp (load32 (bitmap_word (bm_lo k) w)) Q k.
Proof.
  intros Hwf Hw HQ.
  destruct (pmm_wf_words k (32 * w) Hwf) as (Hlo & Hhi & Hword); [zlia|].
  replace (32 * w / 32) with w in * by zlia. rewrite Hword.
  eapply wp_load32; [apply (pw_window k Hwf) | done..].
Qed.

Lemma alloc_bit_spec k U w b :
  pmm_rep k U → 0 ≤ w < bitmap_size (pmm_st k) / 4 → 0 ≤ b < 32 → bits_below k (32 * w + b) →
  wp (pmm_alloc_bit w b) (λ r k', match r with
    | Some a => alloc_post k U a k'
    | None => k' = k ∧ bits_below k (32 * w + (b + 1)) end) k.
Proof.
  intros Hr Hw Hb Hbelow. pose proof (pr_wf _ _ Hr) as Hwf.
  unfold pmm_alloc_bit, pmm_g. wp_go. fold (bm_lo k).
  apply wp_load_bitmap; [done | done |].
  rewrite land_bit, <- frame_bit_word by lia.
  assert (32 * w + b < 8 * bitmap_size (pmm_st k)) by zlia.
  destruct (frame_bit k (32 * w + b)) eqn:Hbit; cbn [Z.b2z Z.eqb].
  - wp_go. split; [done|]. intros g Hg.
    destruct (decide (g = 32 * w + b)) as [->|]; [done | apply Hbelow; lia].
  - wp_go. pose proof (pw_total k Hwf) as Ht. pose proof (pw_size k Hwf) as Hs.
    assert (32 * w + b < total_frames (pmm_st k)) as Hlt.
    { apply Z.nle_gt. intros Hge. rewrite (pw_tail k Hwf) in Hbit; [done | lia]. }
    replace ((w *u 32) +u b) with (32 * w + b)
      by (rewrite (u32_small (w * 32)), u32_small by lia; lia).
    destruct (Z.leb_spec (total_frames (pmm_st k)) (32 * w + b)); [lia|]. wp_go.
    wp_use (mark_used_rep k U); [done | lia |]. cbn. intros _ k' [Hr' Hstep].
    rewrite decide_True in Hr' by done. left. exists (32 * w + b).
    split_and!; [| |done|done].
    + split_and!; [lia | lia | |].
      * intros HU. apply (pr_bits _ _ Hr) in HU; [congruence | lia].
      * intros g Hg. apply (pr_bits _ _ Hr); [lia|]. by apply Hbelow.
    + unfold FRAME_SIZE. rewrite u32_small; lia.
Qed.

Lemma pmm_alloc_frame_rep k U :
  pmm_rep k U → wp pmm_alloc_frame (alloc_post k U) k.
Proof.
  intros Hr. pose proof (pr_wf _ _ Hr) as Hwf.
  pose proof (pw_size k Hwf) as Hs. pose proof (pw_total k Hwf) as Ht.
  unfold pmm_alloc_frame, pmm_g. wp_go.
  apply wp_for_find with (I := λ w k', k' = k ∧ bits_below k (32 * w)).
  - split; [done|]. intros g ?. lia.
  - intros w k0 Hw [-> Hbelow]. unfold pmm_alloc_word, pmm_g. wp_go. fold (bm_lo k).
    assert (0 ≤ w < bitmap_size (pmm_st k) / 4) as Hw' by zlia.
    apply wp_load_bitmap; [done | done |].
    destruct (Z.eqb_spec (vw id (mach k) (bm_lo k + 4 * w)) 0xFFFFFFFF) as [Hff|Hff].
    + wp_go. split; [done|]. intros g Hg. destruct (decide (g < 32 * w)); [apply Hbelow; lia|].
      replace g with (32 * w + (g - 32 * w)) by lia. rewrite frame_bit_word by lia.
      apply all_ones; [auto with kernel | done | lia].
    + apply wp_for_find with (I := λ b k', k' = k ∧ bits_below k (32 * w + b)).
      * split; [done|]. by rewrite Z.add_0_r.
      * intros b k1 Hb [-> Hbelow']. wp_use (alloc_bit_spec k U); [done | lia..| done |].
        intros [a|] k'; [wp_go | done]. by intros.
      * intros k1 [-> Hall]. exfalso. apply Hff, all_ones; [auto with kernel|].
        intros i Hi. rewrite <- frame_bit_word by lia. apply Hall. lia.
  - intros k1 [-> Hall]. wp_go. right. split_and!; [done..|].
    intros f Hf. apply (pr_bits _ _ Hr); [done|]. apply Hall.
    pose proof (pmm_total_bound k f Hwf). zlia.
Qed.

Lemma pmm_free_frame_rep k U addr :
  pmm_rep k U → 0 ≤ addr →
  wp (pmm_free_frame addr) (λ _ k', pmm_rep k' (U ∖ {[addr / FRAME_SIZE]}) ∧ pmm_step k k') k.
Proof. intros. apply mark_free_rep; [done|]. unfold FRAME_SIZE. zlia. Qed.

(** ** Initialisation *)

(** GRUB reported frame [f] inside a usable region. *)
Definition usable_frame (s : memory_state) (n f : Z) : Prop :=
  ∃ r, 0 ≤ r < n ∧ r_type (region_at r s) = 1 ∧
       r_base (region_at r s) / FRAME_SIZE ≤ f <
       r_base (region_at r s) / FRAME_SIZE + r_len (region_at r s) / FRAME_SIZE.

Definition regions_u32 (s : memory_state) : Prop := ∀ r,
  0 ≤ r_base (region_at r s) < 0x100000000 ∧ 0 ≤ r_len (region_at r s) < 0x100000000.

Lemma pmm_step_total k k' : pmm_step k k' → total_frames (pmm_st k') = total_frames (pmm_st k).
Proof. by intros [(u & ph & ->) _]. Qed.
Lemma pmm_step_mem k k' : pmm_step k k' → mem_st k' = mem_st k.
Proof. by intros [(u & ph & ->) _]. Qed.

(** Freeing the frames [start], ..., [start + n - 1]. *)
Lemma mark_free_range k U start n :
  pmm_rep k U → 0 ≤ start → 0 ≤ n → start + n < 0x100000000 →
  wp (for_range (Z.to_nat n) 0 (λ f, frame_mark_free (start +u f))) (λ _ k',
    pmm_step k k' ∧ ∃ U', pmm_rep k' U' ∧
      ∀ f, f ∈ U' ↔ f ∈ U ∧ ¬ (start ≤ f < start + n)) k.
Proof.
  intros Hr Hs Hn Hb.
  apply wp_for_range with (I := λ i k', pmm_step k k' ∧ ∃ U', pmm_rep k' U' ∧
    ∀ f, f ∈ U' ↔ f ∈ U ∧ ¬ (start ≤ f < start + i)).
  - split; [done|]. exists U. split; [done|]. intros f. intuition lia.
  - intros i k1 Hi (Hstep & U' & Hr' & HU). rewrite u32_small by lia.
    wp_use mark_free_rep; [done | lia|]. cbn. intros _ k2 [Hr2 Hstep2].
    split; [by etrans|]. eexists. split; [done|].
    intros f. rewrite elem_of_difference, HU, elem_of_singleton. intuition lia.
  - intros k1. by rewrite Z2Nat.id by lia.
Qed.

(** Claiming the frames [0], ..., [n - 1]. *)
Lemma mark_used_range k U n :
  pmm_rep k U → 0 ≤ n →
  wp (for_range (Z.to_nat n) 0 frame_mark_used) (λ _ k',
    pmm_step k k' ∧ ∃ U', pmm_rep k' U' ∧
      ∀ f, f ∈ U' ↔ f ∈ U ∨ (0 ≤ f < n ∧ f < total_frames (pmm_st k))) k.
Proof.
  intros Hr Hn.
  apply wp_for_range with (I := λ i k', pmm_step k k' ∧ ∃ U', pmm_rep k' U' ∧
    ∀ f, f ∈ U' ↔ f ∈ U ∨ (0 ≤ f < i ∧ f < total_frames (pmm_st k))).
  - split; [done|]. exists U. split; [done|]. intros f. intuition lia.
  - intros i k1 Hi (Hstep & U' & Hr' & HU).
    wp_use mark_used_rep; [done | lia|]. cbn. intros _ k2 [Hr2 Hstep2].
    rewrite (pmm_step_total _ _ Hstep) in Hr2.
    split; [by etrans|]. eexists. split; [done|].
    intros f. case_decide; [rewrite elem_of_union, elem_of_singleton|];
      rewrite HU; intuition lia.
  - intros k1. by rewrite Z2Nat.id by lia.
Qed.

Lemma pmm_init_region_rep k U r :
  pmm_rep k U → regions_u32 (mem_st k) → 0 ≤ r →
  wp (pmm_init_region r) (λ _ k', pmm_step k k' ∧ ∃ U', pmm_rep k' U' ∧
    ∀ f, f ∈ U' ↔ f ∈ U ∧ ¬ (r_type (region_at r (mem_st k)) = 1 ∧
       r_base (region_at r (mem_st k)) / FRAME_SIZE ≤ f <
       r_base (region_at r (mem_st k)) / FRAME_SIZE +
       r_len (region_at r (mem_st k)) / FRAME_SIZE)) k.
Proof.
  intros Hr Hreg Hr0. unfold pmm_init_region, mem_region_type, mem_region_base,
    mem_region_len, mem_g. wp_go.
  destruct (Z.eqb_spec (r_type (region_at r (mem_st k))) 1) as [He|He]; cbn [negb]; wp_go.
  - unfold FRAME_SIZE in *. specialize (Hreg r).
    wp_use mark_free_range; [done | zlia.. |].
    cbn. intros _ k' (Hs & U' & Hr' & HU). split; [done|]. exists U'. split; [done|].
    intros f. rewrite HU, He. naive_solver.
  - split; [done|]. exists U. split; [done|]. naive_solver.
Qed.

(** The first loop of [pmm_init]: every frame is in use. *)
Lemma pmm_fill k :
  window id (bm_lo k) (bm_hi k) (mach k) → 0 ≤ total_frames (pmm_st k) < 0x100000 →
  bitmap_size (pmm_st k) = 4 * ((total_frames (pmm_st k) + 31) / 32) →
  wp (for_range (Z.to_nat (bitmap_size (pmm_st k) / 4)) 0
        (λ i, store32 (bitmap_word (bm_lo k) i) 0xFFFFFFFF)) (λ _ k',
    pmm_step k k' ∧
    pmm_rep (upd_pmm_st (set_used_frames (total_frames (pmm_st k))) k')
      (list_to_set (seqZ 0 (total_frames (pmm_st k))))) k.
Proof.
  intros Hw Ht Hs. set (n := bitmap_size (pmm_st k) / 4).
  apply wp_for_range with (I := λ i k', pmm_step k k' ∧
    ∀ j, 0 ≤ j < i → vw id (mach k') (bm_lo k + 4 * j) = 0xFFFFFFFF).
  - split; [done|]. lia.
  - intros i k1 Hi [Hstep Hj]. pose proof (win_range _ _ _ _ Hw) as Hrng.
    assert (bm_lo k ≤ bm_lo k + 4 * i ∧ bm_lo k + 4 * i + 4 ≤ bm_hi k) as [].
    { unfold bm_hi, bm_lo, n in *. zlia. }
    unfold bitmap_word. rewrite u32_small by lia.
    pose proof (window_step _ _ _ _ _ Hw (ps_mem _ _ Hstep)) as Hw1.
    eapply wp_store32; [exact Hw1 | done | done |].
    intros m' Hst. split.
    + destruct Hstep as [(u & ph & ->) Ha]. pose proof Hst as [[ph' ->] _ _]. split.
      * by exists u, ph'.
      * etrans; [exact Ha|]. by eapply stored_image.
    + intros j Hji. destruct (decide (j = i)) as [->|].
      * cbn [mach upd_mach]. by rewrite (stored_vw_same _ _ _ _ _ Hst).
      * cbn [mach upd_mach]. erewrite (stored_vw_other _ (bm_lo k) (bm_hi k));
          [apply Hj; lia | exact Hw1 | done | lia..].
  - rewrite Z2Nat.id by (unfold n; zlia). intros k' [Hstep Hj]. split; [done|].
    pose proof (window_step _ _ _ _ _ Hw (ps_mem _ _ Hstep)) as Hw1.
    pose proof Hstep as [(u & ph & ->) Ha]. clear Hstep.
    assert (∀ f, 0 ≤ f < 8 * bitmap_size (pmm_st k) →
      Z.testbit (vw id (set_phys ph (mach k)) (bm_lo k + 4 * (f / 32))) (f mod 32) = true) as Hbit.
    { intros f Hf. rewrite Hj by (unfold n; zlia). apply (all_ones 0xFFFFFFFF); [done..|zlia]. }
    split; [split; [done | done | done |] | | |].
    + intros f Hf. apply Hbit. cbn in Hf. lia.
    + intros f Hf. rewrite elem_of_list_to_set, elem_of_seqZ.
      split; [cbn in Hf; lia|]. intros _. apply Hbit. cbn in Hf. rewrite Hs. zlia.
    + intros f. rewrite elem_of_list_to_set, elem_of_seqZ. cbn. lia.
    + rewrite size_list_to_set by apply NoDup_seqZ. rewrite length_seqZ. cbn. lia.
Qed.

Definition page_up (a : Z) : Z := ((a +u FRAME_SIZE) -u 1) &u ~u (FRAME_SIZE - 1).

Lemma page_up_spec a :
  0 ≤ a → a + FRAME_SIZE ≤ 0x100000000 →
  a ≤ page_up a < a + FRAME_SIZE ∧ page_up a mod FRAME_SIZE = 0.
Proof.
  unfold page_up, FRAME_SIZE. intros ??.
  replace ((a +u 4096) -u 1) with (a + 4095) by (unfold u32; zlia).
  change (~u (4096 - 1)) with 0xFFFFF000. rewrite land_page by lia. zlia.
Qed.

(** The state [pmm_init] is meant for: paging off, the map read, and the
    bitmap fits below 4 GB. *)
Record pmm_boot (k : kernel) : Prop := {
  pb_pg : cr0_pg (mach k) = false;
  pb_highest : 0 ≤ highest (mem_st k) < 0x100000000;
  pb_regions : regions_u32 (mem_st k);
  pb_kend : 0 ≤ kernel_end (mach k);
  pb_room : kernel_end (mach k) + FRAME_SIZE + 0x20000 ≤ 0x100000000
}.

Definition boot_total (k : kernel) : Z := highest (mem_st k) / FRAME_SIZE.
Definition boot_bitmap (k : kernel) : Z := page_up (kernel_end (mach k)).
Definition boot_size (k : kernel) : Z := 4 * ((boot_total k + 31) / 32).
(** The last frame of the kernel's own memory. *)
Definition last_reserved (k : kernel) : Z := (boot_bitmap k + boot_size k) / FRAME_SIZE.

(** The kernel changes only its allocator state and the bitmap. *)
Definition pmm_only (k k' : kernel) : Prop :=
  ∃ p ph, k' = upd_pmm_st (λ _, p) (upd_mach (set_phys ph) k).

#[export] Instance pmm_only_trans : Transitive pmm_only.
Proof. intros ? ? ? (p & ph & ->) (p' & ph' & ->). by exists p', ph'. Qed.
Lemma pmm_step_only k k' : pmm_step k k' → pmm_only k k'.
Proof. intros [(u & ph & ->) _]. by eexists _, ph. Qed.

(** The loop over the regions reported by GRUB. *)
Lemma pmm_init_regions k U n :
  pmm_rep k U → regions_u32 (mem_st k) → 0 ≤ n →
  wp (for_range (Z.to_nat n) 0 pmm_init_region) (λ _ k',
    pmm_step k k' ∧ ∃ U', pmm_rep k' U' ∧
      ∀ f, f ∈ U' ↔ f ∈ U ∧ ¬ usable_frame (mem_st k) n f) k.
Proof.
  intros Hr Hreg Hn.
  apply wp_for_range with (I := λ i k', pmm_step k k' ∧ ∃ U', pmm_rep k' U' ∧
    ∀ f, f ∈ U' ↔ f ∈ U ∧ ¬ usable_frame (mem_st k) i f).
  - split; [done|]. exists U. split; [done|]. intros f. split; [|by intros []].
    intros Hf. split; [done|]. intros (r & ? & _). lia.
  - intros i k1 Hi (Hs & U1 & Hr1 & HU1). pose proof (pmm_step_mem _ _ Hs) as Hm.
    wp_use pmm_init_region_rep; [done | by rewrite Hm | lia |].
    cbn. rewrite Hm. intros _ k2 (Hs2 & U2 & Hr2 & HU2). split; [by etrans|].
    exists U2. split; [done|]. intros f. rewrite HU2, HU1. unfold usable_frame. split.
    + intros [[HU Hn1] Hn2]. split; [done|]. intros (r & Hri & Hx).
      destruct (decide (r = i)) as [->|]; [done|]. apply Hn1. exists r. split; [lia | done].
    + intros [HU Hn1]. split_and!; [done| |].
      * intros (r & ? & Hx). apply Hn1. exists r. split; [lia | done].
      * intros Hx. apply Hn1. exists i. split; [lia | done].
  - intros k1. by rewrite Z2Nat.id by lia.
Qed.

Lemma pmm_init_rep k :
  pmm_boot k →
  wp pmm_init (λ _ k', pmm_only k k' ∧
    agrees_outside (image id (boot_bitmap k) (boot_bitmap k + boot_size k)) (mach k) (mach k') ∧
    bitmap (pmm_st k') = boot_bitmap k ∧ bitmap_size (pmm_st k') = boot_size k ∧
    total_frames (pmm_st k') = boot_total k ∧
    ∃ U, pmm_rep k' U ∧ ∀ f, 0 ≤ f < boot_total k →
      (f ∈ U ↔ f ≤ last_reserved k ∨ ¬ usable_frame (mem_st k) (region_count (mem_st k)) f)) k.
Proof.
  intros [Hpg Hhi Hreg Hk0 Hk]. pose proof (page_up_spec _ Hk0 ltac:(lia)) as [Hpu _].
  fold (boot_bitmap k) in Hpu. unfold FRAME_SIZE in *.
  assert (0 ≤ boot_total k < 0x100000) as Ht by (unfold boot_total, FRAME_SIZE; zlia).
  assert (0 ≤ boot_size k ≤ 0x20000) as Hs by (unfold boot_size; zlia).
  unfold pmm_init, mem_highest_addr, mem_region_count, mem_g, pmm_g, on_mach. wp_go.
  cbn [pmm_st upd_pmm_st set_total_frames set_bitmap_size set_bitmap bitmap_size total_frames mach mem_st].
  fold (boot_total k) (page_up (kernel_end (mach k))). fold (boot_bitmap k).
  replace (((boot_total k +u 31) / 32) *u 4) with (boot_size k)
    by (unfold boot_size, u32; zlia).
  match goal with |- wp _ _ ?x => set (k1 := x) end.
  assert (window id (boot_bitmap k) (boot_bitmap k + boot_size k) (mach k1)) as Hw
    by (apply window_flat; [exact Hpg | lia | lia]).
  wp_use (pmm_fill k1); [exact Hw | done | done |].
  cbn [mach upd_mach]. intros _ k2 [Hs2 Hr2].
  pose proof Hs2 as [(u & ph & ->) Ha2]. clear Hs2. wp_go.
  change (total_frames (pmm_st k1)) with (boot_total k) in *.
  match type of Hr2 with pmm_rep ?x _ => set (k2 := x) in * end.
  change (mem_st k2) with (mem_st k).
  replace (Z.to_nat (region_count (mem_st k))) with
    (Z.to_nat (Z.max 0 (region_count (mem_st k)))) by lia.
  wp_use (pmm_init_regions k2 _ (Z.max 0 (region_count (mem_st k)))); [done | done | lia |].
  cbn. intros _ k3 (Hs3 & U3 & Hr3 & HU3). wp_go.
  pose proof Hs3 as [(u3 & ph3 & ->) Ha3].
  cbn [pmm_st upd_pmm_st upd_mach set_used_frames bitmap_size set_bitmap set_bitmap_size].
  match type of Hr3 with pmm_rep ?x _ => set (k3 := x) in * end.
  change (bitmap_size (pmm_st k2)) with (boot_size k).
  replace ((boot_bitmap k +u boot_size k) / FRAME_SIZE) with (last_reserved k)
    by (unfold last_reserved, FRAME_SIZE; rewrite u32_small; lia).
  assert (0 ≤ last_reserved k) by (unfold last_reserved, FRAME_SIZE; zlia).
  wp_use (mark_used_range k3 U3 (last_reserved k + 1)); [done | lia |].
  cbn. intros _ k4 (Hs4 & U4 & Hr4 & HU4).
  split_and!.
  - do 2 (etrans; [|by apply pmm_step_only]). by eexists _, ph.
  - change (boot_bitmap k) with (bm_lo k1). change (boot_size k) with (bitmap_size (pmm_st k1)).
    etrans; [exact Ha2|]. etrans; [exact (ps_mem _ _ Hs3)|]. exact (ps_mem _ _ Hs4).
  - by destruct Hs4 as [(? & ? & ->) _].
  - by destruct Hs4 as [(? & ? & ->) _].
  - by destruct Hs4 as [(? & ? & ->) _].
  - exists U4. split; [done|]. intros f Hf. rewrite HU4, HU3.
    rewrite elem_of_list_to_set, elem_of_seqZ.
    change (total_frames (pmm_st k3)) with (boot_total k).
    change (mem_st k2) with (mem_st k).
    assert (usable_frame (mem_st k) (Z.max 0 (region_count (mem_st k))) f ↔
            usable_frame (mem_st k) (region_count (mem_st k)) f) as ->.
    { unfold usable_frame. split; intros (r & ? & ?); exists r; (split; [lia | done]). }
    intuition lia.
Qed.
