(* ===== verification/Paging.v ===== *)
(** * paging.c: page directory and page tables

    The tables live in RAM and are both data of the kernel and what the MMU
    walks.  [pt_rep] relates them to two finite maps: the directory (index to
    table address) and the pages (virtual page number to entry); the
    operations are shown to implement insertion, deletion and lookup. *)
From stdpp Require Import prelude gmap list strings.
From Stdlib Require Import Lia ZArith.
From S2P Require Import Prelude Machine State Util Console Memory Pmm.

#[local] Open Scope Z_scope.

Definition PAGE_SIZE : Z := 4096.
Definition PAGE_PRESENT : Z := 0x1.
Definition PAGE_WRITE : Z := 0x2.
Definition PAGE_USER : Z := 0x4.
Definition PAGE_UNMAPPED : Z := 0xFFFFFFFF.
Definition IDENTITY_BYTES : Z := 16 * 1024 * 1024.

(** src/paging.c:17-19. *)
Definition DIR_INDEX (v : Z) : Z := v >>u 22.
Definition TBL_INDEX (v : Z) : Z := (v >>u 12) &u 0x3FF.
Definition FRAME_OF (e : Z) : Z := e &u 0xFFFFF000.

Definition present (e : Z) : bool := negb (Z.land e PAGE_PRESENT =? 0).

(** src/paging.c:33-35; the TLB entry of the page is dropped. *)
Definition flush_tlb_page (virt : Z) : K () := upd_machine (log_io (Invlpg virt)).

(** src/paging.c:37-41. *)
Definition read_cr2 : K Z := on_mach cr2.

(** src/paging.c:45-67; the address 0 is the null pointer. *)
Definition get_table (virt : Z) (create : bool) : K Z :=
  let di := DIR_INDEX virt in
  pd <- paging_g page_directory ;;
  e <- load32 (pd +u 4 * di) ;;
  if present e then
    e <- load32 (pd +u 4 * di) ;;
    ret (FRAME_OF e)
  else if negb create then ret 0
  else
    frame <- pmm_alloc_frame ;;
    if frame =? 0 then ret 0
    else
      iend <- paging_g identity_end ;;
      if iend <=? frame then
        pmm_free_frame frame ;;;
        ret 0
      else
        memset frame 0 PAGE_SIZE ;;;
        store32 (pd +u 4 * di) (frame |u PAGE_PRESENT |u PAGE_WRITE) ;;;
        modify (upd_paging_st (λ s, set_table_count (table_count s +u 1) s)) ;;;
        ret frame.

(** src/paging.c:69-79. *)
Definition paging_map (virt phys flags : Z) : K Z :=
  table <- get_table virt true ;;
  if table =? 0 then ret 0
  else
    let ti := TBL_INDEX virt in
    e <- load32 (table +u 4 * ti) ;;
    when (negb (present e))
      (modify (upd_paging_st (λ s, set_mapped_pages (mapped_pages s +u 1) s))) ;;;
    store32 (table +u 4 * ti) (FRAME_OF phys |u (flags &u 0xFFF) |u PAGE_PRESENT) ;;;
    flush_tlb_page virt ;;;
    ret 1.

(** src/paging.c:81-92. *)
Definition paging_unmap (virt : Z) : K Z :=
  table <- get_table virt false ;;
  if table =? 0 then ret 0
  else
    let ti := TBL_INDEX virt in
    e <- load32 (table +u 4 * ti) ;;
    if negb (present e) then ret 0
    else
      store32 (table +u 4 * ti) 0 ;;;
      modify (upd_paging_st (λ s, set_mapped_pages (mapped_pages s -u 1) s)) ;;;
      flush_tlb_page virt ;;;
      ret 1.

(** src/paging.c:95-103. *)
Definition paging_translate (virt : Z) : K Z :=
  table <- get_table virt false ;;
  if table =? 0 then ret PAGE_UNMAPPED
  else
    entry <- load32 (table +u 4 * TBL_INDEX virt) ;;
    if negb (present entry) then ret PAGE_UNMAPPED
    else ret (FRAME_OF entry |u (virt &u 0xFFF)).

(** src/paging.c:120-125, one page of the identity map. *)
Definition identity_page (addr : Z) : K (option ()) :=
  r <- paging_map addr addr PAGE_WRITE ;;
  if r =? 0 then
    print (lit "FATAL: ran out of frames building the identity map.\n") ;;;
    ret (Some ())
  else ret None.

(** src/paging.c:105-137.  The last step is the inline assembly that loads CR3
    and sets bit 31 of CR0. *)
Definition paging_init : K () :=
  modify (upd_paging_st (set_identity_end IDENTITY_BYTES)) ;;;
  highest <- mem_highest_addr ;;
  iend <- paging_g identity_end ;;
  when (negb (highest =? 0) && (highest <? iend))
    (modify (upd_paging_st (set_identity_end (highest &u ~u (PAGE_SIZE - 1))))) ;;;
  d <- pmm_alloc_frame ;;
  modify (upd_paging_st (set_dir_phys d)) ;;;
  if d =? 0 then print (lit "FATAL: no frame for the page directory.\n")
  else
    modify (upd_paging_st (set_page_directory d)) ;;;
    memset d 0 PAGE_SIZE ;;;
    iend <- paging_g identity_end ;;
    r <- for_find (Z.to_nat (iend / PAGE_SIZE)) 0 (λ i, identity_page (i * PAGE_SIZE)) ;;
    match r with
    | Some _ => ret tt
    | None =>
        d <- paging_g dir_phys ;;
        upd_machine (set_cr true d) ;;;
        modify (upd_paging_st (set_paging_enabled 1))
    end.

(** src/paging.c:140-156. *)
Definition page_fault_handler (err : Z) : K () :=
  addr <- read_cr2 ;;
  print (lit "\n*** PAGE FAULT ***\n") ;;;
  print (lit "  address : ") ;;;
  print_hex addr ;;;
  print (lit "\n  cause   : ") ;;;
  print (if negb (Z.land err 0x1 =? 0) then lit "protection violation" else lit "page not present") ;;;
  print (lit ", ") ;;;
  print (if negb (Z.land err 0x2 =? 0) then lit "on write" else lit "on read") ;;;
  print (lit ", ") ;;;
  print (if negb (Z.land err 0x4 =? 0) then lit "user mode" else lit "kernel mode") ;;;
  when (negb (Z.land err 0x10 =? 0)) (print (lit ", instruction fetch")) ;;;
  print (lit "\n  code    : ") ;;;
  print_hex err ;;;
  print (lit "\n").

(** src/paging.c:158-162, the getters. *)
Definition paging_is_enabled : K Z := paging_g paging_enabled.
Definition paging_dir_phys : K Z := paging_g dir_phys.
Definition paging_identity_end : K Z := paging_g identity_end.
Definition paging_table_count : K Z := paging_g table_count.
Definition paging_mapped_pages : K Z := paging_g mapped_pages.

(** ** Address arithmetic *)
Lemma dir_index_div v : DIR_INDEX v = v / 0x400000.
Proof. unfold DIR_INDEX. by rewrite Z.shiftr_div_pow2 by lia. Qed.
Lemma tbl_index_mod v : TBL_INDEX v = (v / 0x1000) mod 1024.
Proof.
  unfold TBL_INDEX. change 0x3FF with (Z.ones 10). rewrite Z.land_ones by lia.
  by rewrite Z.shiftr_div_pow2 by lia.
Qed.

Lemma frame_of_page x y : x mod 0x1000 = 0 → 0 ≤ y < 0x1000 → 0 ≤ x < 0x100000000 →
  frame_of (x + y) = x.
Proof. intros. unfold frame_of. rewrite land_page by zlia. zlia. Qed.

Lemma frame_of_aligned e : 0 ≤ e < 0x100000000 →
  frame_of e mod 0x1000 = 0 ∧ 0 ≤ frame_of e ≤ e ∧ e < frame_of e + 0x1000.
Proof. intros. unfold frame_of. rewrite land_page by lia. zlia. Qed.

Lemma present_bit e : present e = Z.testbit e 0.
Proof.
  unfold present, PAGE_PRESENT. rewrite <- (Z.shiftr_0_r e) at 1.
  rewrite land_bit by done. by destruct (Z.testbit e 0).
Qed.

(** ** The tables as finite maps *)
Definition page_ok (t : Z) : Prop := t mod 0x1000 = 0 ∧ 0 < t < 0x100000000.

Record pt_rep (ph : gmap Z Z) (dir : Z) (T P : gmap Z Z) : Prop := {
  pt_dir : page_ok dir;
  pt_pde i : 0 ≤ i < 1024 →
    rd32 ph (dir + 4 * i) = match T !! i with Some t => t + 3 | None => 0 end;
  pt_pte i t j : T !! i = Some t → 0 ≤ j < 1024 →
    match P !! (1024 * i + j) with
    | Some e => rd32 ph (t + 4 * j) = e ∧ Z.testbit e 0 = true
    | None => Z.testbit (rd32 ph (t + 4 * j)) 0 = false
    end;
  pt_T i t : T !! i = Some t → 0 ≤ i < 1024 ∧ page_ok t ∧ t ≠ dir;
  pt_inj i j t : T !! i = Some t → T !! j = Some t → i = j;
  pt_P p e : P !! p = Some e → is_Some (T !! (p / 1024))
}.

(** Two distinct page-aligned addresses are a page apart. *)
Lemma page_apart x y : x mod 0x1000 = 0 → y mod 0x1000 = 0 → x ≠ y →
  x + 0x1000 ≤ y ∨ y + 0x1000 ≤ x.
Proof. intros. zlia. Qed.

(** The MMU computes the lookup in [P]. *)
Lemma pt_walk ph dir T P va :
  pt_rep ph dir T P → 0 ≤ va < 0x100000000 →
  mmu_walk ph dir va = (λ e, frame_of e + va mod 0x1000) <$> P !! (va / 0x1000).
Proof.
  intros Hpt Hva. unfold mmu_walk.
  fold (DIR_INDEX va) (TBL_INDEX va). rewrite dir_index_div, tbl_index_mod, land_offset.
  assert (0 ≤ va / 0x400000 < 1024) as Hi by zlia.
  destruct (pt_dir _ _ _ _ Hpt) as [Hd ?].
  assert (frame_of dir = dir) as -> by
    (pose proof (frame_of_page dir 0) as Hfd; rewrite Z.add_0_r in Hfd; apply Hfd; lia).
  rewrite (pt_pde _ _ _ _ Hpt) by done.
  assert (va / 0x1000 = 1024 * (va / 0x400000) + (va / 0x1000) mod 1024) as Hp by zlia.
  destruct (T !! (va / 0x400000)) as [t|] eqn:HT.
  - destruct (pt_T _ _ _ _ Hpt _ _ HT) as (_ & [Ht ?] & _).
    rewrite testbit0_page by done. change (Z.testbit 3 0) with true. cbn iota.
    rewrite frame_of_page by lia.
    pose proof (pt_pte _ _ _ _ Hpt _ _ ((va / 0x1000) mod 1024) HT ltac:(zlia)) as He.
    rewrite <- Hp in He. destruct (P !! (va / 0x1000)) as [e|].
    + destruct He as [-> ->]. done.
    + by rewrite He.
  - rewrite Z.bits_0. destruct (P !! (va / 0x1000)) as [e|] eqn:He; [|done].
    apply (pt_P _ _ _ _ Hpt) in He as [t He].
    replace (va / 0x1000 / 1024) with (va / 0x400000) in He by zlia. congruence.
Qed.

(** Writing the slot of page [p]. *)
Definition set_entry (p e : Z) (P : gmap Z Z) : gmap Z Z :=
  if Z.testbit e 0 then <[p := e]> P else delete p P.

Lemma set_entry_lookup p e P q :
  set_entry p e P !! q =
    if decide (q = p) then (if Z.testbit e 0 then Some e else None) else P !! q.
Proof.
  unfold set_entry. destruct (Z.testbit e 0); case_decide; subst;
    by rewrite ?lookup_insert_eq, ?lookup_insert_ne, ?lookup_delete_eq, ?lookup_delete_ne.
Qed.

Lemma pt_set_slot ph ph' dir T P i t j :
  pt_rep ph dir T P → T !! i = Some t → 0 ≤ j < 1024 →
  (∀ q, ¬ (t + 4 * j ≤ q < t + 4 * j + 4) → rd8 ph' q = rd8 ph q) →
  pt_rep ph' dir T (set_entry (1024 * i + j) (rd32 ph' (t + 4 * j)) P).
Proof.
  intros Hpt HT Hj Hph.
  destruct (pt_T _ _ _ _ Hpt _ _ HT) as (Hi & [Ht ?] & Hne).
  destruct (pt_dir _ _ _ _ Hpt) as [Hd ?].
  split; [apply Hpt | | |apply Hpt|apply Hpt|].
  - intros i' Hi'. rewrite <- (pt_pde _ _ _ _ Hpt) by done. apply rd32_ext.
    intros q Hq. apply Hph. pose proof (page_apart dir t Hd Ht ltac:(done)). lia.
  - intros i' t' j' HT' Hj'. rewrite set_entry_lookup.
    destruct (pt_T _ _ _ _ Hpt _ _ HT') as (Hi' & [Ht' ?] & Hne').
    case_decide as Hp.
    + assert (i' = i ∧ j' = j) as [-> ->] by lia. simplify_eq.
      by destruct (Z.testbit (rd32 ph' (t + 4 * j)) 0) eqn:Hb.
    + replace (rd32 ph' (t' + 4 * j')) with (rd32 ph (t' + 4 * j')).
      { by apply (pt_pte _ _ _ _ Hpt). }
      apply rd32_ext. intros q Hq. symmetry. apply Hph.
      destruct (decide (t = t')) as [<-|Htt].
      * pose proof (pt_inj _ _ _ _ Hpt _ _ _ HT HT') as <-. lia.
      * pose proof (page_apart t t' Ht Ht' Htt). lia.
  - intros p e. rewrite set_entry_lookup. case_decide as Hp.
    + subst p. intros _. replace ((1024 * i + j) / 1024) with i by zlia. by eexists.
    + apply (pt_P _ _ _ _ Hpt).
Qed.

(** Installing a zeroed frame as the table of directory slot [i]. *)
Lemma pt_add_table ph ph' dir T P i f :
  pt_rep ph dir T P → T !! i = None → 0 ≤ i < 1024 → page_ok f → f ≠ dir →
  (∀ i' t, T !! i' = Some t → t ≠ f) →
  (∀ q, ¬ (f ≤ q < f + 0x1000) → ¬ (dir + 4 * i ≤ q < dir + 4 * i + 4) →
        rd8 ph' q = rd8 ph q) →
  (∀ q, f ≤ q < f + 0x1000 → rd8 ph' q = 0) →
  rd32 ph' (dir + 4 * i) = f + 3 →
  pt_rep ph' dir (<[i := f]> T) P.
Proof.
  intros Hpt HTi Hi [Hf ?] Hfd Hfresh Hph Hz Hpde.
  destruct (pt_dir _ _ _ _ Hpt) as [Hd ?].
  pose proof (page_apart f dir Hf Hd Hfd) as Hap.
  split; [by apply Hpt | | | | |].
  - intros i' Hi'. destruct (decide (i = i')) as [<-|Hne].
    + by rewrite lookup_insert_eq.
    + rewrite lookup_insert_ne by done. rewrite <- (pt_pde _ _ _ _ Hpt) by done.
      apply rd32_ext. intros q Hq. apply Hph; lia.
  - intros i' t j HT Hj. destruct (decide (i = i')) as [<-|Hne].
    + rewrite lookup_insert_eq in HT. simplify_eq.
      destruct (P !! (1024 * i + j)) as [e|] eqn:He.
      { apply (pt_P _ _ _ _ Hpt) in He as [t' He].
        replace ((1024 * i + j) / 1024) with i in He by zlia. congruence. }
      assert (rd32 ph' (t + 4 * j) = rd32 ∅ (t + 4 * j)) as ->.
      { apply rd32_ext. intros q Hq. rewrite Hz by lia. done. }
      done.
    + rewrite lookup_insert_ne in HT by done.
      destruct (pt_T _ _ _ _ Hpt _ _ HT) as (Hi' & [Ht ?] & Hne').
      pose proof (page_apart t dir Ht Hd Hne').
      pose proof (page_apart t f Ht Hf ltac:(by eapply Hfresh)).
      replace (rd32 ph' (t + 4 * j)) with (rd32 ph (t + 4 * j)).
      { by apply (pt_pte _ _ _ _ Hpt). }
      apply rd32_ext. intros q Hq. symmetry. apply Hph; lia.
  - intros i' t HT. destruct (decide (i = i')) as [<-|Hne].
    + rewrite lookup_insert_eq in HT. by simplify_eq.
    + rewrite lookup_insert_ne in HT by done. by apply (pt_T _ _ _ _ Hpt).
  - intros i1 i2 t H1 H2.
    destruct (decide (i = i1)) as [<-|]; destruct (decide (i = i2)) as [<-|]; [done| | |];
      rewrite ?lookup_insert_eq, ?lookup_insert_ne in * by done; simplify_eq.
    + by destruct (Hfresh i2 t).
    + by destruct (Hfresh i1 t).
    + by eapply (pt_inj _ _ _ _ Hpt).
  - intros p e He. destruct (decide (i = p / 1024)) as [->|].
    + rewrite lookup_insert_eq. by eexists.
    + rewrite lookup_insert_ne by done. by apply (pt_P _ _ _ _ Hpt p e).
Qed.

(** ** The paging invariant *)
Definition pdir (k : kernel) : Z := page_directory (paging_st k).
Definition iend (k : kernel) : Z := identity_end (paging_st k).

Definition is_table (k : kernel) (T : gmap Z Z) (t : Z) : Prop :=
  t = pdir k ∨ ∃ i, T !! i = Some t.

(** The frames the kernel itself lives on; frame 0 is among them, so that the
    allocator's "0 means none" is never ambiguous. *)
Definition owned (k : kernel) (T : gmap Z Z) (f : Z) : Prop :=
  f = 0 ∨ (∃ a, bm_lo k ≤ a < bm_hi k ∧ f = a / 0x1000) ∨ (∃ t, is_table k T t ∧ f = t / 0x1000).

(** The tables themselves: they represent [T] and [P], and once paging is on,
    [P] is what the MMU uses and it maps the identity window. *)
Record paging_core (k : kernel) (T P : gmap Z Z) : Prop := {
  gc_pt : pt_rep (phys (mach k)) (pdir k) T P;
  gc_end : 0 ≤ iend k ≤ IDENTITY_BYTES ∧ iend k mod 0x1000 = 0;
  gc_on : cr0_pg (mach k) = true → cr3 (mach k) = pdir k ∧
    ∀ p, 0 ≤ p < iend k / 0x1000 → ∃ e, P !! p = Some e ∧ frame_of e = 0x1000 * p
}.

Record paging_inv (k : kernel) (U : gset Z) (T P : gmap Z Z) : Prop := {
  gi_pmm : pmm_rep k U;
  gi_core : paging_core k T P;
  gi_owned f : owned k T f → f ∈ U;
  gi_bitmap : bm_hi k ≤ iend k;
  gi_tables t : is_table k T t →
    t + 0x1000 ≤ iend k ∧ (t + 0x1000 ≤ bm_lo k ∨ bm_hi k ≤ t);
  gi_table_count : table_count (paging_st k) = Z.of_nat (size T);
  gi_mapped : mapped_pages (paging_st k) = Z.of_nat (size P)
}.

Lemma gi_pt k U T P : paging_inv k U T P → pt_rep (phys (mach k)) (pdir k) T P.
Proof. intros Hi. apply (gc_pt _ _ _ (gi_core _ _ _ _ Hi)). Qed.
Lemma gi_end k U T P :
  paging_inv k U T P → 0 ≤ iend k ≤ IDENTITY_BYTES ∧ iend k mod 0x1000 = 0.
Proof. intros Hi. apply (gc_end _ _ _ (gi_core _ _ _ _ Hi)). Qed.

(** What the paging operations may change. *)
Record paging_step (T' : gmap Z Z) (k k' : kernel) : Prop := {
  gs_shape : ∃ tc mp u ph log,
    k' = upd_paging_st (λ s, set_table_count tc (set_mapped_pages mp s))
           (upd_pmm_st (set_used_frames u) (upd_mach (λ m, set_log log (set_phys ph m)) k));
  gs_mem q : ¬ (bm_lo k ≤ q < bm_hi k) → (∀ t, is_table k T' t → ¬ (t ≤ q < t + 0x1000)) →
    rd8 (phys (mach k')) q = rd8 (phys (mach k)) q
}.

Lemma paging_step_statics T' k k' : paging_step T' k k' →
  pdir k' = pdir k ∧ iend k' = iend k ∧ bm_lo k' = bm_lo k ∧ bm_hi k' = bm_hi k ∧
  total_frames (pmm_st k') = total_frames (pmm_st k) ∧
  cr0_pg (mach k') = cr0_pg (mach k) ∧ cr3 (mach k') = cr3 (mach k).
Proof. by intros [(? & ? & ? & ? & ? & ->) _]. Qed.

Lemma paging_step_refl T' k : paging_step T' k k.
Proof.
  split; [|done].
  exists (table_count (paging_st k)), (mapped_pages (paging_st k)), (used_frames (pmm_st k)),
    (phys (mach k)), (io_log (mach k)). by destruct k as [[] ? [] []].
Qed.

Lemma paging_step_trans T1 T2 k1 k2 k3 :
  paging_step T1 k1 k2 → paging_step T2 k2 k3 → T1 ⊆ T2 → paging_step T2 k1 k3.
Proof.
  intros H1 H2 Hsub. pose proof (paging_step_statics _ _ _ H1) as (Hd & _ & Hlo & Hhi & _).
  split.
  - destruct H1 as [(tc & mp & u & ph & lg & ->) _].
    destruct H2 as [(tc' & mp' & u' & ph' & lg' & ->) _].
    by exists tc', mp', u', ph', lg'.
  - intros q Hb Ht. rewrite (gs_mem _ _ _ H2).
    + apply (gs_mem _ _ _ H1); [done|]. intros t [->|[i Hi]].
      * apply Ht. by left.
      * apply Ht. right. exists i. by eapply lookup_weaken.
    + by rewrite Hlo, Hhi.
    + intros t [->|Hi]; apply Ht; [left; done | by right].
Qed.

Lemma pmm_step_paging T' k k' : pmm_step k k' → paging_step T' k k'.
Proof.
  intros [(u & ph & ->) Ha]. split.
  - exists (table_count (paging_st k)), (mapped_pages (paging_st k)), u, ph, (io_log (mach k)).
    by destruct k as [[] ? [] []].
  - intros q Hb _. apply (ao_rd8 _ _ _ Ha). intros (x & Hx & ->). done.
Qed.

Lemma is_table_page k U T P t : paging_inv k U T P → is_table k T t → page_ok t.
Proof.
  intros Hi [->|[i HT]]; [apply (pt_dir _ _ _ _ (gi_pt _ _ _ _ Hi))|].
  by apply (pt_T _ _ _ _ (gi_pt _ _ _ _ Hi)) in HT as (_ & ? & _).
Qed.

(** The tables depend only on the table pages. *)
Lemma pt_rep_ext ph ph' dir T P :
  pt_rep ph dir T P →
  (∀ t q, t = dir ∨ (∃ i, T !! i = Some t) → t ≤ q < t + 0x1000 → rd8 ph' q = rd8 ph q) →
  pt_rep ph' dir T P.
Proof.
  intros Hpt Hph. split; [apply Hpt | | |apply Hpt|apply Hpt|apply Hpt].
  - intros i Hi. rewrite <- (pt_pde _ _ _ _ Hpt) by done. apply rd32_ext.
    intros q Hq. apply (Hph dir); [by left | lia].
  - intros i t j HT Hj. replace (rd32 ph' (t + 4 * j)) with (rd32 ph (t + 4 * j)).
    { by apply (pt_pte _ _ _ _ Hpt). }
    apply rd32_ext. intros q Hq. symmetry. apply (Hph t); [right; by exists i | lia].
Qed.

(** With paging on, the MMU is the lookup in the page map. *)
Lemma mmu_lookup k T P va :
  paging_core k T P → cr0_pg (mach k) = true → 0 ≤ va < 0x100000000 →
  mmu (mach k) va = (λ e, frame_of e + va mod 0x1000) <$> P !! (va / 0x1000).
Proof.
  intros Hi Hpg Hva. unfold mmu. rewrite Hpg.
  destruct (gc_on _ _ _ Hi Hpg) as [-> _]. apply (pt_walk _ _ T); [|done].
  apply (gc_pt _ _ _ Hi).
Qed.

Lemma identity_lookup k T P (P' : gmap Z Z) va :
  paging_core k T P → cr0_pg (mach k) = true → 0 ≤ va < iend k →
  P' !! (va / 0x1000) = P !! (va / 0x1000) →
  (λ e, frame_of e + va mod 0x1000) <$> P' !! (va / 0x1000) = Some va.
Proof.
  intros Hi Hpg Hva ->. destruct (gc_end _ _ _ Hi) as [_ He].
  destruct (gc_on _ _ _ Hi Hpg) as [_ Hid].
  destruct (Hid (va / 0x1000)) as (e & -> & Hf); [zlia|].
  cbn. rewrite Hf. f_equal. zlia.
Qed.

Lemma iend_u32 k T P : paging_core k T P → 0 ≤ iend k < 0x100000000.
Proof. intros Hi. pose proof (gc_end _ _ _ Hi). unfold IDENTITY_BYTES in *. lia. Qed.

Lemma mmu_identity k T P va :
  paging_core k T P → 0 ≤ va < iend k → mmu (mach k) va = Some va.
Proof.
  intros Hi Hva. pose proof (iend_u32 _ _ _ Hi).
  destruct (cr0_pg (mach k)) eqn:Hpg.
  - erewrite mmu_lookup by (done || lia). by eapply identity_lookup.
  - unfold mmu. by rewrite Hpg.
Qed.

(** ** Windows: what the kernel can safely read and write *)
Lemma mmu_on m va : cr0_pg m = true → mmu m va = mmu_walk (phys m) (cr3 m) va.
Proof. unfold mmu. by intros ->. Qed.
Lemma mmu_off m va : cr0_pg m = false → mmu m va = Some va.
Proof. unfold mmu. by intros ->. Qed.

(** Identity-mapped memory outside the tables. *)
Lemma data_window k T P lo hi :
  paging_core k T P → 0 ≤ lo → hi ≤ iend k →
  (∀ t, is_table k T t → t + 0x1000 ≤ lo ∨ hi ≤ t) → window id lo hi (mach k).
Proof.
  intros Hi Hlo Hhi Ht. pose proof (iend_u32 _ _ _ Hi).
  split; [lia | done |]. intros m' [Hpg Hcr Hrd] a Ha.
  destruct (cr0_pg (mach k)) eqn:Hon; [|by apply mmu_off; congruence].
  rewrite mmu_on by congruence. rewrite Hcr.
  destruct (gc_on _ _ _ Hi Hon) as [-> _].
  erewrite (pt_walk _ _ T P).
  - change (id a) with a. eapply identity_lookup; [done..|lia | done].
  - eapply pt_rep_ext; [apply (gc_pt _ _ _ Hi)|].
    intros t q Hist Hq. apply Hrd. intros (x & Hx & ->). cbn in Hq.
    destruct (Ht t Hist); lia.
  - lia.
Qed.

(** The slot of page [p] in its table, when [p] is not an identity page. *)
Lemma slot_window k U T P i t j :
  paging_inv k U T P → T !! i = Some t → 0 ≤ j < 1024 →
  (cr0_pg (mach k) = true → iend k / 0x1000 ≤ 1024 * i + j) →
  window id (t + 4 * j) (t + 4 * j + 4) (mach k).
Proof.
  intros Hi HT Hj Hp. pose proof (gi_core _ _ _ _ Hi) as Hc. pose proof (iend_u32 _ _ _ Hc).
  destruct (gi_tables _ _ _ _ Hi t) as [Hend _]; [right; by exists i|].
  destruct (pt_T _ _ _ _ (gi_pt _ _ _ _ Hi) _ _ HT) as (_ & [Ht ?] & _).
  split; [lia | done |]. intros m' [Hpg Hcr Hrd] a Ha.
  destruct (cr0_pg (mach k)) eqn:Hon; [|by apply mmu_off; congruence].
  specialize (Hp eq_refl). rewrite mmu_on by congruence. rewrite Hcr.
  destruct (gc_on _ _ _ Hc Hon) as [-> _].
  rewrite (pt_walk _ _ T (set_entry (1024 * i + j) (rd32 (phys m') (t + 4 * j)) P)).
  - change (id a) with a. eapply identity_lookup; [done..|lia |]. rewrite set_entry_lookup.
    destruct (gi_end _ _ _ _ Hi) as [_ He]. rewrite decide_False; [done | zlia].
  - eapply pt_set_slot; [apply (gi_pt _ _ _ _ Hi) | done | done |].
    intros q Hq. apply Hrd. intros (x & Hx & ->). cbn in Hq. lia.
  - lia.
Qed.

(** An empty slot of the directory. *)
Lemma pde_window k U T P i :
  paging_inv k U T P → T !! i = None → 0 ≤ i < 1024 →
  window id (pdir k + 4 * i) (pdir k + 4 * i + 4) (mach k).
Proof.
  intros Hi HT Hi'. pose proof (gi_core _ _ _ _ Hi) as Hc. pose proof (iend_u32 _ _ _ Hc). pose proof (gi_pt _ _ _ _ Hi) as Hpt.
  destruct (gi_tables _ _ _ _ Hi (pdir k)) as [Hend _]; [by left|].
  destruct (pt_dir _ _ _ _ Hpt) as [Hd ?].
  split; [lia | done |]. intros m' [Hpg Hcr Hrd] a Ha.
  destruct (cr0_pg (mach k)) eqn:Hon; [|by apply mmu_off; congruence].
  rewrite mmu_on by congruence. rewrite Hcr.
  destruct (gc_on _ _ _ Hc Hon) as [_ Hid].
  assert (mmu (mach k) a = Some a) as Hold by (eapply mmu_identity; [done | lia]).
  rewrite mmu_on in Hold by done. change (id a) with a. rewrite <- Hold.
  destruct (gc_on _ _ _ Hc Hon) as [-> _].
  destruct (Hid (a / 0x1000)) as (e & HP & _); [destruct (gi_end _ _ _ _ Hi); zlia|].
  pose proof (pt_P _ _ _ _ Hpt _ _ HP) as [t HTa].
  replace (a / 0x1000 / 1024) with (a / 0x400000) in HTa by zlia.
  destruct (pt_T _ _ _ _ Hpt _ _ HTa) as (Hir & [Ht ?] & Hne).
  assert (a / 0x400000 ≠ i) as Hnei by congruence.
  assert (frame_of (pdir k) = pdir k) as Hfd.
  { pose proof (frame_of_page (pdir k) 0) as Hx. rewrite Z.add_0_r in Hx. apply Hx; lia. }
  unfold mmu_walk. fold (DIR_INDEX a) (TBL_INDEX a).
  rewrite dir_index_div, tbl_index_mod, Hfd.
  assert (rd32 (phys m') (pdir k + 4 * (a / 0x400000)) =
          rd32 (phys (mach k)) (pdir k + 4 * (a / 0x400000))) as Hpde.
  { apply rd32_ext. intros q Hq. apply Hrd. intros (x & Hx & ->). cbn in Hq. lia. }
  rewrite Hpde, (pt_pde _ _ _ _ Hpt) by done. rewrite HTa, frame_of_page by lia.
  pose proof (page_apart t (pdir k) Ht Hd Hne).
  assert (rd32 (phys m') (t + 4 * ((a / 0x1000) mod 1024)) =
          rd32 (phys (mach k)) (t + 4 * ((a / 0x1000) mod 1024))) as ->; [|done].
  apply rd32_ext. intros q Hq. apply Hrd. intros (x & Hx & ->). cbn in Hq. zlia.
Qed.

(** The allocator's data does not move when only other memory changes. *)
Lemma pmm_rep_ext k k' U :
  pmm_rep k U → pmm_st k' = pmm_st k → window id (bm_lo k') (bm_hi k') (mach k') →
  (∀ q, bm_lo k ≤ q < bm_hi k → rd8 (phys (mach k')) q = rd8 (phys (mach k)) q) →
  pmm_rep k' U.
Proof.
  intros Hr Hst Hw Hq. pose proof (pr_wf _ _ Hr) as Hwf.
  assert (∀ f, 0 ≤ f < 8 * bitmap_size (pmm_st k) → frame_bit k' f = frame_bit k f) as Hbit.
  { intros f Hf. destruct (pmm_wf_words k f Hwf Hf) as (Hlo & Hhi & _).
    unfold frame_bit. rewrite Hst. f_equal. apply vw_ext. intros x Hx. unfold vb.
    apply Hq. unfold bm_lo, bm_hi, id in *. lia. }
  split; [split; [done|..]|..]; rewrite ?Hst.
  - apply (pw_total _ Hwf).
  - apply (pw_size _ Hwf).
  - intros f Hf. pose proof (pw_total _ Hwf). rewrite Hbit by lia. by apply (pw_tail _ Hwf).
  - intros f Hf. pose proof (pmm_total_bound k f Hwf). rewrite Hbit by lia. by apply (pr_bits _ _ Hr).
  - apply (pr_dom _ _ Hr).
  - apply (pr_used _ _ Hr).
Qed.

Lemma paging_window_bitmap k U T P :
  paging_inv k U T P → window id (bm_lo k) (bm_hi k) (mach k).
Proof. intros Hi. apply (pw_window _ (pr_wf _ _ (gi_pmm _ _ _ _ Hi))). Qed.

(** ** Finding and creating a page table *)
Lemma inv_pmm_step k k' U U' T P :
  paging_inv k U T P → pmm_step k k' → pmm_rep k' U' → (∀ f, owned k T f → f ∈ U') →
  paging_inv k' U' T P.
Proof.
  intros Hi Hs Hr Hown. destruct Hs as [(u & ph & ->) Ha].
  pose proof (gi_core _ _ _ _ Hi) as Hc.
  split; [done| |done|exact (gi_bitmap _ _ _ _ Hi)|exact (gi_tables _ _ _ _ Hi)
    |exact (gi_table_count _ _ _ _ Hi)|exact (gi_mapped _ _ _ _ Hi)].
  split; [|exact (gc_end _ _ _ Hc)|exact (gc_on _ _ _ Hc)].
  eapply pt_rep_ext; [apply (gi_pt _ _ _ _ Hi)|]. intros t q Ht Hq.
  apply (ao_rd8 _ _ _ Ha). intros (x & Hx & ->). cbn in Hq.
  destruct (gi_tables _ _ _ _ Hi t) as [_ ?]; [done|]. lia.
Qed.

Lemma inv_grow k k' U U' T P :
  paging_inv k U T P → pmm_step k k' → pmm_rep k' U' → U ⊆ U' → paging_inv k' U' T P.
Proof.
  intros Hi Hs Hr Hsub. eapply inv_pmm_step; [done..|].
  intros f Hf%(gi_owned _ _ _ _ Hi). set_solver.
Qed.

(** No frame can become a page table. *)
Definition no_table_frame (k : kernel) (U : gset Z) : Prop :=
  (∀ f, 0 ≤ f < total_frames (pmm_st k) → f ∈ U) ∨
  (∃ f, least_free U (total_frames (pmm_st k)) f ∧ iend k ≤ f * FRAME_SIZE).

(** A frame that is not in use touches none of the kernel's own memory. *)
Lemma fresh_frame k U T P f :
  paging_inv k U T P → 0 ≤ f < total_frames (pmm_st k) → f ∉ U →
  0 < f ∧ page_ok (f * FRAME_SIZE) ∧
  (f * FRAME_SIZE + 0x1000 ≤ bm_lo k ∨ bm_hi k ≤ f * FRAME_SIZE) ∧
  (∀ t, is_table k T t → t + 0x1000 ≤ f * FRAME_SIZE ∨ f * FRAME_SIZE + 0x1000 ≤ t).
Proof.
  intros Hi Hf0 HU. unfold FRAME_SIZE.
  pose proof (pr_wf _ _ (gi_pmm _ _ _ _ Hi)) as Hwf. pose proof (pw_total _ Hwf).
  assert (∀ g, owned k T g → f ≠ g) as Hno.
  { intros g Hg%(gi_owned _ _ _ _ Hi) ->. done. }
  assert (f ≠ 0) by (apply Hno; by left).
  split_and!; [lia | split; zlia | |].
  - destruct (decide (f * 4096 + 0x1000 ≤ bm_lo k)); [by left|].
    destruct (decide (bm_hi k ≤ f * 4096)); [by right|]. exfalso.
    apply (Hno f); [|done]. right. left.
    exists (Z.max (bm_lo k) (f * 4096)).
    assert (bm_lo k < bm_hi k) by (pose proof (pw_size _ Hwf); unfold bm_hi, bm_lo in *; zlia).
    split; [lia|]. destruct (Z.max_spec (bm_lo k) (f * 4096)) as [[? ->]|[? ->]]; zlia.
  - intros t Ht. pose proof (is_table_page _ _ _ _ _ Hi Ht) as [Ht0 ?].
    destruct (decide (t = f * 4096)) as [->|Hne]; [|zlia]. exfalso.
    apply (Hno f); [|done]. right. right. exists (f * 4096). split; [done | zlia].
Qed.

(** A state whose tables are right, and whose bitmap was left alone, satisfies
    the invariant again. *)
Lemma inv_rebuild k k' U T P T' P' :
  paging_inv k U T P → paging_core k' T' P' →
  pmm_st k' = pmm_st k → iend k' = iend k → pdir k' = pdir k →
  (∀ q, bm_lo k ≤ q < bm_hi k → rd8 (phys (mach k')) q = rd8 (phys (mach k)) q) →
  (∀ t, is_table k' T' t → t + 0x1000 ≤ iend k ∧ (t + 0x1000 ≤ bm_lo k ∨ bm_hi k ≤ t) ∧
        t / 0x1000 ∈ U) →
  table_count (paging_st k') = Z.of_nat (size T') →
  mapped_pages (paging_st k') = Z.of_nat (size P') →
  paging_inv k' U T' P'.
Proof.
  intros Hi Hc Hpm Hie Hpd Hq Ht Htc Hmp.
  assert (bm_lo k' = bm_lo k ∧ bm_hi k' = bm_hi k) as [Hlo Hhi]
    by (unfold bm_lo, bm_hi; by rewrite Hpm).
  pose proof (win_range _ _ _ _ (paging_window_bitmap _ _ _ _ Hi)) as Hrng.
  pose proof (gi_bitmap _ _ _ _ Hi).
  split; [| done | | | | done | done].
  - eapply pmm_rep_ext; [apply (gi_pmm _ _ _ _ Hi) | done | | done].
    eapply data_window; [done | lia | lia |]. intros t Hist.
    destruct (Ht t Hist) as (_ & ? & _). lia.
  - intros f [->|[(a & Ha & ->)|(t & Hist & ->)]].
    + apply (gi_owned _ _ _ _ Hi). by left.
    + apply (gi_owned _ _ _ _ Hi). right. left. exists a. split; [lia | done].
    + by apply Ht.
  - lia.
  - intros t Hist. destruct (Ht t Hist) as (? & ? & _). lia.
Qed.

Lemma table_facts k U T P t : paging_inv k U T P → is_table k T t →
  t + 0x1000 ≤ iend k ∧ (t + 0x1000 ≤ bm_lo k ∨ bm_hi k ≤ t) ∧ t / 0x1000 ∈ U.
Proof.
  intros Hi Ht. destruct (gi_tables _ _ _ _ Hi t Ht). split_and!; [done..|].
  apply (gi_owned _ _ _ _ Hi). right. right. by exists t.
Qed.

(** Writing memory the kernel does not own keeps the invariant. *)
Lemma inv_write k U T P lo hi ph :
  paging_inv k U T P → agrees_outside (image id lo hi) (mach k) (set_phys ph (mach k)) →
  (hi ≤ bm_lo k ∨ bm_hi k ≤ lo) →
  (∀ t, is_table k T t → t + 0x1000 ≤ lo ∨ hi ≤ t) →
  paging_inv (upd_mach (set_phys ph) k) U T P.
Proof.
  intros Hi [_ _ Hrd] Hbm Ht. pose proof (gi_core _ _ _ _ Hi) as Hc.
  assert (∀ q, ¬ (lo ≤ q < hi) → rd8 ph q = rd8 (phys (mach k)) q) as Hph.
  { intros q Hq. apply Hrd. intros (x & Hx & ->). done. }
  eapply inv_rebuild; [done| |done..| | |apply (gi_table_count _ _ _ _ Hi)|apply (gi_mapped _ _ _ _ Hi)].
  - split; [|exact (gc_end _ _ _ Hc)|exact (gc_on _ _ _ Hc)].
    eapply pt_rep_ext; [apply (gc_pt _ _ _ Hc)|]. intros t q Hist Hq. apply Hph.
    destruct (Ht t Hist); lia.
  - intros q Hq. apply Hph. lia.
  - intros t Hist. by eapply table_facts.
Qed.

Lemma table_word k U T P i t j :
  paging_inv k U T P → T !! i = Some t → 0 ≤ j < 1024 →
  t +u 4 * j = t + 4 * j ∧ 0 < t ∧ t + 4 * j + 4 ≤ iend k.
Proof.
  intros Hi HT Hj. pose proof (iend_u32 _ _ _ (gi_core _ _ _ _ Hi)).
  destruct (gi_tables _ _ _ _ Hi t) as [Hend _]; [right; by exists i|].
  destruct (pt_T _ _ _ _ (gi_pt _ _ _ _ Hi) _ _ HT) as (_ & [Ht ?] & _).
  rewrite u32_small; lia.
Qed.

Lemma pde_word k U T P i :
  paging_inv k U T P → 0 ≤ i < 1024 →
  pdir k +u 4 * i = pdir k + 4 * i ∧ 0 < pdir k ∧ pdir k + 4 * i + 4 ≤ iend k.
Proof.
  intros Hi Hi'. pose proof (iend_u32 _ _ _ (gi_core _ _ _ _ Hi)).
  destruct (gi_tables _ _ _ _ Hi (pdir k)) as [Hend _]; [by left|].
  destruct (pt_dir _ _ _ _ (gi_pt _ _ _ _ Hi)) as [Ht ?].
  rewrite u32_small; lia.
Qed.

(** Reading a word of the identity window. *)
Lemma wp_load_ident k U T P a (Q : Z → kernel → Prop) :
  paging_inv k U T P → 0 ≤ a → a + 4 ≤ iend k →
  Q (rd32 (phys (mach k)) a) k → wp (load32 a) Q k.
Proof.
  intros Hi ?? HQ. pose proof (gi_core _ _ _ _ Hi) as Hc. pose proof (iend_u32 _ _ _ Hc).
  apply wp_load32_id; [|lia|lia|done]. intros x ?. eapply mmu_identity; [done | lia].
Qed.

Lemma get_table_found k U T P virt c t (Q : Z → kernel → Prop) :
  paging_inv k U T P → 0 ≤ virt < 0x100000000 → T !! (virt / 0x400000) = Some t →
  Q t k → wp (get_table virt c) Q k.
Proof.
  intros Hi Hv HT HQ. unfold get_table, paging_g. rewrite dir_index_div.
  assert (0 ≤ virt / 0x400000 < 1024) as Hdi by zlia.
  destruct (pde_word _ _ _ _ _ Hi Hdi) as (Heq & ? & ?).
  destruct (pt_T _ _ _ _ (gi_pt _ _ _ _ Hi) _ _ HT) as (_ & [Ht ?] & _).
  wp_go. fold (pdir k). rewrite Heq. eapply wp_load_ident; [done | lia | lia|].
  rewrite (pt_pde _ _ _ _ (gi_pt _ _ _ _ Hi)), HT by done.
  rewrite present_bit, testbit0_page by done. change (Z.testbit 3 0) with true. cbn iota.
  wp_go. eapply wp_load_ident; [done | lia | lia|].
  rewrite (pt_pde _ _ _ _ (gi_pt _ _ _ _ Hi)), HT by done. wp_go.
  change (FRAME_OF (t + 3)) with (frame_of (t + 3)). by rewrite frame_of_page by lia.
Qed.

Lemma get_table_absent k U T P virt (Q : Z → kernel → Prop) :
  paging_inv k U T P → 0 ≤ virt < 0x100000000 → T !! (virt / 0x400000) = None →
  Q 0 k → wp (get_table virt false) Q k.
Proof.
  intros Hi Hv HT HQ. unfold get_table, paging_g. rewrite dir_index_div.
  assert (0 ≤ virt / 0x400000 < 1024) as Hdi by zlia.
  destruct (pde_word _ _ _ _ _ Hi Hdi) as (Heq & ? & ?).
  wp_go. fold (pdir k). rewrite Heq. eapply wp_load_ident; [done | lia | lia|].
  rewrite (pt_pde _ _ _ _ (gi_pt _ _ _ _ Hi)), HT by done.
  rewrite present_bit, Z.bits_0. by wp_go.
Qed.

Lemma size_insert_None (T : gmap Z Z) i t :
  T !! i = None → Z.of_nat (size (<[i := t]> T)) = Z.of_nat (size T) + 1.
Proof. intros. rewrite map_size_insert_None by done. lia. Qed.

Lemma keys_size (T : gmap Z Z) n :
  (∀ i t, T !! i = Some t → 0 ≤ i < n) → Z.of_nat (size T) ≤ Z.max 0 n.
Proof.
  intros HT. rewrite <- size_dom.
  apply (range_size (dom T) n). intros i [t Hi]%elem_of_dom. eauto.
Qed.

Lemma table_size k U T P : paging_inv k U T P → Z.of_nat (size T) ≤ 1024.
Proof.
  intros Hi. pose proof (keys_size T 1024). apply H. intros i t HT.
  by apply (pt_T _ _ _ _ (gi_pt _ _ _ _ Hi)) in HT as [? _].
Qed.

Lemma pages_size k U T P : paging_inv k U T P → Z.of_nat (size P) ≤ 0x100000.
Proof.
  intros Hi. pose proof (keys_size P 0x100000). apply H. intros p e HP.
  apply (pt_P _ _ _ _ (gi_pt _ _ _ _ Hi)) in HP as [t HT].
  apply (pt_T _ _ _ _ (gi_pt _ _ _ _ Hi)) in HT as [? _]. zlia.
Qed.

(** The state after the new table [r] is zeroed and entered in slot [i]. *)
Lemma inv_add_table k U T P i r ph tc :
  paging_inv k U T P → T !! i = None → 0 ≤ i < 1024 → page_ok r →
  r + 0x1000 ≤ iend k → (r + 0x1000 ≤ bm_lo k ∨ bm_hi k ≤ r) →
  (∀ t, is_table k T t → t + 0x1000 ≤ r ∨ r + 0x1000 ≤ t) → r / 0x1000 ∈ U →
  (∀ q, ¬ (r ≤ q < r + 0x1000) → ¬ (pdir k + 4 * i ≤ q < pdir k + 4 * i + 4) →
        rd8 ph q = rd8 (phys (mach k)) q) →
  (∀ q, r ≤ q < r + 0x1000 → rd8 ph q = 0) →
  rd32 ph (pdir k + 4 * i) = r + 3 → tc = table_count (paging_st k) + 1 →
  let k' := upd_paging_st (set_table_count tc) (upd_mach (set_phys ph) k) in
  paging_inv k' U (<[i := r]> T) P ∧ paging_step (<[i := r]> T) k k'.
Proof.
  intros Hi HT Hir Hr Hend Hbm Htab HU Hph Hz Hpde Htc k'.
  pose proof (gi_core _ _ _ _ Hi) as Hc.
  split; [|split].
  - eapply (inv_rebuild k _ U T P); [done| |done..| | | |exact (gi_mapped _ _ _ _ Hi)].
    + split; [|exact (gc_end _ _ _ Hc)|intros Hon; exact (gc_on _ _ _ Hc Hon)].
      assert (∀ t, is_table k T t → r ≠ t) as Hne by (intros t Ht; apply Htab in Ht; lia).
      apply (pt_add_table (phys (mach k))); try done.
      * apply (gc_pt _ _ _ Hc).
      * apply Hne. by left.
      * intros i' t Ht. apply not_eq_sym, Hne. right. by exists i'.
    + intros q Hq. apply Hph; [lia|].
      destruct (gi_tables _ _ _ _ Hi (pdir k)) as [_ ?]; [by left | lia].
    + intros t [->|[i' Hi']]; [apply (table_facts k U T P); [done | by left]|].
      destruct (decide (i = i')) as [<-|Hne].
      * rewrite lookup_insert_eq in Hi'. by simplify_eq.
      * rewrite lookup_insert_ne in Hi' by done.
        apply (table_facts k U T P); [done | right; by exists i'].
    + cbn. rewrite Htc, (gi_table_count _ _ _ _ Hi). by rewrite size_insert_None.
  - exists tc, (mapped_pages (paging_st k)), (used_frames (pmm_st k)), ph, (io_log (mach k)).
    by destruct k as [[] ? [] []].
  - intros q Hq Hqt. apply Hph.
    + apply (Hqt r). right. exists i. by rewrite lookup_insert_eq.
    + pose proof (Hqt (pdir k) ltac:(by left)). lia.
Qed.

(** src/paging.c:63-66: zero the frame, install it, count it. *)
Lemma install_table k U T P i r :
  paging_inv k U T P → T !! i = None → 0 ≤ i < 1024 → page_ok r →
  r + 0x1000 ≤ iend k → (r + 0x1000 ≤ bm_lo k ∨ bm_hi k ≤ r) →
  (∀ t, is_table k T t → t + 0x1000 ≤ r ∨ r + 0x1000 ≤ t) → r / 0x1000 ∈ U →
  wp (memset r 0 PAGE_SIZE ;;;
      store32 (pdir k +u 4 * i) (r |u PAGE_PRESENT |u PAGE_WRITE) ;;;
      modify (upd_paging_st (λ s, set_table_count (table_count s +u 1) s)) ;;;
      ret r)
    (λ a k', a = r ∧ paging_inv k' U (<[i := r]> T) P ∧ paging_step (<[i := r]> T) k k') k.
Proof.
  intros Hi HT Hir [Hr Hrr] Hend Hbm Htab HU. wp_go.
  pose proof (gi_core _ _ _ _ Hi) as Hc. pose proof (iend_u32 _ _ _ Hc) as Hie.
  destruct (pde_word _ _ _ _ _ Hi Hir) as (Heq & Hpd & Hpd2). rewrite Heq.
  eapply (memset_window id r (r + 0x1000));
    [eapply data_window; [done|lia|lia|done] | done | lia | unfold PAGE_SIZE; lia |].
  unfold PAGE_SIZE. change 4096 with 0x1000. intros m1 Ha1 [ph1 ->] Hz. wp_go.
  pose proof (inv_write _ _ _ _ r (r + 0x1000) ph1 Hi Ha1 ltac:(lia) Htab) as Hi1.
  eapply (wp_store32 id (pdir k + 4 * i) (pdir k + 4 * i + 4));
    [exact (pde_window (upd_mach (set_phys ph1) k) U T P i Hi1 HT Hir) | lia | lia |].
  intros m2 Hst. pose proof (stored_vw_same _ _ _ _ _ Hst) as Hv.
  pose proof Hst as [[ph2 ->] [_ _ Ho2] _]. wp_go. split; [done|].
  assert (∀ q, ¬ (pdir k + 4 * i ≤ q < pdir k + 4 * i + 4) → rd8 ph2 q = rd8 ph1 q) as Hph2.
  { intros q Hq. apply Ho2. intros (x & Hx & ->). done. }
  assert (r + 0x1000 ≤ pdir k ∨ pdir k + 0x1000 ≤ r) as Hd
    by (destruct (Htab (pdir k)); [by left | lia | lia]).
  eapply (inv_add_table k U T P i r ph2); try done.
  - intros q Hq1 Hq2. rewrite Hph2 by done. apply (ao_rd8 _ _ _ Ha1).
    intros (x & Hx & ->). done.
  - intros q Hq. rewrite Hph2 by lia. by apply Hz.
  - unfold PAGE_PRESENT, PAGE_WRITE in Hv.
    rewrite <- Z.lor_assoc in Hv. change (Z.lor 0x1 0x2) with 3 in Hv.
    rewrite lor_page, u32_small in Hv by (done || zlia). exact Hv.
  - cbn. pose proof (table_size _ _ _ _ Hi). rewrite (gi_table_count _ _ _ _ Hi).
    rewrite u32_small; lia.
Qed.

Lemma add_remove (U : gset Z) f : f ∉ U → ({[f]} ∪ U) ∖ {[f]} = U.
Proof. intros. apply set_eq. intros x. destruct (decide (x = f)); set_solver. Qed.

(** What [get_table(virt, 1)] does: the table is there, or the lowest free
    frame becomes the table, or no frame can. *)
Definition get_table_post (k : kernel) (U : gset Z) (T P : gmap Z Z) (i r : Z) (k' : kernel) : Prop :=
  (T !! i = Some r ∧ k' = k) ∨
  (∃ f, T !! i = None ∧ least_free U (total_frames (pmm_st k)) f ∧ r = f * FRAME_SIZE ∧
     paging_inv k' ({[f]} ∪ U) (<[i := r]> T) P ∧ paging_step (<[i := r]> T) k k') ∨
  (T !! i = None ∧ r = 0 ∧ no_table_frame k U ∧ paging_inv k' U T P ∧ paging_step T k k').

Lemma get_table_create k U T P virt :
  paging_inv k U T P → 0 ≤ virt < 0x100000000 →
  wp (get_table virt true) (get_table_post k U T P (virt / 0x400000)) k.
Proof.
  intros Hi Hv. destruct (T !! (virt / 0x400000)) as [t|] eqn:HT.
  { eapply get_table_found; [done..|]. by left. }
  unfold get_table, paging_g. rewrite dir_index_div. set (i := virt / 0x400000) in *.
  assert (0 ≤ i < 1024) as Hdi by (unfold i; zlia).
  destruct (pde_word _ _ _ _ _ Hi Hdi) as (Heq & ? & ?).
  wp_go. fold (pdir k). rewrite Heq. eapply wp_load_ident; [done | lia | lia |].
  rewrite (pt_pde _ _ _ _ (gi_pt _ _ _ _ Hi)), HT by done.
  rewrite present_bit, Z.bits_0. cbn [negb]. wp_go.
  wp_use (pmm_alloc_frame_rep k U); [apply (gi_pmm _ _ _ _ Hi)|].
  intros r k1 [(f & Hf & -> & Hr1 & Hs1)|(-> & -> & Hall)].
  2:{ wp_go. right. right. split_and!; try done; [by left | apply paging_step_refl]. }
  destruct (fresh_frame _ _ _ _ _ Hi (proj1 Hf) (proj1 (proj2 Hf))) as (Hpos & Hok & Hbm & Htab).
  pose proof (inv_grow _ _ _ _ _ _ Hi Hs1 Hr1 (union_subseteq_r _ _)) as Hi1.
  unfold FRAME_SIZE in *. destruct (Z.eqb_spec (f * 4096) 0) as [?|_]; [lia|].
  destruct (paging_step_statics _ _ _ (pmm_step_paging T _ _ Hs1))
    as (Hpd & Hie & Hlo & Hhi & _).
  wp_go. fold (iend k1). rewrite Hie.
  assert (f * 4096 / 4096 = f) as Hdiv by zlia.
  destruct (Z.leb_spec (iend k) (f * 4096)) as [Hge|Hlt].
  - wp_go. wp_use (pmm_free_frame_rep k1 ({[f]} ∪ U)); [done | lia |].
    cbn. intros _ k2 [Hr2 Hs2]. wp_go. unfold FRAME_SIZE in Hr2. rewrite Hdiv in Hr2.
    rewrite add_remove in Hr2 by apply Hf.
    right. right. assert (pmm_step k k2) as Hs by (by etrans).
    split_and!; [done | done | right; by exists f | | by apply pmm_step_paging].
    by eapply (inv_grow k k2 U U).
  - rewrite <- Heq, <- Hpd. wp_use (install_table k1 ({[f]} ∪ U) T P i); try done.
    + destruct (gi_end _ _ _ _ Hi) as [_ ?]. rewrite Hie. zlia.
    + by rewrite Hlo, Hhi.
    + intros t [->|Ht]; apply Htab; [by left | by right].
    + change 0x1000 with 4096. rewrite Hdiv. by apply elem_of_union_l, elem_of_singleton.
    + cbn. intros a k2 (-> & Hi2 & Hs2). right. left. exists f. split_and!; try done.
      eapply paging_step_trans; [by apply (pmm_step_paging T)|done|].
      by apply insert_subseteq.
Qed.

(** ** Mapping and unmapping one page *)
Definition map_entry (phys flags : Z) : Z := FRAME_OF phys |u (flags &u 0xFFF) |u PAGE_PRESENT.

Lemma map_entry_spec phys flags :
  0 ≤ phys < 0x100000000 → 0 ≤ flags →
  Z.testbit (map_entry phys flags) 0 = true ∧ 0 ≤ map_entry phys flags < 0x100000000 ∧
  frame_of (map_entry phys flags) = phys - phys mod 0x1000.
Proof.
  intros Hp Hf. unfold map_entry, FRAME_OF. rewrite land_page, land_offset by done.
  assert (0 ≤ Z.lor (flags mod 0x1000) PAGE_PRESENT < 0x1000) as Hl
    by (apply (lor_bound 12); [done | change (2 ^ 12) with 0x1000; zlia | done]).
  assert ((phys - phys mod 0x1000) mod 0x1000 = 0) as Hm by zlia.
  rewrite <- Z.lor_assoc, lor_page, testbit0_page, frame_of_page by (done || zlia).
  split_and!; [|zlia|zlia|done]. by rewrite Z.lor_spec, orb_true_r.
Qed.

Lemma set_entry_size p e (P : gmap Z Z) :
  Z.of_nat (size (set_entry p e P)) = Z.of_nat (size P)
    + (if Z.testbit e 0 then 1 else 0) - (if P !! p then 1 else 0).
Proof.
  unfold set_entry. destruct (Z.testbit e 0).
  - destruct (P !! p) eqn:HP.
    + rewrite map_size_insert_Some by (by eexists). lia.
    + rewrite map_size_insert_None by done. lia.
  - destruct (P !! p) eqn:HP.
    + assert (size P ≠ 0)%nat by (intros ?%map_size_empty_inv; by subst).
      rewrite map_size_delete_Some by (by eexists). lia.
    + rewrite map_size_delete_None by done. lia.
Qed.

(** The state after the slot of page [p] is overwritten. *)
Lemma inv_set_slot k U T P i t j ph mp log :
  paging_inv k U T P → T !! i = Some t → 0 ≤ j < 1024 →
  (cr0_pg (mach k) = true → iend k / 0x1000 ≤ 1024 * i + j) →
  (∀ q, ¬ (t + 4 * j ≤ q < t + 4 * j + 4) → rd8 ph q = rd8 (phys (mach k)) q) →
  let P' := set_entry (1024 * i + j) (rd32 ph (t + 4 * j)) P in
  mp = Z.of_nat (size P') →
  let k' := upd_paging_st (set_mapped_pages mp)
              (upd_mach (λ m, set_log log (set_phys ph m)) k) in
  paging_inv k' U T P' ∧ paging_step T k k'.
Proof.
  intros Hi HT Hj Hp Hph P' Hmp k'. pose proof (gi_core _ _ _ _ Hi) as Hc.
  assert (is_table k T t) as Hist by (right; by exists i).
  destruct (gi_tables _ _ _ _ Hi t Hist) as [Hte Htb].
  split; [|split].
  - eapply (inv_rebuild k _ U T P); [done| |done..| | |exact (gi_table_count _ _ _ _ Hi)|done].
    + split; [|exact (gc_end _ _ _ Hc)|].
      * eapply pt_set_slot; [apply (gc_pt _ _ _ Hc)|done..].
      * intros Hon. destruct (gc_on _ _ _ Hc Hon) as [Hcr Hid]. split; [done|].
        intros p Hpr. specialize (Hp Hon). unfold P'. rewrite set_entry_lookup.
        change (iend k') with (iend k) in Hpr. rewrite decide_False by lia. by apply Hid.
    + intros q Hq. apply Hph. lia.
    + intros t' Ht'. by apply (table_facts k U T P).
  - exists (table_count (paging_st k)), mp, (used_frames (pmm_st k)), ph, log.
    by destruct k as [[] ? [] []].
  - intros q Hq Hqt. apply Hph. specialize (Hqt t Hist). lia.
Qed.

(** The TLB entry of the page at [virt] was dropped last: after the change of
    the table, not before it. *)
Definition flushed (virt : Z) (k : kernel) : Prop := head (io_log (mach k)) = Some (Invlpg virt).

Definition paging_map_post (k : kernel) (U : gset Z) (T P : gmap Z Z) (virt phys flags : Z)
    (r : Z) (k' : kernel) : Prop :=
  let i := virt / 0x400000 in
  (r = 1 ∧ flushed virt k' ∧ ∃ U' T',
     ((is_Some (T !! i) ∧ U' = U ∧ T' = T) ∨
      (∃ f, T !! i = None ∧ least_free U (total_frames (pmm_st k)) f ∧
            U' = {[f]} ∪ U ∧ T' = <[i := f * FRAME_SIZE]> T)) ∧
     paging_inv k' U' T' (<[virt / 0x1000 := map_entry phys flags]> P) ∧
     paging_step T' k k') ∨
  (r = 0 ∧ T !! i = None ∧ no_table_frame k U ∧ paging_inv k' U T P ∧ paging_step T k k').

(** Everything after the call of [get_table]. *)
Lemma paging_map_slot k U T P virt phys flags t (Q : Z → kernel → Prop) :
  paging_inv k U T P → 0 ≤ virt < 0x100000000 → 0 ≤ phys < 0x100000000 → 0 ≤ flags →
  (cr0_pg (mach k) = true → iend k ≤ virt) → T !! (virt / 0x400000) = Some t →
  (∀ k', paging_inv k' U T (<[virt / 0x1000 := map_entry phys flags]> P) →
         paging_step T k k' → flushed virt k' → Q 1 k') →
  wp (e <- load32 (t +u 4 * TBL_INDEX virt) ;;
      when (negb (present e))
        (modify (upd_paging_st (λ s, set_mapped_pages (mapped_pages s +u 1) s))) ;;;
      store32 (t +u 4 * TBL_INDEX virt) (map_entry phys flags) ;;;
      flush_tlb_page virt ;;; ret 1) Q k.
Proof.
  intros Hi Hv Hph Hfl Hon HT HQ. rewrite tbl_index_mod.
  set (i := virt / 0x400000) in *. set (j := (virt / 0x1000) mod 1024).
  assert (0 ≤ j < 1024) as Hj by (unfold j; zlia).
  assert (virt / 0x1000 = 1024 * i + j) as Hp by (unfold i, j; zlia).
  destruct (table_word _ _ _ _ _ _ _ Hi HT Hj) as (Heq & Ht0 & Htend). rewrite Heq.
  destruct (map_entry_spec phys flags Hph Hfl) as (Hb & Hr & _).
  assert (cr0_pg (mach k) = true → iend k / 0x1000 ≤ 1024 * i + j) as Hslot
    by (intros ?%Hon; rewrite <- Hp; zlia).
  wp_go. eapply wp_load_ident; [done | lia | lia |].
  pose proof (pt_pte _ _ _ _ (gi_pt _ _ _ _ Hi) _ _ j HT Hj) as Hpte. rewrite <- Hp in Hpte.
  rewrite present_bit. pose proof (pages_size _ _ _ _ Hi) as Hps.
  assert (∀ mp k1, k1 = upd_paging_st (set_mapped_pages mp) k →
    mp = Z.of_nat (size (<[virt / 0x1000 := map_entry phys flags]> P)) →
    wp (store32 (t + 4 * j) (map_entry phys flags) ;;; flush_tlb_page virt ;;; ret 1) Q k1) as Hrest.
  { intros mp k1 -> Hmp. wp_go.
    eapply (wp_store32 id (t + 4 * j) (t + 4 * j + 4));
      [exact (slot_window k U T P i t j Hi HT Hj Hslot) | lia | lia |].
    intros m' Hst. pose proof (stored_vw_same _ _ _ _ _ Hst) as Hv'.
    rewrite u32_small in Hv' by done. pose proof Hst as [[ph2 ->] [_ _ Ho] _].
    assert (rd32 ph2 (t + 4 * j) = map_entry phys flags) as Hv2 by exact Hv'.
    unfold flush_tlb_page, upd_machine. wp_go.
    destruct (inv_set_slot k U T P i t j ph2 mp (Invlpg virt :: io_log (mach k)) Hi HT Hj Hslot)
      as [Hi' Hs'].
    - intros q Hq. apply Ho. intros (x & Hx & ->). done.
    - rewrite Hv2, <- Hp. unfold set_entry. by rewrite Hb.
    - rewrite Hv2, <- Hp in Hi'. unfold set_entry in Hi'. rewrite Hb in Hi'. by apply HQ. }
  destruct (P !! (virt / 0x1000)) as [e|] eqn:HP.
  - destruct Hpte as [-> ->]. cbn [negb]. unfold when. wp_go.
    rewrite <- !wp_bind. apply (Hrest (mapped_pages (paging_st k))).
    + by destruct k as [? ? ? []].
    + rewrite (gi_mapped _ _ _ _ Hi). by rewrite map_size_insert_Some by (by eexists).
  - rewrite Hpte. cbn [negb]. unfold when. wp_go. rewrite <- !wp_bind.
    apply (Hrest (mapped_pages (paging_st k) +u 1)); [done|].
    rewrite (gi_mapped _ _ _ _ Hi), map_size_insert_None by done. rewrite u32_small; lia.
Qed.

Lemma paging_map_rep k U T P virt phys flags :
  paging_inv k U T P → 0 ≤ virt < 0x100000000 → 0 ≤ phys < 0x100000000 → 0 ≤ flags →
  (cr0_pg (mach k) = true → iend k ≤ virt) →
  wp (paging_map virt phys flags) (paging_map_post k U T P virt phys flags) k.
Proof.
  intros Hi Hv Hph Hfl Hon. unfold paging_map, paging_map_post. wp_go.
  wp_use get_table_create; [done | done |].
  set (i := virt / 0x400000). intros r k1 [[HT ->]|[(f & HT & Hf & -> & Hi1 & Hs1)|(HT & -> & Hnt & Hi1 & Hs1)]].
  - destruct (pt_T _ _ _ _ (gi_pt _ _ _ _ Hi) _ _ HT) as (_ & [_ ?] & _).
    destruct (Z.eqb_spec r 0); [lia|].
    eapply paging_map_slot; [done..|]. intros k2 Hi2 Hs2 Hfl2. left. do 2 (split; [done|]).
    exists U, T. split_and!; [left; split_and!; [by eexists|done..] | done | done].
  - destruct (fresh_frame _ _ _ _ _ Hi (proj1 Hf) (proj1 (proj2 Hf))) as (? & [_ ?] & _).
    destruct (Z.eqb_spec (f * FRAME_SIZE) 0); [lia|].
    destruct (paging_step_statics _ _ _ Hs1) as (_ & Hie & _ & _ & _ & Hpg & _).
    eapply paging_map_slot; [done..| |by rewrite lookup_insert_eq|].
    + by rewrite Hie, Hpg.
    + intros k2 Hi2 Hs2 Hfl2. left. do 2 (split; [done|]). eexists _, _. split_and!; [right| |].
      * by exists f.
      * done.
      * by eapply paging_step_trans.
  - wp_go. by right.
Qed.

(** [paging_translate] is the MMU's walk. *)
Lemma paging_translate_spec k U T P virt (Q : Z → kernel → Prop) :
  paging_inv k U T P → 0 ≤ virt < 0x100000000 →
  Q (match P !! (virt / 0x1000) with
     | Some e => frame_of e + virt mod 0x1000
     | None => PAGE_UNMAPPED end) k →
  wp (paging_translate virt) Q k.
Proof.
  intros Hi Hv HQ. unfold paging_translate. wp_go. rewrite tbl_index_mod.
  assert (virt / 0x1000 = 1024 * (virt / 0x400000) + (virt / 0x1000) mod 1024) as Hp by zlia.
  destruct (T !! (virt / 0x400000)) as [t|] eqn:HT.
  - eapply get_table_found; [done..|].
    destruct (table_word _ _ _ _ _ _ ((virt / 0x1000) mod 1024) Hi HT ltac:(zlia)) as (Heq & ? & ?).
    destruct (Z.eqb_spec t 0); [lia|]. wp_go. rewrite Heq.
    eapply wp_load_ident; [done | zlia | lia |].
    pose proof (pt_pte _ _ _ _ (gi_pt _ _ _ _ Hi) _ _ ((virt / 0x1000) mod 1024) HT ltac:(zlia)) as He.
    rewrite <- Hp in He. rewrite present_bit. destruct (P !! (virt / 0x1000)) as [e|].
    + destruct He as [<- ->]. cbn [negb]. wp_go. rewrite land_offset.
      pose proof (frame_of_aligned (rd32 (phys (mach k)) (t + 4 * ((virt / 0x1000) mod 1024)))
        ltac:(auto with kernel)) as (Hal & _).
      change FRAME_OF with frame_of. rewrite lor_page by (done || zlia). done.
    + rewrite He. cbn [negb]. by wp_go.
  - eapply get_table_absent; [done..|]. rewrite Z.eqb_refl. wp_go.
    destruct (P !! (virt / 0x1000)) as [e|] eqn:HP; [|done].
    apply (pt_P _ _ _ _ (gi_pt _ _ _ _ Hi)) in HP as [t HT'].
    replace (virt / 0x1000 / 1024) with (virt / 0x400000) in HT' by zlia. congruence.
Qed.

(** [paging_unmap] deletes the page, if it is mapped. *)
Lemma paging_unmap_rep k U T P virt :
  paging_inv k U T P → 0 ≤ virt < 0x100000000 → (cr0_pg (mach k) = true → iend k ≤ virt) →
  wp (paging_unmap virt) (λ r k',
    (is_Some (P !! (virt / 0x1000)) ∧ r = 1 ∧ flushed virt k' ∧
     paging_inv k' U T (delete (virt / 0x1000) P) ∧ paging_step T k k') ∨
    (P !! (virt / 0x1000) = None ∧ r = 0 ∧ k' = k)) k.
Proof.
  intros Hi Hv Hon. unfold paging_unmap. wp_go. rewrite tbl_index_mod.
  set (i := virt / 0x400000). set (j := (virt / 0x1000) mod 1024).
  assert (0 ≤ j < 1024) as Hj by (unfold j; zlia).
  assert (virt / 0x1000 = 1024 * i + j) as Hp by (unfold i, j; zlia).
  destruct (T !! i) as [t|] eqn:HT.
  2:{ eapply get_table_absent; [done..|]. rewrite Z.eqb_refl. wp_go. right. split_and!; try done.
      apply eq_None_not_Some. intros [e He]. apply (pt_P _ _ _ _ (gi_pt _ _ _ _ Hi)) in He as [t HT'].
      replace (virt / 0x1000 / 1024) with i in HT' by (unfold i; zlia). congruence. }
  eapply get_table_found; [done..|].
  destruct (table_word _ _ _ _ _ _ _ Hi HT Hj) as (Heq & Ht0 & Htend). rewrite Heq.
  destruct (Z.eqb_spec t 0); [lia|]. wp_go. eapply wp_load_ident; [done | lia | lia |].
  pose proof (pt_pte _ _ _ _ (gi_pt _ _ _ _ Hi) _ _ j HT Hj) as Hpte. rewrite <- Hp in Hpte.
  rewrite present_bit. pose proof (pages_size _ _ _ _ Hi) as Hps.
  destruct (P !! (virt / 0x1000)) as [e|] eqn:HP.
  2:{ rewrite Hpte. cbn [negb]. wp_go. by right. }
  destruct Hpte as [-> ->]. cbn [negb]. wp_go.
  assert (cr0_pg (mach k) = true → iend k / 0x1000 ≤ 1024 * i + j) as Hslot
    by (intros ?%Hon; rewrite <- Hp; zlia).
  eapply (wp_store32 id (t + 4 * j) (t + 4 * j + 4));
    [exact (slot_window k U T P i t j Hi HT Hj Hslot) | lia | lia |].
  intros m' Hst. pose proof (stored_vw_same _ _ _ _ _ Hst) as Hv'.
  pose proof Hst as [[ph2 ->] [_ _ Ho] _].
  assert (rd32 ph2 (t + 4 * j) = 0) as Hv2 by exact Hv'.
  unfold flush_tlb_page, upd_machine. wp_go. left. split; [by eexists|]. do 2 (split; [done|]).
  pose proof (inv_set_slot k U T P i t j ph2 (mapped_pages (paging_st k) -u 1)
    (Invlpg virt :: io_log (mach k)) Hi HT Hj Hslot) as Hx. cbn zeta in Hx.
  rewrite Hv2, <- Hp in Hx. apply Hx.
  - intros q Hq. apply Ho. intros (x & Hx' & ->). done.
  - rewrite set_entry_size, HP, (gi_mapped _ _ _ _ Hi). cbn.
    assert (size P ≠ 0)%nat by (intros ?%map_size_empty_inv; by subst).
    rewrite u32_small; lia.
Qed.

(** ** Building the identity map *)

(** The frames below [n] that are not in use. *)
Definition free_below (U : gset Z) (n : Z) : gset Z := list_to_set (seqZ 0 n) ∖ U.

Lemma elem_of_free_below U n f : f ∈ free_below U n ↔ 0 ≤ f < n ∧ f ∉ U.
Proof.
  unfold free_below. rewrite elem_of_difference, elem_of_list_to_set, elem_of_seqZ. intuition lia.
Qed.

(** As long as a frame below [n] is free, the lowest free frame is below [n]. *)
Lemma least_free_below U n total f :
  least_free U total f → n ≤ total → 0 < Z.of_nat (size (free_below U n)) →
  f < n ∧ Z.of_nat (size (free_below ({[f]} ∪ U) n)) = Z.of_nat (size (free_below U n)) - 1.
Proof.
  intros (Hf & HfU & Hmin) Hn Hs.
  destruct (size_pos_elem_of (free_below U n)) as [g Hg]; [lia|].
  apply elem_of_free_below in Hg as [Hg HgU].
  assert (f < n).
  { apply Z.nle_gt. intros Hge. apply HgU, Hmin. lia. }
  split; [done|].
  replace (free_below ({[f]} ∪ U) n) with (free_below U n ∖ {[f]}).
  { rewrite size_remove, bool_decide_true; [done|]. apply elem_of_free_below. split; [lia|done]. }
  apply set_eq. intros x. rewrite elem_of_difference, !elem_of_free_below, elem_of_union.
  rewrite elem_of_singleton. tauto.
Qed.

Lemma no_table_frame_below k U n :
  no_table_frame k U → n ≤ total_frames (pmm_st k) → n * FRAME_SIZE ≤ iend k →
  size (free_below U n) = 0%nat.
Proof.
  intros Hnt Hn Hie. destruct (decide (size (free_below U n) = 0%nat)) as [|Hs]; [done|].
  destruct (size_pos_elem_of (free_below U n)) as [g Hg]; [lia|].
  pose proof Hg as Hg'. apply elem_of_free_below in Hg as [Hg HgU].
  destruct Hnt as [Hall|(f & Hf & Hge)].
  - exfalso. apply HgU, Hall. lia.
  - destruct (least_free_below U n _ f Hf Hn) as [Hlt _]; [lia|]. unfold FRAME_SIZE in *. lia.
Qed.

(** The free frames that can still become page tables. *)
Definition spare_frames (k : kernel) (U : gset Z) : Z :=
  Z.of_nat (size (free_below U (Z.min (iend k / FRAME_SIZE) (total_frames (pmm_st k))))).

Lemma spare_frames_ext k k' U :
  iend k' = iend k → total_frames (pmm_st k') = total_frames (pmm_st k) → spare_frames k' U = spare_frames k U.
Proof. unfold spare_frames. by intros -> ->. Qed.

Lemma spare_frames_alloc k k' U f :
  iend k' = iend k → total_frames (pmm_st k') = total_frames (pmm_st k) →
  least_free U (total_frames (pmm_st k)) f → spare_frames k U ≤ spare_frames k' ({[f]} ∪ U) + 1.
Proof.
  intros He Ht Hf. rewrite (spare_frames_ext k k') by done. unfold spare_frames.
  set (n := Z.min _ _). destruct (decide (size (free_below U n) = 0%nat)) as [->|Hs]; [lia|].
  destruct (least_free_below U n _ f Hf) as [_ ->]; [unfold n; lia|lia|lia].
Qed.

Lemma spare_frames_none k U : (∀ f, 0 ≤ f < total_frames (pmm_st k) → f ∈ U) → spare_frames k U = 0.
Proof.
  intros Hall. unfold spare_frames. replace (free_below U _) with (∅ : gset Z); [done|].
  symmetry. apply set_eq. intros f. rewrite elem_of_free_below. split; [|set_solver].
  intros [Hf HU]. exfalso. apply HU, Hall. lia.
Qed.

Lemma spare_frames_no_table k U : 0 ≤ iend k → no_table_frame k U → spare_frames k U = 0.
Proof.
  intros Hie Hn. unfold spare_frames. erewrite no_table_frame_below; [done|done|lia|].
  unfold FRAME_SIZE. zlia.
Qed.

(** The identity entry of page [p]: present and writable. *)
Definition identity_entry (p : Z) : Z := 0x1000 * p + 3.

Lemma map_entry_identity p :
  0 ≤ p < 0x100000 → map_entry (p * PAGE_SIZE) PAGE_WRITE = identity_entry p.
Proof.
  intros Hp. unfold map_entry, identity_entry, PAGE_SIZE, FRAME_OF. rewrite land_page by lia.
  change (PAGE_WRITE &u 0xFFF) with 2. rewrite <- Z.lor_assoc.
  change (Z.lor 2 PAGE_PRESENT) with 3. rewrite lor_page by (zlia || done). zlia.
Qed.

Definition tables_for (pages : Z) : Z := (pages + 1023) / 1024.

(** After [n] turns of the loop exactly the pages below [n] are mapped. *)
Record identity_upto (n : Z) (T P : gmap Z Z) : Prop := {
  iu_P p : P !! p = if decide (0 ≤ p < n) then Some (identity_entry p) else None;
  iu_T d : is_Some (T !! d) ↔ 0 ≤ d < tables_for n
}.

Lemma identity_upto_same n T P :
  identity_upto n T P → 0 ≤ n → is_Some (T !! (n / 1024)) →
  identity_upto (n + 1) T (<[n := identity_entry n]> P) ∧ tables_for (n + 1) = tables_for n.
Proof.
  intros [HP HT] Hn Hd%HT. unfold tables_for in *.
  assert ((n + 1 + 1023) / 1024 = (n + 1023) / 1024) as He by zlia.
  split; [|done]. split.
  - intros p. destruct (decide (p = n)) as [->|].
    + rewrite lookup_insert_eq, decide_True by lia. done.
    + rewrite lookup_insert_ne, HP by done. do 2 case_decide; done || lia.
  - intros d. rewrite HT. unfold tables_for. by rewrite He.
Qed.

Lemma identity_upto_new n T P t :
  identity_upto n T P → 0 ≤ n → T !! (n / 1024) = None →
  identity_upto (n + 1) (<[n / 1024 := t]> T) (<[n := identity_entry n]> P) ∧
  tables_for (n + 1) = tables_for n + 1.
Proof.
  intros [HP HT] Hn Hd. unfold tables_for in *.
  assert (¬ 0 ≤ n / 1024 < (n + 1023) / 1024) as Hnd by (rewrite <- HT, Hd; intros [? ?]; done).
  assert ((n + 1 + 1023) / 1024 = (n + 1023) / 1024 + 1 ∧ (n + 1023) / 1024 = n / 1024) as [He Hq] by zlia.
  split; [|done]. split.
  - intros p. destruct (decide (p = n)) as [->|].
    + rewrite lookup_insert_eq, decide_True by lia. done.
    + rewrite lookup_insert_ne, HP by done. do 2 case_decide; done || lia.
  - intros d. unfold tables_for. destruct (decide (n / 1024 = d)) as [<-|].
    + rewrite lookup_insert_eq. split; [zlia | by eexists].
    + rewrite lookup_insert_ne, HT by done. lia.
Qed.

Lemma identity_page_step k U T P n :
  paging_inv k U T P → cr0_pg (mach k) = false → identity_upto n T P →
  0 ≤ n < iend k / PAGE_SIZE → iend k / PAGE_SIZE ≤ total_frames (pmm_st k) →
  tables_for (iend k / PAGE_SIZE) - tables_for n ≤
    Z.of_nat (size (free_below U (iend k / PAGE_SIZE))) →
  wp (identity_page (n * PAGE_SIZE)) (λ r k', r = None ∧ ∃ U' T' P',
    paging_inv k' U' T' P' ∧ identity_upto (n + 1) T' P' ∧ U ⊆ U' ∧ T ⊆ T' ∧ paging_step T' k k' ∧
    (∀ d t, T' !! d = Some t → T !! d = Some t ∨ t / 0x1000 ∉ U) ∧
    Z.of_nat (size (free_below U (iend k / PAGE_SIZE))) + tables_for n ≤
      Z.of_nat (size (free_below U' (iend k / PAGE_SIZE))) + tables_for (n + 1)) k.
Proof.
  intros Hi Hoff Hu Hn Htot Hfree. set (N := iend k / PAGE_SIZE) in *.
  pose proof (gi_end _ _ _ _ Hi) as [Hie _]. unfold IDENTITY_BYTES in Hie.
  assert (N * PAGE_SIZE ≤ iend k ∧ N < 0x100000) as [HN ?] by (unfold N, PAGE_SIZE; zlia).
  unfold identity_page. wp_go.
  wp_use (paging_map_rep k U T P (n * PAGE_SIZE) (n * PAGE_SIZE) PAGE_WRITE);
    [done | unfold PAGE_SIZE; lia | unfold PAGE_SIZE; lia | done | congruence |].
  unfold paging_map_post. cbn zeta. rewrite map_entry_identity by lia.
  replace (n * PAGE_SIZE / 0x400000) with (n / 1024) by (unfold PAGE_SIZE; zlia).
  replace (n * PAGE_SIZE / 0x1000) with n by (unfold PAGE_SIZE; zlia).
  intros r k' [(-> & _ & U' & T' & Hcase & Hi' & Hs')|(-> & HT & Hnt & _)].
  - wp_go. split; [done|].
    destruct Hcase as [(Hsome & -> & ->)|(f & HT & Hf & -> & ->)].
    + destruct (identity_upto_same n T P Hu ltac:(lia) Hsome) as [Hu' He].
      exists U, T. eexists. rewrite He. split_and!; try done. by left.
    + destruct (identity_upto_new n T P (f * FRAME_SIZE) Hu ltac:(lia) HT) as [Hu' He].
      assert (tables_for (n + 1) ≤ tables_for N) by (unfold tables_for; zlia).
      destruct (least_free_below U N _ f Hf Htot) as [_ Hsz]; [lia|].
      eexists _, _, _. split_and!; [done | done | apply union_subseteq_r
        | by apply insert_subseteq | done | | rewrite Hsz; lia].
      intros d t [[_ <-]|[_ ?]]%lookup_insert_Some; [right|by left].
      replace (f * FRAME_SIZE / 0x1000) with f by (unfold FRAME_SIZE; zlia). apply Hf.
  - exfalso. destruct (identity_upto_new n T P 0 Hu ltac:(lia) HT) as [_ He].
    assert (tables_for (n + 1) ≤ tables_for N) by (unfold tables_for; zlia).
    pose proof (no_table_frame_below k U N Hnt Htot HN). lia.
Qed.

(** The state [paging_init] is meant for: the frame allocator is up, paging is
    off, no table exists, and the machine has the memory the kernel needs. *)
Record paging_boot (k : kernel) (U : gset Z) : Prop := {
  gb_pmm : pmm_rep k U;
  gb_off : cr0_pg (mach k) = false;
  gb_counts : table_count (paging_st k) = 0 ∧ mapped_pages (paging_st k) = 0;
  gb_highest : 0 < highest (mem_st k) < 0x100000000;
  gb_total : total_frames (pmm_st k) = highest (mem_st k) / FRAME_SIZE;
  gb_zero : 0 ∈ U;
  gb_bitmap a : bm_lo k ≤ a < bm_hi k → a / 0x1000 ∈ U
}.

(** The end of the identity window [paging_init] chooses. *)
Definition boot_iend (k : kernel) : Z :=
  Z.min IDENTITY_BYTES (highest (mem_st k) / PAGE_SIZE * PAGE_SIZE).

(** The first steps: window chosen, directory allocated and cleared. *)
Lemma inv_new_directory k U f pg ph u :
  paging_boot k U → bm_hi k ≤ boot_iend k →
  least_free U (total_frames (pmm_st k)) f → f * FRAME_SIZE + 0x1000 ≤ boot_iend k →
  pmm_rep (upd_pmm_st (set_used_frames u) (upd_mach (set_phys ph) k)) ({[f]} ∪ U) →
  (∀ q, f * FRAME_SIZE ≤ q < f * FRAME_SIZE + 0x1000 → rd8 ph q = 0) →
  page_directory pg = f * FRAME_SIZE → identity_end pg = boot_iend k →
  table_count pg = 0 → mapped_pages pg = 0 →
  paging_inv (upd_paging_st (λ _, pg) (upd_pmm_st (set_used_frames u) (upd_mach (set_phys ph) k)))
    ({[f]} ∪ U) ∅ ∅.
Proof.
  intros [Hr Hoff _ Hh Htot H0 Hbm] Hbi (Hf & HfU & _) Hfe Hr' Hz Hpd Hie Htc Hmp.
  unfold FRAME_SIZE in *. assert (f ≠ 0) by (by intros ->).
  set (k' := upd_paging_st (λ _, pg) (upd_pmm_st (set_used_frames u) (upd_mach (set_phys ph) k))).
  assert (pdir k' = f * 4096) as Hpd' by exact Hpd. assert (iend k' = boot_iend k) as Hie' by exact Hie.
  assert (0 ≤ boot_iend k ≤ IDENTITY_BYTES) as Hb
    by (unfold boot_iend, IDENTITY_BYTES, PAGE_SIZE; zlia).
  assert (∀ t, is_table k' ∅ t → t = f * 4096) as Htab by (by intros t [->|[i [=]]]).
  split; [by eapply pmm_rep_ext; [exact Hr'|done|exact (pw_window _ (pr_wf _ _ Hr'))|done]
    | | | |intros t ->%Htab|exact Htc|exact Hmp].
  - split; [|rewrite Hie'; split; [done|unfold boot_iend, IDENTITY_BYTES, PAGE_SIZE; zlia]|
      change (cr0_pg (mach k')) with (cr0_pg (mach k)); congruence].
    rewrite Hpd'. split; try done; [unfold IDENTITY_BYTES in *; split; zlia|].
    intros i Hi. rewrite lookup_empty. change 0 with (rd32 ∅ 0) at 1.
    replace (rd32 ∅ 0) with (rd32 ∅ (f * 4096 + 4 * i)) by done.
    apply rd32_ext. intros q Hq. cbn. rewrite Hz by lia. done.
  - intros g [->|[(a & Ha & ->)|(t & ->%Htab & ->)]].
    + by apply elem_of_union_r.
    + apply elem_of_union_r, Hbm, Ha.
    + apply elem_of_union_l, elem_of_singleton. zlia.
  - by rewrite Hie'.
  - rewrite Hie'. split; [done|]. change (bm_lo k') with (bm_lo k). change (bm_hi k') with (bm_hi k).
    destruct (decide (f * 4096 + 0x1000 ≤ bm_lo k)); [by left|].
    destruct (decide (bm_hi k ≤ f * 4096)); [by right|]. exfalso.
    apply HfU. pose proof (pw_size _ (pr_wf _ _ Hr)) as Hsz. pose proof (pw_total _ (pr_wf _ _ Hr)).
    assert (bm_lo k < bm_hi k) by (unfold bm_hi, bm_lo in *; zlia).
    replace f with (Z.max (bm_lo k) (f * 4096) / 0x1000).
    + apply Hbm. lia.
    + destruct (Z.max_spec (bm_lo k) (f * 4096)) as [[? ->]|[? ->]]; zlia.
Qed.

Lemma identity_upto_size n T P :
  identity_upto n T P → 0 ≤ n → Z.of_nat (size T) = tables_for n.
Proof.
  intros [_ HT] Hn. rewrite <- size_dom.
  replace (dom T) with (list_to_set (seqZ 0 (tables_for n)) : gset Z).
  - rewrite size_list_to_set by apply NoDup_seqZ. rewrite length_seqZ.
    unfold tables_for. zlia.
  - apply set_eq. intros d. rewrite elem_of_list_to_set, elem_of_seqZ, elem_of_dom, HT. lia.
Qed.

Lemma identity_upto_0 : identity_upto 0 ∅ ∅.
Proof.
  split.
  - intros p. rewrite lookup_empty. case_decide; [lia | done].
  - intros d. rewrite lookup_empty. unfold tables_for. split; [by intros [] | intros; zlia].
Qed.

(** The loop over the identity pages. *)
Lemma identity_loop k U :
  paging_inv k U ∅ ∅ → cr0_pg (mach k) = false →
  iend k / PAGE_SIZE ≤ total_frames (pmm_st k) →
  tables_for (iend k / PAGE_SIZE) ≤ Z.of_nat (size (free_below U (iend k / PAGE_SIZE))) →
  wp (for_find (Z.to_nat (iend k / PAGE_SIZE)) 0 (λ i, identity_page (i * PAGE_SIZE)))
    (λ r k', r = None ∧ ∃ U' T' P', paging_inv k' U' T' P' ∧ U ⊆ U' ∧ paging_step T' k k' ∧
       (∀ d t, T' !! d = Some t → t / 0x1000 ∉ U) ∧
       Z.of_nat (size (free_below U (iend k / PAGE_SIZE))) ≤
         Z.of_nat (size (free_below U' (iend k / PAGE_SIZE))) + tables_for (iend k / PAGE_SIZE) ∧
       identity_upto (iend k / PAGE_SIZE) T' P') k.
Proof.
  intros Hi Hoff Htot Hfree. set (N := iend k / PAGE_SIZE) in *.
  assert (0 ≤ N) as HN by (unfold N, PAGE_SIZE; destruct (gi_end _ _ _ _ Hi); zlia).
  apply wp_for_find with (I := λ n k', ∃ U' T' P', paging_inv k' U' T' P' ∧
    U ⊆ U' ∧ paging_step T' k k' ∧ identity_upto n T' P' ∧
    (∀ d t, T' !! d = Some t → t / 0x1000 ∉ U) ∧
    Z.of_nat (size (free_below U N)) ≤ Z.of_nat (size (free_below U' N)) + tables_for n).
  - exists U, ∅, ∅. split_and!; [done|done|apply paging_step_refl|apply identity_upto_0|done|].
    change (tables_for 0) with 0. lia.
  - intros n k1 Hn (U1 & T1 & P1 & Hi1 & HU1 & Hs1 & Hu1 & Hnew1 & Hf1).
    destruct (paging_step_statics _ _ _ Hs1) as (_ & Hie & _ & _ & Ht1 & Hpg & _).
    wp_use (identity_page_step k1 U1 T1 P1 n); rewrite ?Hie, ?Ht1, ?Hpg; try done; [lia|fold N; lia|].
    cbn. intros r k2 (-> & U2 & T2 & P2 & Hi2 & Hu2 & HU2 & HT2 & Hs2 & Hnew2 & Hf2). fold N in Hf2.
    exists U2, T2, P2. split_and!; try done; [by etrans|by eapply paging_step_trans| |lia].
    intros d t [?%Hnew1|?]%Hnew2; [done|set_solver].
  - intros k1 (U1 & T1 & P1 & Hi1 & HU1 & Hs1 & Hu1 & Hnew1 & Hf1). split; [done|].
    exists U1, T1, P1. rewrite Z.add_0_l, Z2Nat.id in Hu1, Hf1 by done. done.
Qed.

(** Loading CR3 and setting CR0.PG on finished tables. *)
Lemma inv_enable k U T P :
  paging_inv k U T P → dir_phys (paging_st k) = pdir k →
  (∀ p, 0 ≤ p < iend k / 0x1000 → P !! p = Some (identity_entry p)) →
  paging_inv (upd_paging_st (set_paging_enabled 1)
    (upd_mach (set_cr true (dir_phys (paging_st k))) k)) U T P.
Proof.
  intros Hi Hd HP. pose proof (gi_core _ _ _ _ Hi) as Hc. rewrite Hd.
  eapply (inv_rebuild k); [done| |done..| |exact (gi_table_count _ _ _ _ Hi)|exact (gi_mapped _ _ _ _ Hi)].
  - split; [exact (gc_pt _ _ _ Hc)|exact (gc_end _ _ _ Hc)|]. intros _. split; [done|].
    intros p Hp. exists (identity_entry p). split; [by apply HP|].
    unfold identity_entry. apply frame_of_page; [zlia | lia |].
    pose proof (gc_end _ _ _ Hc) as [? _]. unfold IDENTITY_BYTES in *.
    change (iend _) with (iend k) in Hp. zlia.
  - intros t Ht. by apply (table_facts k U T P).
Qed.

Definition boot_pages (k : kernel) : Z := boot_iend k / PAGE_SIZE.

(** Once the window is known: allocate and clear the directory. *)
Lemma new_directory k U iendv (rest : K ()) (Q : () → kernel → Prop) :
  paging_boot k U → bm_hi k ≤ boot_iend k → iendv = boot_iend k →
  0 < Z.of_nat (size (free_below U (boot_pages k))) →
  (∀ f k', least_free U (total_frames (pmm_st k)) f →
     paging_inv k' ({[f]} ∪ U) ∅ ∅ → cr0_pg (mach k') = false → iend k' = boot_iend k →
     dir_phys (paging_st k') = pdir k' → total_frames (pmm_st k') = total_frames (pmm_st k) →
     f < boot_pages k → pdir k' = f * FRAME_SIZE → bm_lo k' = bm_lo k ∧ bm_hi k' = bm_hi k → wp rest Q k') →
  wp (d <- pmm_alloc_frame ;;
      modify (upd_paging_st (set_dir_phys d)) ;;;
      if d =? 0 then print (lit "FATAL: no frame for the page directory.\n")
      else
        modify (upd_paging_st (set_page_directory d)) ;;;
        memset d 0 PAGE_SIZE ;;; rest) Q
    (upd_paging_st (set_identity_end iendv) k).
Proof.
  intros Hb Hbi -> Hfree HQ. pose proof Hb as [Hr Hoff [Htc Hmp] Hh Htot H0 Hbm].
  set (k0 := upd_paging_st (set_identity_end (boot_iend k)) k).
  assert (pmm_rep k0 U) as Hr0
    by (by eapply pmm_rep_ext; [exact Hr|done|exact (pw_window _ (pr_wf _ _ Hr))|done]).
  assert (boot_pages k ≤ total_frames (pmm_st k) ∧ boot_pages k * FRAME_SIZE = boot_iend k) as [Hbp Hbe].
  { rewrite Htot. unfold boot_pages, boot_iend, PAGE_SIZE, FRAME_SIZE, IDENTITY_BYTES. zlia. }
  wp_go. wp_use (pmm_alloc_frame_rep k0 U); [done|].
  intros d k1 [(f & Hf & -> & Hr1 & Hs1)|(-> & -> & Hall)].
  2:{ exfalso. destruct (size_pos_elem_of (free_below U (boot_pages k))) as [g Hg]; [lia|].
      apply elem_of_free_below in Hg as [Hg HgU]. apply HgU, Hall. cbn. lia. }
  change (total_frames (pmm_st k0)) with (total_frames (pmm_st k)) in Hf.
  destruct (least_free_below U _ _ f Hf Hbp Hfree) as [Hlt _].
  pose proof Hf as (Hf0 & HfU & _).
  assert (f ≠ 0) by (by intros ->). unfold FRAME_SIZE in *.
  destruct Hs1 as [(u & ph & ->) Ha]. wp_go.
  destruct (Z.eqb_spec (f * 4096) 0); [lia|]. wp_go.
  assert (boot_iend k ≤ IDENTITY_BYTES) by (unfold boot_iend; lia). unfold IDENTITY_BYTES in *.
  eapply (memset_window id (f * 4096) (f * 4096 + 0x1000));
    [by apply window_flat; [exact Hoff|lia|lia]|done|lia|unfold PAGE_SIZE; lia|].
  unfold PAGE_SIZE. change 4096 with 0x1000. intros m' Ha' [ph' ->] Hz. wp_go.
  match goal with |- wp rest Q ?x => set (k2 := x) end.
  assert (bm_hi k ≤ f * 4096 ∨ f * 4096 + 0x1000 ≤ bm_lo k) as Hdisj.
  { destruct (decide (bm_hi k ≤ f * 4096)); [by left|right]. apply Z.nlt_ge. intros Hlt'.
    apply HfU. assert (bm_lo k < bm_hi k).
    { pose proof (pw_size _ (pr_wf _ _ Hr)). pose proof (pw_total _ (pr_wf _ _ Hr)).
      unfold bm_hi, bm_lo in *. zlia. }
    replace f with (Z.max (bm_lo k) (f * 4096) / 0x1000); [apply Hbm; lia|].
    destruct (Z.max_spec (bm_lo k) (f * 4096)) as [[? ->]|[? ->]]; zlia. }
  apply (HQ f k2); try done.
  apply (inv_new_directory k U f (paging_st k2) ph' u); try done; [unfold FRAME_SIZE; lia| ].
  eapply pmm_rep_ext; [exact Hr1|done| |].
  - apply window_flat; [exact Hoff|apply (win_range _ _ _ _ (pw_window _ (pr_wf _ _ Hr)))..].
  - intros q Hq. apply (ao_rd8 _ _ _ Ha'). intros (x & Hx & ->).
    change (bm_lo _) with (bm_lo k) in Hq. change (bm_hi _) with (bm_hi k) in Hq.
    unfold id in *. lia.
Qed.

(** [paging_init] maps exactly the pages of the identity window onto
    themselves and turns paging on. *)
Lemma paging_init_rep k U :
  paging_boot k U → bm_hi k ≤ boot_iend k →
  1 + tables_for (boot_pages k) ≤ Z.of_nat (size (free_below U (boot_pages k))) →
  wp paging_init (λ _ k', ∃ U' T' P', paging_inv k' U' T' P' ∧ U ⊆ U' ∧
    cr0_pg (mach k') = true ∧ paging_enabled (paging_st k') = 1 ∧ iend k' = boot_iend k ∧
    Z.of_nat (size T') = tables_for (boot_pages k) ∧
    (∀ f, f ∈ U → f ≠ 0 → owned k' T' f → ∃ a, bm_lo k ≤ a < bm_hi k ∧ f = a / 0x1000) ∧
    Z.of_nat (size (free_below U (boot_pages k))) ≤ spare_frames k' U' + 1 + tables_for (boot_pages k) ∧
    ∀ p, P' !! p = if decide (0 ≤ p < boot_pages k) then Some (identity_entry p) else None) k.
Proof.
  intros Hb Hbi Hfree. pose proof (gb_highest _ _ Hb) as Hh.
  assert (0 ≤ boot_pages k ∧ boot_iend k / PAGE_SIZE = boot_pages k) as [Hbp Hbq].
  { unfold boot_pages, boot_iend, IDENTITY_BYTES, PAGE_SIZE. zlia. }
  assert (0 ≤ tables_for (boot_pages k)) by (unfold tables_for; zlia).
  unfold paging_init, mem_highest_addr, mem_g, paging_g. wp_go.
  change (mem_st (upd_paging_st (set_identity_end IDENTITY_BYTES) k)) with (mem_st k).
  change (identity_end (paging_st (upd_paging_st (set_identity_end IDENTITY_BYTES) k)))
    with IDENTITY_BYTES.
  (* both branches leave the window of [boot_iend] *)
  assert (∀ (R : K ()) (Q : () → kernel → Prop),
    wp R Q (upd_paging_st (set_identity_end (boot_iend k)) k) →
    wp (when (negb (highest (mem_st k) =? 0) && (highest (mem_st k) <? IDENTITY_BYTES))
      (modify (upd_paging_st (set_identity_end (highest (mem_st k) &u ~u (PAGE_SIZE - 1))))))
      (λ _ s', wp R Q s') (upd_paging_st (set_identity_end IDENTITY_BYTES) k)) as Hwin.
  { intros R Q HR. destruct (Z.eqb_spec (highest (mem_st k)) 0); [lia|]. cbn [negb andb].
    destruct (Z.ltb_spec (highest (mem_st k)) IDENTITY_BYTES) as [Hlt|Hge]; unfold when; wp_go.
    - change (~u (PAGE_SIZE - 1)) with 0xFFFFF000. rewrite land_page by lia.
      replace (highest (mem_st k) - highest (mem_st k) mod 0x1000) with (boot_iend k); [done|].
      unfold boot_iend, IDENTITY_BYTES, PAGE_SIZE in *. zlia.
    - replace IDENTITY_BYTES with (boot_iend k); [done|].
      unfold boot_iend, IDENTITY_BYTES, PAGE_SIZE in *. zlia. }
  apply Hwin. apply (new_directory k U (boot_iend k)); try done; [lia|].
  intros f k1 Hf Hi1 Hoff1 Hie1 Hd1 Ht1 Hlt Hpd1 [Hlo1 Hhi1]. wp_go. fold (iend k1).
  assert (boot_pages k ≤ total_frames (pmm_st k)) as Hbt.
  { rewrite (gb_total _ _ Hb). unfold boot_pages, boot_iend, PAGE_SIZE, FRAME_SIZE, IDENTITY_BYTES. zlia. }
  destruct (least_free_below U _ _ f Hf Hbt ltac:(lia)) as [_ Hsz].
  wp_use (identity_loop k1 ({[f]} ∪ U)); rewrite ?Hie1, ?Hbq, ?Ht1; try done; [lia|].
  cbn. intros r k2 (-> & U2 & T2 & P2 & Hi2 & HU2 & Hs2 & Hnew2 & Hf2 & Hu2). wp_go.
  destruct (paging_step_statics _ _ _ Hs2) as (Hpd2 & Hie2 & Hlo2 & Hhi2 & Htf2 & _).
  assert (dir_phys (paging_st k2) = pdir k2) as Hd2.
  { rewrite Hpd2, <- Hd1. by destruct Hs2 as [(? & ? & ? & ? & ? & ->) _]. }
  unfold upd_machine. wp_go.
  exists U2, T2, P2. split_and!; try done.
  - apply inv_enable; [done..|]. rewrite Hie2, Hie1. intros p Hp. rewrite (iu_P _ _ _ Hu2).
    by rewrite decide_True.
  - etrans; [|done]. apply union_subseteq_r.
  - change (iend k2 = boot_iend k). by rewrite Hie2.
  - by apply (identity_upto_size _ _ P2).
  - intros g Hg Hg0 [?|[(a & Ha & ->)|(t & Ht & ->)]]; [done| |exfalso].
    + exists a. split; [|done]. rewrite <- Hlo1, <- Hlo2, <- Hhi1, <- Hhi2. exact Ha.
    + destruct Ht as [->|[d Hd']]; [|by apply (Hnew2 _ _ Hd'); set_solver].
      change (pdir _) with (pdir k2) in Hg. rewrite Hpd2, Hpd1 in Hg. apply (proj1 (proj2 Hf)).
      by replace (f * FRAME_SIZE / 0x1000) with f in Hg by (unfold FRAME_SIZE; zlia).
  - unfold spare_frames. change (iend _) with (iend k2). change (total_frames _) with (total_frames (pmm_st k2)).
    rewrite Hie2, Htf2, Ht1, Hie1. change (boot_iend k / FRAME_SIZE) with (boot_pages k).
    rewrite Z.min_l by done. lia.
  - apply (iu_P _ _ _ Hu2).
Qed.
