(* ===== verification/Supply.v ===== *)
(** * How many frames mapping takes

    Mapping consecutive pages takes one frame for each of them and one for each
    page table that is missing, and tables must lie inside the identity window
    (src/paging.c, [get_table]).  [enough] says exactly when the free frames
    suffice; HeapMap.v shows that the heap grows if and only if they do. *)
From stdpp Require Import prelude gmap list.
From Stdlib Require Import Lia ZArith.
From S2P Require Import Prelude Machine State Util Console Memory Pmm Paging.

#[local] Open Scope Z_scope.

(** All free frames; [spare_frames] are those inside the identity window. *)
Definition free_frames (k : kernel) (U : gset Z) : Z :=
  Z.of_nat (size (free_below U (total_frames (pmm_st k)))).

(** [same_supply k k']: as many frames, the same window. *)
Definition same_supply (k k' : kernel) : Prop :=
  iend k' = iend k ∧ total_frames (pmm_st k') = total_frames (pmm_st k).

Lemma paging_step_supply T k k' : paging_step T k k' → same_supply k k'.
Proof. by intros (_ & ? & _ & _ & ? & _)%paging_step_statics. Qed.

Lemma free_frames_ext k k' U : same_supply k k' → free_frames k' U = free_frames k U.
Proof. unfold free_frames. by intros [_ ->]. Qed.

Lemma spare_le_free k U : spare_frames k U ≤ free_frames k U.
Proof.
  unfold spare_frames, free_frames. apply inj_le, subseteq_size. intros f.
  rewrite !elem_of_free_below. intros [Hf ?]. split; [lia|done].
Qed.

Lemma free_frames_none k U : (∀ f, 0 ≤ f < total_frames (pmm_st k) → f ∈ U) → free_frames k U = 0.
Proof.
  intros Hall. unfold free_frames. replace (free_below U _) with (∅ : gset Z); [done|].
  symmetry. apply set_eq. intros f. rewrite elem_of_free_below. split; [|set_solver].
  intros [Hf HU]. exfalso. by apply HU, Hall.
Qed.

Lemma size_in (X : gset Z) f : f ∈ X → 0 < Z.of_nat (size X).
Proof. intros Hf. destruct (decide (size X = 0%nat)) as [He%size_empty_inv|]; [set_solver|lia]. Qed.

(** Taking the lowest free frame. *)
Lemma take_frame k k' U f : same_supply k k' → least_free U (total_frames (pmm_st k)) f →
  free_frames k' ({[f]} ∪ U) = free_frames k U - 1 ∧
  spare_frames k' ({[f]} ∪ U) = Z.max 0 (spare_frames k U - 1).
Proof.
  intros Hs Hf. pose proof Hs as [Hie Ht]. rewrite (free_frames_ext k k'), (spare_frames_ext k k') by done.
  unfold free_frames, spare_frames. split.
  - destruct (least_free_below U _ _ f Hf (Z.le_refl _)) as [_ ->]; [|done].
    destruct Hf as (Hf & HfU & _). apply (size_in _ f). by apply elem_of_free_below.
  - set (n := Z.min _ _). destruct (decide (size (free_below U n) = 0%nat)) as [Hz|Hz].
    + rewrite Hz. replace (size (free_below ({[f]} ∪ U) n)) with 0%nat; [done|]. symmetry.
      assert (size (free_below ({[f]} ∪ U) n) ≤ size (free_below U n))%nat as Hle; [|lia].
      apply subseteq_size. intros g. rewrite !elem_of_free_below. set_solver.
    + destruct (least_free_below U n _ f Hf) as [_ ->]; [unfold n; lia|lia|]. lia.
Qed.

(** A frame in the window that can be taken is a spare one. *)
Lemma spare_positive k U f : least_free U (total_frames (pmm_st k)) f → f * FRAME_SIZE + FRAME_SIZE ≤ iend k →
  0 < spare_frames k U.
Proof.
  intros (Hf & HfU & _) Hend. unfold spare_frames. apply (size_in _ f), elem_of_free_below.
  unfold FRAME_SIZE in *. split; [zlia|done].
Qed.

(** ** Pages from [p] on *)
Section pages.
Context (T : gmap Z Z) (p : Z).

(** Page [p + j] is the first one that needs a page table not yet there. *)
Definition opens_table (j : Z) : bool :=
  bool_decide (T !! ((p + j) / 1024) = None) && ((j =? 0) || ((p + j) mod 1024 =? 0)).

(** The frames that the first [n] pages take. *)
Fixpoint frames_for (n : nat) : Z :=
  match n with
  | O => 0
  | S n => frames_for n + 1 + Z.b2z (opens_table (Z.of_nat n))
  end.

(** The page tables after the first [n] pages are mapped. *)
Definition tables_after (n : nat) (T' : gmap Z Z) : Prop :=
  ∀ i, T' !! i = None ↔ T !! i = None ∧ ∀ j, 0 ≤ j < Z.of_nat n → (p + j) / 1024 ≠ i.

Lemma tables_after_here n T' : tables_after n T' →
  opens_table (Z.of_nat n) = bool_decide (T' !! ((p + Z.of_nat n) / 1024) = None).
Proof.
  intros HT. unfold opens_table. destruct (decide (T' !! ((p + Z.of_nat n) / 1024) = None)) as [Hn|Hn].
  - rewrite (bool_decide_eq_true_2 (T' !! _ = None)) by done. apply HT in Hn as [Hn Hj].
    rewrite bool_decide_eq_true_2 by done. cbn [andb]. apply orb_true_iff.
    destruct n as [|n]; [by left|right]. specialize (Hj (Z.of_nat n)). zlia.
  - rewrite (bool_decide_eq_false_2 (T' !! _ = None)) by done. apply andb_false_iff.
    case_bool_decide as HT0; [right|by left]. apply orb_false_iff.
    assert (¬ ∀ j, 0 ≤ j < Z.of_nat n → (p + j) / 1024 ≠ (p + Z.of_nat n) / 1024) as Hj
      by (intros Hj; apply Hn; by apply HT).
    split; apply Z.eqb_neq; intros Hz; destruct Hj; intros j Hj; [lia|zlia].
Qed.

Lemma frames_for_mono n m : (n ≤ m)%nat → frames_for n ≤ frames_for m.
Proof. induction 1 as [|m _ IH]; [done|]. cbn [frames_for]. destruct (opens_table _); cbn; lia. Qed.

Lemma frames_for_bounds n : Z.of_nat n ≤ frames_for n ≤ 2 * Z.of_nat n.
Proof. induction n as [|n IH]; [done|]. cbn [frames_for]. destruct (opens_table _); cbn; lia. Qed.

(** The free frames suffice for [n] pages and their tables: there are as many as
    needed, and each time a table is needed the frames below it leave one in the
    identity window. *)
Definition enough (k : kernel) (U : gset Z) (n : nat) : Prop :=
  frames_for n ≤ free_frames k U ∧
  ∀ j, (j < n)%nat → opens_table (Z.of_nat j) = true → frames_for (S j) ≤ spare_frames k U.

Lemma enough_0 k U : enough k U 0.
Proof. split; [cbn [frames_for]; unfold free_frames; lia|lia]. Qed.

Lemma enough_le k U n m : (n ≤ m)%nat → enough k U m → enough k U n.
Proof.
  intros Hle [Hf Hs]. split; [pose proof (frames_for_mono n m Hle); lia|]. intros j Hj. apply Hs. lia.
Qed.

Lemma enough_double k U n : 2 * Z.of_nat n ≤ spare_frames k U → enough k U n.
Proof.
  intros Hn. pose proof (spare_le_free k U). pose proof (frames_for_bounds n). split; [lia|].
  intros j Hj _. pose proof (frames_for_bounds (S j)). lia.
Qed.
End pages.

(** *** One page more

    After [n] pages the supply has shrunk by what they took. *)
Definition used_up (T : gmap Z Z) (p : Z) (n : nat) (k : kernel) (U : gset Z) (k' : kernel) (U' : gset Z) : Prop :=
  free_frames k' U' = free_frames k U - frames_for T p n ∧
  spare_frames k' U' = Z.max 0 (spare_frames k U - frames_for T p n).

Lemma used_up_0 T p k U : used_up T p 0 k U k U.
Proof. unfold used_up, spare_frames. cbn [frames_for]. lia. Qed.

Lemma used_up_ext T p n k U k1 k2 U' : same_supply k1 k2 → used_up T p n k U k1 U' → used_up T p n k U k2 U'.
Proof. intros Hs Hu. unfold used_up. rewrite (free_frames_ext k1 k2), (spare_frames_ext k1 k2) by apply Hs. exact Hu. Qed.

(** No frame is left for the page. *)
Lemma no_page_frame T p n k0 U0 k U : used_up T p n k0 U0 k U →
  (∀ f, 0 ≤ f < total_frames (pmm_st k) → f ∈ U) → ¬ enough T p k0 U0 (S n).
Proof.
  intros [Hf _] Hall [He _]. rewrite (free_frames_none k U Hall) in Hf. cbn [frames_for] in He.
  destruct (opens_table _ _ _); cbn in He; lia.
Qed.

(** A frame for the page, and none for its table. *)
Lemma no_page_table T T' p n k0 U0 k U f k1 : used_up T p n k0 U0 k U → tables_after T p n T' →
  same_supply k k1 → least_free U (total_frames (pmm_st k)) f → 0 ≤ iend k1 →
  T' !! ((p + Z.of_nat n) / 1024) = None → no_table_frame k1 ({[f]} ∪ U) → ¬ enough T p k0 U0 (S n).
Proof.
  intros [_ Hs] HT Hk1 Hf Hie Hnone Hno [_ He]. destruct (take_frame k k1 U f Hk1 Hf) as [_ Ht].
  rewrite (spare_frames_no_table k1) in Ht by done.
  assert (opens_table T p (Z.of_nat n) = true) as Ho.
  { rewrite (tables_after_here _ _ _ _ HT). by apply bool_decide_eq_true_2. }
  specialize (He n ltac:(lia) Ho). cbn [frames_for] in He. rewrite Ho in He. cbn in He. lia.
Qed.

(** A frame for the page, and the table is there. *)
Lemma page_frame_taken T T' p n k0 U0 k U f k2 : used_up T p n k0 U0 k U → tables_after T p n T' →
  enough T p k0 U0 n → same_supply k k2 → least_free U (total_frames (pmm_st k)) f →
  is_Some (T' !! ((p + Z.of_nat n) / 1024)) →
  used_up T p (S n) k0 U0 k2 ({[f]} ∪ U) ∧ tables_after T p (S n) T' ∧ enough T p k0 U0 (S n).
Proof.
  intros [Hf Hs] HT [Hef Hes] Hk2 Hlf Hsome. destruct (take_frame k k2 U f Hk2 Hlf) as [Htf Hts].
  assert (opens_table T p (Z.of_nat n) = false) as Ho.
  { rewrite (tables_after_here _ _ _ _ HT). apply bool_decide_eq_false_2. intros He. by rewrite He in Hsome. }
  assert (0 ≤ free_frames k2 ({[f]} ∪ U)) by (unfold free_frames; lia).
  assert (frames_for T p (S n) = frames_for T p n + 1) as Hff by (cbn [frames_for]; rewrite Ho; cbn; lia).
  split; [|split].
  - unfold used_up. rewrite Hff. lia.
  - intros i. rewrite (HT i). split; intros [Hi Hj]; (split; [done|]); intros j Hjr; [|apply Hj; lia].
    destruct (decide (j = Z.of_nat n)) as [->|]; [|apply Hj; lia]. intros <-.
    assert (T' !! ((p + Z.of_nat n) / 1024) = None) as He by (apply HT; done). rewrite He in Hsome. by destruct Hsome.
  - split; [lia|]. intros j Hj Hoj. destruct (decide (j = n)) as [->|]; [congruence|]. apply Hes; [lia|done].
Qed.

(** A frame for the page and the next one for its table. *)
Lemma page_and_table_taken T T' p n k0 U0 k U f k1 g k2 a : used_up T p n k0 U0 k U → tables_after T p n T' →
  enough T p k0 U0 n → same_supply k k1 → least_free U (total_frames (pmm_st k)) f →
  T' !! ((p + Z.of_nat n) / 1024) = None → same_supply k1 k2 →
  least_free ({[f]} ∪ U) (total_frames (pmm_st k1)) g → g * FRAME_SIZE + FRAME_SIZE ≤ iend k1 →
  used_up T p (S n) k0 U0 k2 ({[g]} ∪ ({[f]} ∪ U)) ∧
  tables_after T p (S n) (<[(p + Z.of_nat n) / 1024 := a]> T') ∧ enough T p k0 U0 (S n).
Proof.
  intros [Hf Hs] HT [Hef Hes] Hk1 Hlf Hnone Hk2 Hlg Hg. destruct (take_frame k k1 U f Hk1 Hlf) as [Htf Hts].
  destruct (take_frame k1 k2 _ g Hk2 Hlg) as [Htf2 Hts2]. pose proof (spare_positive _ _ _ Hlg Hg) as Hpos.
  assert (opens_table T p (Z.of_nat n) = true) as Ho.
  { rewrite (tables_after_here _ _ _ _ HT). by apply bool_decide_eq_true_2. }
  assert (0 ≤ free_frames k2 ({[g]} ∪ ({[f]} ∪ U))) by (unfold free_frames; lia).
  assert (frames_for T p (S n) = frames_for T p n + 2) as Hff by (cbn [frames_for]; rewrite Ho; cbn; lia).
  split; [|split].
  - unfold used_up. rewrite Hff. lia.
  - intros i. destruct (decide (i = (p + Z.of_nat n) / 1024)) as [->|Hi].
    + rewrite lookup_insert_eq. split; [done|]. intros [_ Hj]. exfalso. by apply (Hj (Z.of_nat n)); [lia|].
    + rewrite lookup_insert_ne by congruence. rewrite (HT i). split; intros [? Hj]; (split; [done|]);
        intros j Hjr; [|apply Hj; lia]. destruct (decide (j = Z.of_nat n)) as [->|]; [congruence|]. apply Hj. lia.
  - split; [lia|]. intros j Hj Hoj. destruct (decide (j = n)) as [->|]; [rewrite Hff; lia|]. apply Hes; [lia|done].
Qed.
