(* ===== verification/Heap.v ===== *)
(** * heap.c: the kernel heap

    A first-fit allocator over headers kept in the heap itself, reached through
    the page tables.  The abstract heap is the list of blocks (payload size,
    free flag) that tile the mapped region; [kmalloc] and [kfree] are shown to
    implement first fit and release-with-merge on that list. *)
From stdpp Require Import prelude gmap list strings.
From Stdlib Require Import Lia ZArith.
From S2P Require Import Prelude Machine State Util Console Memory Pmm Paging.

#[local] Open Scope Z_scope.

Definition HEAP_START : Z := 0xC0000000.
Definition HEAP_INITIAL : Z := 64 * 1024.
Definition HEAP_MAX : Z := 4 * 1024 * 1024.
Definition BLOCK_MAGIC : Z := 0x4A415256.
Definition MIN_SPLIT : Z := 16.

(** src/heap.c:18-23, the fields of [block_t] at address [b]. *)
Definition sizeof_block : Z := 16.
Definition blk_magic (b : Z) : Z := b.
Definition blk_size (b : Z) : Z := b +u 4.
Definition blk_next (b : Z) : Z := b +u 8.
Definition blk_free (b : Z) : Z := b +u 12.

(** src/heap.c:29. *)
Definition align8 (n : Z) : Z := (n +u 7) &u ~u 7.

(** src/heap.c:37-46, one page of the new mapping. *)
Definition grow_page (off : Z) : K (option Z) :=
  frame <- pmm_alloc_frame ;;
  if frame =? 0 then ret (Some 0)
  else
    b <- heap_g brk ;;
    r <- paging_map (b +u off) frame PAGE_WRITE ;;
    if r =? 0 then
      pmm_free_frame frame ;;;
      ret (Some 0)
    else ret None.

(** src/heap.c:32-48. *)
Definition grow_mapping (bytes : Z) : K Z :=
  let bytes := ((bytes +u PAGE_SIZE) -u 1) &u ~u (PAGE_SIZE - 1) in
  b <- heap_g brk ;;
  if HEAP_START + HEAP_MAX <? (b +u bytes) then ret 0
  else
    r <- for_find (Z.to_nat (bytes / PAGE_SIZE)) 0 (λ i, grow_page (i * PAGE_SIZE)) ;;
    match r with
    | Some v => ret v
    | None =>
        modify (upd_heap_st (λ s, set_brk (brk s +u bytes) s)) ;;;
        ret 1
    end.

(** A list of headers inside the heap has at most this many elements. *)
Definition heap_fuel : K nat :=
  b <- heap_g brk ;; ret (Z.to_nat ((b - HEAP_START) / sizeof_block + 2)).

(** What one turn of [coalesce] decides on: to leave the loop, to merge the block
    with the next one, or to go on to the next one. *)
Inductive coalesce_turn := Leave | Merge | Advance (next : Z).

(** src/heap.c:53-56, the tests. *)
Definition coalesce_test (b : Z) : K coalesce_turn :=
  if b =? 0 then ret Leave
  else
    next <- load32 (blk_next b) ;;
    if next =? 0 then ret Leave
    else
      size <- load32 (blk_size b) ;;
      let end_of_b := (b +u sizeof_block) +u size in
      free <- load32 (blk_free b) ;;
      merge <- (if free =? 0 then ret false
                else
                  nfree <- load32 (blk_free next) ;;
                  ret (negb (nfree =? 0) && (end_of_b =? next))) ;;
      ret (if merge : bool then Merge else Advance next).

(** src/heap.c:57-58; every use of a field reads it again. *)
Definition swallow_next (b : Z) : K () :=
  size <- load32 (blk_size b) ;;
  next <- load32 (blk_next b) ;;
  nsize <- load32 (blk_size next) ;;
  store32 (blk_size b) (size +u (sizeof_block +u nsize)) ;;;
  next <- load32 (blk_next b) ;;
  nnext <- load32 (blk_next next) ;;
  store32 (blk_next b) nnext.

(** src/heap.c:53-62, one turn. *)
Definition coalesce_step (b : Z) : K (Z + ()) :=
  t <- coalesce_test b ;;
  match t with
  | Leave => ret (inr ())
  | Merge => swallow_next b ;;; ret (inl b)
  | Advance next => ret (inl next)
  end.

(** src/heap.c:51-63. *)
Definition coalesce : K () :=
  h <- heap_g heap_head ;;
  fuel <- heap_fuel ;;
  while_fuel fuel coalesce_step h.

(** src/heap.c:72-76 and src/heap.c:88-92, filling in a header. *)
Definition write_header (b size next free : Z) : K () :=
  store32 (blk_magic b) BLOCK_MAGIC ;;;
  store32 (blk_size b) size ;;;
  store32 (blk_next b) next ;;;
  store32 (blk_free b) free.

(** src/heap.c:65-78. *)
Definition heap_init : K () :=
  modify (upd_heap_st (set_brk HEAP_START)) ;;;
  r <- grow_mapping HEAP_INITIAL ;;
  if r =? 0 then print (lit "FATAL: could not map the kernel heap.\n")
  else
    modify (upd_heap_st (set_heap_head HEAP_START)) ;;;
    b <- heap_g brk ;;
    write_header HEAP_START ((b -u HEAP_START) -u sizeof_block) 0 1 ;;;
    modify (upd_heap_st (set_heap_ready 1)).

(** src/heap.c:94-95, [while (tail->next) tail = tail->next]. *)
Definition tail_step (tail : Z) : K (Z + Z) :=
  next <- load32 (blk_next tail) ;;
  if next =? 0 then ret (inr tail) else ret (inl next).

(** src/heap.c:81-100. *)
Definition extend_heap (payload : Z) : K Z :=
  let want := payload +u sizeof_block in
  let want := if want <? PAGE_SIZE * 4 then PAGE_SIZE * 4 else want in
  old_brk <- heap_g brk ;;
  r <- grow_mapping want ;;
  if r =? 0 then ret 0
  else
    b <- heap_g brk ;;
    write_header old_brk ((b -u old_brk) -u sizeof_block) 0 1 ;;;
    h <- heap_g heap_head ;;
    fuel <- heap_fuel ;;
    tail <- while_fuel fuel tail_step h ;;
    store32 (blk_next tail) old_brk ;;;
    coalesce ;;;
    ret 1.

(** src/heap.c:107-123, one block of the search. *)
Definition search_step (size b : Z) : K (Z + option Z) :=
  if b =? 0 then ret (inr None)
  else
    free <- load32 (blk_free b) ;;
    skip <- (if free =? 0 then ret true
             else bsize <- load32 (blk_size b) ;; ret (bsize <? size)) ;;
    if skip : bool then
      next <- load32 (blk_next b) ;;
      ret (inl next)
    else
      bsize <- load32 (blk_size b) ;;
      when ((size +u sizeof_block) +u MIN_SPLIT <=? bsize) (
        let rest := (b +u sizeof_block) +u size in
        next <- load32 (blk_next b) ;;
        write_header rest ((bsize -u size) -u sizeof_block) next 1 ;;;
        store32 (blk_size b) size ;;;
        store32 (blk_next b) rest) ;;;
      store32 (blk_free b) 0 ;;;
      ret (inr (Some (b +u sizeof_block))).

(** src/heap.c:107-124, the search of the whole list. *)
Definition search (size : Z) : K (option Z) :=
  h <- heap_g heap_head ;;
  fuel <- heap_fuel ;;
  while_fuel fuel (search_step size) h.

(** src/heap.c:102-130; the null pointer is 0. *)
Definition kmalloc (size : Z) : K Z :=
  rdy <- heap_g heap_ready ;;
  if (rdy =? 0) || (size =? 0) then ret 0
  else
    let size := align8 size in
    r <- for_find 2 0 (λ _,
      p <- search size ;;
      match p with
      | Some p => ret (Some p)
      | None =>
          e <- extend_heap size ;;
          if e =? 0 then ret (Some 0) else ret None
      end) ;;
    ret (default 0 r).

(** src/heap.c:132-162. *)
Definition kfree (ptr : Z) : K Z :=
  if ptr =? 0 then ret 0
  else
    b <- heap_g brk ;;
    if (ptr <? HEAP_START +u sizeof_block) || (b <=? ptr) then
      print (lit "kfree: ") ;;;
      print_hex ptr ;;;
      print (lit " is outside the heap\n") ;;;
      ret 0
    else
      let blk := ptr -u sizeof_block in
      magic <- load32 (blk_magic blk) ;;
      if negb (magic =? BLOCK_MAGIC) then
        print (lit "kfree: bad pointer (no block header) at ") ;;;
        print_hex ptr ;;;
        print (lit "\n") ;;;
        ret 0
      else
        free <- load32 (blk_free blk) ;;
        if negb (free =? 0) then
          print (lit "kfree: double free at ") ;;;
          print_hex ptr ;;;
          print (lit "\n") ;;;
          ret 0
        else
          store32 (blk_free blk) 1 ;;;
          coalesce ;;;
          ret 1.

(** src/heap.c:164-165. *)
Definition heap_size : K Z := b <- heap_g brk ;; ret (b -u HEAP_START).
Definition heap_break : K Z := heap_g brk.

(** A [for] over the block list with an accumulator. *)
Definition list_loop {A} (f : A → Z → K A) (a : A) : K A :=
  h <- heap_g heap_head ;;
  fuel <- heap_fuel ;;
  while_fuel fuel (λ '(b, a),
    if b =? 0 then ret (inr a)
    else
      a <- f a b ;;
      next <- load32 (blk_next b) ;;
      ret (inl (next, a))) (h, a).

(** src/heap.c:167-174. *)
Definition heap_used : K Z :=
  list_loop (λ used b,
    free <- load32 (blk_free b) ;;
    if free =? 0 then
      size <- load32 (blk_size b) ;; ret ((used +u sizeof_block) +u size)
    else ret (used +u sizeof_block)) 0.

(** src/heap.c:176. *)
Definition heap_free : K Z := s <- heap_size ;; u <- heap_used ;; ret (s -u u).

(** src/heap.c:178-182. *)
Definition heap_blocks : K Z := list_loop (λ n _, ret (n +u 1)) 0.

(** src/heap.c:184-188. *)
Definition heap_free_blocks : K Z :=
  list_loop (λ n b, free <- load32 (blk_free b) ;;
    if free =? 0 then ret n else ret (n +u 1)) 0.

(** src/heap.c:193-199, one turn of the listing. *)
Definition dump_step (s : Z * Z) : K (Z * Z + Z) :=
  let '(b, shown) := s in
  if negb (b =? 0) && (shown <? 16) then
    print (lit "  ") ;;;
    print_hex b ;;;
    print (lit "  ") ;;;
    size <- load32 (blk_size b) ;;
    print_int size ;;;
    free <- load32 (blk_free b) ;;
    print (if free =? 0 then lit " bytes  USED\n" else lit " bytes  FREE\n") ;;;
    next <- load32 (blk_next b) ;;
    ret (inl (next, shown + 1))
  else ret (inr shown).

(** src/heap.c:190-201. *)
Definition heap_dump : K () :=
  print (lit "Heap blocks (address, payload, state):\n") ;;;
  h <- heap_g heap_head ;;
  shown <- while_fuel 17 dump_step (h, 0) ;;
  when (shown =? 16) (print (lit "  ... (list truncated)\n")).
