(* ===== verification/HeapSpec.v ===== *)
(** * The heap as a list of blocks

    The abstract heap of heap.c is the list of blocks (payload size, free
    flag) that tile the mapped region.  First part: the list operations that
    [kmalloc] and [kfree] are to perform, and what they preserve.  Second
    part: how a list of blocks is laid out in memory, and the change of memory
    the heap code is allowed ([heap_step]). *)
From stdpp Require Import prelude gmap list strings.
From Stdlib Require Import Lia ZArith.
From S2P Require Import Prelude Machine State Util Console Memory Pmm Paging Heap.

#[local] Open Scope Z_scope.

(** ** The abstract heap *)
Record blk := Blk { bsz : Z; bfree : bool }.

(** The bytes a block takes, header included. *)
Definition blk_span (b : blk) : Z := sizeof_block + bsz b.
Fixpoint span (bs : list blk) : Z :=
  match bs with [] => 0 | b :: bs => blk_span b + span bs end.

(** Merging every run of free blocks. *)
Fixpoint coalesce_spec (bs : list blk) : list blk :=
  match bs with
  | [] => []
  | b :: bs =>
      match coalesce_spec bs with
      | c :: cs =>
          if bfree b && bfree c then Blk (bsz b + sizeof_block + bsz c) true :: cs
          else b :: c :: cs
      | [] => [b]
      end
  end.

(** Carving [size] bytes out of a free block. *)
Definition carve (size : Z) (b : blk) : list blk :=
  if size + sizeof_block + MIN_SPLIT <=? bsz b
  then [Blk size false; Blk (bsz b - size - sizeof_block) true]
  else [Blk (bsz b) false].

(** First fit from address [a]: the pointer and the new list. *)
Fixpoint first_fit (size a : Z) (bs : list blk) : option (Z * list blk) :=
  match bs with
  | [] => None
  | b :: bs =>
      if bfree b && (size <=? bsz b) then Some (a + sizeof_block, carve size b ++ bs)
      else (λ '(p, cs), (p, b :: cs)) <$> first_fit size (a + blk_span b) bs
  end.

(** Releasing the used block whose payload starts at [p]. *)
Fixpoint release (p a : Z) (bs : list blk) : option (list blk) :=
  match bs with
  | [] => None
  | b :: bs =>
      if p =? a + sizeof_block then
        if bfree b then None else Some (Blk (bsz b) true :: bs)
      else (b ::.) <$> release p (a + blk_span b) bs
  end.

(** No two neighbours are both free. *)
Fixpoint coalesced (bs : list blk) : Prop :=
  match bs with
  | b :: ((c :: _) as bs') => ¬ (bfree b = true ∧ bfree c = true) ∧ coalesced bs'
  | _ => True
  end.

(** Byte [x] belongs to the payload of a used block. *)
Fixpoint used_payload (a : Z) (bs : list blk) (x : Z) : Prop :=
  match bs with
  | [] => False
  | b :: bs =>
      (bfree b = false ∧ a + sizeof_block ≤ x < a + blk_span b) ∨
      used_payload (a + blk_span b) bs x
  end.

Definition sizes_ok (bs : list blk) : Prop := Forall (λ b, 0 ≤ bsz b) bs.

Lemma span_app bs cs : span (bs ++ cs) = span bs + span cs.
Proof. induction bs; cbn [span app]; lia. Qed.

Lemma span_nonneg bs : sizes_ok bs → 0 ≤ span bs.
Proof. induction 1; cbn [span]; unfold blk_span, sizeof_block; lia. Qed.

Lemma sizes_ok_app bs cs : sizes_ok (bs ++ cs) ↔ sizes_ok bs ∧ sizes_ok cs.
Proof. apply Forall_app. Qed.

Lemma used_payload_app a bs cs x :
  used_payload a (bs ++ cs) x ↔ used_payload a bs x ∨ used_payload (a + span bs) cs x.
Proof.
  revert a. induction bs as [|b bs IH]; intros a; cbn [used_payload app span].
  - rewrite Z.add_0_r. tauto.
  - rewrite IH, Z.add_assoc. tauto.
Qed.

Lemma used_payload_range a bs x :
  sizes_ok bs → used_payload a bs x → a + sizeof_block ≤ x < a + span bs.
Proof.
  intros Hok. revert a. induction Hok as [|b bs Hb Hok IH]; intros a; cbn [used_payload span]; [done|].
  pose proof (span_nonneg bs Hok). unfold blk_span, sizeof_block in *.
  intros [[_ ?]|Hx%IH]; lia.
Qed.

Lemma coalesce_spec_span bs : span (coalesce_spec bs) = span bs.
Proof.
  induction bs as [|b bs IH]; [done|]. cbn [coalesce_spec span]. rewrite <- IH.
  destruct (coalesce_spec bs) as [|c cs]; [done|].
  case_match; cbn [span]; unfold blk_span; cbn [bsz]; lia.
Qed.

Lemma coalesce_spec_sizes bs : sizes_ok bs → sizes_ok (coalesce_spec bs).
Proof.
  induction 1 as [|b bs Hb Hok IH]; [by constructor|]. cbn [coalesce_spec].
  destruct (coalesce_spec bs) as [|c cs]; [by repeat constructor|].
  apply Forall_cons in IH as [??].
  case_match; repeat constructor; cbn [bsz]; unfold sizeof_block; try done; lia.
Qed.

Lemma coalesce_spec_payload a bs x :
  used_payload a (coalesce_spec bs) x ↔ used_payload a bs x.
Proof.
  revert a. induction bs as [|b bs IH]; intros a; [done|]. cbn [coalesce_spec used_payload].
  rewrite <- IH. destruct (coalesce_spec bs) as [|c cs]; [done|].
  destruct (bfree b) eqn:Hb, (bfree c) eqn:Hc; cbn [andb used_payload bfree]; rewrite ?Hb, ?Hc;
    unfold blk_span in *; cbn [bsz];
    replace (a + (sizeof_block + (bsz b + sizeof_block + bsz c))) with
      (a + (sizeof_block + bsz b) + (sizeof_block + bsz c)) by lia; naive_solver.
Qed.

Lemma coalesce_spec_coalesced bs : coalesced (coalesce_spec bs).
Proof.
  induction bs as [|b bs IH]; [done|]. cbn [coalesce_spec].
  destruct (coalesce_spec bs) as [|c [|d cs]]; [done| |].
  - destruct (bfree b) eqn:Hb, (bfree c) eqn:Hc; cbn; rewrite ?Hb, ?Hc; naive_solver.
  - cbn [coalesced] in IH.
    destruct (bfree b) eqn:Hb, (bfree c) eqn:Hc; cbn [andb coalesced bfree];
      rewrite ?Hb, ?Hc in *; naive_solver.
Qed.

Lemma coalesce_spec_id bs : coalesced bs → coalesce_spec bs = bs.
Proof.
  induction bs as [|b bs IH]; [done|]. intros Hc. cbn [coalesce_spec].
  destruct bs as [|c bs]; [done|]. destruct Hc as [Hn Hc]. rewrite IH by done.
  destruct (bfree b), (bfree c); naive_solver.
Qed.

(** Merging two neighbours first makes no difference. *)
Lemma coalesce_spec_merge bs b c cs :
  bfree b = true → bfree c = true →
  coalesce_spec (bs ++ Blk (bsz b + (sizeof_block + bsz c)) true :: cs) =
  coalesce_spec (bs ++ b :: c :: cs).
Proof.
  intros Hb Hc. induction bs as [|d bs IH]; cbn [app coalesce_spec]; [|by rewrite IH].
  rewrite Hb, Hc. destruct (coalesce_spec cs) as [|e es]; cbn [bfree bsz andb].
  - rewrite ?Hc. cbn. do 2 f_equal. lia.
  - destruct (bfree e); cbn [bfree bsz andb]; rewrite ?Hc; cbn [andb bsz bfree]; do 2 f_equal; lia.
Qed.

Lemma coalesced_carve_fits size b : bfree b = true → size ≤ bsz b → 0 ≤ size →
  span (carve size b) = blk_span b ∧ (0 ≤ size → sizes_ok (carve size b)).
Proof.
  intros Hb Hs ?. unfold carve, blk_span, sizeof_block, MIN_SPLIT.
  destruct (Z.leb_spec (size + 16 + 16) (bsz b)); cbn [span bsz]; unfold blk_span, sizeof_block; cbn [bsz];
    (split; [lia | intros; repeat constructor; cbn; lia]).
Qed.

(** What the sizes look like when only [kmalloc] made them: payloads are
    multiples of eight and never empty. *)
Definition block_ok (b : blk) : Prop := 8 ≤ bsz b ∧ bsz b mod 8 = 0.

Lemma block_ok_sizes bs : Forall block_ok bs → sizes_ok bs.
Proof. intros H. eapply Forall_impl; [done|]. unfold block_ok. cbn. lia. Qed.

Lemma block_ok_merge b c : block_ok b → block_ok c → block_ok (Blk (bsz b + sizeof_block + bsz c) true).
Proof. unfold block_ok, sizeof_block. cbn. zlia. Qed.

Lemma coalesce_spec_ok bs : Forall block_ok bs → Forall block_ok (coalesce_spec bs).
Proof.
  induction 1 as [|b bs Hb Hok IH]; [by constructor|]. cbn [coalesce_spec].
  destruct (coalesce_spec bs) as [|c cs]; [by apply Forall_singleton|].
  apply Forall_cons in IH as [??].
  case_match; repeat apply Forall_cons_2; try done; by apply block_ok_merge.
Qed.

Lemma carve_ok size b : block_ok b → 8 ≤ size ≤ bsz b → size mod 8 = 0 → Forall block_ok (carve size b).
Proof.
  intros [??] ??. unfold carve, sizeof_block, MIN_SPLIT.
  destruct (Z.leb_spec (size + 16 + 16) (bsz b)); repeat constructor; cbn; zlia.
Qed.

(** What [first_fit] returns. *)
Lemma first_fit_some size a bs p bs' :
  first_fit size a bs = Some (p, bs') →
  ∃ pre b post, bs = pre ++ b :: post ∧ bfree b = true ∧ size ≤ bsz b ∧
    Forall (λ c, ¬ (bfree c = true ∧ size ≤ bsz c)) pre ∧
    p = a + span pre + sizeof_block ∧ bs' = pre ++ carve size b ++ post.
Proof.
  revert a bs'. induction bs as [|b bs IH]; intros a bs'; cbn [first_fit]; [done|].
  destruct (bfree b && (size <=? bsz b)) eqn:Hf.
  - apply andb_true_iff in Hf as [Hb Hs%Z.leb_le]. intros [= <- <-].
    exists [], b, bs. cbn. split_and!; [done..|constructor|lia|done].
  - intros ([q cs] & Hr & [= -> ->])%fmap_Some. apply IH in Hr as (pre & c & post & -> & ? & ? & ? & -> & ->).
    exists (b :: pre), c, post. cbn [app span]. split_and!; [done..| |lia|done].
    constructor; [|done]. intros [Hb Hs%Z.leb_le]. by rewrite Hb, Hs in Hf.
Qed.

Lemma first_fit_ok size a bs p bs' :
  Forall block_ok bs → 8 ≤ size → size mod 8 = 0 →
  first_fit size a bs = Some (p, bs') → Forall block_ok bs'.
Proof.
  intros Hok ?? (pre & b & post & -> & ? & ? & _ & _ & ->)%first_fit_some.
  rewrite !Forall_app, Forall_cons in *. destruct Hok as (? & ? & ?).
  split_and!; [done| |done]. by apply carve_ok.
Qed.

Lemma first_fit_none size a bs :
  first_fit size a bs = None ↔ Forall (λ c, ¬ (bfree c = true ∧ size ≤ bsz c)) bs.
Proof.
  revert a. induction bs as [|b bs IH]; intros a; cbn [first_fit]; [by split; auto|].
  rewrite Forall_cons, <- (IH (a + blk_span b)).
  destruct (bfree b && (size <=? bsz b)) eqn:Hf.
  - apply andb_true_iff in Hf as [? ?%Z.leb_le]. naive_solver.
  - rewrite fmap_None. split; [|tauto]. intros ?. split; [|done].
    intros [Hb Hs%Z.leb_le]. by rewrite Hb, Hs in Hf.
Qed.

Lemma release_split p a bs bs' :
  release p a bs = Some bs' →
  ∃ pre b post, bs = pre ++ b :: post ∧ bfree b = false ∧ p = a + span pre + sizeof_block ∧
    bs' = pre ++ Blk (bsz b) true :: post.
Proof.
  revert a bs'. induction bs as [|b bs IH]; intros a bs'; cbn [release]; [done|].
  case_match eqn:Hp.
  - destruct (bfree b) eqn:Hb; [done|]. intros [= <-]. exists [], b, bs.
    apply Z.eqb_eq in Hp. cbn. split_and!; [done..|lia|done].
  - intros (cs & Hr & ->)%fmap_Some. apply IH in Hr as (pre & c & post & -> & ? & -> & ->).
    exists (b :: pre), c, post. cbn [span app]. split_and!; [done..|lia|done].
Qed.

Lemma release_at pre b post a : sizes_ok pre → bfree b = false →
  release (a + span pre + sizeof_block) a (pre ++ b :: post) = Some (pre ++ Blk (bsz b) true :: post).
Proof.
  intros Hok Hb. revert a. induction Hok as [|d pre Hd Hok IH]; intros a; cbn [app release span].
  - rewrite (proj2 (Z.eqb_eq _ _)) by lia. by rewrite Hb.
  - pose proof (span_nonneg _ Hok). rewrite (proj2 (Z.eqb_neq _ _)) by (unfold blk_span, sizeof_block; lia).
    replace (a + (blk_span d + span pre) + sizeof_block) with (a + blk_span d + span pre + sizeof_block) by lia.
    by rewrite IH.
Qed.

(** ** The allocations

    What a client of the heap sees: a finite map from the pointers it was
    given to the sizes of their blocks. *)
Fixpoint amap (a : Z) (bs : list blk) : gmap Z Z :=
  match bs with
  | [] => ∅
  | b :: bs =>
      let m := amap (a + blk_span b) bs in
      if bfree b then m else <[a + sizeof_block := bsz b]> m
  end.

Definition allocations (bs : list blk) : gmap Z Z := amap HEAP_START bs.

Lemma amap_range a bs p n :
  sizes_ok bs → amap a bs !! p = Some n → a + sizeof_block ≤ p ∧ p + n ≤ a + span bs ∧ 0 ≤ n.
Proof.
  intros Hok. revert a. induction Hok as [|b bs Hb Hok IH]; intros a; cbn [amap span]; [done|].
  pose proof (span_nonneg bs Hok). unfold blk_span, sizeof_block in *.
  case_match; [intros Hx%IH; lia|].
  rewrite lookup_insert_Some. intros [[<- <-]|[_ Hx%IH]]; lia.
Qed.

Lemma amap_app a bs cs : amap a (bs ++ cs) = amap a bs ∪ amap (a + span bs) cs.
Proof.
  revert a. induction bs as [|b bs IH]; intros a; cbn [amap app span].
  - by rewrite Z.add_0_r, (left_id_L ∅ (∪)).
  - rewrite IH, <- Z.add_assoc. case_match; [done|]. by rewrite insert_union_l.
Qed.

Lemma amap_coalesce a bs : amap a (coalesce_spec bs) = amap a bs.
Proof.
  revert a. induction bs as [|b bs IH]; intros a; [done|]. cbn [coalesce_spec amap].
  rewrite <- IH. destruct (coalesce_spec bs) as [|c cs]; [done|].
  destruct (bfree b) eqn:Hb, (bfree c) eqn:Hc; cbn [andb amap bfree]; rewrite ?Hb, ?Hc; try done.
  f_equal. unfold blk_span. cbn [bsz]. lia.
Qed.

(** Looking up the block at a position. *)
Lemma amap_at a pre b post :
  sizes_ok (pre ++ b :: post) →
  amap a pre !! (a + span pre + sizeof_block) = None ∧
  amap (a + span pre + blk_span b) post !! (a + span pre + sizeof_block) = None.
Proof.
  intros [Hp [Hb Hq]%Forall_cons]%sizes_ok_app. unfold blk_span, sizeof_block.
  split; (destruct (amap _ _ !! _) eqn:He; [|done]); apply amap_range in He as (? & ? & ?);
    try done; unfold sizeof_block in *; lia.
Qed.

Lemma amap_first_fit size a bs p bs' :
  sizes_ok bs → 0 ≤ size → first_fit size a bs = Some (p, bs') →
  amap a bs !! p = None ∧ ∃ n, size ≤ n ∧ amap a bs' = <[p := n]> (amap a bs).
Proof.
  intros Hok Hs (pre & b & post & -> & Hb & Hsz & _ & -> & ->)%first_fit_some.
  destruct (amap_at a pre b post Hok) as [Hpre Hpost].
  rewrite !amap_app. cbn [amap]. rewrite Hb.
  split; [by apply lookup_union_None|].
  destruct (coalesced_carve_fits size b Hb Hsz Hs) as [Hspan _]. rewrite Hspan.
  assert (∃ n, size ≤ n ∧ amap (a + span pre) (carve size b) = <[a + span pre + sizeof_block := n]> ∅)
    as (n & Hn & ->).
  { unfold carve. case_match; cbn [amap bfree bsz]; [by exists size|by exists (bsz b)]. }
  exists n. split; [done|].
  by rewrite <- insert_union_l, (left_id_L ∅ (∪)), insert_union_r by done.
Qed.

Lemma amap_release p a bs bs' :
  sizes_ok bs → release p a bs = Some bs' → is_Some (amap a bs !! p) ∧ amap a bs' = delete p (amap a bs).
Proof.
  intros Hok (pre & b & post & -> & Hb & -> & ->)%release_split.
  destruct (amap_at a pre b post Hok) as [Hpre Hpost].
  rewrite !amap_app. cbn [amap bfree]. rewrite Hb. split.
  - rewrite lookup_union_r by done. by rewrite lookup_insert_eq.
  - rewrite delete_union, (delete_id (amap a pre)), delete_insert_id by done. done.
Qed.

(** A pointer can be released exactly if it is an allocation. *)
Lemma release_allocated p a bs n :
  sizes_ok bs → amap a bs !! p = Some n → is_Some (release p a bs).
Proof.
  intros Hok. revert a. induction Hok as [|b bs Hb Hok IH]; intros a; cbn [amap release]; [done|].
  destruct (bfree b) eqn:Hf.
  - intros Hp. pose proof (amap_range _ _ _ _ Hok Hp). unfold blk_span, sizeof_block in *.
    rewrite (proj2 (Z.eqb_neq _ _)) by lia. destruct (IH _ Hp) as [? ->]. by eexists.
  - rewrite lookup_insert_Some. intros [[<- <-]|[? Hp]].
    + rewrite Z.eqb_refl. by eexists.
    + rewrite (proj2 (Z.eqb_neq _ _)) by done. destruct (IH _ Hp) as [? ->]. by eexists.
Qed.

(** The bytes of the allocations are the payload bytes in use. *)
Lemma used_payload_amap a bs x :
  sizes_ok bs → used_payload a bs x ↔ ∃ p n, amap a bs !! p = Some n ∧ p ≤ x < p + n.
Proof.
  intros Hok. revert a. induction Hok as [|b bs Hb Hok IH]; intros a; cbn [amap used_payload].
  - split; [done|]. intros (p & n & Hp & _). done.
  - rewrite IH. destruct (bfree b) eqn:Hf; [naive_solver|].
    assert (amap (a + blk_span b) bs !! (a + sizeof_block) = None) as Hn.
    { destruct (amap _ _ !! _) eqn:He; [|done]. apply amap_range in He; [|done].
      unfold blk_span, sizeof_block in *. lia. }
    split.
    + intros [[_ ?]|(p & n & Hp & ?)].
      * exists (a + sizeof_block), (bsz b). rewrite lookup_insert_eq. unfold blk_span in *. split; [done|lia].
      * exists p, n. rewrite lookup_insert_ne by congruence. done.
    + intros (p & n & Hp & ?). apply lookup_insert_Some in Hp as [[<- <-]|[? Hp]].
      * left. unfold blk_span. split; [done|lia].
      * right. by exists p, n.
Qed.

(** ** Headers in memory *)

(** The [next] field of a block that ends at [a]: null for the last one. *)
Definition link (stop a : Z) : Z := if a =? stop then 0 else a.

Record hdr (tr : Z → Z) (m : machine) (a next : Z) (b : blk) : Prop := {
  hdr_magic : vw tr m a = BLOCK_MAGIC;
  hdr_size : vw tr m (a + 4) = bsz b;
  hdr_next : vw tr m (a + 8) = next;
  hdr_free : vw tr m (a + 12) = Z.b2z (bfree b)
}.

(** The headers of the blocks [bs], one after the other from [a]; the list
    ends where a block ends at [stop]. *)
Fixpoint hdrs (tr : Z → Z) (m : machine) (stop a : Z) (bs : list blk) : Prop :=
  match bs with
  | [] => True
  | b :: bs =>
      hdr tr m a (link stop (a + blk_span b)) b ∧ hdrs tr m stop (a + blk_span b) bs
  end.

Lemma hdrs_app tr m stop a bs cs :
  hdrs tr m stop a (bs ++ cs) ↔ hdrs tr m stop a bs ∧ hdrs tr m stop (a + span bs) cs.
Proof.
  revert a. induction bs as [|b bs IH]; intros a; cbn [hdrs app span].
  - rewrite Z.add_0_r. tauto.
  - rewrite IH, Z.add_assoc. tauto.
Qed.

(** What the heap code may change: bytes of the heap window inside [W]. *)
Record heap_step (tr : Z → Z) (lo hi : Z) (W : Z → Prop) (k k' : kernel) : Prop := {
  hs_shape : ∃ ph, k' = upd_mach (set_phys ph) k;
  hs_image : agrees_outside (image tr lo hi) (mach k) (mach k');
  hs_keep x : lo ≤ x < hi → ¬ W x → vb tr (mach k') x = vb tr (mach k) x
}.

Lemma heap_step_refl tr lo hi W k : heap_step tr lo hi W k k.
Proof. split; [|done..]. exists (phys (mach k)). by destruct k as [[]]. Qed.

Lemma heap_step_trans tr lo hi W k1 k2 k3 :
  heap_step tr lo hi W k1 k2 → heap_step tr lo hi W k2 k3 → heap_step tr lo hi W k1 k3.
Proof.
  intros [[ph1 ->] H1 K1] [[ph2 ->] H2 K2]. split.
  - by exists ph2.
  - by etrans.
  - intros x ??. by rewrite K2, K1.
Qed.

Lemma heap_step_mono tr lo hi (W W' : Z → Prop) k k' :
  (∀ x, lo ≤ x < hi → W x → W' x) → heap_step tr lo hi W k k' → heap_step tr lo hi W' k k'.
Proof. intros ? []. split; auto. Qed.

Lemma heap_step_window tr lo hi W k k' :
  window tr lo hi (mach k) → heap_step tr lo hi W k k' → window tr lo hi (mach k').
Proof. intros Hw []. by eapply window_step. Qed.

Lemma heap_step_vw tr lo hi W k k' x :
  heap_step tr lo hi W k k' → lo ≤ x → x + 4 ≤ hi → (∀ y, x ≤ y < x + 4 → ¬ W y) →
  vw tr (mach k') x = vw tr (mach k) x.
Proof. intros [_ _ Hk] ?? HW. apply vw_ext. intros y ?. apply Hk; [lia | auto]. Qed.

Lemma heap_step_heap_st tr lo hi W k k' : heap_step tr lo hi W k k' → heap_st k' = heap_st k.
Proof. by intros [[ph ->] _ _]. Qed.

Lemma heap_step_store tr lo hi a v k m' :
  window tr lo hi (mach k) → lo ≤ a → a + 4 ≤ hi → stored tr 4 a v (mach k) m' →
  heap_step tr lo hi (λ x, a ≤ x < a + 4) k (upd_mach (λ _, m') k).
Proof.
  intros Hw ?? Hst. split.
  - destruct (st_phys _ _ _ _ _ _ Hst) as [ph ->]. by exists ph.
  - by eapply stored_image.
  - intros x ??. eapply stored_vb_other; [done..|]. lia.
Qed.

(** Storing one word of the heap. *)
Lemma wp_heap_store tr lo hi (W : Z → Prop) k0 a a' v (Q : () → kernel → Prop) k :
  window tr lo hi (mach k) → heap_step tr lo hi W k0 k → a' = a → lo ≤ a → a + 4 ≤ hi →
  (∀ x, a ≤ x < a + 4 → W x) →
  (∀ k', heap_step tr lo hi W k0 k' → window tr lo hi (mach k') →
     heap_step tr lo hi (λ x, a ≤ x < a + 4) k k' →
     vw tr (mach k') a = u32 v → Q tt k') →
  wp (store32 a' v) Q k.
Proof.
  intros Hw H0 -> ?? HW HQ. eapply wp_store32; [done..|]. intros m' Hst.
  pose proof (heap_step_store _ _ _ _ _ _ _ Hw ltac:(done) ltac:(done) Hst) as Hs.
  apply HQ.
  - eapply heap_step_trans; [done|]. eapply heap_step_mono, Hs. intros; auto.
  - by eapply heap_step_window.
  - done.
  - by eapply stored_vw_same.
Qed.

Lemma hdr_keep tr lo hi W k k' a next b :
  heap_step tr lo hi W k k' → lo ≤ a → a + sizeof_block ≤ hi →
  (∀ x, a ≤ x < a + sizeof_block → ¬ W x) →
  hdr tr (mach k) a next b → hdr tr (mach k') a next b.
Proof.
  unfold sizeof_block. intros Hs ?? HW [H1 H2 H3 H4].
  split; erewrite heap_step_vw; try done; try lia; intros; apply HW; lia.
Qed.

Lemma hdrs_keep tr lo hi W k k' stop a bs :
  heap_step tr lo hi W k k' → sizes_ok bs → lo ≤ a → a + span bs ≤ hi →
  (∀ x, a ≤ x < a + span bs → ¬ W x) →
  hdrs tr (mach k) stop a bs → hdrs tr (mach k') stop a bs.
Proof.
  intros Hs Hok. revert a. induction Hok as [|b bs Hb Hok IH]; intros a; [done|].
  cbn [hdrs span]. pose proof (span_nonneg bs Hok).
  assert (0 ≤ blk_span b - sizeof_block ∧ 0 < sizeof_block) by (unfold blk_span, sizeof_block; lia).
  intros ?? HW [H1 H2]. split.
  - eapply hdr_keep; [done|lia|lia| |done]. intros; apply HW; lia.
  - apply IH; [lia|lia| |done]. intros; apply HW; lia.
Qed.

(** Replacing the blocks in the middle of the list. *)
Lemma hdrs_splice tr lo hi W k k' stop pre mid mid' post :
  heap_step tr lo hi W k k' → sizes_ok (pre ++ mid ++ post) → lo + span (pre ++ mid ++ post) ≤ hi →
  (∀ x, W x → lo + span pre ≤ x < lo + span pre + span mid) →
  span mid' = span mid →
  hdrs tr (mach k) stop lo (pre ++ mid ++ post) → hdrs tr (mach k') stop (lo + span pre) mid' →
  hdrs tr (mach k') stop lo (pre ++ mid' ++ post).
Proof.
  intros Hs. rewrite !hdrs_app, !sizes_ok_app, !span_app. intros (Hp & Hm & Hq) Hhi HW Hsp (H1 & H2 & H3) H.
  pose proof (span_nonneg _ Hp). pose proof (span_nonneg _ Hm). pose proof (span_nonneg _ Hq).
  split_and!.
  - eapply hdrs_keep; [done|done|lia|lia| |done]. intros x ? ?%HW. lia.
  - done.
  - rewrite Hsp. eapply hdrs_keep; [done|done|lia|lia| |done]. intros x ? ?%HW. lia.
Qed.
