(* ===== verification/HeapProof.v ===== *)
(** * heap.c is first fit over the list of blocks

    The code of heap.c, run in a state whose heap region holds the headers of
    a list of blocks, performs the list operations of HeapSpec.v and touches
    no payload byte in use and nothing outside the heap. *)
From stdpp Require Import prelude gmap list strings.
From Stdlib Require Import Lia ZArith.
From S2P Require Import Prelude Machine State Util Console Memory Pmm Paging Heap HeapSpec.

#[local] Open Scope Z_scope.

Definition heap_top : Z := HEAP_START + HEAP_MAX.

(** The region from [HEAP_START] to [hi] holds the list [bs]. *)
Record heap_lay (tr : Z → Z) (hi : Z) (bs : list blk) (k : kernel) : Prop := {
  hl_win : window tr HEAP_START hi (mach k);
  hl_hdrs : hdrs tr (mach k) hi HEAP_START bs;
  hl_sizes : sizes_ok bs;
  hl_span : HEAP_START + span bs = hi;
  hl_top : hi ≤ heap_top
}.

Ltac heap_unfold :=
  unfold heap_top, HEAP_START, HEAP_MAX, MIN_SPLIT, blk_span, sizeof_block in *.
Ltac heap_cbn := cbn beta iota delta [span bsz bfree] in *.
Ltac heap_lia := heap_cbn; heap_unfold; heap_cbn; rewrite ?u32_small; lia.

Section fields.
Context (tr : Z → Z) (hi : Z) (k : kernel) (a next : Z) (b : blk).
Context (Hwin : window tr HEAP_START hi (mach k)) (Htop : hi ≤ heap_top).
Context (Hlo : HEAP_START ≤ a) (Hhi : a + sizeof_block ≤ hi).
Context (Hb : hdr tr (mach k) a next b).

Lemma wp_magic (Q : Z → kernel → Prop) : Q BLOCK_MAGIC k → wp (load32 (blk_magic a)) Q k.
Proof.
  intros. unfold blk_magic. eapply wp_load32; [done|heap_lia..|].
  by rewrite (hdr_magic _ _ _ _ _ Hb).
Qed.
Lemma wp_size (Q : Z → kernel → Prop) : Q (bsz b) k → wp (load32 (blk_size a)) Q k.
Proof.
  intros. unfold blk_size. rewrite u32_small by heap_lia.
  eapply wp_load32; [done|heap_lia..|]. by rewrite (hdr_size _ _ _ _ _ Hb).
Qed.
Lemma wp_next (Q : Z → kernel → Prop) : Q next k → wp (load32 (blk_next a)) Q k.
Proof.
  intros. unfold blk_next. rewrite u32_small by heap_lia.
  eapply wp_load32; [done|heap_lia..|]. by rewrite (hdr_next _ _ _ _ _ Hb).
Qed.
Lemma wp_free (Q : Z → kernel → Prop) : Q (Z.b2z (bfree b)) k → wp (load32 (blk_free a)) Q k.
Proof.
  intros. unfold blk_free. rewrite u32_small by heap_lia.
  eapply wp_load32; [done|heap_lia..|]. by rewrite (hdr_free _ _ _ _ _ Hb).
Qed.
End fields.

(** A header after one of its fields is stored. *)
Section field_stores.
Context (tr : Z → Z) (hi : Z) (k k' : kernel) (a next v : Z) (b : blk).
Context (Htop : hi ≤ heap_top) (Hlo : HEAP_START ≤ a) (Hhi : a + sizeof_block ≤ hi).
Context (Hb : hdr tr (mach k) a next b).

Ltac field := destruct Hb as [H1 H2 H3 H4]; split;
  first [done | erewrite heap_step_vw; [done|done|heap_lia..|intros; heap_lia]].

Lemma hdr_set_size :
  heap_step tr HEAP_START hi (λ x, a + 4 ≤ x < a + 4 + 4) k k' →
  vw tr (mach k') (a + 4) = v → hdr tr (mach k') a next (Blk v (bfree b)).
Proof using Htop Hlo Hhi Hb. intros. field. Qed.
Lemma hdr_set_next :
  heap_step tr HEAP_START hi (λ x, a + 8 ≤ x < a + 8 + 4) k k' →
  vw tr (mach k') (a + 8) = v → hdr tr (mach k') a v b.
Proof using Htop Hlo Hhi Hb. intros. field. Qed.
Lemma hdr_set_free (f : bool) :
  heap_step tr HEAP_START hi (λ x, a + 12 ≤ x < a + 12 + 4) k k' →
  vw tr (mach k') (a + 12) = Z.b2z f → hdr tr (mach k') a next (Blk (bsz b) f).
Proof using Htop Hlo Hhi Hb. intros. field. Qed.
End field_stores.

(** The header of the block at a position of the list. *)
Lemma heap_at tr hi pre b post k :
  heap_lay tr hi (pre ++ b :: post) k →
  let a := HEAP_START + span pre in
  hdr tr (mach k) a (match post with [] => 0 | _ => a + blk_span b end) b ∧
  HEAP_START ≤ a ∧ 0 ≤ bsz b ∧ a + blk_span b + span post = hi ∧ 0 ≤ span post.
Proof.
  intros [_ Hh Hs Hsp Ht] a. apply hdrs_app in Hh as [_ [Hh _]]. fold a in Hh.
  apply sizes_ok_app in Hs as [Hp [Hb Hq]%Forall_cons].
  pose proof (span_nonneg _ Hp). pose proof (span_nonneg _ Hq).
  rewrite span_app in Hsp. cbn [span] in Hsp.
  split_and!; [|unfold a; lia|done|unfold a; lia|done].
  destruct post as [|c post].
  - unfold link in Hh. rewrite (proj2 (Z.eqb_eq (a + blk_span b) hi)) in Hh; [done|].
    unfold a. cbn [span] in Hsp. lia.
  - unfold link in Hh. rewrite (proj2 (Z.eqb_neq (a + blk_span b) hi)) in Hh; [done|].
    apply Forall_cons in Hq as [Hc Hq]. pose proof (span_nonneg _ Hq).
    unfold a. heap_lia.
Qed.

(** A change of the blocks in the middle. *)
Lemma heap_lay_splice tr hi W k k' pre mid mid' post :
  heap_lay tr hi (pre ++ mid ++ post) k → heap_step tr HEAP_START hi W k k' →
  (∀ x, W x → HEAP_START + span pre ≤ x < HEAP_START + span pre + span mid) →
  span mid' = span mid → sizes_ok mid' →
  hdrs tr (mach k') hi (HEAP_START + span pre) mid' →
  heap_lay tr hi (pre ++ mid' ++ post) k'.
Proof.
  intros [Hw Hh Hs Hsp Ht] Hst HW Hm Hok H. split; [| | | |done].
  - by eapply heap_step_window.
  - eapply hdrs_splice; [done|done| |done..]. lia.
  - rewrite !sizes_ok_app in *. tauto.
  - rewrite !span_app in *. lia.
Qed.

(** ** Merging *)
Lemma link_hdr tr m stop a next b : next = link stop (a + blk_span b) →
  hdr tr m a next b → hdrs tr m stop a [b].
Proof. by intros ->. Qed.

Lemma next_link tr hi pre mid post k :
  heap_lay tr hi (pre ++ mid ++ post) k →
  u32 (match post with [] => 0 | _ => HEAP_START + span pre + span mid end) =
  link hi (HEAP_START + span pre + span mid).
Proof.
  intros [_ _ Hs Hsp Ht]. rewrite !sizes_ok_app in Hs. destruct Hs as (Hp & Hm & Hq).
  rewrite !span_app in Hsp.
  pose proof (span_nonneg _ Hp). pose proof (span_nonneg _ Hm). unfold link.
  destruct post as [|c post]; cbn [span] in Hsp.
  - by rewrite (proj2 (Z.eqb_eq _ hi)) by lia.
  - apply Forall_cons in Hq as [Hc Hq]. pose proof (span_nonneg _ Hq).
    rewrite (proj2 (Z.eqb_neq _ hi)) by heap_lia. heap_lia.
Qed.

Lemma coalesced_snoc_free pre b c : bfree b = bfree c → coalesced (pre ++ [b]) → coalesced (pre ++ [c]).
Proof.
  intros Hbc. induction pre as [|d pre IH]; [done|].
  destruct pre as [|e pre]; cbn [app coalesced] in *; [by rewrite <- Hbc | naive_solver].
Qed.

Lemma coalesced_snoc pre b c :
  coalesced (pre ++ [b]) → ¬ (bfree b = true ∧ bfree c = true) → coalesced ((pre ++ [b]) ++ [c]).
Proof.
  intros H Hn. induction pre as [|d pre IH]; [done|].
  destruct pre as [|e pre]; cbn [app coalesced] in *; naive_solver.
Qed.

Lemma used_payload_free pre b post x :
  sizes_ok (pre ++ b :: post) →
  used_payload HEAP_START (pre ++ b :: post) x →
  ¬ (HEAP_START + span pre ≤ x < HEAP_START + span pre + sizeof_block) ∧
  (bfree b = true → ¬ (HEAP_START + span pre ≤ x < HEAP_START + span pre + blk_span b)).
Proof.
  intros [Hp [Hb Hq]%Forall_cons]%sizes_ok_app. pose proof (span_nonneg _ Hq).
  rewrite used_payload_app. cbn [used_payload].
  assert (0 < sizeof_block) by done. unfold blk_span.
  intros [Hx%used_payload_range|[[Hf ?]|Hx%used_payload_range]]; try done; try lia.
  split; [lia|]. congruence.
Qed.

(** The heap code keeps every byte of a block in use. *)
Definition keeps_payload (bs : list blk) (x : Z) : Prop := ¬ used_payload HEAP_START bs x.

(** [coalesce] performs [coalesce_spec]. *)
Definition coalesce_inv (tr : Z → Z) (hi : Z) (bs : list blk) (k0 : kernel) (a : Z) (k : kernel) : Prop :=
  ∃ pre b post,
    a = HEAP_START + span pre ∧ heap_lay tr hi (pre ++ b :: post) k ∧
    coalesced (pre ++ [b]) ∧ coalesce_spec (pre ++ b :: post) = coalesce_spec bs ∧
    heap_step tr HEAP_START hi (keeps_payload bs) k0 k.

(** Swallowing the next block: the list has one block less, whatever the two were. *)
Lemma swallow_rep tr hi W k0 k pre b c post :
  heap_lay tr hi (pre ++ b :: c :: post) k → heap_step tr HEAP_START hi W k0 k →
  let a := HEAP_START + span pre in
  (∀ x, a ≤ x < a + sizeof_block → W x) →
  wp (swallow_next a) (λ _ k',
    heap_lay tr hi (pre ++ Blk (bsz b + (sizeof_block + bsz c)) (bfree b) :: post) k' ∧
    heap_step tr HEAP_START hi W k0 k') k.
Proof.
  intros Hl Hs a HK. unfold swallow_next. wp_go.
  destruct (heap_at _ _ _ _ _ _ Hl) as (Hhb & Ha & Hsb & Hhi & Hq). fold a in Hhb, Ha, Hhi.
  pose proof (heap_at tr hi (pre ++ [b]) c post k) as Hn.
  rewrite <- app_assoc in Hn. destruct (Hn Hl) as (Hhc & Ha' & Hsc & Hhi' & Hq'). clear Hn.
  rewrite span_app in Hhc, Ha', Hhi'. cbn [span] in Hhc, Ha', Hhi', Hhi, Hq.
  replace (HEAP_START + (span pre + (blk_span b + 0))) with (a + blk_span b) in * by (unfold a; lia).
  pose proof (hl_top _ _ _ _ Hl) as Ht. pose proof (hl_win _ _ _ _ Hl) as Hw.
  eapply wp_size; [done..|heap_lia|heap_lia|done|]. wp_go.
  eapply wp_next; [done..|heap_lia|heap_lia|done|]. wp_go.
  assert (u32 (a + blk_span b) = a + blk_span b) as Hu by heap_lia. rewrite ?Hu.
  eapply wp_size; [done..|heap_lia|heap_lia|done|]. wp_go.
  eapply (wp_heap_store tr HEAP_START hi W k0 (a + 4));
    [apply Hl|done|unfold blk_size; heap_lia|heap_lia|heap_lia|intros; apply HK; heap_lia|].
  intros k1 Hs1 Hw1 Hst1 Hv1. wp_go.
  eapply hdr_keep in Hhc as Hhc1; [|exact Hst1|heap_lia|heap_lia|intros; heap_lia].
  eapply hdr_set_size in Hhb as Hhb1; [|done|heap_lia|heap_lia|exact Hst1|exact Hv1].
  eapply wp_next; [done..|heap_lia|heap_lia|done|]. wp_go. rewrite ?Hu.
  eapply wp_next; [done..|heap_lia|heap_lia|done|].
  eapply (wp_heap_store tr HEAP_START hi W k0 (a + 8));
    [done|done|unfold blk_next; heap_lia|heap_lia|heap_lia|intros; apply HK; heap_lia|].
  intros k2 Hs2 Hw2 Hst2 Hv2. split; [|done].
  eapply hdr_set_next in Hhb1 as Hhb2; [|done|heap_lia|heap_lia|exact Hst2|exact Hv2].
  apply (heap_lay_splice tr hi (λ x, a ≤ x < a + sizeof_block) k k2 pre [b; c]
    [Blk (bsz b + (sizeof_block + bsz c)) (bfree b)] post Hl).
  - eapply heap_step_trans; (eapply heap_step_mono; [|done]); cbn; intros; heap_lia.
  - intros; heap_lia.
  - heap_lia.
  - repeat constructor. heap_lia.
  - eapply link_hdr; [|replace (bsz b + (sizeof_block + bsz c))
      with (u32 (bsz b +u (sizeof_block +u bsz c))) by
        (rewrite u32_idem, (u32_small (sizeof_block + bsz c)) by heap_lia; heap_lia); exact Hhb2].
    pose proof (next_link tr hi pre [b; c] post k Hl) as Hnl. cbn [span] in Hnl.
    replace (blk_span (Blk (bsz b + (sizeof_block + bsz c)) (bfree b)))
      with (blk_span b + (blk_span c + 0)) by heap_lia.
    rewrite <- Hnl. destruct post; [done|]. f_equal. unfold a. lia.
Qed.

(** The merge that [coalesce] makes. *)
Lemma coalesce_merge tr hi bs k0 k pre b c post :
  heap_lay tr hi (pre ++ b :: c :: post) k → bfree b = true → bfree c = true →
  coalesced (pre ++ [b]) → coalesce_spec (pre ++ b :: c :: post) = coalesce_spec bs →
  heap_step tr HEAP_START hi (keeps_payload bs) k0 k →
  wp (swallow_next (HEAP_START + span pre)) (λ _ k',
       heap_lay tr hi (pre ++ Blk (bsz b + (sizeof_block + bsz c)) true :: post) k' ∧
       heap_step tr HEAP_START hi (keeps_payload bs) k0 k') k.
Proof.
  intros Hl Hb Hc Hco Hsp Hs. rewrite <- Hb. apply swallow_rep; [done|done|].
  intros x Hx Hu. rewrite <- coalesce_spec_payload, <- Hsp, coalesce_spec_payload in Hu.
  apply used_payload_free in Hu as [Hu _]; [by apply Hu|apply (hl_sizes _ _ _ _ Hl)].
Qed.

(** The tests, at the block behind [pre]. *)
Lemma coalesce_test_rep tr hi pre b post k : heap_lay tr hi (pre ++ b :: post) k →
  wp (coalesce_test (HEAP_START + span pre)) (λ t k', k' = k ∧ t =
    match post with
    | [] => Leave
    | c :: _ => if bfree b && bfree c then Merge else Advance (HEAP_START + span pre + blk_span b)
    end) k.
Proof.
  intros Hl. destruct (heap_at _ _ _ _ _ _ Hl) as (Hhb & Ha & Hsb & Hhi & Hq).
  pose proof (hl_win _ _ _ _ Hl) as Hw. pose proof (hl_top _ _ _ _ Hl) as Ht.
  set (a := HEAP_START + span pre) in *.
  unfold coalesce_test. rewrite (proj2 (Z.eqb_neq a 0)) by heap_lia. wp_go.
  eapply wp_next; [done..|heap_lia|heap_lia|done|]. wp_go.
  destruct post as [|c post]; [rewrite Z.eqb_refl; by wp_go|].
  rewrite (proj2 (Z.eqb_neq (a + blk_span b) 0)) by heap_lia. wp_go.
  eapply wp_size; [done..|heap_lia|heap_lia|done|]. wp_go.
  eapply wp_free; [done..|heap_lia|heap_lia|done|].
  pose proof (heap_at tr hi (pre ++ [b]) c post k) as Hn.
  rewrite <- app_assoc in Hn. destruct (Hn Hl) as (Hhc & Ha' & Hsc & Hhi' & Hq'). clear Hn.
  rewrite span_app in Hhc, Ha', Hhi'. cbn [span] in Hhc, Ha', Hhi', Hhi, Hq.
  replace (HEAP_START + (span pre + (blk_span b + 0))) with (a + blk_span b) in * by (unfold a; lia).
  destruct (bfree b); cbn [Z.b2z Z.eqb andb]; wp_go; [|done].
  eapply wp_free; [done..|heap_lia|heap_lia|done|]. wp_go.
  replace ((a +u sizeof_block) +u bsz b) with (a + blk_span b)
    by (rewrite (u32_small (a + sizeof_block)) by heap_lia; heap_lia).
  rewrite Z.eqb_refl, andb_true_r. by destruct (bfree c).
Qed.

Lemma coalesce_rep tr hi bs k :
  heap_lay tr hi bs k → heap_head (heap_st k) = HEAP_START → brk (heap_st k) = hi → bs ≠ [] →
  wp coalesce (λ _ k', heap_lay tr hi (coalesce_spec bs) k' ∧
    heap_step tr HEAP_START hi (keeps_payload bs) k k') k.
Proof.
  intros Hl Hh Hbrk Hne. unfold coalesce, heap_fuel, heap_g. wp_go. rewrite Hh, Hbrk.
  assert (HEAP_START ≤ hi) by (pose proof (span_nonneg _ (hl_sizes _ _ _ _ Hl)); pose proof (hl_span _ _ _ _ Hl); lia).
  apply wp_while_fuel with (I := coalesce_inv tr hi bs k)
    (variant := λ a k', Z.to_nat ((hi - a - sizeof_block - vw tr (mach k') (a + 4)) / sizeof_block)).
  - destruct bs as [|b bs]; [done|]. exists [], b, bs. split_and!; try done.
    apply heap_step_refl.
  - pose proof (vw_range tr (mach k) (HEAP_START + 4)). unfold sizeof_block.
    apply Nat2Z.inj_lt. zlia.
  - intros a k' (pre & b & post & -> & Hl' & Hco & Hsp & Hs).
    destruct (heap_at _ _ _ _ _ _ Hl') as (Hhb & Ha & Hsb & Hhi & Hq). pose proof (hl_top _ _ _ _ Hl') as Ht.
    set (a := HEAP_START + span pre) in *.
    unfold coalesce_step. rewrite wp_bind. wp_use (coalesce_test_rep tr hi pre b post k'); [done|].
    cbn beta. intros t k1 [-> ->]. destruct post as [|c post].
    { wp_go. rewrite <- Hsp, coalesce_spec_id by done. done. }
    pose proof (heap_at tr hi (pre ++ [b]) c post k') as Hn.
    rewrite <- app_assoc in Hn. destruct (Hn Hl') as (Hhc & Ha' & Hsc & Hhi' & Hq'). clear Hn.
    rewrite span_app in Hhc, Ha', Hhi'. cbn [span] in Hhc, Ha', Hhi', Hhi, Hq.
    replace (HEAP_START + (span pre + (blk_span b + 0))) with (a + blk_span b) in * by (unfold a; lia).
    assert (∀ a' b' nx k'', hdr tr (mach k'') a' nx b' → a + blk_span b + bsz c ≤ bsz b' + a' →
      (Z.to_nat ((hi - a' - sizeof_block - vw tr (mach k'') (a' + 4)) / sizeof_block) <
       Z.to_nat ((hi - a - sizeof_block - vw tr (mach k') (a + 4)) / sizeof_block))%nat) as Hvar.
    { intros a' b' nx k'' [_ -> _ _] ?. rewrite (hdr_size _ _ _ _ _ Hhb).
      heap_unfold. apply Nat2Z.inj_lt. zlia. }
    destruct (bfree b && bfree c) eqn:Hbc.
    + apply andb_true_iff in Hbc as [Hb Hc]. rewrite wp_bind.
      wp_use (coalesce_merge tr hi bs k k' pre b c post); [done..|].
      cbn beta. intros _ k'' (Hl'' & Hs''). wp_go. split.
      * exists pre, (Blk (bsz b + (sizeof_block + bsz c)) true), post. split_and!; [done..| | |done].
        -- by apply (coalesced_snoc_free pre b).
        -- rewrite <- Hsp. by apply coalesce_spec_merge.
      * destruct (heap_at _ _ _ _ _ _ Hl'') as (Hhb'' & _). eapply Hvar; [done|heap_lia].
    + wp_go. split; [|eapply Hvar; [done|heap_lia]].
      exists (pre ++ [b]), c, post. rewrite <- app_assoc.
      split_and!; [rewrite span_app; cbn [span]; unfold a; lia|done| |done|done].
      apply coalesced_snoc; [done|]. by rewrite <- andb_true_iff, Hbc.
Qed.

(** ** Writing a header *)
Lemma write_header_rep tr hi k a size next f (Q : () → kernel → Prop) :
  window tr HEAP_START hi (mach k) → hi ≤ heap_top → HEAP_START ≤ a → a + sizeof_block ≤ hi →
  0 ≤ size < 0x100000000 → 0 ≤ next < 0x100000000 →
  (∀ k', heap_step tr HEAP_START hi (λ x, a ≤ x < a + sizeof_block) k k' →
     window tr HEAP_START hi (mach k') → hdr tr (mach k') a next (Blk size f) → Q tt k') →
  wp (write_header a size next (Z.b2z f)) Q k.
Proof.
  intros Hw Ht Hlo Hhi Hsz Hnx HQ. unfold write_header. wp_go.
  set (W := λ x, a ≤ x < a + sizeof_block).
  pose proof (heap_step_refl tr HEAP_START hi W k) as H0.
  eapply (wp_heap_store tr HEAP_START hi W k a);
    [done|done|done|heap_lia|heap_lia|unfold W; intros; heap_lia|].
  intros k1 Hs1 Hw1 Hst1 Hv1. wp_go.
  eapply (wp_heap_store tr HEAP_START hi W k (a + 4));
    [done|done|unfold blk_size; heap_lia|heap_lia|heap_lia|unfold W; intros; heap_lia|].
  intros k2 Hs2 Hw2 Hst2 Hv2. wp_go.
  eapply (wp_heap_store tr HEAP_START hi W k (a + 8));
    [done|done|unfold blk_next; heap_lia|heap_lia|heap_lia|unfold W; intros; heap_lia|].
  intros k3 Hs3 Hw3 Hst3 Hv3. wp_go.
  eapply (wp_heap_store tr HEAP_START hi W k (a + 12));
    [done|done|unfold blk_free; heap_lia|heap_lia|heap_lia|unfold W; intros; heap_lia|].
  intros k4 Hs4 Hw4 Hst4 Hv4. apply HQ; [done|done|].
  rewrite u32_small in Hv2, Hv3 by done.
  split; cbn [bsz bfree].
  - do 3 (erewrite heap_step_vw; [|done|heap_lia..|intros; heap_lia]). by rewrite Hv1.
  - do 2 (erewrite heap_step_vw; [|done|heap_lia..|intros; heap_lia]). by rewrite Hv2.
  - erewrite heap_step_vw; [|done|heap_lia..|intros; heap_lia]. by rewrite Hv3.
  - rewrite Hv4. by destruct f.
Qed.

(** ** First fit *)
Definition fits (size : Z) (b : blk) : bool := bfree b && (size <=? bsz b).

Lemma first_fit_skip size a pre post :
  Forall (λ b, fits size b = false) pre →
  first_fit size a (pre ++ post) =
    (λ '(p, cs), (p, pre ++ cs)) <$> first_fit size (a + span pre) post.
Proof.
  intros Hp. revert a. induction Hp as [|b pre Hb Hp IH]; intros a; cbn [app first_fit span].
  - rewrite Z.add_0_r. by destruct (first_fit size a post) as [[]|].
  - unfold fits in Hb. rewrite Hb, IH, Z.add_assoc.
    by destruct (first_fit size _ post) as [[]|].
Qed.

Lemma keeps_payload_free tr hi pre b post k x :
  heap_lay tr hi (pre ++ b :: post) k → bfree b = true →
  HEAP_START + span pre ≤ x < HEAP_START + span pre + blk_span b →
  keeps_payload (pre ++ b :: post) x.
Proof.
  intros Hl Hb Hx Hu. apply used_payload_free in Hu as [_ Hu]; [|apply (hl_sizes _ _ _ _ Hl)].
  by apply Hu.
Qed.

(** The last store of [kmalloc]: the block [b'] at the place of [b] is now in
    use, and [rest] follows it. *)
Lemma carve_end tr hi k k' pre b b' post rest size :
  heap_lay tr hi (pre ++ b :: post) k → bfree b = true → 0 ≤ size ≤ bsz b →
  carve size b = Blk (bsz b') false :: rest →
  let a := HEAP_START + span pre in
  heap_step tr HEAP_START hi (λ x, a ≤ x < a + blk_span b) k k' →
  hdr tr (mach k') a (link hi (a + blk_span b')) b' → hdrs tr (mach k') hi (a + blk_span b') rest →
  wp (store32 (blk_free a) 0) (λ _ k'',
    heap_lay tr hi (pre ++ carve size b ++ post) k'' ∧
    heap_step tr HEAP_START hi (keeps_payload (pre ++ b :: post)) k k'') k'.
Proof.
  intros Hl Hb Hsz Hcv a Hs Hh Hr.
  destruct (heap_at _ _ _ _ _ _ Hl) as (_ & Ha & _ & Hhi & Hq). fold a in Ha, Hhi.
  pose proof (hl_top _ _ _ _ Hl) as Ht.
  pose proof (heap_step_window _ _ _ _ _ _ (hl_win _ _ _ _ Hl) Hs) as Hw.
  destruct (coalesced_carve_fits size b Hb ltac:(lia) ltac:(lia)) as [Hcs Hcok].
  specialize (Hcok ltac:(lia)). pose proof Hcok as Hok. rewrite Hcv in Hcs, Hok.
  apply Forall_cons in Hok as [Hsb' Hrok]. pose proof (span_nonneg _ Hrok).
  eapply (wp_heap_store tr HEAP_START hi (λ x, a ≤ x < a + blk_span b) k (a + 12));
    [done|done|unfold blk_free; heap_lia|heap_lia|heap_lia|intros; heap_lia|].
  intros k'' Hs'' Hw'' Hst Hv.
  eapply (hdr_set_free tr hi) with (f := false) in Hh; [|done|heap_lia|heap_lia|exact Hst|exact Hv].
  split.
  - eapply (heap_lay_splice tr hi _ k k'' pre [b] (carve size b) post); [done|exact Hs''|..].
    + cbn beta. intros x ?. fold a. cbn [span]. lia.
    + rewrite Hcv. cbn [span] in *. lia.
    + done.
    + rewrite Hcv. split; [done|]. eapply hdrs_keep; [done|done|heap_lia|heap_lia|intros; heap_lia|done].
  - eapply heap_step_mono, Hs''. intros. by eapply keeps_payload_free.
Qed.

(** The block that fits is carved and marked as used. *)
Lemma carve_rep tr hi k pre b post size :
  heap_lay tr hi (pre ++ b :: post) k → bfree b = true → 0 ≤ size ≤ bsz b →
  let a := HEAP_START + span pre in
  wp (bsize <- load32 (blk_size a) ;;
      when ((size +u sizeof_block) +u MIN_SPLIT <=? bsize) (
        let rest := (a +u sizeof_block) +u size in
        next <- load32 (blk_next a) ;;
        write_header rest ((bsize -u size) -u sizeof_block) next 1 ;;;
        store32 (blk_size a) size ;;;
        store32 (blk_next a) rest) ;;;
      store32 (blk_free a) 0 ;;;
      ret (inr (Some (a +u sizeof_block))))
    (λ r k', r = inr (A:=Z) (Some (a + sizeof_block)) ∧
      heap_lay tr hi (pre ++ carve size b ++ post) k' ∧
      heap_step tr HEAP_START hi (keeps_payload (pre ++ b :: post)) k k') k.
Proof.
  intros Hl Hb Hsz a. wp_go.
  destruct (heap_at _ _ _ _ _ _ Hl) as (Hhb & Ha & Hsb & Hhi & Hq). fold a in Hhb, Ha, Hhi.
  pose proof (hl_top _ _ _ _ Hl) as Ht. pose proof (hl_win _ _ _ _ Hl) as Hw.
  pose proof (next_link tr hi pre [b] post k Hl) as Hnl. cbn [span] in Hnl.
  fold a in Hnl. rewrite Z.add_0_r in Hnl.
  set (nx := match post with [] => 0 | _ => a + blk_span b end) in *.
  assert (0 ≤ nx < 0x100000000) as Hnx by (unfold nx; destruct post; heap_lia).
  rewrite u32_small in Hnl by done.
  eapply wp_size; [done..|heap_lia|heap_lia|done|]. wp_go.
  replace ((size +u sizeof_block) +u MIN_SPLIT) with (size + sizeof_block + MIN_SPLIT)
    by (rewrite (u32_small (size + sizeof_block)) by heap_lia; heap_lia).
  assert (∀ k' b' rest, carve size b = Blk (bsz b') false :: rest →
    heap_step tr HEAP_START hi (λ x, a ≤ x < a + blk_span b) k k' →
    hdr tr (mach k') a (link hi (a + blk_span b')) b' →
    hdrs tr (mach k') hi (a + blk_span b') rest →
    wp (store32 (blk_free a) 0 ;;; ret (inr (A:=Z) (Some (a +u sizeof_block)))) (λ r k'',
      r = inr (Some (a + sizeof_block)) ∧ heap_lay tr hi (pre ++ carve size b ++ post) k'' ∧
      heap_step tr HEAP_START hi (keeps_payload (pre ++ b :: post)) k k'') k') as Hend.
  { intros k' b' rest Hcv Hs' Hh' Hr. wp_go. wp_use carve_end; [done..|].
    cbn beta. intros _ k'' [??]. wp_go. by rewrite u32_small by heap_lia. }
  unfold carve in *. apply wp_when; intros Hc; rewrite Hc in *.
  - apply Z.leb_le in Hc. set (rs := bsz b - size - sizeof_block).
    replace ((a +u sizeof_block) +u size) with (a + sizeof_block + size)
      by (rewrite (u32_small (a + sizeof_block)) by heap_lia; heap_lia).
    replace ((bsz b -u size) -u sizeof_block) with rs
      by (unfold rs; rewrite (u32_small (bsz b - size)) by heap_lia; heap_lia).
    wp_go. eapply wp_next; [done..|heap_lia|heap_lia|done|]. wp_go.
    eapply (write_header_rep tr hi k _ rs nx true);
      [done|done|heap_lia|heap_lia|unfold rs; heap_lia|done|].
    intros k1 Hs1 Hw1 Hh1.
    eapply hdr_keep in Hhb as Hb1; [|exact Hs1|heap_lia|heap_lia|intros; heap_lia]. wp_go.
    eapply (wp_heap_store tr HEAP_START hi (λ x, a ≤ x < a + blk_span b) k (a + 4));
      [done|eapply heap_step_mono, Hs1; intros; heap_lia|unfold blk_size; heap_lia|heap_lia|heap_lia
      |intros; heap_lia|].
    intros k2 Hs2 Hw2 Hst2 Hv2. wp_go.
    eapply hdr_keep in Hh1 as Hh2; [|exact Hst2|heap_lia|heap_lia|intros; heap_lia].
    eapply hdr_set_size in Hb1 as Hb2; [|done|heap_lia|heap_lia|exact Hst2|exact Hv2].
    eapply (wp_heap_store tr HEAP_START hi (λ x, a ≤ x < a + blk_span b) k (a + 8));
      [done|exact Hs2|unfold blk_next; heap_lia|heap_lia|heap_lia|intros; heap_lia|].
    intros k3 Hs3 Hw3 Hst3 Hv3.
    eapply hdr_keep in Hh2 as Hh3; [|exact Hst3|heap_lia|heap_lia|intros; heap_lia].
    eapply hdr_set_next in Hb2 as Hb3; [|done|heap_lia|heap_lia|exact Hst3|exact Hv3].
    rewrite (u32_small size) in Hb3 by heap_lia.
    rewrite (u32_small (a + sizeof_block + size)) in Hb3 by heap_lia.
    eapply (Hend k3 (Blk size (bfree b)) [Blk rs true]); [done|done| |split; [|done]].
    + unfold link. rewrite (proj2 (Z.eqb_neq _ hi)) by heap_lia.
      replace (a + blk_span _) with (a + sizeof_block + size) by heap_lia. done.
    + replace (a + blk_span _ + blk_span _) with (a + blk_span b) by (unfold rs; heap_lia).
      replace (a + blk_span _) with (a + sizeof_block + size) by heap_lia. by rewrite <- Hnl.
  - eapply (Hend k b); [done|apply heap_step_refl|by rewrite <- Hnl|done].
Qed.

(** The search of [kmalloc] is [first_fit]. *)
Definition search_post (tr : Z → Z) (hi : Z) (bs : list blk) (k : kernel) (size : Z)
    (r : option Z) (k' : kernel) : Prop :=
  match first_fit size HEAP_START bs with
  | Some (p, bs') => r = Some p ∧ heap_lay tr hi bs' k' ∧
      heap_step tr HEAP_START hi (keeps_payload bs) k k'
  | None => r = None ∧ k' = k
  end.

(** The address of the list [post] that follows [pre]. *)
Definition at_block (pre post : list blk) : Z :=
  match post with [] => 0 | _ => HEAP_START + span pre end.

Definition heap_statics (hi : Z) (k : kernel) : Prop :=
  heap_head (heap_st k) = HEAP_START ∧ brk (heap_st k) = hi.

(** How many blocks can follow [a]. *)
Definition blocks_left (hi a : Z) : nat :=
  if a =? 0 then O else Z.to_nat ((hi - a) / sizeof_block + 1).

Lemma search_rep tr hi bs k size :
  heap_lay tr hi bs k → heap_statics hi k → bs ≠ [] → 0 ≤ size →
  wp (search size) (search_post tr hi bs k size) k.
Proof.
  intros Hl [Hh Hbrk] Hne Hsz. unfold search, heap_fuel, heap_g. wp_go. rewrite Hh, Hbrk.
  pose proof (span_nonneg _ (hl_sizes _ _ _ _ Hl)). pose proof (hl_span _ _ _ _ Hl).
  apply wp_while_fuel with
    (I := λ a k', k' = k ∧ ∃ pre post, bs = pre ++ post ∧ a = at_block pre post ∧
            Forall (λ b, fits size b = false) pre)
    (variant := λ a k', blocks_left hi a).
  - split; [done|]. exists [], bs. split_and!; [done| |done]. by destruct bs.
  - unfold blocks_left, sizeof_block. rewrite (proj2 (Z.eqb_neq HEAP_START 0)) by done.
    apply Nat2Z.inj_lt. zlia.
  - intros a k' [-> (pre & post & -> & -> & Hpre)]. unfold search_step.
    destruct post as [|b post].
    { cbn. wp_go. unfold search_post. rewrite first_fit_skip by done. done. }
    destruct (heap_at _ _ _ _ _ _ Hl) as (Hhb & Ha & Hsb & Hhi & Hq).
    pose proof (hl_win _ _ _ _ Hl) as Hw. pose proof (hl_top _ _ _ _ Hl) as Ht.
    cbn [at_block]. set (a := HEAP_START + span pre) in *.
    rewrite (proj2 (Z.eqb_neq a 0)) by heap_lia. wp_go.
    assert (fits size b = false → wp (next <- load32 (blk_next a) ;; ret (inl next))
      (λ r s', match r with
        | inl a' => (s' = k ∧ ∃ pre' post', pre ++ b :: post = pre' ++ post' ∧ a' = at_block pre' post' ∧
                     Forall (λ b, fits size b = false) pre') ∧
          (blocks_left hi a' < blocks_left hi a)%nat
        | inr r => search_post tr hi (pre ++ b :: post) k size r s' end) k) as Hskip.
    { intros Hf. wp_go. eapply wp_next; [done..|heap_lia|heap_lia|done|]. wp_go. split.
      - split; [done|]. exists (pre ++ [b]), post. split_and!.
        + by rewrite <- app_assoc.
        + unfold at_block. destruct post; [done|]. rewrite span_app. cbn [span]. unfold a. lia.
        + by apply Forall_app_2; [|constructor].
      - unfold blocks_left. rewrite (proj2 (Z.eqb_neq a 0)) by heap_lia.
        destruct post as [|c post]; [heap_unfold; apply Nat2Z.inj_lt; cbn; zlia|].
        rewrite (proj2 (Z.eqb_neq (a + blk_span b) 0)) by heap_lia.
        heap_unfold. apply Nat2Z.inj_lt. zlia. }
    eapply wp_free; [done..|heap_lia|heap_lia|done|].
    destruct (bfree b) eqn:Hb; cbn [Z.b2z Z.eqb].
    2:{ wp_go. rewrite wp_bind in Hskip. apply Hskip. unfold fits. by rewrite Hb. }
    wp_go. eapply wp_size; [done..|heap_lia|heap_lia|done|]. wp_go.
    destruct (Z.ltb_spec (bsz b) size).
    { apply Hskip. unfold fits. rewrite (proj2 (Z.leb_gt _ _)) by done. apply andb_false_r. }
    wp_use (carve_rep tr hi k pre b post size); [done|done|lia|].
    cbn beta. intros r k' (-> & Hl' & Hs'). unfold search_post.
    rewrite first_fit_skip by done. cbn [first_fit]. rewrite Hb, (proj2 (Z.leb_le _ _)) by done. done.
Qed.

(** ** Releasing *)
Lemma release_rep tr hi k pre b post :
  heap_lay tr hi (pre ++ b :: post) k → bfree b = false →
  wp (store32 (blk_free (HEAP_START + span pre)) 1) (λ _ k',
    heap_lay tr hi (pre ++ Blk (bsz b) true :: post) k' ∧
    heap_step tr HEAP_START hi (keeps_payload (pre ++ b :: post)) k k') k.
Proof.
  intros Hl Hb. set (a := HEAP_START + span pre).
  destruct (heap_at _ _ _ _ _ _ Hl) as (Hhb & Ha & Hsb & Hhi & Hq). fold a in Hhb, Ha, Hhi.
  pose proof (hl_top _ _ _ _ Hl) as Ht. pose proof (hl_win _ _ _ _ Hl) as Hw.
  pose proof (hl_hdrs _ _ _ _ Hl) as Hh. apply hdrs_app in Hh as [_ [Hh _]]. fold a in Hh.
  eapply (wp_heap_store tr HEAP_START hi (λ x, a ≤ x < a + sizeof_block) k (a + 12));
    [done|apply heap_step_refl|unfold blk_free; heap_lia|heap_lia|heap_lia|intros; heap_lia|].
  intros k' Hs' Hw' Hst Hv.
  eapply (hdr_set_free tr hi) with (f := true) in Hh as Hh'; [|done|heap_lia|heap_lia|exact Hst|exact Hv].
  split.
  - eapply (heap_lay_splice tr hi _ k k' pre [b] [Blk (bsz b) true] post); [done|exact Hs'|..].
    + cbn beta. intros x ?. fold a. heap_lia.
    + done.
    + by repeat constructor.
    + by split.
  - eapply heap_step_mono, Hs'. cbn beta. intros x _ Hx Hu.
    apply used_payload_free in Hu as [Hu _]; [by apply Hu|apply (hl_sizes _ _ _ _ Hl)].
Qed.

(** What [kfree] refuses, without touching the heap. *)
Definition kfree_refuses (tr : Z → Z) (hi : Z) (bs : list blk) (k : kernel) (ptr : Z) : Prop :=
  ptr = 0 ∨ ptr < HEAP_START + sizeof_block ∨ hi ≤ ptr ∨
  vw tr (mach k) (ptr - sizeof_block) ≠ BLOCK_MAGIC ∨
  ∃ pre b post, bs = pre ++ b :: post ∧ bfree b = true ∧ ptr = HEAP_START + span pre + sizeof_block.

Lemma used_payload_release pre b post x :
  used_payload HEAP_START (pre ++ Blk (bsz b) true :: post) x →
  used_payload HEAP_START (pre ++ b :: post) x.
Proof. rewrite !used_payload_app. cbn [used_payload]. unfold blk_span. cbn. naive_solver. Qed.

Lemma kfree_accepts tr hi bs bs' k ptr :
  heap_lay tr hi bs k → heap_statics hi k → Forall block_ok bs → release ptr HEAP_START bs = Some bs' →
  wp (kfree ptr) (λ r k', r = 1 ∧ heap_lay tr hi (coalesce_spec bs') k' ∧
    heap_step tr HEAP_START hi (keeps_payload bs') k k') k.
Proof.
  intros Hl [Hh Hbrk] Hok (pre & b & post & -> & Hb & -> & ->)%release_split.
  destruct (heap_at _ _ _ _ _ _ Hl) as (Hhb & Ha & Hsb & Hhi & Hq).
  pose proof (hl_win _ _ _ _ Hl) as Hw. pose proof (hl_top _ _ _ _ Hl) as Ht.
  set (a := HEAP_START + span pre) in *.
  apply Forall_app in Hok as [_ [[Hsb8 _] _]%Forall_cons].
  unfold kfree, heap_g. rewrite (proj2 (Z.eqb_neq _ 0)) by heap_lia. wp_go. rewrite Hbrk.
  rewrite (u32_small (HEAP_START + sizeof_block)) by done.
  rewrite (proj2 (Z.ltb_ge _ _)), (proj2 (Z.leb_gt _ _)) by heap_lia. cbn [orb]. wp_go.
  replace ((a + sizeof_block) -u sizeof_block) with a by heap_lia.
  eapply wp_magic; [done..|heap_lia|heap_lia|done|]. rewrite Z.eqb_refl. cbn [negb]. wp_go.
  eapply wp_free; [done..|heap_lia|heap_lia|done|]. rewrite Hb. cbn [Z.b2z Z.eqb negb]. wp_go.
  wp_use (release_rep tr hi k pre b post); [done..|]. cbn beta. intros _ k1 [Hl1 Hs1]. wp_go.
  assert (heap_st k1 = heap_st k) as Hst by by eapply heap_step_heap_st.
  wp_use coalesce_rep; [done|by rewrite Hst|by rewrite Hst|by destruct pre|].
  cbn beta. intros _ k2 [Hl2 Hs2]. wp_go. split_and!; [done..|].
  eapply heap_step_trans; [eapply heap_step_mono, Hs1|done].
  unfold keeps_payload. intros x _ Hx Hu. by apply Hx, used_payload_release.
Qed.

(** The printed complaint changes nothing but the console. *)
Lemma kfree_rejects tr hi bs k ptr :
  heap_lay tr hi bs k → heap_statics hi k → Forall block_ok bs → 0 ≤ ptr < 0x100000000 →
  kfree_refuses tr hi bs k ptr →
  wp (kfree ptr) (λ r k', r = 0 ∧ console_only k k') k.
Proof.
  intros Hl [Hh Hbrk] Hok Hptr Href.
  pose proof (hl_win _ _ _ _ Hl) as Hw. pose proof (hl_top _ _ _ _ Hl) as Ht.
  assert (∀ s1 s2, wp (print s1 ;;; print_hex ptr ;;; print s2 ;;; ret 0)
    (λ r k', r = 0 ∧ console_only k k') k) as Hsay.
  { intros s1 s2. eapply wp_mono; [apply (wp_conj _ (λ r _, r = 0));
      [|exact (console_op (m := print s1 ;;; print_hex ptr ;;; print s2 ;;; ret 0) k)]|done].
    repeat (rewrite wp_bind; eapply wp_mono; [apply console_op|cbn beta; intros _ ? _]).
    by rewrite wp_ret. }
  unfold kfree, heap_g. case_match eqn:H0; [by rewrite wp_ret|]. apply Z.eqb_neq in H0.
  rewrite wp_bind, wp_gets, Hbrk, (u32_small (HEAP_START + sizeof_block)) by done.
  case_match eqn:Hr; [apply Hsay|]. apply orb_false_iff in Hr as [Hr1%Z.ltb_ge Hr2%Z.leb_gt].
  replace (ptr -u sizeof_block) with (ptr - sizeof_block) by heap_lia.
  rewrite wp_bind. unfold blk_magic at 1. eapply wp_load32; [done|heap_lia|heap_lia|].
  case_match eqn:Hm; [apply Hsay|]. apply negb_false_iff, Z.eqb_eq in Hm.
  destruct Href as [?|[?|[?|[?|(pre & b & post & -> & Hb & ->)]]]]; [done|lia|lia|done|].
  destruct (heap_at _ _ _ _ _ _ Hl) as (Hhb & Ha & Hsb & Hhi & Hq).
  replace (HEAP_START + span pre + sizeof_block - sizeof_block) with (HEAP_START + span pre) by lia.
  rewrite wp_bind. eapply wp_free; [done|done|done|heap_lia|done|].
  rewrite Hb. cbn [Z.b2z Z.eqb negb]. apply Hsay.
Qed.

(** ** Appending a block *)
Lemma hdrs_ext tr tr' m m' stop a bs :
  sizes_ok bs → (∀ x, a ≤ x < a + span bs → vb tr' m' x = vb tr m x) →
  hdrs tr m stop a bs → hdrs tr' m' stop a bs.
Proof.
  intros Hok. revert a. induction Hok as [|b bs Hb Hok IH]; intros a; [done|].
  cbn [hdrs span]. pose proof (span_nonneg bs Hok). intros Hx [[H1 H2 H3 H4] Hr].
  assert (∀ y, a ≤ y → y + 4 ≤ a + sizeof_block → vw tr' m' y = vw tr m y) as Hw.
  { intros y ??. unfold vw. f_equal. apply list_fmap_ext. intros i q Hq%lookup_seqZ. apply Hx. heap_lia. }
  split; [|apply IH; [|done]; intros; apply Hx; heap_lia].
  split; rewrite Hw; first [done | heap_lia].
Qed.

(** Which block is last matters only to the last block. *)
Lemma hdrs_stop tr m stop stop' a bs :
  sizes_ok bs → a + span bs < stop → a + span bs < stop' →
  hdrs tr m stop a bs → hdrs tr m stop' a bs.
Proof.
  intros Hok. revert a. induction Hok as [|b bs Hb Hok IH]; intros a; [done|].
  cbn [hdrs span]. pose proof (span_nonneg bs Hok). intros ?? [Hh Hr].
  split; [|apply IH; [lia..|done]]. unfold link in *.
  rewrite (proj2 (Z.eqb_neq _ stop)) in Hh by lia. by rewrite (proj2 (Z.eqb_neq _ stop')) by lia.
Qed.

(** The walk to the last header. *)
Lemma tail_rep tr hi bs k fuel :
  heap_lay tr hi bs k → bs ≠ [] → (Z.to_nat ((hi - HEAP_START) / sizeof_block) < fuel)%nat →
  wp (while_fuel fuel tail_step HEAP_START) (λ a k', k' = k ∧
    ∃ pre b, bs = pre ++ [b] ∧ a = HEAP_START + span pre) k.
Proof.
  intros Hl Hne Hfuel.
  apply wp_while_fuel with
    (I := λ a k', k' = k ∧ ∃ pre b post, bs = pre ++ b :: post ∧ a = HEAP_START + span pre)
    (variant := λ a _, Z.to_nat ((hi - a) / sizeof_block)).
  - split; [done|]. destruct bs as [|b bs]; [done|]. by exists [], b, bs.
  - done.
  - intros a k' [-> (pre & b & post & -> & ->)].
    destruct (heap_at _ _ _ _ _ _ Hl) as (Hhb & Ha & Hsb & Hhi & Hq).
    pose proof (hl_win _ _ _ _ Hl) as Hw. pose proof (hl_top _ _ _ _ Hl) as Ht.
    unfold tail_step. wp_go. eapply wp_next; [done..|heap_lia|heap_lia|done|].
    destruct post as [|c post]; cbn [Z.eqb].
    { wp_go. split; [done|]. by exists pre, b. }
    rewrite (proj2 (Z.eqb_neq _ 0)) by heap_lia. wp_go. split; [split; [done|]|].
    + exists (pre ++ [b]), c, post. rewrite <- app_assoc, span_app. cbn [span app]. split; [done|lia].
    + heap_unfold. cbn [span] in Hhi. apply Nat2Z.inj_lt. heap_cbn. heap_unfold. zlia.
Qed.

(** The last steps of [extend_heap]: the new block is written at the old break
    and linked behind the list. *)
Definition append_block (size : Z) (old_brk : Z) : K Z :=
  write_header old_brk size 0 1 ;;;
  h <- heap_g heap_head ;;
  fuel <- heap_fuel ;;
  tail <- while_fuel fuel tail_step h ;;
  store32 (blk_next tail) old_brk ;;;
  coalesce ;;;
  ret 1.

Lemma link_tail tr hi hi' n pre b k :
  heap_lay tr hi (pre ++ [b]) k → window tr HEAP_START hi' (mach k) →
  hdr tr (mach k) hi 0 (Blk n true) → hi' = hi + sizeof_block + n → 0 ≤ n → hi' ≤ heap_top →
  wp (store32 (blk_next (HEAP_START + span pre)) hi) (λ _ k',
    heap_lay tr hi' ((pre ++ [b]) ++ [Blk n true]) k' ∧
    heap_step tr HEAP_START hi' (keeps_payload (pre ++ [b])) k k') k.
Proof.
  intros Hl Hw Hnew Hhi' Hn Htop. destruct (heap_at _ _ pre b [] _ Hl) as (Hhb & Ha & Hsb & Hhi & _).
  set (a := HEAP_START + span pre) in *. cbn [span] in Hhi.
  pose proof (hl_sizes _ _ _ _ Hl) as Hok. pose proof (hl_span _ _ _ _ Hl) as Hsp.
  pose proof (proj1 (sizes_ok_app _ _) Hok) as [Hokp _].
  pose proof (hl_hdrs _ _ _ _ Hl) as Hh. apply hdrs_app in Hh as [Hpre _].
  eapply (wp_heap_store tr HEAP_START hi' (λ x, a ≤ x < a + sizeof_block) k (a + 8));
    [done|apply heap_step_refl|unfold blk_next; heap_lia|heap_lia|heap_lia|intros; heap_lia|].
  intros k' Hs Hw' Hst Hv. rewrite (u32_small hi) in Hv by heap_lia.
  eapply (hdr_set_next tr hi') in Hhb as Hhb'; [|done|heap_lia|heap_lia|exact Hst|exact Hv].
  eapply (hdr_keep tr HEAP_START hi') in Hnew; [|exact Hs|heap_lia|heap_lia|intros; heap_lia].
  split.
  - split; [done| | | |done].
    + rewrite !hdrs_app. split; [split|].
      * eapply (hdrs_stop _ _ hi); [done|heap_lia|heap_lia|].
        eapply hdrs_keep; [exact Hs|done|lia|heap_lia|intros; heap_lia|done].
      * split; [|done]. unfold link. rewrite (proj2 (Z.eqb_neq _ _)) by heap_lia.
        fold a. by replace (a + blk_span b) with hi by lia.
      * split; [|done]. rewrite Hsp. unfold link. by rewrite (proj2 (Z.eqb_eq _ _)) by heap_lia.
    + rewrite sizes_ok_app. split; [done|]. by repeat constructor.
    + rewrite span_app, Z.add_assoc, Hsp. heap_lia.
  - eapply heap_step_mono, Hs. cbn beta. intros x _ Hx Hu.
    apply used_payload_free in Hu as [Hu _]; [by apply Hu|done].
Qed.

Lemma append_rep tr hi hi' n bs k :
  heap_lay tr hi bs k → window tr HEAP_START hi' (mach k) → heap_statics hi' k →
  hi' = hi + sizeof_block + n → 0 ≤ n → hi' ≤ heap_top → bs ≠ [] →
  wp (append_block n hi) (λ r k', r = 1 ∧
    heap_lay tr hi' (coalesce_spec (bs ++ [Blk n true])) k' ∧
    heap_step tr HEAP_START hi' (keeps_payload bs) k k') k.
Proof.
  intros Hl Hw Hst Hhi' Hn Htop Hne. pose proof Hst as [Hh Hbrk].
  assert (HEAP_START ≤ hi) as Hlo
    by (pose proof (span_nonneg _ (hl_sizes _ _ _ _ Hl)); pose proof (hl_span _ _ _ _ Hl); lia).
  unfold append_block, heap_fuel, heap_g. wp_go.
  eapply (write_header_rep tr hi' k hi n 0 true); [done|done|done|heap_lia|heap_lia|done|].
  intros k1 Hs1 Hw1 Hb1. pose proof (heap_step_heap_st _ _ _ _ _ _ Hs1) as Hhs1. wp_go.
  rewrite !Hhs1, Hh, Hbrk.
  assert (∀ x, HEAP_START ≤ x < hi → vb tr (mach k1) x = vb tr (mach k) x) as Hold.
  { intros x ?. apply (hs_keep _ _ _ _ _ _ Hs1); heap_lia. }
  assert (heap_lay tr hi bs k1) as Hl1.
  { pose proof (hl_span _ _ _ _ Hl). split; [|eapply hdrs_ext; [| |exact (hl_hdrs _ _ _ _ Hl)]|..];
      try exact (hl_sizes _ _ _ _ Hl); try exact (hl_top _ _ _ _ Hl); [|by rewrite H|done].
    eapply window_sub; [done|lia|heap_lia]. }
  wp_use (tail_rep tr hi bs k1); [done|done|unfold sizeof_block in *; apply Nat2Z.inj_lt; zlia|].
  cbn beta. intros a k1' [-> (pre & b & -> & ->)]. wp_go.
  wp_use (link_tail tr hi hi' n pre b k1); [done..|]. cbn beta. intros _ k2 [Hl2 Hs2]. wp_go.
  pose proof (heap_step_heap_st _ _ _ _ _ _ Hs2) as Hhs2.
  wp_use (coalesce_rep tr hi'); [exact Hl2|by rewrite Hhs2, Hhs1|by rewrite Hhs2, Hhs1|by destruct pre|].
  cbn beta. intros _ k3 [Hl3 Hs3]. wp_go. split_and!; [done..|].
  eapply heap_step_trans; [|eapply heap_step_trans; [exact Hs2|]]; (eapply heap_step_mono; [|done]).
  - cbn beta. intros x _ Hx Hu. apply used_payload_range in Hu; [|apply (hl_sizes _ _ _ _ Hl)].
    pose proof (hl_span _ _ _ _ Hl). heap_lia.
  - intros x _ Hx Hu. apply Hx. rewrite used_payload_app. by left.
Qed.
