(* ===== verification/HeapMap.v ===== *)
(** * The heap on top of the page tables

    The heap pages are mapped to distinct frames that are in use and that the
    kernel's own structures do not occupy; from this the heap region is a
    window (Machine.v), and the theorems of HeapProof.v apply.  The invariant
    [heap_inv] holds after [heap_init] and is kept by [kmalloc] and [kfree],
    which implement first fit and release-with-merge. *)
From stdpp Require Import prelude gmap list strings.
From Stdlib Require Import Lia ZArith.
From S2P Require Import Prelude Machine State Util Console Memory Pmm Paging Supply Heap HeapSpec.
From S2P Require Import HeapProof.

#[local] Open Scope Z_scope.

(** Where the page map [P] sends a virtual address. *)
Definition heap_tr (P : gmap Z Z) (va : Z) : Z :=
  match P !! (va / 0x1000) with Some e => frame_of e + va mod 0x1000 | None => 0 end.

Definition page_frame (P : gmap Z Z) (p f : Z) : Prop :=
  ∃ e, P !! p = Some e ∧ frame_of e = 0x1000 * f.

(** Page [p] lies between [HEAP_START] and [hi]. *)
Definition heap_page (hi p : Z) : Prop := HEAP_START / 0x1000 ≤ p < hi / 0x1000.

Record heap_frames (k : kernel) (U : gset Z) (T P : gmap Z Z) (hi : Z) : Prop := {
  hf_hi : HEAP_START ≤ hi ≤ heap_top ∧ hi mod 0x1000 = 0;
  hf_page p : heap_page hi p → ∃ f, page_frame P p f ∧ f ∈ U ∧ ¬ owned k T f;
  hf_inj p q f : heap_page hi p → heap_page hi q → page_frame P p f → page_frame P q f → p = q
}.

Ltac hm_lia := unfold heap_page, heap_top, HEAP_START, HEAP_MAX, FRAME_SIZE in *; zlia.

Lemma heap_tr_page P va f :
  page_frame P (va / 0x1000) f → heap_tr P va = 0x1000 * f + va mod 0x1000.
Proof. intros (e & He & Hf). unfold heap_tr. by rewrite He, Hf. Qed.

Lemma heap_frame_at k U T P hi va :
  heap_frames k U T P hi → HEAP_START ≤ va < hi →
  ∃ f, heap_tr P va = 0x1000 * f + va mod 0x1000 ∧ page_frame P (va / 0x1000) f ∧
    heap_page hi (va / 0x1000) ∧ f ∈ U ∧ ¬ owned k T f.
Proof.
  intros Hf Hva. pose proof (hf_hi _ _ _ _ _ Hf).
  assert (heap_page hi (va / 0x1000)) as Hp by hm_lia.
  destruct (hf_page _ _ _ _ _ Hf _ Hp) as (f & Hpf & HU & Ho).
  exists f. split_and!; [by apply heap_tr_page|done..].
Qed.

Lemma owned_bitmap k T q : bm_lo k ≤ q < bm_hi k → owned k T (q / 0x1000).
Proof. intros. right. left. by exists q. Qed.

Lemma owned_table k U T P t q :
  paging_inv k U T P → is_table k T t → t ≤ q < t + 0x1000 → owned k T (q / 0x1000).
Proof.
  intros Hi Ht Hq. right. right. exists t. split; [done|].
  pose proof (is_table_page _ _ _ _ _ Hi Ht) as [??]. zlia.
Qed.

(** No byte of the heap is a byte of the kernel's structures. *)
Lemma heap_image_free k U T P hi q :
  heap_frames k U T P hi → image (heap_tr P) HEAP_START hi q → ¬ owned k T (q / 0x1000).
Proof.
  intros Hf (va & Hva & ->). destruct (heap_frame_at _ _ _ _ _ _ Hf Hva) as (f & -> & _ & _ & _ & Ho).
  by replace ((0x1000 * f + va mod 0x1000) / 0x1000) with f by zlia.
Qed.

Lemma heap_window k U T P hi :
  paging_inv k U T P → cr0_pg (mach k) = true → heap_frames k U T P hi →
  window (heap_tr P) HEAP_START hi (mach k).
Proof.
  intros Hi Hon Hf. pose proof (hf_hi _ _ _ _ _ Hf). split; [hm_lia| |].
  - intros a b Ha Hb Hab.
    destruct (heap_frame_at _ _ _ _ _ _ Hf Ha) as (f & Hfa & Hpa & Hra & _).
    destruct (heap_frame_at _ _ _ _ _ _ Hf Hb) as (g & Hgb & Hpb & Hrb & _).
    assert (f = g) as -> by zlia.
    pose proof (hf_inj _ _ _ _ _ Hf _ _ _ Hra Hrb Hpa Hpb). zlia.
  - intros m' [Hpg Hcr Hrd] a Ha. rewrite mmu_on by congruence. rewrite Hcr.
    destruct (gc_on _ _ _ (gi_core _ _ _ _ Hi) Hon) as [-> _].
    rewrite (pt_walk _ _ T P); [| |hm_lia].
    + destruct (heap_frame_at _ _ _ _ _ _ Hf Ha) as (f & -> & (e & -> & He) & _). cbn. by rewrite He.
    + eapply pt_rep_ext; [apply (gi_pt _ _ _ _ Hi)|]. intros t q Ht Hq. apply Hrd.
      intros Him%(heap_image_free _ _ _ _ _ _ Hf). by eapply Him, owned_table.
Qed.

(** Writing to the heap keeps the invariants below it. *)
Lemma heap_step_inv k k' U T P hi W :
  paging_inv k U T P → heap_frames k U T P hi → heap_step (heap_tr P) HEAP_START hi W k k' →
  paging_inv k' U T P ∧ heap_frames k' U T P hi ∧ cr0_pg (mach k') = cr0_pg (mach k).
Proof.
  intros Hi Hf [[ph ->] [_ _ Hrd] _]. split_and!; [|by destruct Hf|done].
  eapply inv_rebuild; [done| |done..| | |apply (gi_table_count _ _ _ _ Hi)|apply (gi_mapped _ _ _ _ Hi)].
  - pose proof (gi_core _ _ _ _ Hi) as Hc. split; [|exact (gc_end _ _ _ Hc)|exact (gc_on _ _ _ Hc)].
    eapply pt_rep_ext; [apply (gc_pt _ _ _ Hc)|]. intros t q Ht Hq. apply Hrd.
    intros Him%(heap_image_free _ _ _ _ _ _ Hf). by eapply Him, owned_table.
  - intros q Hq. apply Hrd. intros Him%(heap_image_free _ _ _ _ _ _ Hf). by apply Him, owned_bitmap.
  - intros t Ht. by eapply table_facts.
Qed.

(** ** Frames of others

    A frame in use that is neither the managers' own nor under the heap: the
    kernel image, the boot stack, a frame somebody else allocated.  No operation
    of the heap takes one over or writes to it. *)
Definition foreign (k : kernel) (U : gset Z) (T P : gmap Z Z) (f : Z) : Prop :=
  f ∈ U ∧ ¬ owned k T f ∧ ∀ p, heap_page heap_top p → ¬ page_frame P p f.

Record spares (k : kernel) (U : gset Z) (T P : gmap Z Z) (k' : kernel) (U' : gset Z)
    (T' P' : gmap Z Z) : Prop := {
  sp_end : iend k' = iend k;
  sp_foreign f : foreign k U T P f → foreign k' U' T' P' f;
  sp_bytes q : foreign k U T P (q / 0x1000) → rd8 (phys (mach k')) q = rd8 (phys (mach k)) q
}.

Lemma spares_refl k U T P : spares k U T P k U T P.
Proof. by split. Qed.

Lemma spares_trans k1 U1 T1 P1 k2 U2 T2 P2 k3 U3 T3 P3 :
  spares k1 U1 T1 P1 k2 U2 T2 P2 → spares k2 U2 T2 P2 k3 U3 T3 P3 → spares k1 U1 T1 P1 k3 U3 T3 P3.
Proof.
  intros [E1 F1 B1] [E2 F2 B2]. split; [congruence|by auto|].
  intros q Hq. rewrite B2 by auto. by apply B1.
Qed.

(** Only registers of the managers changed. *)
Lemma spares_ext k k' U T P :
  phys (mach k') = phys (mach k) → pmm_st k' = pmm_st k → paging_st k' = paging_st k →
  spares k U T P k' U T P.
Proof.
  intros Hp Hpm Hpa. split; [by unfold iend; rewrite Hpa| |by rewrite Hp].
  intros f (? & Ho & ?). split_and!; [done| |done].
  unfold owned, is_table, pdir, bm_lo, bm_hi in *. by rewrite Hpm, Hpa.
Qed.

Lemma heap_top_page k U T P hi p : heap_frames k U T P hi → heap_page hi p → heap_page heap_top p.
Proof. intros [Hh _ _]. unfold heap_page in *. intros. split; [lia|]. hm_lia. Qed.

Lemma spares_heap_step k k' U T P hi W :
  heap_frames k U T P hi → heap_step (heap_tr P) HEAP_START hi W k k' → spares k U T P k' U T P.
Proof.
  intros Hf [[ph ->] [_ _ Hrd] _]. split; [done|done|]. intros q (_ & _ & Hn). apply Hrd.
  intros (va & Hva & ->). destruct (heap_frame_at _ _ _ _ _ _ Hf Hva) as (f & Htr & Hpf & Hp & _).
  apply (Hn (va / 0x1000)); [by eapply heap_top_page|].
  rewrite Htr. by replace ((0x1000 * f + va mod 0x1000) / 0x1000) with f by zlia.
Qed.

(** ** Growing the mapping *)
Lemma heap_frames_sub k U T P hi hi' :
  heap_frames k U T P hi → HEAP_START ≤ hi' ≤ hi → hi' mod 0x1000 = 0 → heap_frames k U T P hi'.
Proof.
  intros [Hh Hp Hi] ??. split; [lia| |].
  - intros p ?. apply Hp. hm_lia.
  - intros p q f ??. apply Hi; hm_lia.
Qed.

(** The bytes of the heap below [hi] stay where they are and what they are. *)
Definition same_heap (P P' : gmap Z Z) (k k' : kernel) (hi : Z) : Prop :=
  ∀ x, HEAP_START ≤ x < hi →
    heap_tr P' x = heap_tr P x ∧ vb (heap_tr P') (mach k') x = vb (heap_tr P) (mach k) x.

Lemma owned_step T' k k' T f : paging_step T' k k' → owned k' T f ↔ owned k T f.
Proof.
  intros (Hpd & _ & Hlo & Hhi & _)%paging_step_statics.
  unfold owned, is_table. by rewrite Hpd, Hlo, Hhi.
Qed.

Lemma same_heap_step k k' U T' P P' hi :
  paging_inv k' U T' P' → paging_step T' k k' → heap_frames k' U T' P' hi →
  (∀ p, heap_page hi p → P' !! p = P !! p) → same_heap P P' k k' hi.
Proof.
  intros Hi Hs Hf HP x Hx. destruct (heap_frame_at _ _ _ _ _ _ Hf Hx) as (f & Htr & _ & Hp & _ & Ho).
  assert (heap_tr P' x = heap_tr P x) as Heq by (unfold heap_tr; by rewrite HP).
  split; [done|]. unfold vb. rewrite <- Heq, Htr.
  assert ((0x1000 * f + x mod 0x1000) / 0x1000 = f) as Hdiv by zlia.
  apply (gs_mem _ _ _ Hs).
  - intros Hq. apply Ho, (owned_step T' k k'); [done|]. rewrite <- Hdiv. by apply owned_bitmap.
  - intros t Ht Hq. apply Ho. rewrite <- Hdiv. eapply owned_table; [done| |done].
    apply paging_step_statics in Hs as (Hpd & _). unfold is_table in *. by rewrite Hpd.
Qed.

Definition pages_between (b hi : Z) : nat := Z.to_nat ((hi - b) / 0x1000).

Lemma pages_between_add b n : 0 ≤ n → pages_between b (b + n * 0x1000) = Z.to_nat n.
Proof. intros. unfold pages_between. f_equal. zlia. Qed.

(** [grown k U T P b hi k']: from [k], pages were mapped between [b] and [hi]
    and nothing else of the page map moved. *)
Record grown_to (k : kernel) (U : gset Z) (T P : gmap Z Z) (b hi : Z) (k' : kernel)
    (U' : gset Z) (T' P' : gmap Z Z) : Prop := {
  gr_inv : paging_inv k' U' T' P';
  gr_frames : heap_frames k' U' T' P' hi;
  gr_U : U ⊆ U';
  gr_T : T ⊆ T';
  gr_step : paging_step T' k k';
  gr_P p : ¬ (b / 0x1000 ≤ p < hi / 0x1000) → P' !! p = P !! p;
  gr_spares : spares k U T P k' U' T' P';
  gr_used : used_up T (b / 0x1000) (pages_between b hi) k U k' U';
  gr_tables : tables_after T (b / 0x1000) (pages_between b hi) T';
  gr_enough : enough T (b / 0x1000) k U (pages_between b hi)
}.

Lemma spares_paging k k' U U' T T' P P' :
  paging_inv k' U' T' P' → paging_step T' k k' → U ⊆ U' →
  (∀ f, f ∈ U → owned k' T' f → owned k T f) →
  (∀ p f, f ∈ U → page_frame P' p f → page_frame P p f) →
  spares k U T P k' U' T' P'.
Proof.
  intros Hi Hs HU Ho HP. pose proof (paging_step_statics _ _ _ Hs) as (Hpd & Hie & Hlo & Hhi & _).
  split; [done| |].
  - intros f (Hf & Hn & Hp). split_and!; [by apply HU|by intros ?%Ho|]. intros p ? ?%HP; [|done]. by eapply Hp.
  - intros q (Hf & Hn & _). apply (gs_mem _ _ _ Hs).
    + intros Hq. apply Hn, owned_bitmap, Hq.
    + intros t Ht Hq. apply Hn, Ho; [done|]. eapply owned_table; [done| |done].
      unfold is_table in *. by rewrite Hpd.
Qed.

Definition grown (k : kernel) (U : gset Z) (T P : gmap Z Z) (b hi : Z) (k' : kernel) : Prop :=
  ∃ U' T' P', grown_to k U T P b hi k' U' T' P'.

Lemma grown_refl k U T P b :
  paging_inv k U T P → heap_frames k U T P b → grown k U T P b b k.
Proof.
  intros. exists U, T, P. assert (pages_between b b = 0%nat) as Hz by (unfold pages_between; rewrite Z.sub_diag; done).
  split; rewrite ?Hz; try done; [apply paging_step_refl|apply used_up_0| |apply enough_0].
  intros i. split; [|tauto]. intros Hi. split; [done|]. lia.
Qed.

Lemma page_frame_inj P p f g : page_frame P p f → page_frame P p g → f = g.
Proof. intros (e & He & Hf) (e' & He' & Hg). simplify_eq. lia. Qed.

Lemma owned_insert k T i g f :
  page_ok (g * FRAME_SIZE) → owned k (<[i := g * FRAME_SIZE]> T) f → f = g ∨ owned k T f.
Proof.
  intros [_ ?] [->|[Hb|(t & [Hd|[j Hj]] & ->)]].
  - right. by left.
  - right. right. by left.
  - right. right. right. exists t. split; [by left|done].
  - rewrite lookup_insert_Some in Hj. destruct Hj as [[-> <-]|[? Hj]].
    + left. unfold FRAME_SIZE in *. zlia.
    + right. right. right. exists t. split; [right; by exists j|done].
Qed.

(** The new page [hi] of the heap is mapped to the new frame [f]. *)
Lemma heap_frames_grow k k' U U' T T' P P' hi f e :
  heap_frames k U T P hi → hi + 0x1000 ≤ heap_top →
  f ∉ U → f ∈ U' → U ⊆ U' → ¬ owned k' T' f →
  (∀ g, g ∈ U → ¬ owned k T g → ¬ owned k' T' g) →
  frame_of e = 0x1000 * f → P' = <[hi / 0x1000 := e]> P →
  heap_frames k' U' T' P' (hi + 0x1000).
Proof.
  intros [Hh Hp Hin] Htop HfU HfU' HU Ho How He ->.
  assert (∀ p, heap_page (hi + 0x1000) p → p ≠ hi / 0x1000 → heap_page hi p) as Hold by (intros; hm_lia).
  assert (page_frame (<[hi / 0x1000 := e]> P) (hi / 0x1000) f) as Hnew
    by (exists e; by rewrite lookup_insert_eq).
  assert (∀ p g, p ≠ hi / 0x1000 → page_frame (<[hi / 0x1000 := e]> P) p g ↔ page_frame P p g) as Hne
    by (intros p g ?; unfold page_frame; by rewrite lookup_insert_ne by done).
  assert (∀ p, heap_page (hi + 0x1000) p → p ≠ hi / 0x1000 → page_frame (<[hi / 0x1000 := e]> P) p f → False) as Hf.
  { intros p Hp1 Hp2 Hpf%Hne; [|done]. destruct (Hp p (Hold p Hp1 Hp2)) as (g & Hg & HgU & _).
    rewrite (page_frame_inj _ _ _ _ Hpf Hg) in HfU. done. }
  split; [hm_lia| |].
  - intros p Hpp. destruct (decide (p = hi / 0x1000)) as [->|Hpne]; [by exists f|].
    destruct (Hp p (Hold p Hpp Hpne)) as (g & Hg & HgU & Hgo).
    exists g. split_and!; [by apply Hne|by apply HU|by apply How].
  - intros p q g Hpp Hqq Hpg Hqg.
    destruct (decide (p = hi / 0x1000)) as [->|Hpne], (decide (q = hi / 0x1000)) as [->|Hqne]; [done| | |].
    + exfalso. rewrite (page_frame_inj _ _ _ _ Hpg Hnew) in Hqg. by apply (Hf q).
    + exfalso. rewrite (page_frame_inj _ _ _ _ Hqg Hnew) in Hpg. by apply (Hf p).
    + apply Hne in Hpg, Hqg; [|done..]. apply (Hin p q g); auto.
Qed.

Lemma heap_frames_step T' k k' U T P hi :
  paging_step T' k k' → heap_frames k U T P hi → heap_frames k' U T P hi.
Proof.
  intros Hs [Hh Hp Hi]. split; [done| |done]. intros p Hpp.
  destruct (Hp p Hpp) as (f & ? & ? & Ho). exists f. by rewrite (owned_step T' k k').
Qed.

(** The table that [paging_map] may add sits in a frame of its own. *)
Lemma owned_new_table k k' U U' T T' P' i g :
  ((is_Some (T !! i) ∧ U' = U ∧ T' = T) ∨
   (∃ f, T !! i = None ∧ least_free U (total_frames (pmm_st k)) f ∧
      U' = {[f]} ∪ U ∧ T' = <[i := f * FRAME_SIZE]> T)) →
  paging_inv k' U' T' P' → g ∈ U → owned k T' g → owned k T g.
Proof.
  intros [(_ & _ & ->)|(f & _ & (_ & Hf & _) & -> & ->)] Hi Hg Ho; [done|].
  apply owned_insert in Ho as [->|?]; [done|done|].
  eapply (pt_T _ _ _ _ (gi_pt _ _ _ _ Hi) i). by rewrite lookup_insert_eq.
Qed.

Lemma grow_page_rep k0 U0 T0 P0 b k n :
  grown k0 U0 T0 P0 b (b + n * 0x1000) k → cr0_pg (mach k) = true →
  brk (heap_st k) = b → b mod 0x1000 = 0 → HEAP_START ≤ b → 0 ≤ n → b + n * 0x1000 + 0x1000 ≤ heap_top →
  wp (grow_page (n * PAGE_SIZE)) (λ r k',
    match r with
    | Some v => v = 0 ∧ grown k0 U0 T0 P0 b (b + n * 0x1000) k' ∧
        ¬ enough T0 (b / 0x1000) k0 U0 (S (Z.to_nat n))
    | None => grown k0 U0 T0 P0 b (b + (n + 1) * 0x1000) k'
    end) k.
Proof.
  intros (U & T & P & [Hi Hf HU HT Hs HP Hsp Hused Htabs Henough]) Hon Hb Hbm Hlo Hn Htop.
  pose proof (pages_between_add b n Hn) as Hpn. pose proof (pages_between_add b (n + 1) ltac:(lia)) as Hpn1.
  rewrite Z2Nat.inj_add, Nat.add_1_r in Hpn1 by lia. set (hi := b + n * 0x1000) in *.
  rewrite Hpn in Hused, Htabs, Henough.
  assert (hi / 0x400000 = (b / 0x1000 + Z.of_nat (Z.to_nat n)) / 1024) as Hidx
    by (rewrite Z2Nat.id by done; unfold hi; zlia).
  unfold grow_page, heap_g. wp_go. wp_use pmm_alloc_frame_rep; [apply (gi_pmm _ _ _ _ Hi)|].
  cbn beta. intros r k1 [(f & Hlf & -> & Hr1 & Hs1)|(-> & -> & Hall)].
  2:{ wp_go. split_and!; [done| |by eapply no_page_frame].
      exists U, T, P. split; rewrite ?Hpn; done. }
  pose proof Hlf as Hlf0. pose proof (paging_step_supply T _ _ (pmm_step_paging T _ _ Hs1)) as Hsup1.
  destruct Hlf as (Hf0 & HfU & Hbelow).
  pose proof (fresh_frame _ _ _ _ _ Hi Hf0 HfU) as (Hfpos & [Hfm Hfr] & _ & _).
  rewrite (proj2 (Z.eqb_neq _ 0)) by lia. wp_go.
  pose proof (inv_grow _ _ _ _ _ _ Hi Hs1 Hr1 ltac:(set_solver)) as Hi1.
  assert (heap_st k1 = heap_st k ∧ cr0_pg (mach k1) = true ∧ iend k1 = iend k) as (Hhs & Hon1 & Hie)
    by (by destruct Hs1 as [(u & ph & ->) _]).
  rewrite Hhs, Hb. replace (b +u n * PAGE_SIZE) with hi by (unfold PAGE_SIZE; rewrite u32_small; hm_lia).
  pose proof (gi_end _ _ _ _ Hi) as [Hie' _]. unfold IDENTITY_BYTES in Hie'.
  pose proof (pmm_step_paging T _ _ Hs1) as Hps1.
  wp_use (paging_map_rep k1 _ T P hi (f * FRAME_SIZE) PAGE_WRITE); [done|hm_lia|lia|done|hm_lia|].
  cbn beta. intros r k2 [(-> & _ & U' & T' & Hwhere & Hi2 & Hs2)|(-> & Htn & Hnt & Hi2 & Hs2)].
  - cbn. wp_go.
    assert (U ⊆ U' ∧ f ∈ U' ∧ T ⊆ T') as (HUU' & HfU' & HTT').
    { destruct Hwhere as [(_ & -> & ->)|(g & HTn & _ & -> & ->)]; [set_solver|].
      split_and!; [set_solver..|by apply insert_subseteq]. }
    assert (paging_step T' k k2) as Hk2
      by (eapply (paging_step_trans T'); [by apply pmm_step_paging|done|done]).
    assert (∀ g, g ∈ {[f]} ∪ U → owned k2 T' g → owned k T g) as How.
    { intros g Hg. rewrite !(owned_step T' k1 k2) by done.
      rewrite <- (owned_step T k k1) by done. by eapply owned_new_table. }
    exists U', T', (<[hi / 0x1000 := map_entry (f * FRAME_SIZE) PAGE_WRITE]> P).
    replace (b + (n + 1) * 0x1000) with (hi + 0x1000) in Hpn1 |- * by (unfold hi; lia).
    destruct (map_entry_spec (f * FRAME_SIZE) PAGE_WRITE ltac:(lia) ltac:(done)) as (_ & _ & Hfo).
    pose proof (paging_step_supply T' _ _ Hs2) as Hsup2. pose proof (paging_step_supply T' _ _ Hk2) as Hsup.
    assert (used_up T0 (b / 0x1000) (S (Z.to_nat n)) k0 U0 k2 U' ∧
      tables_after T0 (b / 0x1000) (S (Z.to_nat n)) T' ∧ enough T0 (b / 0x1000) k0 U0 (S (Z.to_nat n)))
      as (Hused' & Htabs' & Henough').
    { rewrite Hidx in Hwhere. destruct Hwhere as [(Hsome & -> & ->)|(g & HTn & Hg & -> & ->)].
      - by eapply (page_frame_taken T0 T).
      - eapply (page_and_table_taken T0 T _ _ _ _ k U f k1 g); try done. pose proof Hsup2 as [<- _].
        apply (gi_tables _ _ _ _ Hi2). right. eexists. by rewrite lookup_insert_eq. }
    split; rewrite ?Hpn1; [done| |by etrans|by etrans|by eapply paging_step_trans| | |done..].
    + eapply heap_frames_grow; [exact Hf|done|done|done|done| | | |done].
      * intros Ho%How; [|set_solver]. by apply HfU, (gi_owned _ _ _ _ Hi).
      * intros g HgU Hno Ho%How; [done|set_solver].
      * rewrite Hfo, Hfm. unfold FRAME_SIZE. lia.
    + intros p Hp. rewrite lookup_insert_ne; [apply HP|]; unfold hi in *; hm_lia.
    + eapply spares_trans; [exact Hsp|]. eapply spares_paging; [done|done|set_solver| |].
      * intros g Hg. apply How. set_solver.
      * intros p g Hg (e & He & Hge). destruct (decide (p = hi / 0x1000)) as [->|Hne].
        { rewrite lookup_insert_eq in He. injection He as <-. exfalso. apply HfU.
          replace f with g; [done|]. rewrite Hfo, Hfm in Hge. unfold FRAME_SIZE in *. lia. }
        rewrite lookup_insert_ne in He by done. by exists e.
  - cbn. wp_go. wp_use pmm_free_frame_rep; [apply (gi_pmm _ _ _ _ Hi2)|lia|].
    cbn beta. intros _ k3 [Hr3 Hs3]. wp_go.
    split_and!; [done| |].
    2:{ rewrite Hidx in Htn. eapply (no_page_table T0 T); try done. rewrite Hie. lia. }
    replace (f * FRAME_SIZE / FRAME_SIZE) with f in Hr3 by (unfold FRAME_SIZE; zlia).
    rewrite add_remove in Hr3 by done.
    exists U, T, P. pose proof (pmm_step_paging T _ _ Hs3) as Hps3.
    assert (paging_step T k k2) as Hk2 by by eapply (paging_step_trans T T k k1).
    assert (paging_step T k k3) as Hk3 by by eapply (paging_step_trans T T k k2).
    assert (paging_inv k3 U T P) as Hi3.
    { eapply inv_pmm_step; [exact Hi2|done|done|]. intros g Hg.
      apply (gi_owned _ _ _ _ Hi). by rewrite <- (owned_step T k k2). }
    split; rewrite ?Hpn; [done|by eapply heap_frames_step|done|done|by eapply paging_step_trans|done| | |done|done].
    + eapply spares_trans; [exact Hsp|]. eapply spares_paging; [done|done|done| |done].
      intros g _. by rewrite (owned_step T k k3).
    + eapply used_up_ext, Hused. by eapply paging_step_supply.
Qed.

(** The allocator and the page tables do not see the other components. *)
Lemma paging_inv_ext k k' U T P :
  phys (mach k') = phys (mach k) → cr0_pg (mach k') = cr0_pg (mach k) → cr3 (mach k') = cr3 (mach k) →
  pmm_st k' = pmm_st k → paging_st k' = paging_st k → paging_inv k U T P → paging_inv k' U T P.
Proof.
  intros Hph Hpg Hcr Hpm Hst Hi. pose proof (gi_core _ _ _ _ Hi) as Hc.
  assert (iend k' = iend k ∧ pdir k' = pdir k) as [Hie Hpd] by (unfold iend, pdir; by rewrite Hst).
  eapply inv_rebuild; [done| |done|done|done| | |rewrite Hst|rewrite Hst].
  - split; [|rewrite Hie; exact (gc_end _ _ _ Hc)|].
    + rewrite Hph, Hpd. exact (gc_pt _ _ _ Hc).
    + rewrite Hpg, Hcr, Hpd, Hie. exact (gc_on _ _ _ Hc).
  - intros. by rewrite Hph.
  - intros t Ht. eapply table_facts; [done|]. unfold is_table in *. by rewrite <- Hpd.
  - exact (gi_table_count _ _ _ _ Hi).
  - exact (gi_mapped _ _ _ _ Hi).
Qed.

Lemma paging_step_frame T k k' : paging_step T k k' →
  heap_st k' = heap_st k ∧ cr0_pg (mach k') = cr0_pg (mach k).
Proof. by intros [(tc & mp & u & ph & lg & ->) _]. Qed.

Definition grow_post (k : kernel) (U : gset Z) (T P : gmap Z Z) (b n r : Z) (k' : kernel) : Prop :=
  (r = 1 ∧ b + n ≤ heap_top ∧
     enough T (b / 0x1000) k U (Z.to_nat (n / 0x1000)) ∧
     ∃ k1, grown k U T P b (b + n) k1 ∧ k' = upd_heap_st (set_brk (b + n)) k1) ∨
  (r = 0 ∧ (heap_top < b + n ∨ ¬ enough T (b / 0x1000) k U (Z.to_nat (n / 0x1000))) ∧
     ∃ hi, b ≤ hi ≤ heap_top ∧ grown k U T P b hi k').

Lemma page_up_bounds n : 0 < n ≤ 0x3F000000 →
  0 < page_up n ∧ n ≤ page_up n < n + 0x1000 ∧ page_up n mod 0x1000 = 0.
Proof. intros. destruct (page_up_spec n) as [? ?]; unfold FRAME_SIZE in *; lia. Qed.

Lemma grow_mapping_rep k U T P b n :
  paging_inv k U T P → heap_frames k U T P b → cr0_pg (mach k) = true →
  brk (heap_st k) = b → 0 < n ≤ 0x3F000000 →
  wp (grow_mapping n) (grow_post k U T P b (page_up n)) k.
Proof.
  intros Hi Hf Hon Hb Hn. destruct (page_up_bounds n Hn) as (Hpos & Hle & Hmod).
  pose proof (hf_hi _ _ _ _ _ Hf) as [Hrng Hbm].
  unfold grow_mapping, heap_g. change (((n +u PAGE_SIZE) -u 1) &u ~u (PAGE_SIZE - 1)) with (page_up n).
  wp_go. rewrite Hb, (u32_small (b + page_up n)) by hm_lia.
  destruct (Z.ltb_spec (HEAP_START + HEAP_MAX) (b + page_up n)) as [|Hfit].
  { wp_go. right. split; [done|]. split; [left; unfold heap_top in *; lia|]. exists b. split; [lia|]. by apply grown_refl. }
  wp_go. apply wp_for_find with (I := λ i k', 0 ≤ i ∧ grown k U T P b (b + i * 0x1000) k').
  - split; [done|]. rewrite Z.mul_0_l, Z.add_0_r. by apply grown_refl.
  - intros i k' Hir [_ Hg]. pose proof Hg as (U' & T' & P' & [_ _ _ _ Hs _ _ _ _ _]).
    apply paging_step_frame in Hs as [Hhs Hpg].
    unfold PAGE_SIZE in Hir. rewrite Z2Nat.id in Hir by zlia.
    wp_use grow_page_rep; [done|congruence|congruence|done|lia|lia|unfold heap_top; zlia|].
    cbn beta. intros [v|] k''; [|split; [lia|done]].
    intros (-> & Hg' & Hlow). wp_go. right. split; [done|].
    split; [right; intros He; apply Hlow; eapply enough_le, He; zlia|]. exists (b + i * 0x1000).
    split; [unfold heap_top; zlia|done].
  - intros k' [_ Hg]. unfold PAGE_SIZE in Hg. rewrite Z.add_0_l, Z2Nat.id in Hg by zlia.
    replace (page_up n / 4096 * 0x1000) with (page_up n) in Hg by zlia.
    pose proof Hg as (U' & T' & P' & [_ _ _ _ Hs _ _ _ _ _]). apply paging_step_frame in Hs as [Hhs Hpg].
    wp_go. left. split_and!; [done|done| |].
    { pose proof Hg as (? & ? & ? & [_ _ _ _ _ _ _ _ _ He]). unfold pages_between in He.
      by replace (b + page_up n - b) with (page_up n) in He by lia. }
    exists k'. split; [done|]. unfold upd_heap_st. rewrite Hhs, Hb, u32_small by hm_lia. done.
Qed.

(** ** The invariant of the heap *)
Record heap_inv (k : kernel) (U : gset Z) (T P : gmap Z Z) (bs : list blk) : Prop := {
  hv_paging : paging_inv k U T P;
  hv_on : cr0_pg (mach k) = true;
  hv_frames : heap_frames k U T P (brk (heap_st k));
  hv_hdrs : hdrs (heap_tr P) (mach k) (brk (heap_st k)) HEAP_START bs;
  hv_ok : Forall block_ok bs;
  hv_ne : bs ≠ [];
  hv_span : HEAP_START + span bs = brk (heap_st k);
  hv_head : heap_head (heap_st k) = HEAP_START;
  hv_ready : heap_ready (heap_st k) = 1
}.

Lemma heap_inv_lay k U T P bs :
  heap_inv k U T P bs → heap_lay (heap_tr P) (brk (heap_st k)) bs k ∧ heap_statics (brk (heap_st k)) k.
Proof.
  intros []. split; [|done]. split; [by eapply heap_window|done|by apply block_ok_sizes|done|].
  by apply hv_frames0.
Qed.

Lemma heap_inv_step k k' U T P bs bs' W :
  heap_inv k U T P bs → heap_step (heap_tr P) HEAP_START (brk (heap_st k)) W k k' →
  heap_lay (heap_tr P) (brk (heap_st k)) bs' k' → Forall block_ok bs' → heap_inv k' U T P bs'.
Proof.
  intros [] Hs Hl Hok. destruct (heap_step_inv _ _ _ _ _ _ _ hv_paging0 hv_frames0 Hs) as (? & ? & ?).
  pose proof (heap_step_heap_st _ _ _ _ _ _ Hs) as Hhs.
  split; rewrite ?Hhs; try done; [by congruence|exact (hl_hdrs _ _ _ _ Hl)| |exact (hl_span _ _ _ _ Hl)].
  intros ->. pose proof (hl_span _ _ _ _ Hl) as Hsp. rewrite <- hv_span0 in Hsp. cbn in Hsp.
  destruct bs as [|b bs]; [done|]. pose proof (block_ok_sizes _ hv_ok0) as [Hb Hr]%Forall_cons.
  pose proof (span_nonneg _ Hr). cbn [span] in Hsp. heap_unfold. lia.
Qed.

Lemma used_payload_snoc_free bs n x :
  used_payload HEAP_START (bs ++ [Blk n true]) x ↔ used_payload HEAP_START bs x.
Proof. rewrite used_payload_app. cbn. naive_solver. Qed.

(** What the payload bytes in use are worth before and after. *)
Definition same_payload (P P' : gmap Z Z) (k k' : kernel) (bs : list blk) : Prop :=
  ∀ x, used_payload HEAP_START bs x →
    heap_tr P' x = heap_tr P x ∧ vb (heap_tr P') (mach k') x = vb (heap_tr P) (mach k) x.

Lemma same_payload_heap k k' U T P P' bs :
  heap_inv k U T P bs → same_heap P P' k k' (brk (heap_st k)) → same_payload P P' k k' bs.
Proof.
  intros Hi Hs x Hx%used_payload_range; [|by apply block_ok_sizes, (hv_ok _ _ _ _ _ Hi)].
  apply Hs. rewrite <- (hv_span _ _ _ _ _ Hi). heap_unfold. lia.
Qed.

Lemma same_payload_step k k' U T P bs bs' W :
  heap_inv k U T P bs → heap_step (heap_tr P) HEAP_START (brk (heap_st k)) W k k' →
  (∀ x, used_payload HEAP_START bs' x → used_payload HEAP_START bs x ∧ ¬ W x) →
  same_payload P P k k' bs'.
Proof.
  intros Hi Hs HW x Hx. destruct (HW x Hx) as [Hu Hn]. split; [done|].
  apply used_payload_range in Hu; [|by apply block_ok_sizes, (hv_ok _ _ _ _ _ Hi)].
  rewrite (hv_span _ _ _ _ _ Hi) in Hu. apply (hs_keep _ _ _ _ _ _ Hs); [heap_unfold; lia|done].
Qed.

Lemma same_payload_trans P1 P2 P3 k1 k2 k3 bs :
  same_payload P1 P2 k1 k2 bs → same_payload P2 P3 k2 k3 bs → same_payload P1 P3 k1 k3 bs.
Proof.
  intros H1 H2 x Hx. destruct (H1 x Hx) as [Ha Hb], (H2 x Hx) as [Hc Hd]. split; congruence.
Qed.

(** ** Extending the heap *)

(** The bytes [extend_heap] maps for a payload, in whole pages. *)
Definition extent (payload : Z) : Z := page_up (Z.max (PAGE_SIZE * 4) (payload + sizeof_block)).

(** The address space of the heap and the free frames suffice for a payload. *)
Definition can_extend (k : kernel) (U : gset Z) (T : gmap Z Z) (payload : Z) : Prop :=
  brk (heap_st k) + extent payload ≤ heap_top ∧
  enough T (brk (heap_st k) / 0x1000) k U (Z.to_nat (extent payload / 0x1000)).

Definition extend_post (k : kernel) (U : gset Z) (T P : gmap Z Z) (bs : list blk) (payload r : Z)
    (k' : kernel) : Prop :=
  ∃ U' T' P', spares k U T P k' U' T' P' ∧
    ((r = 0 ∧ ¬ can_extend k U T payload ∧ heap_inv k' U' T' P' bs ∧ same_payload P P' k k' bs) ∨
    (r = 1 ∧ can_extend k U T payload ∧ ∃ n, payload ≤ n ∧ heap_inv k' U' T' P' (coalesce_spec (bs ++ [Blk n true])) ∧
       same_payload P P' k k' bs)).

Lemma heap_inv_grown k U T P bs hi k' :
  heap_inv k U T P bs → brk (heap_st k) ≤ hi → grown k U T P (brk (heap_st k)) hi k' →
  ∃ U' T' P', paging_inv k' U' T' P' ∧ heap_frames k' U' T' P' hi ∧ heap_inv k' U' T' P' bs ∧
    same_heap P P' k k' (brk (heap_st k)) ∧ spares k U T P k' U' T' P'.
Proof.
  intros Hi Hhi (U' & T' & P' & [Hp Hf _ _ Hs HP Hsp _ _ _]). exists U', T', P'. split_and!; [done..| | |done].
  all: pose proof (hf_hi _ _ _ _ _ (hv_frames _ _ _ _ _ Hi)) as [Hr Hm].
  all: assert (heap_frames k' U' T' P' (brk (heap_st k))) as Hf'
    by (eapply heap_frames_sub; [done|lia|done]).
  all: assert (same_heap P P' k k' (brk (heap_st k))) as Hsame
    by (eapply same_heap_step; [done|done|done|]; intros p Hp'; apply HP; hm_lia).
  2: done.
  destruct (paging_step_frame _ _ _ Hs) as [Hhs Hpg]. destruct Hi.
  split; rewrite ?Hhs; try done; [by rewrite Hpg|].
  eapply hdrs_ext; [by apply block_ok_sizes| |done]. intros x Hx. apply Hsame. lia.
Qed.

Lemma coalesce_spec_nil bs : coalesce_spec bs = [] → bs = [].
Proof.
  destruct bs as [|b bs]; [done|]. cbn. destruct (coalesce_spec bs) as [|c cs]; [done|]. by case_match.
Qed.

(** The new block is in place: the invariant holds again. *)
Lemma extend_done k U T P bs n k2 nb k3 :
  paging_inv k2 U T P → cr0_pg (mach k2) = true → heap_frames k2 U T P nb →
  heap_statics nb k2 → heap_ready (heap_st k2) = 1 →
  heap_inv k U T P bs → mach k2 = mach k → block_ok (Blk n true) →
  heap_lay (heap_tr P) nb (coalesce_spec (bs ++ [Blk n true])) k3 →
  heap_step (heap_tr P) HEAP_START nb (keeps_payload bs) k2 k3 → brk (heap_st k) ≤ nb →
  heap_inv k3 U T P (coalesce_spec (bs ++ [Blk n true])) ∧ same_payload P P k k3 bs.
Proof.
  intros Hp Hon Hf [Hh Hb] Hr Hi Hm Hok Hl Hs Hle.
  destruct (heap_step_inv _ _ _ _ _ _ _ Hp Hf Hs) as (Hp3 & Hf3 & Hon3).
  pose proof (heap_step_heap_st _ _ _ _ _ _ Hs) as Hhs. split.
  - split; rewrite ?Hhs, ?Hb; try done; [congruence|exact (hl_hdrs _ _ _ _ Hl)| | |exact (hl_span _ _ _ _ Hl)].
    + apply coalesce_spec_ok, Forall_app. split; [apply (hv_ok _ _ _ _ _ Hi)|by apply Forall_singleton].
    + intros Hn%coalesce_spec_nil. by destruct bs.
  - intros x Hx. split; [done|]. rewrite (hs_keep _ _ _ _ _ _ Hs); [by rewrite Hm| |by intros Hn; apply Hn].
    apply used_payload_range in Hx; [|by apply block_ok_sizes, (hv_ok _ _ _ _ _ Hi)].
    rewrite (hv_span _ _ _ _ _ Hi) in Hx. heap_unfold. lia.
Qed.

Lemma extend_heap_rep k U T P bs payload :
  heap_inv k U T P bs → 8 ≤ payload ≤ 0x3E000000 → payload mod 8 = 0 →
  wp (extend_heap payload) (extend_post k U T P bs payload) k.
Proof.
  intros Hi Hp Hp8. set (b := brk (heap_st k)).
  pose proof (hf_hi _ _ _ _ _ (hv_frames _ _ _ _ _ Hi)) as [Hr Hm]. fold b in Hr, Hm.
  unfold extend_heap, heap_g. rewrite (u32_small (payload + sizeof_block)) by (heap_unfold; lia).
  set (want := if payload + sizeof_block <? PAGE_SIZE * 4 then PAGE_SIZE * 4 else payload + sizeof_block).
  assert (payload + sizeof_block ≤ want ≤ 0x3F000000 ∧ 16384 ≤ want) as [Hw1 Hw2].
  { unfold want. case_match eqn:Hc; [apply Z.ltb_lt in Hc|apply Z.ltb_ge in Hc];
      unfold PAGE_SIZE, sizeof_block in *; lia. }
  destruct (page_up_bounds want) as (Hpos & Hle & Hmod); [lia|].
  assert (page_up want = extent payload) as Hext.
  { unfold extent, want. f_equal. case_match eqn:Hc; [apply Z.ltb_lt in Hc|apply Z.ltb_ge in Hc]; lia. }
  wp_go. fold b. wp_use (grow_mapping_rep k U T P b want);
    [apply Hi|apply Hi|apply Hi|done|lia|].
  cbn beta. intros r k' [(-> & Hfit & Henough & k1 & Hg & ->)|(-> & Hlack & hi & Hhi & Hg)].
  2:{ rewrite Hext in Hlack. assert (¬ can_extend k U T payload) as Hno by (unfold can_extend; fold b; intros [? ?]; destruct Hlack; [lia|done]). wp_go. destruct (heap_inv_grown _ _ _ _ _ _ _ Hi (proj1 Hhi) Hg) as (U' & T' & P' & _ & _ & Hi' & Hs & Hsp).
      exists U', T', P'. split; [done|]. left. split_and!; [done..|by eapply same_payload_heap]. }
  destruct (heap_inv_grown k U T P bs (b + page_up want) k1 Hi ltac:(unfold b; lia) Hg) as (U' & T' & P' & Hp1 & Hf1 & Hi1 & Hs1 & Hsp1).
  assert (heap_st k1 = heap_st k) as Hhs.
  { destruct Hg as (? & ? & ? & [_ _ _ _ Hst _ _ _ _ _]). by apply paging_step_frame in Hst as [? _]. }
  set (nb := b + page_up want) in *. set (k2 := upd_heap_st (set_brk nb) k1).
  cbn [Z.eqb]. rewrite wp_bind, wp_gets. change (brk (heap_st k2)) with nb.
  replace ((nb -u b) -u sizeof_block) with (page_up want - sizeof_block)
    by (unfold nb; rewrite (u32_small (b + page_up want - b)) by lia; heap_unfold; rewrite u32_small; lia).
  set (n := page_up want - sizeof_block).
  destruct (heap_inv_lay _ _ _ _ _ Hi1) as [Hl1 _]. rewrite Hhs in Hl1.
  pose proof (paging_inv_ext k1 k2 U' T' P' eq_refl eq_refl eq_refl eq_refl eq_refl Hp1) as Hp2.
  assert (heap_frames k2 U' T' P' nb) as Hf2 by (by destruct Hf1).
  assert (cr0_pg (mach k2) = true) as Hon2 by exact (hv_on _ _ _ _ _ Hi1).
  assert (window (heap_tr P') HEAP_START nb (mach k2)) as Hw by by eapply heap_window.
  change (wp (append_block n b) (extend_post k U T P bs payload) k2).
  wp_use (append_rep (heap_tr P') b nb n bs k2).
  { by destruct Hl1. }
  { done. }
  { split; [|done]. cbn. rewrite Hhs. apply (hv_head _ _ _ _ _ Hi). }
  1-4: try (unfold nb, n; heap_unfold; lia). { apply (hv_ne _ _ _ _ _ Hi). }
  cbn beta. intros r k3 (-> & Hl3 & Hs3).
  destruct (extend_done k1 U' T' P' bs n k2 nb k3) as [Hi3 Hsp]; try done.
  { split; [|done]. cbn. rewrite Hhs. apply (hv_head _ _ _ _ _ Hi). }
  { cbn. rewrite Hhs. apply (hv_ready _ _ _ _ _ Hi). }
  { split; unfold n; cbn [bsz]; heap_unfold; zlia. }
  { rewrite Hhs. unfold nb, b. lia. }
  exists U', T', P'. split.
  { eapply spares_trans; [exact Hsp1|]. eapply (spares_trans _ _ _ _ k2); [by apply spares_ext|].
    by eapply spares_heap_step. }
  right. split; [done|]. split; [unfold can_extend; rewrite <- Hext; done|].
  exists n. split_and!; [unfold n; heap_unfold; lia|done|].
  eapply same_payload_trans; [by eapply same_payload_heap|done].
Qed.

(** ** kmalloc *)
Lemma align8_spec n : 0 < n → n + 7 < 0x100000000 →
  n ≤ align8 n ≤ n + 7 ∧ align8 n mod 8 = 0 ∧ 8 ≤ align8 n.
Proof.
  intros ??. unfold align8. rewrite u32_small by lia.
  assert (Z.land (n + 7) (~u 7) = (n + 7) - (n + 7) mod 8) as ->; [|zlia].
  change (~u 7) with (Z.ldiff (Z.ones 32) (Z.ones 3)).
  rewrite Z.ldiff_land, Z.land_assoc, Z.land_ones by lia.
  rewrite Z.mod_small by (change (2 ^ 32) with 0x100000000; lia).
  rewrite <- Z.ldiff_land, Z.ldiff_ones_r, Z.shiftr_div_pow2, Z.shiftl_mul_pow2 by lia.
  change (2 ^ 3) with 8. zlia.
Qed.

(** A block that is large enough survives merging. *)
Lemma coalesce_spec_fits size bs :
  sizes_ok bs → Exists (λ b, bfree b = true ∧ size ≤ bsz b) bs →
  Exists (λ b, bfree b = true ∧ size ≤ bsz b) (coalesce_spec bs).
Proof.
  intros Hok. induction Hok as [|b bs Hb Hok IH]; [done|]. intros Hex. cbn [coalesce_spec].
  apply coalesce_spec_sizes in Hok.
  destruct (coalesce_spec bs) as [|c cs].
  { apply Exists_cons in Hex as [?|[]%IH%Exists_nil]. by apply Exists_cons_hd. }
  apply Forall_cons in Hok as [Hc _].
  case_match eqn:Hbc.
  - apply andb_true_iff in Hbc as [Hbf Hcf]. apply Exists_cons in Hex as [[_ ?]|[[_ ?]|?]%IH%Exists_cons];
      rewrite Exists_cons; cbn [bfree bsz]; [left|left|by right]; (split; [done|heap_unfold; lia]).
  - rewrite !Exists_cons in *. destruct Hex as [?|[?|?]%IH]; auto.
Qed.

Lemma first_fit_extended size bs n :
  sizes_ok bs → 0 ≤ size ≤ n → is_Some (first_fit size HEAP_START (coalesce_spec (bs ++ [Blk n true]))).
Proof.
  intros Hok Hn. destruct (first_fit _ _ _) eqn:Hf; [done|].
  apply first_fit_none, Forall_Exists_neg in Hf. destruct Hf.
  apply coalesce_spec_fits; [apply sizes_ok_app; split; [done|]; by repeat constructor; cbn; lia|].
  apply Exists_app. right. apply Exists_cons_hd. cbn. split; [done|lia].
Qed.

(** What [kmalloc] returns and what it leaves behind. *)
Definition kmalloc_post (k : kernel) (U : gset Z) (T P : gmap Z Z) (bs : list blk) (size r : Z)
    (k' : kernel) : Prop :=
  ∃ U' T' P', same_payload P P' k k' bs ∧ spares k U T P k' U' T' P' ∧
    match first_fit (align8 size) HEAP_START bs with
    | Some (p, bs') => r = p ∧ heap_inv k' U' T' P' bs'
    | None =>
        (r = 0 ∧ ¬ can_extend k U T (align8 size) ∧ heap_inv k' U' T' P' bs) ∨
        (can_extend k U T (align8 size) ∧ ∃ n bs', align8 size ≤ n ∧
           first_fit (align8 size) HEAP_START (coalesce_spec (bs ++ [Blk n true])) = Some (r, bs') ∧
           heap_inv k' U' T' P' bs')
    end.

(** The search on a heap where the fit is known. *)
Lemma search_hit k U T P bs size p bs' :
  heap_inv k U T P bs → 8 ≤ size → size mod 8 = 0 → first_fit size HEAP_START bs = Some (p, bs') →
  wp (search size) (λ r k', r = Some p ∧ heap_inv k' U T P bs' ∧ same_payload P P k k' bs ∧
    spares k U T P k' U T P) k.
Proof.
  intros Hi Hs Hm Hff. destruct (heap_inv_lay _ _ _ _ _ Hi) as [Hl Hst].
  wp_use search_rep; [done|done|apply (hv_ne _ _ _ _ _ Hi)|lia|].
  unfold search_post. rewrite Hff. intros r k' (-> & Hl' & Hs').
  split_and!; [done| | |by eapply spares_heap_step; [apply (hv_frames _ _ _ _ _ Hi)|]].
  - eapply heap_inv_step; [done..|]. eapply first_fit_ok; [apply (hv_ok _ _ _ _ _ Hi)|done..].
  - eapply same_payload_step; [done..|]. intros x Hx. split; [done|]. intros Hn. by apply Hn.
Qed.

Definition KMALLOC_MAX : Z := 0x3DFFFFF8.

Lemma kmalloc_rep k U T P bs size :
  heap_inv k U T P bs → 0 < size ≤ KMALLOC_MAX →
  wp (kmalloc size) (kmalloc_post k U T P bs size) k.
Proof.
  intros Hi Hs. unfold KMALLOC_MAX in Hs.
  destruct (align8_spec size) as ([Hge Hle] & Hmod & H8); [lia..|].
  destruct (heap_inv_lay _ _ _ _ _ Hi) as [Hl Hst].
  unfold kmalloc, heap_g. wp_go. rewrite (hv_ready _ _ _ _ _ Hi), (proj2 (Z.eqb_neq size 0)) by lia.
  cbn [Z.eqb orb]. wp_go. set (sz := align8 size) in *. cbn [for_find]. wp_go.
  destruct (first_fit sz HEAP_START bs) as [[p bs']|] eqn:Hff.
  - wp_use search_hit; [done..|]. cbn beta. intros r k' (-> & Hi' & Hsp & Hfo). wp_go.
    exists U, T, P. unfold kmalloc_post. fold sz. rewrite Hff. done.
  - wp_use search_rep; [done|done|apply (hv_ne _ _ _ _ _ Hi)|lia|].
    unfold search_post. rewrite Hff. intros r k' (-> & ->). wp_go.
    wp_use extend_heap_rep; [done|lia|done|].
    intros r k' (U' & T' & P' & Hfo & [(-> & Hex & Hi' & Hsp)|(-> & Hcan & n & Hn & Hi' & Hsp)]); cbn [Z.eqb]; wp_go.
    + exists U', T', P'. fold sz. rewrite Hff. split_and!; [done|done|]. by left.
    + destruct (first_fit_extended sz bs n) as [[p bs'] Hff']; [apply Hl|lia|].
      wp_use search_hit; [done|done|done|done|]. cbn beta. intros r k'' (-> & Hi'' & Hsp' & Hfo'). wp_go.
      exists U', T', P'. fold sz. rewrite Hff. split_and!; [|by eapply spares_trans|right; split; [done|by exists n, bs']].
      eapply same_payload_trans; [done|]. intros x Hx. apply Hsp'.
      rewrite coalesce_spec_payload. by apply used_payload_snoc_free.
Qed.

(** ** kfree *)
Lemma kfree_accepts_rep k U T P bs bs' ptr :
  heap_inv k U T P bs → release ptr HEAP_START bs = Some bs' →
  wp (kfree ptr) (λ r k', r = 1 ∧ heap_inv k' U T P (coalesce_spec bs') ∧ same_payload P P k k' bs' ∧
    spares k U T P k' U T P) k.
Proof.
  intros Hi Hrel. destruct (heap_inv_lay _ _ _ _ _ Hi) as [Hl Hst].
  pose proof (hv_ok _ _ _ _ _ Hi) as Hok.
  wp_use kfree_accepts; [done|done|done|done|]. cbn beta. intros r k' (-> & Hl' & Hs').
  apply release_split in Hrel as (pre & b & post & -> & Hb & _ & ->).
  split_and!; [done| | |by eapply spares_heap_step; [apply (hv_frames _ _ _ _ _ Hi)|]].
  - eapply heap_inv_step; [done..|]. apply coalesce_spec_ok. rewrite !Forall_app, !Forall_cons in *.
    by destruct Hok as (? & ? & ?).
  - eapply same_payload_step; [done..|]. intros x Hx. split; [by apply used_payload_release|].
    intros Hn. by apply Hn.
Qed.

(** ** heap_init *)
Definition initial_block : blk := Blk (HEAP_INITIAL - sizeof_block) true.

Lemma heap_frames_empty k U T P : heap_frames k U T P HEAP_START.
Proof. split; [done| |]; intros p **; exfalso; hm_lia. Qed.

Lemma heap_init_rep k U T P :
  paging_inv k U T P → cr0_pg (mach k) = true →
  wp heap_init (λ _ k', ∃ U' T' P', U ⊆ U' ∧ spares k U T P k' U' T' P' ∧
    (heap_inv k' U' T' P' [initial_block] ∨
     (spare_frames k U < 32 ∧ paging_inv k' U' T' P' ∧ cr0_pg (mach k') = true ∧
      heap_ready (heap_st k') = heap_ready (heap_st k)))) k.
Proof.
  intros Hi Hon. unfold heap_init, heap_g. wp_go. set (k0 := upd_heap_st (set_brk HEAP_START) k).
  assert (paging_inv k0 U T P) as Hi0 by by apply (paging_inv_ext k).
  wp_use (grow_mapping_rep k0 U T P HEAP_START HEAP_INITIAL);
    [done|apply heap_frames_empty|done|done|done|].
  change (page_up HEAP_INITIAL) with HEAP_INITIAL.
  cbn beta. intros r k1 [(-> & _ & _ & k2 & (U' & T' & P' & [Hi2 Hf2 HU _ Hs2 _ Hsp2 _ _ _]) & ->)|
    (-> & Hlack & hi & _ & (U' & T' & P' & [Hi2 _ HU _ Hs2 _ Hsp2 _ _ _]))]; cbn [Z.eqb]; wp_go;
    destruct (paging_step_frame _ _ _ Hs2) as [Hhs Hpg];
    pose proof (spares_trans _ _ _ _ _ _ _ _ _ _ _ _ (spares_ext k k0 U T P eq_refl eq_refl eq_refl) Hsp2) as Hsp.
  2:{ wp_use (console_op (m := print _)). cbn beta. intros _ k3 (v & s & l & ->).
      exists U', T', P'. split_and!; [done|by eapply spares_trans, spares_ext|]. right.
      split; [apply Z.nle_gt; intros Hsp32; destruct Hlack as [Hlack|Hlack]; [done|by apply Hlack, enough_double]|]. split; [by apply (paging_inv_ext k1)|].
      cbn. by rewrite Hhs, Hpg. }
  set (nb := HEAP_START + HEAP_INITIAL) in *.
  set (k3 := upd_heap_st (set_heap_head HEAP_START) (upd_heap_st (set_brk nb) k2)).
  assert (paging_inv k3 U' T' P') as Hi3 by by apply (paging_inv_ext k2).
  assert (heap_frames k3 U' T' P' nb) as Hf3 by by destruct Hf2.
  assert (cr0_pg (mach k3) = true) as Hon3 by (cbn; by rewrite Hpg).
  pose proof (heap_window _ _ _ _ _ Hi3 Hon3 Hf3) as Hw3.
  change ((brk (heap_st k3) -u HEAP_START) -u sizeof_block) with (bsz initial_block).
  eapply (write_header_rep (heap_tr P') nb k3 HEAP_START _ 0 true); [done|done|done|done|done|done|].
  intros k4 Hs4 Hw4 Hh4. destruct (heap_step_inv _ _ _ _ _ _ _ Hi3 Hf3 Hs4) as (Hi4 & Hf4 & Hpg4).
  pose proof (heap_step_heap_st _ _ _ _ _ _ Hs4) as Hhs4. wp_go.
  exists U', T', P'. split_and!; [done| |].
  { eapply spares_trans; [exact Hsp|]. eapply (spares_trans _ _ _ _ k3); [by apply spares_ext|].
    eapply (spares_trans _ _ _ _ k4); [by eapply spares_heap_step|by apply spares_ext]. }
  left. split; cbn; rewrite ?Hhs4; try done.
  - by apply (paging_inv_ext k4).
  - congruence.
  - by destruct Hf4.
  - by apply Forall_singleton.
Qed.

(** ** Printing and the invariant *)
Lemma heap_inv_console k k' U T P bs : console_only k k' → heap_inv k U T P bs → heap_inv k' U T P bs.
Proof.
  intros (v & s & l & ->) []. split; try done.
  - by apply (paging_inv_ext k).
  - by destruct hv_frames0.
  - apply (hdrs_ext (heap_tr P) _ (mach k)); [by apply block_ok_sizes|done|exact hv_hdrs0].
Qed.
