(* ===== verification/Frames.v ===== *)
(** * What each piece of code leaves alone

    [Preserves R m]: however [m] ends (value, exception, halt), the state
    it leaves is related by [R] to the state it started in.  The instances
    follow the structure of the code, so that a frame is found by type class
    search.  [memory_only] is the frame of the memory managers: frames, page
    tables, heap and console may change; scheduler, shell, interrupt tables,
    clock and registers may not. *)
From stdpp Require Import prelude gmap list strings.
From Stdlib Require Import Lia ZArith.
From S2P Require Import Prelude Machine State Util Console Memory Pmm Paging Heap.

#[local] Open Scope Z_scope.

Definition final {S A} (o : outcome S A) : S :=
  match o with Ok _ s => s | Trap _ _ s => s | Halted s => s | MachineReset s => s | NoFuel s => s end.

Class Preserves (R : kernel → kernel → Prop) {A} (m : K A) : Prop :=
  preserves k : R k (final (m k)).

Section preserves.
Context (R : kernel → kernel → Prop) `{!PreOrder R}.

#[export] Instance ret_preserves {A} (a : A) : Preserves R (ret a).
Proof. intros k. cbn. reflexivity. Qed.
#[export] Instance gets_preserves {A} (f : kernel → A) : Preserves R (gets f).
Proof. intros k. cbn. reflexivity. Qed.
#[export] Instance bind_preserves {A B} (m : K A) (f : A → K B) :
  Preserves R m → (∀ a, Preserves R (f a)) → Preserves R (bind m f).
Proof.
  intros Hm Hf k. specialize (Hm k). unfold bind.
  destruct (m k) as [a k'|v e k'|k'|k'|k']; cbn in *; [|done..]. etrans; [done|]. apply Hf.
Qed.
#[export] Instance when_preserves b (m : K ()) : Preserves R m → Preserves R (when b m).
Proof. destruct b; [done|]. intros _. apply ret_preserves. Qed.
#[export] Instance if_preserves {A} (b : bool) (m1 m2 : K A) :
  Preserves R m1 → Preserves R m2 → Preserves R (if b then m1 else m2).
Proof. by destruct b. Qed.
#[export] Instance option_preserves {A B} (o : option B) (f : B → K A) (m : K A) :
  (∀ b, Preserves R (f b)) → Preserves R m →
  Preserves R (match o with Some b => f b | None => m end).
Proof. by destruct o. Qed.
#[export] Instance turn_preserves {A} (t : coalesce_turn) (m1 m2 : K A) (f : Z → K A) :
  Preserves R m1 → Preserves R m2 → (∀ next, Preserves R (f next)) →
  Preserves R (match t with Leave => m1 | Merge => m2 | Advance next => f next end).
Proof. by destruct t. Qed.
#[export] Instance for_range_preserves n lo (body : Z → K ()) :
  (∀ i, Preserves R (body i)) → Preserves R (for_range n lo body).
Proof. intros. revert lo. induction n as [|n IH]; intros lo; cbn [for_range]; apply _. Qed.
#[export] Instance for_find_preserves {A} n lo (body : Z → K (option A)) :
  (∀ i, Preserves R (body i)) → Preserves R (for_find n lo body).
Proof. intros. revert lo. induction n as [|n IH]; intros lo; cbn [for_find]; apply _. Qed.
#[export] Instance while_preserves {A B} n (body : A → K (A + B)) a :
  (∀ a, Preserves R (body a)) → Preserves R (while_fuel n body a).
Proof.
  intros. revert a. induction n as [|n IH]; intros a; cbn [while_fuel].
  - intros k. cbn. reflexivity.
  - apply bind_preserves; [done|]. intros [|]; apply _.
Qed.
#[export] Instance str_iter_preserves f s :
  (∀ c, Preserves R (f c)) → Preserves R (str_iter f s).
Proof. intros. induction s; cbn [str_iter]; apply _. Qed.
#[export] Instance each_preserves f l : (∀ c, Preserves R (f c)) → Preserves R (each f l).
Proof. intros. induction l; cbn [each]; apply _. Qed.
Lemma outb_preserves p v : (∀ k, R k (upd_mach (log_io (Outb p (u8 v))) k)) → Preserves R (outb p v).
Proof. intros HR k. unfold outb. case_match; apply HR. Qed.
End preserves.

(** ** The memory managers *)
Record memory_only (k k' : kernel) : Prop := {
  mo_regs : regs (mach k') = regs (mach k);
  mo_sym : sym (mach k') = sym (mach k);
  mo_mem : mem_st k' = mem_st k;
  mo_sched : sched_st k' = sched_st k;
  mo_idt : idt_st k' = idt_st k;
  mo_shell : shell_st k' = shell_st k;
  mo_ticks : ticks k' = ticks k;
  mo_shift : shift_down k' = shift_down k
}.

#[export] Instance memory_only_preorder : PreOrder memory_only.
Proof.
  split.
  - intros k. by split.
  - intros k1 k2 k3 [] []. split; congruence.
Qed.

Notation MemoryOp := (Preserves memory_only).

Section memory_ops.
#[export] Instance upd_pmm_memory f : MemoryOp (modify (upd_pmm_st f)).
Proof. by intros k. Qed.
#[export] Instance upd_paging_memory f : MemoryOp (modify (upd_paging_st f)).
Proof. by intros k. Qed.
#[export] Instance upd_heap_memory f : MemoryOp (modify (upd_heap_st f)).
Proof. by intros k. Qed.
#[export] Instance upd_vga_memory f : MemoryOp (modify (upd_vga_st f)).
Proof. by intros k. Qed.
#[export] Instance upd_serial_memory f : MemoryOp (modify (upd_serial_st f)).
Proof. by intros k. Qed.
#[export] Instance log_io_memory e : MemoryOp (modify (upd_mach (log_io e))).
Proof. by intros k. Qed.
#[export] Instance load_memory n va : MemoryOp (load n va).
Proof. intros k. unfold load. by destruct (m_load n va (mach k)). Qed.
#[export] Instance store_memory n va v : MemoryOp (store n va v).
Proof.
  intros k. unfold store, m_store. by destruct (mmu_list (mach k) n va).
Qed.
#[export] Instance inb_memory p : MemoryOp (inb p).
Proof. by intros k. Qed.
#[export] Instance outb_memory p v : MemoryOp (outb p v).
Proof. by apply outb_preserves. Qed.
End memory_ops.

Ltac frame_unfold := unfold load32, store32, on_mach, upd_machine, pmm_g, paging_g, heap_g, mem_g,
  serial_g, vga_g, vga_peek, vga_poke, set_row, set_col in *.
Ltac memory_op := frame_unfold; apply _.

#[export] Instance tx_memory c : MemoryOp (tx c).
Proof. unfold tx, tx_wait. memory_op. Qed.
#[export] Instance serial_write_char_memory c : MemoryOp (serial_write_char c).
Proof. unfold serial_write_char. memory_op. Qed.
#[export] Instance scroll_memory : MemoryOp scroll.
Proof. unfold scroll. memory_op. Qed.
#[export] Instance putchar_memory c : MemoryOp (putchar c).
Proof. unfold putchar. memory_op. Qed.
#[export] Instance print_memory s : MemoryOp (print s).
Proof. unfold print. apply _. Qed.
#[export] Instance print_int_memory n : MemoryOp (print_int n).
Proof. unfold print_int. memory_op. Qed.
#[export] Instance print_hex_memory n : MemoryOp (print_hex n).
Proof. unfold print_hex. memory_op. Qed.
#[export] Instance memset_memory d v n : MemoryOp (memset d v n).
Proof. unfold memset. memory_op. Qed.

#[export] Instance pmm_alloc_frame_memory : MemoryOp pmm_alloc_frame.
Proof. unfold pmm_alloc_frame, pmm_alloc_word, pmm_alloc_bit, frame_mark_used, frame_test. memory_op. Qed.
#[export] Instance pmm_free_frame_memory a : MemoryOp (pmm_free_frame a).
Proof. unfold pmm_free_frame, frame_mark_free, frame_test. memory_op. Qed.
#[export] Instance get_table_memory v c : MemoryOp (get_table v c).
Proof. unfold get_table. memory_op. Qed.
#[export] Instance flush_tlb_page_memory v : MemoryOp (flush_tlb_page v).
Proof. unfold flush_tlb_page. memory_op. Qed.
#[export] Instance paging_map_memory v p f : MemoryOp (paging_map v p f).
Proof. unfold paging_map. memory_op. Qed.
#[export] Instance grow_mapping_memory n : MemoryOp (grow_mapping n).
Proof. unfold grow_mapping, grow_page. memory_op. Qed.
#[export] Instance coalesce_memory : MemoryOp coalesce.
Proof.
  unfold coalesce, coalesce_step, coalesce_test, swallow_next, heap_fuel. memory_op.
Qed.
#[export] Instance write_header_memory b s n f : MemoryOp (write_header b s n f).
Proof. unfold write_header. memory_op. Qed.
#[export] Instance extend_heap_memory n : MemoryOp (extend_heap n).
Proof. unfold extend_heap, tail_step, heap_fuel. memory_op. Qed.
#[export] Instance kmalloc_memory n : MemoryOp (kmalloc n).
Proof. unfold kmalloc, search, search_step, heap_fuel. memory_op. Qed.
#[export] Instance kfree_memory p : MemoryOp (kfree p).
Proof. unfold kfree. memory_op. Qed.

(** A frame goes with a specification. *)
Lemma wp_preserves R {A} (m : K A) `{!Preserves R m} (Q : A → kernel → Prop) k :
  wp m Q k → wp m (λ a k', Q a k' ∧ R k k') k.
Proof. pose proof (preserves (R := R) (m := m) k) as Hp. unfold wp. destruct (m k); cbn in *; auto. Qed.

(** ** Every outcome

    [always m Q E]: if [m] returns, [Q] holds of the value and the state; if it
    ends in any other way, [E] holds of the state. *)
Definition always {A} (m : K A) (Q : A → kernel → Prop) (E : kernel → Prop) (k : kernel) : Prop :=
  match m k with Ok a k' => Q a k' | o => E (final o) end.

Lemma always_bind {A B} (m : K A) (f : A → K B) Q E k :
  always m (λ a k', always (f a) Q E k') E k → always (bind m f) Q E k.
Proof. unfold always, bind. by destruct (m k). Qed.

Lemma always_ret {A} (a : A) (Q : A → kernel → Prop) E k : Q a k → always (ret a) Q E k.
Proof. done. Qed.
Lemma always_gets {A} (f : kernel → A) (Q : A → kernel → Prop) E k : Q (f k) k → always (gets f) Q E k.
Proof. done. Qed.
Lemma always_modify f (Q : () → kernel → Prop) E k : Q tt (f k) → always (modify f) Q E k.
Proof. done. Qed.

Lemma always_mono {A} (m : K A) (Q Q' : A → kernel → Prop) (E E' : kernel → Prop) k :
  always m Q E k → (∀ a k', Q a k' → Q' a k') → (∀ k', E k' → E' k') → always m Q' E' k.
Proof. unfold always. destruct (m k); auto. Qed.

Lemma always_preserves R {A} (m : K A) `{!Preserves R m} (Q : A → kernel → Prop) (E : kernel → Prop) k :
  (∀ a k', R k k' → Q a k') → (∀ k', R k k' → E k') → always m Q E k.
Proof.
  intros HQ HE. pose proof (preserves (R := R) (m := m) k) as Hp. unfold always.
  destruct (m k); cbn in *; auto.
Qed.

Lemma always_for_range (I : kernel → Prop) n lo body (E : kernel → Prop) k :
  I k → (∀ i k, lo ≤ i < lo + Z.of_nat n → I k → always (body i) (λ _ k', I k') E k) →
  always (for_range n lo body) (λ _ k', I k') E k.
Proof.
  revert lo k. induction n as [|n IH]; intros lo k HI Hb; cbn [for_range]; [done|].
  apply always_bind. eapply always_mono; [apply Hb; [lia|done]| |done].
  cbn beta. intros _ k' HI'. apply IH; [done|]. intros i k'' ?. apply Hb. lia.
Qed.

Lemma always_wp {A} (m : K A) Q Q' E k :
  always m Q E k → wp m Q' k → wp m (λ a k', Q a k' ∧ Q' a k') k.
Proof. unfold always, wp. destruct (m k); auto. Qed.
