(* ===== verification/Alloc.v ===== *)
(** * What the heap promises to its clients

    [Allocator] is the interface: an invariant over the finite map of live
    allocations, and the laws of [kmalloc], [kfree] and of loads and stores
    inside an allocation.  The scheduler (Task.v) is verified against it;
    [heap_allocator] shows that heap.c provides it. *)
From stdpp Require Import prelude gmap list strings.
From Stdlib Require Import Lia ZArith.
From S2P Require Import Prelude Machine State Util Console Memory Pmm Paging Heap HeapSpec.
From S2P Require Import HeapProof HeapMap Frames.

#[local] Open Scope Z_scope.

(** What the processor reads at a virtual address. *)
Definition vbyte (m : machine) (x : Z) : Z :=
  match mmu m x with Some p => rd8 (phys m) p | None => 0 end.
Definition vword (m : machine) (a : Z) : Z := le_combine (vbyte m <$> seqZ a 4).

Lemma vword_ext m m' a :
  (∀ x, a ≤ x < a + 4 → vbyte m' x = vbyte m x) → vword m' a = vword m a.
Proof.
  intros H. unfold vword. f_equal. apply list_fmap_ext. intros i q Hq%lookup_seqZ. apply H. lia.
Qed.

(** Byte [x] belongs to an allocation. *)
Definition allocated (A : gmap Z Z) (x : Z) : Prop := ∃ p n, A !! p = Some n ∧ p ≤ x < p + n.

(** The allocated bytes outside [W] are what they were. *)
Definition kept (A : gmap Z Z) (W : Z → Prop) (k k' : kernel) : Prop :=
  ∀ x, allocated A x → ¬ W x → vbyte (mach k') x = vbyte (mach k) x.

Definition nowhere : Z → Prop := λ _, False.

(** The parts of the state the memory managers use. *)
Record same_memory (k k' : kernel) : Prop := {
  sm_phys : phys (mach k') = phys (mach k);
  sm_pg : cr0_pg (mach k') = cr0_pg (mach k);
  sm_cr3 : cr3 (mach k') = cr3 (mach k);
  sm_pmm : pmm_st k' = pmm_st k;
  sm_paging : paging_st k' = paging_st k;
  sm_heap : heap_st k' = heap_st k
}.

Lemma same_memory_vbyte k k' x : same_memory k k' → vbyte (mach k') x = vbyte (mach k) x.
Proof. intros [Hp Hg Hc _ _ _]. unfold vbyte, mmu. by rewrite Hp, Hg, Hc. Qed.

Class Allocator (inv : kernel → gmap Z Z → Prop) : Prop := {
  al_range k A p n : inv k A → A !! p = Some n →
    0 < p ∧ p mod 8 = 0 ∧ 8 ≤ n ∧ p + n < 0x100000000;
  al_disjoint k A p q n m : inv k A → A !! p = Some n → A !! q = Some m → p ≠ q →
    p + n ≤ q ∨ q + m ≤ p;
  al_malloc k A size : inv k A → 0 < size ≤ KMALLOC_MAX →
    wp (kmalloc size) (λ p k', memory_only k k' ∧ kept A nowhere k k' ∧
      ((p = 0 ∧ inv k' A) ∨
       (∃ n, size ≤ n ∧ A !! p = None ∧ p ≠ 0 ∧ inv k' (<[p := n]> A)))) k;
  al_free k A p n : inv k A → A !! p = Some n →
    wp (kfree p) (λ r k', memory_only k k' ∧ kept (delete p A) nowhere k k' ∧
      r = 1 ∧ inv k' (delete p A)) k;
  al_load k A p n a (Q : Z → kernel → Prop) : inv k A → A !! p = Some n → p ≤ a → a + 4 ≤ p + n →
    Q (vword (mach k) a) k → wp (load32 a) Q k;
  al_store k A p n a v : inv k A → A !! p = Some n → p ≤ a → a + 4 ≤ p + n →
    wp (store32 a v) (λ _ k', memory_only k k' ∧ inv k' A ∧ vword (mach k') a = u32 v ∧
      kept A (λ x, a ≤ x < a + 4) k k') k;
  al_ext k k' A : same_memory k k' → inv k A → inv k' A
}.

(** ** heap.c is an allocator

    Beside the heap, a client may own frames of other kinds: [J] is what it
    knows about them, and the operations of the heap keep it. *)
Definition others : Type := kernel → gset Z → gmap Z Z → gmap Z Z → Prop.
Class Spared (J : others) : Prop :=
  spared k U T P k' U' T' P' : J k U T P → spares k U T P k' U' T' P' → J k' U' T' P'.

Definition client (J : others) (k : kernel) (A : gmap Z Z) : Prop :=
  ∃ U T P bs, heap_inv k U T P bs ∧ allocations bs = A ∧ J k U T P.

Definition heap_client (k : kernel) (A : gmap Z Z) : Prop :=
  ∃ U T P bs, heap_inv k U T P bs ∧ allocations bs = A.

Lemma heap_allocated k U T P bs x :
  heap_inv k U T P bs → allocated (allocations bs) x ↔ used_payload HEAP_START bs x.
Proof. intros Hi. symmetry. apply used_payload_amap, block_ok_sizes, (hv_ok _ _ _ _ _ Hi). Qed.

Lemma heap_vbyte k U T P bs x :
  heap_inv k U T P bs → HEAP_START ≤ x < brk (heap_st k) → vbyte (mach k) x = vb (heap_tr P) (mach k) x.
Proof.
  intros Hi Hx. destruct (heap_inv_lay _ _ _ _ _ Hi) as [Hl _].
  unfold vbyte, vb. by rewrite (window_mmu _ _ _ _ _ (hl_win _ _ _ _ Hl) Hx).
Qed.

Lemma allocated_heap k U T P bs x :
  heap_inv k U T P bs → allocated (allocations bs) x → HEAP_START ≤ x < brk (heap_st k).
Proof.
  intros Hi Hx%(heap_allocated _ _ _ _ _ _ Hi)%used_payload_range;
    [|by apply block_ok_sizes, (hv_ok _ _ _ _ _ Hi)].
  rewrite <- (hv_span _ _ _ _ _ Hi). unfold sizeof_block in *. lia.
Qed.

Lemma same_payload_kept k k' U T P bs U' T' P' bs' A :
  heap_inv k U T P bs → heap_inv k' U' T' P' bs' →
  (∀ x, allocated A x → allocated (allocations bs) x ∧ allocated (allocations bs') x) →
  (∀ x, allocated A x → vb (heap_tr P') (mach k') x = vb (heap_tr P) (mach k) x) →
  kept A nowhere k k'.
Proof.
  intros Hi Hi' HA Hb x Hx _. destruct (HA x Hx) as [H1 H2].
  rewrite (heap_vbyte _ _ _ _ _ _ Hi') by by eapply allocated_heap.
  rewrite (heap_vbyte _ _ _ _ _ _ Hi) by by eapply allocated_heap. auto.
Qed.

(** Writing the payload of allocations keeps the headers. *)
Lemma hdrs_keep_payload tr lo hi W k k' stop a bs :
  heap_step tr lo hi W k k' → sizes_ok bs → lo ≤ a → a + span bs ≤ hi →
  (∀ x, W x → a ≤ x → x < a + span bs → used_payload a bs x) →
  hdrs tr (mach k) stop a bs → hdrs tr (mach k') stop a bs.
Proof.
  intros Hs Hok. revert a. induction Hok as [|b bs Hb Hok IH]; intros a; [done|].
  cbn [hdrs span]. pose proof (span_nonneg bs Hok).
  assert (0 ≤ blk_span b - sizeof_block ∧ 0 < sizeof_block) by (unfold blk_span, sizeof_block; lia).
  intros ?? HW [H1 H2]. split.
  - eapply hdr_keep; [done|lia|lia| |done]. intros x Hx Hw.
    destruct (HW x Hw ltac:(lia) ltac:(lia)) as [[_ ?]|Hu]; [lia|].
    apply used_payload_range in Hu; [lia|done].
  - apply IH; [lia|lia| |done]. intros x Hw ??.
    destruct (HW x Hw ltac:(lia) ltac:(lia)) as [[_ ?]|Hu]; [lia|done].
Qed.

Lemma amap_ok a bs p n :
  Forall block_ok bs → a mod 8 = 0 → amap a bs !! p = Some n → p mod 8 = 0 ∧ 8 ≤ n.
Proof.
  intros Hok. revert a. induction Hok as [|b bs [Hb Hm] Hok IH]; intros a Ha; cbn [amap]; [done|].
  assert ((a + blk_span b) mod 8 = 0) by (unfold blk_span, sizeof_block; zlia).
  case_match; [by apply IH|]. rewrite lookup_insert_Some. intros [[<- <-]|[_ Hx]].
  - split; [unfold sizeof_block; zlia|done].
  - by apply (IH (a + blk_span b)).
Qed.

Lemma amap_disjoint a bs p q n m :
  sizes_ok bs → amap a bs !! p = Some n → amap a bs !! q = Some m → p ≠ q →
  p + n ≤ q ∨ q + m ≤ p.
Proof.
  intros Hok. revert a. induction Hok as [|b bs Hb Hok IH]; intros a; cbn [amap]; [done|].
  case_match; [apply IH|].
  rewrite !lookup_insert_Some. unfold blk_span, sizeof_block in *.
  intros [[<- <-]|[? Hx]] [[<- <-]|[? Hy]] Hne; [done| | |by eapply IH].
  - apply amap_range in Hy; [unfold sizeof_block in *; lia|done].
  - apply amap_range in Hx; [unfold sizeof_block in *; lia|done].
Qed.

Lemma allocations_extended bs n :
  allocations (coalesce_spec (bs ++ [Blk n true])) = allocations bs.
Proof.
  unfold allocations. rewrite amap_coalesce, amap_app. cbn [amap bfree]. apply (right_id_L ∅ (∪)).
Qed.

Lemma heap_inv_sizes k U T P bs : heap_inv k U T P bs → sizes_ok bs.
Proof. intros Hi. apply block_ok_sizes, (hv_ok _ _ _ _ _ Hi). Qed.

Lemma allocated_insert A p n x :
  A !! p = None → allocated A x → allocated (<[p := n]> A) x.
Proof. intros Hp (q & m & Hq & ?). exists q, m. rewrite lookup_insert_ne by congruence. done. Qed.

Lemma allocated_delete A p x : allocated (delete p A) x → allocated A x.
Proof. intros (q & m & Hq & ?). exists q, m. by apply lookup_delete_Some in Hq as [_ Hq]. Qed.

Lemma heap_vword k U T P bs a :
  heap_inv k U T P bs → HEAP_START ≤ a → a + 4 ≤ brk (heap_st k) →
  vword (mach k) a = vw (heap_tr P) (mach k) a.
Proof.
  intros Hi ??. unfold vword, vw. f_equal. apply list_fmap_ext. intros i q Hq%lookup_seqZ.
  eapply heap_vbyte; [done|lia].
Qed.

Lemma allocation_heap k U T P bs p n :
  heap_inv k U T P bs → allocations bs !! p = Some n →
  HEAP_START + sizeof_block ≤ p ∧ p + n ≤ brk (heap_st k).
Proof.
  intros Hi Hp. apply amap_range in Hp; [|by eapply heap_inv_sizes].
  rewrite <- (hv_span _ _ _ _ _ Hi). lia.
Qed.

Lemma heap_inv_same_memory k k' U T P bs :
  same_memory k k' → heap_inv k U T P bs → heap_inv k' U T P bs.
Proof.
  intros [Hp Hg Hc Hpm Hpa Hh] []. split; rewrite ?Hh; try done.
  - by eapply paging_inv_ext.
  - by rewrite Hg.
  - destruct hv_frames as [? Hpg ?]. split; [done| |done]. intros p Hpp.
    destruct (Hpg p Hpp) as (f & ? & ? & Ho). exists f. split_and!; [done..|].
    unfold owned, is_table, pdir, bm_lo, bm_hi in *. by rewrite Hpm, Hpa.
  - eapply hdrs_ext; [by apply block_ok_sizes| |done]. intros. unfold vb. by rewrite Hp.
Qed.

Section client.
Context (J : others) `{!Spared J}.

Lemma client_malloc k A size : client J k A → 0 < size ≤ KMALLOC_MAX →
  wp (kmalloc size) (λ p k', memory_only k k' ∧ kept A nowhere k k' ∧
    ((p = 0 ∧ client J k' A) ∨
     (∃ n, size ≤ n ∧ A !! p = None ∧ p ≠ 0 ∧ client J k' (<[p := n]> A)))) k.
Proof.
  intros (U & T & P & bs & Hi & <- & HJ) Hs.
  destruct (align8_spec size) as ([Hge Hle] & Hmod & H8); [unfold KMALLOC_MAX in Hs; lia..|].
  eapply wp_mono; [apply wp_preserves; [apply _|]; by eapply kmalloc_rep|].
  cbn beta. intros p k' [(U' & T' & P' & Hsp & Hfo%(spared _ _ _ _ _ _ _ _ HJ) & Hm) Hmo]. split; [done|].
  assert (∀ bs', heap_inv k' U' T' P' bs' →
    (∀ x, allocated (allocations bs) x → allocated (allocations bs') x) →
    kept (allocations bs) nowhere k k') as Hkept.
  { intros bs' Hi' HA. eapply same_payload_kept; [exact Hi|exact Hi'|by auto|].
    intros x Hx. apply Hsp. by eapply heap_allocated. }
  assert (∀ bs0 bs', allocations bs0 = allocations bs → sizes_ok bs0 →
    first_fit (align8 size) HEAP_START bs0 = Some (p, bs') → heap_inv k' U' T' P' bs' →
    kept (allocations bs) nowhere k k' ∧
    ∃ n, size ≤ n ∧ allocations bs !! p = None ∧ p ≠ 0 ∧ client J k' (<[p := n]> (allocations bs))) as Hgot.
  { intros bs0 bs' Hbs Hok Hff Hi'.
    destruct (amap_first_fit (align8 size) HEAP_START bs0 p bs' Hok ltac:(lia) Hff) as [Hnone (n & Hn & Heq)].
    fold (allocations bs0) (allocations bs') in Hnone, Heq. rewrite Hbs in Hnone, Heq. split.
    - eapply Hkept; [done|]. intros x ?. rewrite Heq. by apply allocated_insert.
    - exists n. split_and!; [lia|done| |].
      + assert (amap HEAP_START bs' !! p = Some n) as Hp by (fold (allocations bs'); by rewrite Heq, lookup_insert_eq).
        apply amap_range in Hp; [unfold HEAP_START, sizeof_block in *; lia|by eapply heap_inv_sizes].
      + by exists U', T', P', bs'. }
  destruct (first_fit (align8 size) HEAP_START bs) as [[q bs']|] eqn:Hff.
  - destruct Hm as [-> Hi']. destruct (Hgot bs bs' eq_refl (heap_inv_sizes _ _ _ _ _ Hi) Hff Hi'); auto.
  - destruct Hm as [(-> & _ & Hi')|(_ & n & bs' & Hn & Hff' & Hi')].
    + split; [by eapply Hkept|]. left. split; [done|]. by exists U', T', P', bs.
    + destruct (Hgot _ bs' (allocations_extended bs n)) as [? ?]; auto.
      apply coalesce_spec_sizes, sizes_ok_app. split; [by eapply heap_inv_sizes|].
      apply Forall_singleton. cbn. lia.
Qed.

Lemma client_kfree k A p n : client J k A → A !! p = Some n →
  wp (kfree p) (λ r k', memory_only k k' ∧ kept (delete p A) nowhere k k' ∧
    r = 1 ∧ client J k' (delete p A)) k.
Proof.
  intros (U & T & P & bs & Hi & <- & HJ) Hp. pose proof (heap_inv_sizes _ _ _ _ _ Hi) as Hok.
  destruct (release_allocated _ _ _ _ Hok Hp) as [bs' Hrel].
  destruct (amap_release _ _ _ _ Hok Hrel) as [_ Hdel].
  eapply wp_mono; [apply wp_preserves; [apply _|]; by eapply kfree_accepts_rep|].
  cbn beta. intros r k' [(-> & Hi' & Hsp & Hfo%(spared _ _ _ _ _ _ _ _ HJ)) Hmo].
  assert (allocations (coalesce_spec bs') = delete p (allocations bs)) as Heq
    by (unfold allocations; by rewrite amap_coalesce).
  split_and!; [done| |done|by exists U, T, P, (coalesce_spec bs')].
  eapply same_payload_kept; [exact Hi|exact Hi'| |].
  - intros x Hx. split; [by eapply allocated_delete|by rewrite Heq].
  - intros x Hx. apply Hsp. rewrite <- coalesce_spec_payload, <- (heap_allocated _ _ _ _ _ _ Hi').
    by rewrite Heq.
Qed.

Lemma client_store k A p n a v : client J k A → A !! p = Some n → p ≤ a → a + 4 ≤ p + n →
  wp (store32 a v) (λ _ k', memory_only k k' ∧ client J k' A ∧ vword (mach k') a = u32 v ∧
    kept A (λ x, a ≤ x < a + 4) k k') k.
Proof.
  intros (U & T & P & bs & Hi & <- & HJ) Hp Hlo Hhi. destruct (heap_inv_lay _ _ _ _ _ Hi) as [Hl _].
  destruct (allocation_heap _ _ _ _ _ _ _ Hi Hp) as [Hps Hpe]. unfold sizeof_block in Hps.
  set (hi := brk (heap_st k)) in *.
  eapply wp_mono; [apply (wp_preserves memory_only (store32 a v) (λ _ k',
    heap_step (heap_tr P) HEAP_START hi (λ x, a ≤ x < a + 4) k k' ∧
    window (heap_tr P) HEAP_START hi (mach k') ∧ vw (heap_tr P) (mach k') a = u32 v))|].
  - eapply (wp_heap_store _ _ _ (λ x, a ≤ x < a + 4) k a);
      [exact (hl_win _ _ _ _ Hl)|apply heap_step_refl|done|lia|lia|done|].
    by intros k' Hs Hw _ Hv.
  - cbn beta. intros _ k' [(Hs & Hw & Hv) Hmo].
    assert (heap_inv k' U T P bs) as Hi'.
    { eapply heap_inv_step; [done|exact Hs| |apply (hv_ok _ _ _ _ _ Hi)].
      destruct Hl as [? Hh ? ? ?]. split; try done.
      eapply hdrs_keep_payload; [exact Hs|by eapply heap_inv_sizes|done|lia| |done].
      cbn beta. intros x Hx _ _. rewrite <- (heap_allocated _ _ _ _ _ _ Hi). exists p, n. split; [done|lia]. }
    pose proof (heap_step_heap_st _ _ _ _ _ _ Hs) as Hhs.
    assert (J k' U T P) as HJ' by (eapply spared; [done|]; eapply spares_heap_step; [apply (hv_frames _ _ _ _ _ Hi)|exact Hs]).
    split_and!; [done|by exists U, T, P, bs| |].
    + erewrite heap_vword; [done|done|lia|rewrite Hhs; fold hi; lia].
    + intros x Hx Hn. pose proof (allocated_heap _ _ _ _ _ _ Hi Hx).
      rewrite (heap_vbyte _ _ _ _ _ _ Hi'), (heap_vbyte _ _ _ _ _ _ Hi) by (rewrite ?Hhs; done).
      apply (hs_keep _ _ _ _ _ _ Hs); done.
Qed.

#[export] Instance client_allocator : Allocator (client J).
Proof.
  split.
  - intros k A p n (U & T & P & bs & Hi & <- & HJ) Hp.
    destruct (allocation_heap _ _ _ _ _ _ _ Hi Hp) as [Hps Hpe].
    destruct (amap_ok _ _ _ _ (hv_ok _ _ _ _ _ Hi) (eq_refl : HEAP_START mod 8 = 0) Hp) as [Hm Hn].
    pose proof (hf_hi _ _ _ _ _ (hv_frames _ _ _ _ _ Hi)).
    unfold heap_top, HEAP_START, HEAP_MAX, sizeof_block in *. lia.
  - intros k A p q n m (U & T & P & bs & Hi & <- & HJ). apply amap_disjoint. by eapply heap_inv_sizes.
  - apply client_malloc.
  - apply client_kfree.
  - intros k A p n a Q (U & T & P & bs & Hi & <- & HJ) Hp Hlo Hhi HQ.
    destruct (allocation_heap _ _ _ _ _ _ _ Hi Hp) as [Hps Hpe]. unfold sizeof_block in Hps.
    destruct (heap_inv_lay _ _ _ _ _ Hi) as [Hl _].
    eapply wp_load32; [exact (hl_win _ _ _ _ Hl)|lia|lia|].
    rewrite (heap_vword _ _ _ _ _ _ Hi) in HQ by lia. done.
  - apply client_store.
  - intros k k' A Hs (U & T & P & bs & Hi & <- & HJ). exists U, T, P, bs.
    split_and!; [by eapply heap_inv_same_memory|done|]. eapply spared; [exact HJ|]. by destruct Hs; apply spares_ext.
Qed.
End client.

(** A client of the heap that knows of nothing else. *)
#[export] Instance spared_nothing : Spared (λ _ _ _ _, True).
Proof. done. Qed.

Lemma heap_client_nothing k A : heap_client k A ↔ client (λ _ _ _ _, True) k A.
Proof. unfold heap_client, client. naive_solver. Qed.

Lemma allocator_equiv inv inv' :
  (∀ k A, inv' k A ↔ inv k A) → Allocator inv → Allocator inv'.
Proof.
  intros He Ha. split.
  - intros k A p n Hi%He. by apply (al_range k).
  - intros k A p q n m Hi%He. by apply (al_disjoint k).
  - intros k A size Hi%He Hs. eapply wp_mono; [by apply al_malloc|].
    cbn beta. intros p k' (? & ? & [[??]|(n & ? & ? & ? & ?)]); split_and!; [done|done| |done|done|].
    + left. split; [done|by apply He].
    + right. exists n. split_and!; [done..|by apply He].
  - intros k A p n Hi%He Hp. eapply wp_mono; [by eapply al_free|].
    cbn beta. intros r k' (? & ? & ? & ?%He). done.
  - intros k A p n a Q Hi%He. by apply al_load.
  - intros k A p n a v Hi%He Hp ??. eapply wp_mono; [by eapply al_store|].
    cbn beta. intros [] k' (? & ?%He & ? & ?). done.
  - intros k k' A Hs Hi%He. by eapply He, al_ext.
Qed.

#[export] Instance heap_allocator : Allocator heap_client.
Proof. eapply allocator_equiv; [apply heap_client_nothing|apply _]. Qed.
