(* ===== verification/StackMemory.v ===== *)
(** * Where the stacks lie

    Task 0 runs on the boot stack (src/boot.asm), identity-mapped memory of the
    kernel image; every other task on an allocation of the heap.  The memory
    managers spare the boot stack ([client boot_stack] is an [Allocator]), and a
    task that writes to its own stack disturbs neither the managers' structures
    nor anybody else's stack. *)
From stdpp Require Import prelude gmap list strings.
From Stdlib Require Import Lia ZArith.
From S2P Require Import Prelude Machine State Util Console Memory Pmm Paging Heap HeapSpec.
From S2P Require Import HeapProof HeapMap Frames Alloc.

#[local] Open Scope Z_scope.

(** A change that touches neither the page directory nor a page table leaves
    the MMU's answers alone. *)
Lemma mmu_apart k U T P W m' va :
  paging_inv k U T P → cr0_pg (mach k) = true → agrees_outside W (mach k) m' →
  (∀ q, W q → ¬ owned k T (q / 0x1000)) → 0 ≤ va < 0x100000000 → mmu m' va = mmu (mach k) va.
Proof.
  intros Hi Hon Ha HW Hva. pose proof (gi_core _ _ _ _ Hi) as Hc.
  rewrite (mmu_lookup _ _ _ _ Hc Hon Hva), mmu_on by (by rewrite (ao_pg _ _ _ Ha)).
  rewrite (ao_cr3 _ _ _ Ha), (proj1 (gc_on _ _ _ Hc Hon)). eapply pt_walk; [|done].
  eapply pt_rep_ext; [apply (gc_pt _ _ _ Hc)|]. intros t q Ht Hq.
  apply (ao_rd8 _ _ _ Ha). intros HWq. by eapply HW, owned_table.
Qed.

Lemma heap_not_foreign k U T P bs x :
  heap_inv k U T P bs → HEAP_START ≤ x < brk (heap_st k) → ¬ foreign k U T P (heap_tr P x / 0x1000).
Proof.
  intros Hi Hx (_ & _ & Hn). pose proof (hv_frames _ _ _ _ _ Hi) as Hf.
  destruct (heap_frame_at _ _ _ _ _ _ Hf Hx) as (f & Htr & Hpf & Hp & _).
  apply (Hn (x / 0x1000)); [by eapply heap_top_page|].
  rewrite Htr. by replace ((0x1000 * f + x mod 0x1000) / 0x1000) with f by zlia.
Qed.

(** Writing outside the managers' memory and the heap keeps their invariants. *)
Lemma apart_write k U T P bs W ph :
  heap_inv k U T P bs → agrees_outside W (mach k) (set_phys ph (mach k)) →
  (∀ q, W q → ¬ owned k T (q / 0x1000) ∧ ¬ image (heap_tr P) HEAP_START (brk (heap_st k)) q) →
  heap_inv (upd_mach (set_phys ph) k) U T P bs.
Proof.
  intros Hi [_ _ Hrd] HW. pose proof (hv_paging _ _ _ _ _ Hi) as Hp.
  pose proof (gi_core _ _ _ _ Hp) as Hc.
  assert (∀ q, owned k T (q / 0x1000) → rd8 ph q = rd8 (phys (mach k)) q) as Hown.
  { intros q Ho. apply Hrd. by intros [Hn _]%HW. }
  assert (paging_inv (upd_mach (set_phys ph) k) U T P) as Hp'.
  { eapply inv_rebuild; [done| |done..| | |apply (gi_table_count _ _ _ _ Hp)|apply (gi_mapped _ _ _ _ Hp)].
    - split; [|exact (gc_end _ _ _ Hc)|exact (gc_on _ _ _ Hc)].
      eapply pt_rep_ext; [apply (gc_pt _ _ _ Hc)|]. intros t q Ht Hq. by eapply Hown, owned_table.
    - intros q Hq. by apply Hown, owned_bitmap.
    - intros t Ht. by eapply table_facts. }
  pose proof Hi as []. split; try done; [by destruct hv_frames|].
  eapply hdrs_ext; [by apply block_ok_sizes| |done]. intros x Hx. unfold vb. apply Hrd. intros [_ Hn]%HW.
  apply Hn. exists x. split; [lia|done].
Qed.

(** In particular, writing to frames of others. *)
Lemma foreign_write k U T P bs W ph :
  heap_inv k U T P bs → agrees_outside W (mach k) (set_phys ph (mach k)) →
  (∀ q, W q → foreign k U T P (q / 0x1000)) → heap_inv (upd_mach (set_phys ph) k) U T P bs.
Proof.
  intros Hi Ha HW. eapply apart_write; [done|done|]. intros q Hq. split; [by apply HW|].
  intros (x & Hx & ->). eapply heap_not_foreign; [done|exact Hx|by apply HW].
Qed.

(** A kernel that wrote memory between the virtual addresses [s] and [e]. *)
Record writes (s e : Z) (k k' : kernel) : Prop := {
  wr_shape : ∃ ph, k' = upd_mach (set_phys ph) k;
  wr_only q : (∀ x, s ≤ x < e → mmu (mach k) x ≠ Some q) →
    rd8 (phys (mach k')) q = rd8 (phys (mach k)) q
}.

Lemma writes_mono s e s' e' k k' : writes s e k k' → s' ≤ s → e ≤ e' → writes s' e' k k'.
Proof. intros [Hs Hq] ??. split; [done|]. intros q Hn. apply Hq. intros x Hx. apply Hn. lia. Qed.

Lemma writes_window tr s e k ph :
  (∀ x, s ≤ x < e → mmu (mach k) x = Some (tr x)) →
  agrees_outside (image tr s e) (mach k) (set_phys ph (mach k)) ↔ writes s e k (upd_mach (set_phys ph) k).
Proof.
  intros Htr. split.
  - intros [_ _ Hrd]. split; [by exists ph|]. intros q Hq. apply Hrd.
    intros (x & Hx & ->). by apply (Hq x Hx), Htr.
  - intros [_ Hq]. split; [done..|]. intros q Hn. apply Hq. intros x Hx He. apply Hn.
    exists x. split; [done|]. rewrite Htr in He by done. congruence.
Qed.

Section boot.
(** The boot stack lies from [lo0] to [hi0]. *)
Context (lo0 hi0 : Z).

Record boot_stack (k : kernel) (U : gset Z) (T P : gmap Z Z) : Prop := {
  bt_range : 0 < lo0 ≤ hi0 ∧ hi0 ≤ iend k;
  bt_foreign x : lo0 ≤ x < hi0 → foreign k U T P (x / 0x1000)
}.

#[export] Instance boot_stack_spared : Spared boot_stack.
Proof. intros k U T P k' U' T' P' [Hr Hf] [He Hs _]. split; [by rewrite He|]. auto. Qed.

(** The same with the bytes of the boot stack. *)
Definition boot_bytes (c : Z → Z) : others := λ k U T P,
  boot_stack k U T P ∧ ∀ x, lo0 ≤ x < hi0 → rd8 (phys (mach k)) x = c x.

#[export] Instance boot_bytes_spared c : Spared (boot_bytes c).
Proof.
  intros k U T P k' U' T' P' [Hb Hc] Hs. split; [by eapply spared|].
  intros x Hx. rewrite (sp_bytes _ _ _ _ _ _ _ _ Hs); [by apply Hc|]. by apply (bt_foreign _ _ _ _ Hb).
Qed.

Lemma boot_mmu k U T P bs x :
  heap_inv k U T P bs → boot_stack k U T P → lo0 ≤ x < hi0 → mmu (mach k) x = Some x.
Proof.
  intros Hi Hb Hx. pose proof (gi_core _ _ _ _ (hv_paging _ _ _ _ _ Hi)) as Hc.
  pose proof (gc_end _ _ _ Hc). pose proof (bt_range _ _ _ _ Hb). unfold IDENTITY_BYTES in *.
  rewrite (mmu_lookup _ _ _ _ Hc (hv_on _ _ _ _ _ Hi)) by lia.
  eapply identity_lookup; [done|apply (hv_on _ _ _ _ _ Hi)|lia|done].
Qed.

Lemma boot_vbyte k U T P bs x :
  heap_inv k U T P bs → boot_stack k U T P → lo0 ≤ x < hi0 → vbyte (mach k) x = rd8 (phys (mach k)) x.
Proof. intros Hi Hb Hx. unfold vbyte. by rewrite (boot_mmu _ _ _ _ _ _ Hi Hb Hx). Qed.

(** An operation that is verified against the interface keeps the bytes of the
    boot stack. *)
Lemma client_frozen k A :
  client boot_stack k A → client (boot_bytes (vbyte (mach k))) k A.
Proof.
  intros (U & T & P & bs & Hi & HA & Hb). exists U, T, P, bs. split_and!; [done..|].
  split; [done|]. intros x Hx. symmetry. by eapply boot_vbyte.
Qed.
Lemma frozen_client c k A : client (boot_bytes c) k A → client boot_stack k A.
Proof. intros (U & T & P & bs & Hi & HA & Hb & _). by exists U, T, P, bs. Qed.
Lemma frozen_vbyte c k A x : client (boot_bytes c) k A → lo0 ≤ x < hi0 → vbyte (mach k) x = c x.
Proof. intros (U & T & P & bs & Hi & HA & Hb & Hc) Hx. rewrite <- Hc by done. by eapply boot_vbyte. Qed.

(** [lo] to [hi] is the boot stack or lies in an allocation. *)
Definition stack_at (A : gmap Z Z) (lo hi : Z) : Prop :=
  (lo = lo0 ∧ hi = hi0) ∨ (lo ≤ hi ∧ ∃ n, A !! lo = Some n ∧ hi ≤ lo + n).

Lemma stack_range k A lo hi :
  client boot_stack k A → stack_at A lo hi → 0 < lo ≤ hi ∧ hi < 0x100000000.
Proof.
  intros Hc [[-> ->]|(? & n & HA & ?)].
  - destruct Hc as (U & T & P & bs & Hi & _ & Hb). pose proof (bt_range _ _ _ _ Hb).
    pose proof (gi_end _ _ _ _ (hv_paging _ _ _ _ _ Hi)). unfold IDENTITY_BYTES in *. lia.
  - pose proof (al_range _ _ _ _ Hc HA). lia.
Qed.

(** Bytes of a stack. *)
Definition on_stack (A : gmap Z Z) (x : Z) : Prop := allocated A x ∨ lo0 ≤ x < hi0.

Lemma stack_on A lo hi x : stack_at A lo hi → lo ≤ x < hi → on_stack A x.
Proof. intros [[-> ->]|(? & n & HA & ?)] Hx; [by right|]. left. exists lo, n. split; [done|lia]. Qed.

(** The boot stack is not in the heap. *)
Lemma boot_below k A p n : client boot_stack k A → A !! p = Some n → hi0 ≤ p.
Proof.
  intros (U & T & P & bs & Hi & <- & Hb) Hp. pose proof (allocation_heap _ _ _ _ _ _ _ Hi Hp).
  pose proof (bt_range _ _ _ _ Hb). pose proof (gi_end _ _ _ _ (hv_paging _ _ _ _ _ Hi)).
  unfold IDENTITY_BYTES, HEAP_START, sizeof_block in *. lia.
Qed.

(** Where a byte of a stack is. *)
Definition loc (P : gmap Z Z) (x : Z) : Z := if decide (x < hi0) then x else heap_tr P x.

Section memory.
Context (k : kernel) (U : gset Z) (T P : gmap Z Z) (bs : list blk).
Context (Hi : heap_inv k U T P bs) (Hb : boot_stack k U T P).

Lemma heap_above : hi0 ≤ HEAP_START.
Proof using All.
  pose proof (bt_range _ _ _ _ Hb). pose proof (gi_end _ _ _ _ (hv_paging _ _ _ _ _ Hi)).
  unfold IDENTITY_BYTES, HEAP_START in *. lia.
Qed.

Lemma on_stack_cases x : on_stack (allocations bs) x →
  (lo0 ≤ x < hi0 ∧ loc P x = x ∧ mmu (mach k) x = Some x ∧ foreign k U T P (x / 0x1000)) ∨
  (HEAP_START ≤ x < brk (heap_st k) ∧ loc P x = heap_tr P x ∧ mmu (mach k) x = Some (heap_tr P x) ∧
   ¬ foreign k U T P (heap_tr P x / 0x1000)).
Proof using All.
  intros [Hx%(allocated_heap _ _ _ _ _ _ Hi)|Hx]; [right|left]; unfold loc.
  - pose proof heap_above. rewrite decide_False by lia. destruct (heap_inv_lay _ _ _ _ _ Hi) as [Hl _].
    split_and!; [lia|lia|done| |by eapply heap_not_foreign].
    eapply window_mmu; [exact (hl_win _ _ _ _ Hl)|done].
  - rewrite decide_True by lia. split_and!; [lia|lia|done|by eapply boot_mmu|by apply (bt_foreign _ _ _ _ Hb)].
Qed.

Lemma on_stack_mmu x : on_stack (allocations bs) x → mmu (mach k) x = Some (loc P x).
Proof using All. by intros [(_ & -> & -> & _)|(_ & -> & -> & _)]%on_stack_cases. Qed.

Lemma loc_inj x y : on_stack (allocations bs) x → on_stack (allocations bs) y → loc P x = loc P y → x = y.
Proof using All.
  intros [(? & -> & _ & Hx)|(? & -> & _ & Hx)]%on_stack_cases [(? & -> & _ & Hy)|(? & -> & _ & Hy)]%on_stack_cases;
    intros He; [done|by rewrite He in Hx|by rewrite He in Hx|].
  destruct (heap_inv_lay _ _ _ _ _ Hi) as [Hl _]. by eapply (win_inj _ _ _ _ (hl_win _ _ _ _ Hl)).
Qed.

Lemma loc_window lo hi : stack_at (allocations bs) lo hi → window (loc P) lo hi (mach k).
Proof using All.
  intros Hst. assert (client boot_stack k (allocations bs)) as Hc by by exists U, T, P, bs.
  pose proof (stack_range _ _ _ _ Hc Hst). split; [lia| |].
  - intros a b Ha Hb'. apply loc_inj; by eapply stack_on.
  - intros m' Ha x Hx. destruct Hst as [[-> ->]|(? & n & HA & Hn)].
    + rewrite (mmu_apart k U T P (image (loc P) lo0 hi0)); [by apply on_stack_mmu; right| | |done| |lia].
      * apply (hv_paging _ _ _ _ _ Hi).
      * apply (hv_on _ _ _ _ _ Hi).
      * intros q (y & Hy & ->). unfold loc. rewrite decide_True by lia. by apply (bt_foreign _ _ _ _ Hb).
    + destruct (heap_inv_lay _ _ _ _ _ Hi) as [Hl _]. pose proof heap_above.
      destruct (allocation_heap _ _ _ _ _ _ _ Hi HA). unfold sizeof_block in *.
      assert (∀ y, lo ≤ y → loc P y = heap_tr P y) as Hloc by (intros; unfold loc; by rewrite decide_False by lia).
      rewrite Hloc by lia. eapply (win_stable _ _ _ _ (hl_win _ _ _ _ Hl)); [|lia].
      eapply agrees_outside_mono, Ha. intros q (y & Hy & ->). exists y. rewrite Hloc by lia. split; [lia|done].
Qed.

Lemma on_stack_vbyte x : on_stack (allocations bs) x → vbyte (mach k) x = rd8 (phys (mach k)) (loc P x).
Proof using All. intros Hx. unfold vbyte. by rewrite on_stack_mmu. Qed.

(** Writing to a stack keeps the managers' structures. *)
Lemma stack_write_inv lo hi s e ph :
  stack_at (allocations bs) lo hi → lo ≤ s → e ≤ hi →
  agrees_outside (image (loc P) s e) (mach k) (set_phys ph (mach k)) →
  heap_inv (upd_mach (set_phys ph) k) U T P bs.
Proof using All.
  intros [[-> ->]|(? & n & HA & Hn)] Hs He Ha.
  - eapply foreign_write; [done|done|]. intros q (y & Hy & ->). unfold loc. rewrite decide_True by lia.
    apply (bt_foreign _ _ _ _ Hb). lia.
  - destruct (heap_inv_lay _ _ _ _ _ Hi) as [Hl _]. pose proof heap_above as Hab.
    destruct (allocation_heap _ _ _ _ _ _ _ Hi HA). unfold sizeof_block in *.
    assert (∀ q, image (loc P) s e q → image (heap_tr P) s e q) as Him.
    { intros q (y & Hy & ->). exists y. unfold loc. by rewrite decide_False by lia. }
    assert (heap_step (heap_tr P) HEAP_START (brk (heap_st k)) (λ x, s ≤ x < e) k (upd_mach (set_phys ph) k)) as Hstep.
    { split; [by exists ph| |].
      - eapply agrees_outside_mono, Ha. intros q (y & Hy & ->)%Him. exists y. split; [lia|done].
      - intros x Hx Hns. apply (ao_rd8 _ _ _ Ha). intros (y & Hy & Heq)%Him. apply Hns.
        by rewrite (win_inj _ _ _ _ (hl_win _ _ _ _ Hl) x y Hx ltac:(lia) Heq). }
    eapply heap_inv_step; [done|exact Hstep| |apply (hv_ok _ _ _ _ _ Hi)].
    destruct Hl as [Hw Hh ? ? ?]. pose proof (heap_step_window _ _ _ _ _ _ Hw Hstep). split; try done.
    eapply hdrs_keep_payload; [exact Hstep|by eapply heap_inv_sizes|done|lia| |done].
    cbn beta. intros x Hx _ _. rewrite <- (heap_allocated _ _ _ _ _ _ Hi). exists lo, n. split; [done|lia].
Qed.
End memory.

(** The virtual addresses of a stack are a window: they can be read and
    written, and no write to them changes where they are. *)
Lemma stack_window k A lo hi :
  client boot_stack k A → stack_at A lo hi → ∃ tr, window tr lo hi (mach k).
Proof.
  intros (U & T & P & bs & Hi & <- & Hb) Hst. exists (loc P). by eapply loc_window.
Qed.

(** What is written to one stack: the invariant stays, and so do the bytes of
    all stacks and allocations outside the range written. *)
Lemma stack_write k A lo hi s e k' :
  client boot_stack k A → stack_at A lo hi → lo ≤ s → e ≤ hi → writes s e k k' →
  client boot_stack k' A ∧ ∀ x, on_stack A x → ¬ (s ≤ x < e) → vbyte (mach k') x = vbyte (mach k) x.
Proof.
  intros (U & T & P & bs & Hi & <- & Hb) Hst Hs He Hw. destruct (wr_shape _ _ _ _ Hw) as [ph ->].
  apply (writes_window (loc P)) in Hw; [|intros x Hx; eapply on_stack_mmu; [done..|eapply stack_on; [done|lia]]].
  assert (heap_inv (upd_mach (set_phys ph) k) U T P bs) as Hi' by by eapply stack_write_inv.
  assert (boot_stack (upd_mach (set_phys ph) k) U T P) as Hb' by by destruct Hb.
  split; [by exists U, T, P, bs|]. intros x Hx Hn.
  rewrite (on_stack_vbyte _ _ _ _ _ Hi' Hb' _ Hx), (on_stack_vbyte _ _ _ _ _ Hi Hb _ Hx).
  apply (ao_rd8 _ _ _ Hw). intros (y & Hy & Heq). apply Hn.
  by rewrite (loc_inj _ _ _ _ _ Hi Hb x y Hx ltac:(eapply stack_on; [done|lia]) Heq).
Qed.
End boot.
