(* ===== verification/Task.v ===== *)
(** * task.c and switch.asm: tasks and the round-robin scheduler

    The task table, the choice of the next task, quanta, the creation of a
    stack that [context_switch] can return into, and [context_switch] itself
    instruction by instruction. *)
From stdpp Require Import prelude gmap list strings.
From Stdlib Require Import Lia ZArith.
From S2P Require Import Prelude Machine State Util Console Memory Pmm Paging Heap HeapSpec.
From S2P Require Import HeapProof HeapMap Frames Alloc.

#[local] Open Scope Z_scope.

Definition MAX_TASKS : Z := 8.
Definition TASK_STACK_SIZE : Z := 8192.
Definition TASK_QUANTUM : Z := 5.
(** [sizeof(task_t)] *)
Definition sizeof_task : Z := 40.

(** ** The task table *)
Definition no_task : task_t :=
  {| esp := 0; stack_base := 0; task_id := 0; name := replicate 16 0;
     state := TASK_UNUSED; slices := 0; counter := 0 |}.
Definition task_at (s : sched_state) (i : Z) : task_t := default no_task (tasks s !! Z.to_nat i).
Definition upd_task (i : Z) (f : task_t → task_t) : K () :=
  modify (upd_sched_st (λ s, set_tasks (alter f (Z.to_nat i) (tasks s)) s)).
Definition task_g {A} (i : Z) (f : task_t → A) : K A := sched_g (λ s, f (task_at s i)).

Definition set_esp (v : Z) (t : task_t) : task_t :=
  {| esp := v; stack_base := stack_base t; task_id := task_id t; name := name t;
     state := state t; slices := slices t; counter := counter t |}.
Definition set_stack_base (v : Z) (t : task_t) : task_t :=
  {| esp := esp t; stack_base := v; task_id := task_id t; name := name t;
     state := state t; slices := slices t; counter := counter t |}.
Definition set_task_id (v : Z) (t : task_t) : task_t :=
  {| esp := esp t; stack_base := stack_base t; task_id := v; name := name t;
     state := state t; slices := slices t; counter := counter t |}.
Definition set_task_name (v : list Z) (t : task_t) : task_t :=
  {| esp := esp t; stack_base := stack_base t; task_id := task_id t; name := v;
     state := state t; slices := slices t; counter := counter t |}.
Definition set_state (v : task_state_t) (t : task_t) : task_t :=
  {| esp := esp t; stack_base := stack_base t; task_id := task_id t; name := name t;
     state := v; slices := slices t; counter := counter t |}.
Definition set_slices (v : Z) (t : task_t) : task_t :=
  {| esp := esp t; stack_base := stack_base t; task_id := task_id t; name := name t;
     state := state t; slices := v; counter := counter t |}.
Definition set_counter (v : Z) (t : task_t) : task_t :=
  {| esp := esp t; stack_base := stack_base t; task_id := task_id t; name := name t;
     state := state t; slices := slices t; counter := v |}.

(** src/task.c:18-22: the loop over the characters, then the terminator. *)
Fixpoint set_name_from (i : Z) (dest : list Z) (src : cstr) : list Z :=
  match src with
  | c :: src' =>
      if negb (c =? 0) && (i <? 15)
      then set_name_from (i + 1) (<[Z.to_nat i := c]> dest) src'
      else <[Z.to_nat i := 0]> dest
  | [] => <[Z.to_nat i := 0]> dest
  end.
Definition set_name (dest : list Z) (src : cstr) : list Z := set_name_from 0 dest src.

(** src/task.c:24-40. *)
Definition scheduler_init : K () :=
  for_range (Z.to_nat MAX_TASKS) 0 (λ i, upd_task i (set_state TASK_UNUSED)) ;;;
  upd_task 0 (set_task_id 0) ;;;
  upd_task 0 (set_state TASK_RUNNING) ;;;
  upd_task 0 (set_stack_base 0) ;;;
  upd_task 0 (set_esp 0) ;;;
  upd_task 0 (set_slices 1) ;;;
  upd_task 0 (set_counter 0) ;;;
  upd_task 0 (λ t, set_task_name (set_name (name t) (lit "kernel")) t) ;;;
  modify (upd_sched_st (set_current 0)) ;;;
  modify (upd_sched_st (set_sched_enabled 1)).

(** [*--sp = v] for each of the words in turn. *)
Fixpoint push_words (sp : Z) (vs : list Z) : K Z :=
  match vs with
  | [] => ret sp
  | v :: vs => store32 (sp -u 4) v ;;; push_words (sp -u 4) vs
  end.

(** src/task.c:55-60: what the new stack holds, from the top down. *)
Definition first_frame (task_exit entry : Z) : list Z :=
  [task_exit; entry] ++ replicate 8 0 ++ [0x202].

(** src/task.c:43-47, the search for a free slot. *)
Definition find_slot : K (option Z) :=
  for_find (Z.to_nat (MAX_TASKS - 1)) 1 (λ i,
    s <- task_g i state ;;
    if bool_decide (s = TASK_UNUSED) then ret (Some i) else ret None).

(** src/task.c:42-70. *)
Definition task_create (nm : cstr) (entry : Z) : K Z :=
  r <- find_slot ;;
  match r with
  | None => ret (-1)
  | Some slot =>
      stack <- kmalloc TASK_STACK_SIZE ;;
      if stack =? 0 then ret (-1)
      else
        texit <- on_mach (λ m, sym m "task_exit") ;;
        sp <- push_words (stack +u TASK_STACK_SIZE) (first_frame texit entry) ;;
        upd_task slot (set_esp sp) ;;;
        upd_task slot (set_stack_base stack) ;;;
        upd_task slot (set_task_id slot) ;;;
        upd_task slot (set_state TASK_READY) ;;;
        upd_task slot (set_slices 0) ;;;
        upd_task slot (set_counter 0) ;;;
        upd_task slot (λ t, set_task_name (set_name (name t) nm) t) ;;;
        ret slot
  end.

(** src/task.c:74-82. *)
Definition reap_slot (i : Z) : K () :=
  st <- task_g i state ;;
  cur <- sched_g current ;;
  when (bool_decide (st = TASK_DEAD) && negb (i =? cur)) (
    b <- task_g i stack_base ;;
    when (negb (b =? 0)) (kfree b ;;; ret tt) ;;;
    upd_task i (set_stack_base 0) ;;;
    upd_task i (set_state TASK_UNUSED)).
Definition reap : K () := for_range (Z.to_nat (MAX_TASKS - 1)) 1 reap_slot.

(** src/task.c:84-91, over the table. *)
Definition runnable (t : task_t) : bool :=
  bool_decide (state t = TASK_READY) || bool_decide (state t = TASK_RUNNING).
Fixpoint next_from (n : nat) (step : Z) (s : sched_state) : Z :=
  match n with
  | O => -1
  | S n =>
      let i := Z.rem (s32 (current s + step)) MAX_TASKS in
      if runnable (task_at s i) then i else next_from n (step + 1) s
  end.
Definition pick_next : K Z := sched_g (next_from (Z.to_nat MAX_TASKS) 1).

(** ** switch.asm *)
Definition reg {A} (f : regfile → A) : K A := on_mach (λ m, f (regs m)).
Definition upd_regs (f : regfile → regfile) : K () := upd_machine (λ m, set_regs (f (regs m)) m).

Definition with_esp (v : Z) (r : regfile) : regfile :=
  Regfile (r_eax r) (r_ecx r) (r_edx r) (r_ebx r) v (r_ebp r) (r_esi r) (r_edi r) (r_eflags r) (r_eip r).
Definition with_eax (v : Z) (r : regfile) : regfile :=
  Regfile v (r_ecx r) (r_edx r) (r_ebx r) (r_esp r) (r_ebp r) (r_esi r) (r_edi r) (r_eflags r) (r_eip r).
Definition with_ecx (v : Z) (r : regfile) : regfile :=
  Regfile (r_eax r) v (r_edx r) (r_ebx r) (r_esp r) (r_ebp r) (r_esi r) (r_edi r) (r_eflags r) (r_eip r).
Definition with_edx (v : Z) (r : regfile) : regfile :=
  Regfile (r_eax r) (r_ecx r) v (r_ebx r) (r_esp r) (r_ebp r) (r_esi r) (r_edi r) (r_eflags r) (r_eip r).
Definition with_ebx (v : Z) (r : regfile) : regfile :=
  Regfile (r_eax r) (r_ecx r) (r_edx r) v (r_esp r) (r_ebp r) (r_esi r) (r_edi r) (r_eflags r) (r_eip r).
Definition with_ebp (v : Z) (r : regfile) : regfile :=
  Regfile (r_eax r) (r_ecx r) (r_edx r) (r_ebx r) (r_esp r) v (r_esi r) (r_edi r) (r_eflags r) (r_eip r).
Definition with_esi (v : Z) (r : regfile) : regfile :=
  Regfile (r_eax r) (r_ecx r) (r_edx r) (r_ebx r) (r_esp r) (r_ebp r) v (r_edi r) (r_eflags r) (r_eip r).
Definition with_edi (v : Z) (r : regfile) : regfile :=
  Regfile (r_eax r) (r_ecx r) (r_edx r) (r_ebx r) (r_esp r) (r_ebp r) (r_esi r) v (r_eflags r) (r_eip r).
Definition with_eflags (v : Z) (r : regfile) : regfile :=
  Regfile (r_eax r) (r_ecx r) (r_edx r) (r_ebx r) (r_esp r) (r_ebp r) (r_esi r) (r_edi r) v (r_eip r).
Definition with_eip (v : Z) (r : regfile) : regfile :=
  Regfile (r_eax r) (r_ecx r) (r_edx r) (r_ebx r) (r_esp r) (r_ebp r) (r_esi r) (r_edi r) (r_eflags r) v.

Definition push (v : Z) : K () :=
  sp <- reg r_esp ;; store32 (sp -u 4) v ;;; upd_regs (with_esp (sp -u 4)).
Definition pop : K Z :=
  sp <- reg r_esp ;; v <- load32 sp ;; upd_regs (with_esp (sp +u 4)) ;;; ret v.

(** Intel manual vol. 2: the value of esp pushed is the one before PUSHA; POPA
    discards it. *)
Definition pusha : K () :=
  r <- reg (λ r, r) ;;
  push (r_eax r) ;;; push (r_ecx r) ;;; push (r_edx r) ;;; push (r_ebx r) ;;;
  push (r_esp r) ;;; push (r_ebp r) ;;; push (r_esi r) ;;; push (r_edi r).
Definition popa : K () :=
  v <- pop ;; upd_regs (with_edi v) ;;;
  v <- pop ;; upd_regs (with_esi v) ;;;
  v <- pop ;; upd_regs (with_ebp v) ;;;
  _ <- pop ;;
  v <- pop ;; upd_regs (with_ebx v) ;;;
  v <- pop ;; upd_regs (with_edx v) ;;;
  v <- pop ;; upd_regs (with_ecx v) ;;;
  v <- pop ;; upd_regs (with_eax v).

(** [&tasks[i].esp]; the field comes first in the structure. *)
Definition esp_addr (m : machine) (i : Z) : Z := sym m "tasks" +u sizeof_task * i.
(** A store to [&tasks[i].esp]. *)
Definition store_task_esp (addr v : Z) : K () :=
  base <- on_mach (λ m, sym m "tasks") ;; upd_task ((addr -u base) / sizeof_task) (set_esp v).

(** src/switch.asm:10-24. *)
Definition context_switch : K () :=
  pusha ;;;
  fl <- reg r_eflags ;; push fl ;;;
  sp <- reg r_esp ;;
  a <- load32 (sp +u 40) ;; upd_regs (with_eax a) ;;;
  c <- load32 (sp +u 44) ;; upd_regs (with_ecx c) ;;;
  store_task_esp a sp ;;;
  upd_regs (with_esp c) ;;;
  fl <- pop ;; upd_regs (with_eflags fl) ;;;
  popa ;;;
  ip <- pop ;; upd_regs (with_eip ip).

(** The call from C: the arguments and the return address are pushed. *)
Definition call_context_switch (save new : Z) : K () :=
  push new ;;;
  push save ;;;
  ip <- reg r_eip ;; push ip ;;;
  context_switch.

(** ** Switching *)

(** src/task.c:95-109. *)
Definition switch_to (next : Z) : K () :=
  cur <- sched_g current ;;
  if (next <? 0) || (next =? cur) then ret tt
  else
    st <- task_g cur state ;;
    when (bool_decide (st = TASK_RUNNING)) (upd_task cur (set_state TASK_READY)) ;;;
    modify (upd_sched_st (set_current next)) ;;;
    upd_task next (set_state TASK_RUNNING) ;;;
    upd_task next (λ t, set_slices (slices t +u 1) t) ;;;
    modify (upd_sched_st (λ s, set_switches (switches s +u 1) s)) ;;;
    modify (upd_sched_st (set_quantum_left TASK_QUANTUM)) ;;;
    save <- on_mach (λ m, esp_addr m cur) ;;
    new <- task_g next esp ;;
    call_context_switch save new.

(** src/task.c:111-118. *)
Definition scheduler_tick : K () :=
  en <- sched_g sched_enabled ;;
  if en =? 0 then ret tt
  else
    reap ;;;
    q <- sched_g quantum_left ;;
    if 1 <? q then modify (upd_sched_st (set_quantum_left (q -u 1)))
    else n <- pick_next ;; switch_to n.

(** src/task.c:120-123. *)
Definition task_yield : K () :=
  en <- sched_g sched_enabled ;;
  if en =? 0 then ret tt else n <- pick_next ;; switch_to n.

(** [sti] sets the interrupt flag. *)
Definition sti : K () := upd_regs (λ r, with_eflags (Z.lor (r_eflags r) 0x200) r).

(** src/task.c:125-132; what follows is an idle loop until the task is switched
    away for good. *)
Definition task_exit : K () :=
  cur <- sched_g current ;; upd_task cur (set_state TASK_DEAD) ;;; sti.

(** src/task.c:134-140. *)
Definition task_kill (id : Z) : K Z :=
  if (id =? 0) || (MAX_TASKS <=? id) then ret 0
  else
    st <- task_g id state ;;
    if bool_decide (st = TASK_UNUSED) then ret 0
    else upd_task id (set_state TASK_DEAD) ;;; ret 1.

(** src/task.c:144-148, one turn of the loop of [counter_task]. *)
Definition counter_step (me : Z) : K () := upd_task me (λ t, set_counter (counter t +u 1) t).

(** src/task.c:144-148, as many turns as the task gets. *)
Definition counter_task (turns : nat) : K () :=
  me <- sched_g current ;; for_range turns 0 (λ _, counter_step me).

(** src/task.c:150-152. *)
Definition task_spawn_counter (nm : cstr) : K Z :=
  e <- on_mach (λ m, sym m "counter_task") ;; task_create nm e.

(** src/task.c:154-155. *)
Definition scheduler_enable (on : Z) : K () := modify (upd_sched_st (set_sched_enabled on)).
Definition scheduler_is_enabled : K Z := sched_g sched_enabled.

(** src/task.c:157; the entry pointed at, [None] for the null pointer. *)
Definition task_get (index : Z) : K (option task_t) :=
  if (0 <=? index) && (index <? MAX_TASKS) then t <- task_g index (λ t, t) ;; ret (Some t)
  else ret None.
(** src/task.c:158-159. *)
Definition task_current_id : K Z := sched_g (λ s, task_id (task_at s (current s))).
Definition task_switches : K Z := sched_g switches.

(** src/task.c:161-166, over the table. *)
Definition task_count : K Z :=
  sched_g (λ s, s32 (Z.of_nat (length (filter (λ i, state (task_at s i) ≠ TASK_UNUSED) (seqZ 0 MAX_TASKS))))).
