(* ===== verification/TaskProof.v ===== *)
(** * The scheduler is round robin

    The choice of the next task, the invariant of the task table in every
    outcome of every operation, the stack of a new task, the effect of
    [context_switch] on registers and memory, and the bound on how long a
    ready task waits. *)
From stdpp Require Import prelude gmap list strings.
From Stdlib Require Import Lia ZArith.
From S2P Require Import Prelude Machine State Util Console Memory Pmm Paging Heap HeapSpec.
From S2P Require Import HeapProof HeapMap Frames Alloc Task.

#[local] Open Scope Z_scope.

(** ** The task table *)
Lemma task_at_alter s i j f :
  0 ≤ i < Z.of_nat (length (tasks s)) → 0 ≤ j →
  task_at (set_tasks (alter f (Z.to_nat i) (tasks s)) s) j =
    if decide (j = i) then f (task_at s i) else task_at s j.
Proof.
  intros Hi Hj. unfold task_at. cbn [tasks set_tasks]. case_decide as Hd.
  - subst. destruct (tasks s !! Z.to_nat i) as [t|] eqn:Ht.
    + by rewrite list_lookup_alter_eq, Ht.
    + apply lookup_ge_None in Ht. lia.
  - rewrite list_lookup_alter_ne; [done|lia].
Qed.

(** ** Round robin *)

(** How many slots after [cur] slot [i] comes, going round: 1 to 8. *)
Definition distance (cur i : Z) : Z := (i - cur - 1) mod MAX_TASKS + 1.

Definition after (cur d : Z) : Z := (cur + d) mod MAX_TASKS.

Lemma after_distance cur i : 0 ≤ cur < MAX_TASKS → 0 ≤ i < MAX_TASKS → after cur (distance cur i) = i.
Proof. unfold after, distance, MAX_TASKS. intros. zlia. Qed.

Lemma distance_after cur d : 0 ≤ cur < MAX_TASKS → 1 ≤ d ≤ MAX_TASKS → distance cur (after cur d) = d.
Proof. unfold after, distance, MAX_TASKS. intros. zlia. Qed.

Lemma next_from_spec s n d :
  0 ≤ current s < MAX_TASKS → 1 ≤ d → d + Z.of_nat n = MAX_TASKS + 1 →
  (∀ e, 1 ≤ e < d → runnable (task_at s (after (current s) e)) = false) →
  (∃ e, d ≤ e ≤ MAX_TASKS ∧ next_from n d s = after (current s) e ∧
     runnable (task_at s (after (current s) e)) = true ∧
     ∀ e', 1 ≤ e' < e → runnable (task_at s (after (current s) e')) = false) ∨
  (next_from n d s = -1 ∧
     ∀ e, 1 ≤ e ≤ MAX_TASKS → runnable (task_at s (after (current s) e)) = false).
Proof.
  intros Hc. revert d. induction n as [|n IH]; intros d Hd Hn Hbefore; cbn [next_from].
  - right. split; [done|]. intros e He. apply Hbefore. lia.
  - replace (Z.rem (s32 (current s + d)) MAX_TASKS) with (after (current s) d)
      by (unfold after, MAX_TASKS in *; rewrite s32_small by lia; rewrite Z.rem_mod_nonneg; lia).
    destruct (runnable _) eqn:Hr.
    + left. exists d. split_and!; [lia|lia|done|done|done].
    + destruct (IH (d + 1)) as [(e & He & Hx)|Hx]; [lia|lia| | |by right].
      * intros e He. destruct (decide (e = d)) as [->|]; [done|]. apply Hbefore. lia.
      * left. exists e. split; [lia|done].
Qed.

Lemma pick_next_rep s : 0 ≤ current s < MAX_TASKS →
  let i := next_from (Z.to_nat MAX_TASKS) 1 s in
  (0 ≤ i < MAX_TASKS ∧ runnable (task_at s i) = true ∧
   ∀ j, 0 ≤ j < MAX_TASKS → distance (current s) j < distance (current s) i →
     runnable (task_at s j) = false) ∨
  (i = -1 ∧ ∀ j, 0 ≤ j < MAX_TASKS → runnable (task_at s j) = false).
Proof.
  intros Hc i. destruct (next_from_spec s (Z.to_nat MAX_TASKS) 1 Hc) as [(e & He & Hi & Hr & Hb)|[Hi Hb]];
    [done|done|lia| |].
  - left. fold i in Hi. rewrite Hi. split_and!; [unfold after, MAX_TASKS; zlia..|done|].
    intros j Hj Hd. rewrite distance_after in Hd by lia.
    rewrite <- (after_distance (current s) j) by done. apply Hb. unfold distance in *. zlia.
  - right. split; [done|]. intros j Hj. rewrite <- (after_distance (current s) j) by done.
    apply Hb. unfold distance, MAX_TASKS. zlia.
Qed.

(** ** The table while the scheduler runs *)
Record sched_wf (s : sched_state) : Prop := {
  sw_len : length (tasks s) = 8%nat;
  sw_cur : 0 ≤ current s < MAX_TASKS;
  sw_running i : 0 ≤ i < MAX_TASKS → state (task_at s i) = TASK_RUNNING → i = current s;
  sw_now : state (task_at s (current s)) = TASK_RUNNING ∨ state (task_at s (current s)) = TASK_DEAD;
  sw_zero : runnable (task_at s 0) = true;
  sw_id i : 0 ≤ i < MAX_TASKS → state (task_at s i) ≠ TASK_UNUSED → task_id (task_at s i) = i;
  sw_quantum : 1 ≤ quantum_left s ≤ TASK_QUANTUM
}.

(** Everything but the saved stack pointers, which only [context_switch]
    writes. *)
Definition strip (s : sched_state) : sched_state := set_tasks (set_esp 0 <$> tasks s) s.

Lemma task_at_strip s i : task_at (strip s) i = set_esp 0 (task_at s i).
Proof. unfold task_at, strip. cbn. rewrite list_lookup_fmap. by destruct (tasks s !! _). Qed.

Lemma runnable_strip s i : runnable (task_at (strip s) i) = runnable (task_at s i).
Proof. by rewrite task_at_strip. Qed.

Lemma sched_wf_strip s : sched_wf (strip s) ↔ sched_wf s.
Proof.
  split; intros [Hl Hc Hr Hn Hz Hi Hq].
  - split; try done.
    + unfold strip in Hl. cbn in Hl. by rewrite length_fmap in Hl.
    + intros i Hi' Hs. apply Hr; [done|]. by rewrite task_at_strip.
    + change (current (strip s)) with (current s) in Hn. by rewrite task_at_strip in Hn.
    + by rewrite runnable_strip in Hz.
    + intros i Hi' Hs. specialize (Hi i Hi'). rewrite task_at_strip in Hi. by apply Hi.
  - split; try done.
    + unfold strip. cbn. by rewrite length_fmap.
    + intros i Hi'. rewrite task_at_strip. by apply Hr.
    + change (current (strip s)) with (current s). by rewrite task_at_strip.
    + by rewrite runnable_strip.
    + intros i Hi'. rewrite task_at_strip. by apply Hi.
Qed.

Lemma sched_wf_same s s' : strip s = strip s' → sched_wf s → sched_wf s'.
Proof. intros He Hw%sched_wf_strip. rewrite He in Hw. by apply sched_wf_strip. Qed.

(** Changing one entry of the table. *)
Definition put (i : Z) (f : task_t → task_t) (s : sched_state) : sched_state :=
  set_tasks (alter f (Z.to_nat i) (tasks s)) s.

Lemma task_at_put s i j f : sched_wf s → 0 ≤ i < MAX_TASKS → 0 ≤ j →
  task_at (put i f s) j = if decide (j = i) then f (task_at s i) else task_at s j.
Proof.
  intros Hw Hi Hj. apply task_at_alter; [|done]. rewrite (sw_len s Hw). unfold MAX_TASKS in *. lia.
Qed.

Lemma sched_wf_put s i f :
  sched_wf s → 0 ≤ i < MAX_TASKS → let t := f (task_at s i) in
  (state t = TASK_RUNNING → i = current s) → (i = 0 → runnable t = true) →
  (state t ≠ TASK_UNUSED → task_id t = i) →
  (i = current s → state t = TASK_RUNNING ∨ state t = TASK_DEAD) → sched_wf (put i f s).
Proof.
  intros Hw Hi t H1 H2 H3 H4. pose proof (sw_cur s Hw) as Hc. unfold MAX_TASKS in *.
  split.
  - cbn. rewrite length_alter. apply (sw_len s Hw).
  - done.
  - intros j Hj. rewrite task_at_put by (done || (unfold MAX_TASKS; lia)). cbn [current put set_tasks].
    case_decide; [by subst|]. by apply (sw_running s Hw).
  - cbn [current put set_tasks]. rewrite task_at_put by (done || (unfold MAX_TASKS; lia)).
    case_decide; [by apply H4|]. apply (sw_now s Hw).
  - rewrite task_at_put by (done || (unfold MAX_TASKS; lia)). case_decide; [by apply H2|]. apply (sw_zero s Hw).
  - intros j Hj. rewrite task_at_put by (done || (unfold MAX_TASKS; lia)).
    case_decide; [by subst|]. by apply (sw_id s Hw).
  - apply (sw_quantum s Hw).
Qed.

(** ** The scheduler as a function on the table *)

(** What [reap] does to a slot. *)
Definition reap_slot_spec (i : Z) (s : sched_state) : sched_state :=
  if bool_decide (state (task_at s i) = TASK_DEAD) && negb (i =? current s)
  then put i (λ t, set_state TASK_UNUSED (set_stack_base 0 t)) s else s.
Definition reap_spec (s : sched_state) : sched_state := foldl (λ s i, reap_slot_spec i s) s (seqZ 1 7).

(** What [switch_to] does, the saved stack pointer apart. *)
Definition switch_spec (next : Z) (s : sched_state) : sched_state :=
  if (next <? 0) || (next =? current s) then s
  else
    let s := if bool_decide (state (task_at s (current s)) = TASK_RUNNING)
             then put (current s) (set_state TASK_READY) s else s in
    let s := put next (λ t, set_slices (slices t +u 1) (set_state TASK_RUNNING t)) s in
    {| tasks := tasks s; current := next; sched_enabled := sched_enabled s;
       switches := switches s +u 1; quantum_left := TASK_QUANTUM |}.

(** What [scheduler_tick] does. *)
Definition next_task (s : sched_state) : Z := next_from (Z.to_nat MAX_TASKS) 1 s.
Definition preempt_spec (s : sched_state) : sched_state :=
  if 1 <? quantum_left s then set_quantum_left (quantum_left s - 1) s
  else switch_spec (next_task s) s.
Definition tick_spec (s : sched_state) : sched_state :=
  if sched_enabled s =? 0 then s else preempt_spec (reap_spec s).

(** *** The functions do not look at the saved stack pointers *)
Lemma put_strip i f s :
  (∀ t, f (set_esp 0 t) = set_esp 0 (f t)) → strip (put i f s) = put i f (strip s).
Proof.
  intros Hf. unfold put, strip, set_tasks. cbn. f_equal. apply list_eq. intros j. rewrite list_lookup_fmap.
  destruct (decide (j = Z.to_nat i)) as [->|Hj].
  - rewrite !list_lookup_alter_eq, list_lookup_fmap. destruct (tasks s !! _); [|done]. cbn. by rewrite Hf.
  - rewrite !list_lookup_alter_ne, list_lookup_fmap by done. done.
Qed.

Lemma reap_slot_strip i s : reap_slot_spec i (strip s) = strip (reap_slot_spec i s).
Proof.
  unfold reap_slot_spec. rewrite task_at_strip. change (current (strip s)) with (current s).
  cbn [state set_esp]. case_match; [|done]. by rewrite put_strip.
Qed.

Lemma reap_strip s : reap_spec (strip s) = strip (reap_spec s).
Proof.
  unfold reap_spec. generalize (seqZ 1 7). intros l. revert s.
  induction l as [|i l IH]; intros s; [done|]. cbn [foldl]. by rewrite reap_slot_strip, IH.
Qed.

Lemma next_from_strip n d s : next_from n d (strip s) = next_from n d s.
Proof.
  revert d. induction n as [|n IH]; intros d; [done|]. cbn [next_from].
  change (current (strip s)) with (current s). by rewrite runnable_strip, IH.
Qed.

Lemma switch_strip n s : switch_spec n (strip s) = strip (switch_spec n s).
Proof.
  unfold switch_spec. change (current (strip s)) with (current s).
  case_match; [done|]. rewrite task_at_strip. cbn [state set_esp].
  case_match; rewrite <- !put_strip by done; done.
Qed.

Lemma preempt_strip s : preempt_spec (strip s) = strip (preempt_spec s).
Proof.
  unfold preempt_spec. change (quantum_left (strip s)) with (quantum_left s).
  destruct (1 <? quantum_left s); [reflexivity|].
  unfold next_task. by rewrite next_from_strip, switch_strip.
Qed.

Lemma tick_strip s : tick_spec (strip s) = strip (tick_spec s).
Proof.
  unfold tick_spec. rewrite reap_strip, preempt_strip.
  assert (sched_enabled (strip s) = sched_enabled s) as -> by reflexivity.
  by destruct (sched_enabled s =? 0).
Qed.

Lemma tick_same s s' : strip s = strip s' → strip (tick_spec s) = strip (tick_spec s').
Proof. intros He. by rewrite <- !tick_strip, He. Qed.

(** *** They keep the table well formed *)
Lemma reap_slot_wf i s : 1 ≤ i < MAX_TASKS → sched_wf s → sched_wf (reap_slot_spec i s).
Proof.
  intros Hi Hw. unfold reap_slot_spec. case_match eqn:Hc; [|done].
  apply andb_true_iff in Hc as [Hd%bool_decide_eq_true Hne%negb_true_iff%Z.eqb_neq].
  apply sched_wf_put; [done|lia|done|lia|done|done].
Qed.

Lemma reap_foldl_wf l s :
  Forall (λ i, 1 ≤ i < MAX_TASKS) l → sched_wf s → sched_wf (foldl (λ s i, reap_slot_spec i s) s l).
Proof. intros Hl. revert s. induction Hl; intros s Hw; [done|]. cbn. by apply IHHl, reap_slot_wf. Qed.

Lemma reap_wf s : sched_wf s → sched_wf (reap_spec s).
Proof. apply reap_foldl_wf. apply Forall_forall. intros i Hi%elem_of_seqZ. unfold MAX_TASKS. lia. Qed.

(** A task that can run is left alone by [reap]. *)
Lemma reap_slot_runnable i j s : sched_wf s → 1 ≤ i < MAX_TASKS → 0 ≤ j →
  runnable (task_at s j) = true → task_at (reap_slot_spec i s) j = task_at s j.
Proof.
  intros Hw Hi Hj Hr. unfold reap_slot_spec. case_match eqn:Hc; [|done].
  apply andb_true_iff in Hc as [Hd%bool_decide_eq_true _].
  rewrite task_at_put by (done || lia). case_decide; [|done]. subst.
  unfold runnable in Hr. by rewrite Hd in Hr.
Qed.

Lemma reap_foldl_runnable l j s : Forall (λ i, 1 ≤ i < MAX_TASKS) l → sched_wf s → 0 ≤ j →
  runnable (task_at s j) = true → task_at (foldl (λ s i, reap_slot_spec i s) s l) j = task_at s j.
Proof.
  intros Hl. revert s. induction Hl as [|i l Hi Hl IH]; intros s Hw Hj Hr; [done|]. cbn [foldl].
  pose proof (reap_slot_runnable i j s Hw Hi Hj Hr) as He.
  rewrite IH; [done|by apply reap_slot_wf|done|by rewrite He].
Qed.

Lemma reap_statics s : current (reap_spec s) = current s ∧ quantum_left (reap_spec s) = quantum_left s ∧
  sched_enabled (reap_spec s) = sched_enabled s.
Proof.
  unfold reap_spec. generalize (seqZ 1 7). intros l. revert s.
  induction l as [|i l IH]; intros s; [done|]. cbn [foldl].
  destruct (IH (reap_slot_spec i s)) as (-> & -> & ->). unfold reap_slot_spec. by case_match.
Qed.

(** [reap] leaves a slot as it is or frees it; never the current one. *)
Lemma reap_slot_cases s j : sched_wf s → 0 ≤ j →
  task_at (reap_spec s) j = task_at s j ∨ (state (task_at (reap_spec s) j) = TASK_UNUSED ∧ j ≠ current s).
Proof.
  intros Hw Hj. unfold reap_spec.
  assert (∀ l s', Forall (λ i, 1 ≤ i < MAX_TASKS) l → sched_wf s' → current s' = current s →
    task_at s' j = task_at s j ∨ (state (task_at s' j) = TASK_UNUSED ∧ j ≠ current s) →
    let s'' := foldl (λ s i, reap_slot_spec i s) s' l in
    task_at s'' j = task_at s j ∨ (state (task_at s'' j) = TASK_UNUSED ∧ j ≠ current s)) as H.
  { intros l s' Hl. revert s'. induction Hl as [|i l Hi Hl IH]; intros s' Hw' Hc Hs; [done|].
    apply IH; [by apply reap_slot_wf|unfold reap_slot_spec; by case_match|].
    unfold reap_slot_spec. case_match eqn:Hb; [|done].
    apply andb_true_iff in Hb as [_ Hne%negb_true_iff%Z.eqb_neq].
    rewrite task_at_put by (done || lia). case_decide; [|done]. right. split; [done|congruence]. }
  apply H; [|done|done|by left]. apply Forall_forall. intros i Hi%elem_of_seqZ. unfold MAX_TASKS. lia.
Qed.

Lemma reap_runnable s j : sched_wf s → 0 ≤ j → runnable (task_at s j) = true →
  task_at (reap_spec s) j = task_at s j.
Proof.
  apply reap_foldl_runnable. apply Forall_forall. intros i Hi%elem_of_seqZ. unfold MAX_TASKS. lia.
Qed.

Lemma runnable_cases t : runnable t = true ↔ state t = TASK_READY ∨ state t = TASK_RUNNING.
Proof. unfold runnable. by rewrite orb_true_iff, !bool_decide_eq_true. Qed.

Lemma task_at_tasks s s' j : tasks s = tasks s' → task_at s j = task_at s' j.
Proof. unfold task_at. by intros ->. Qed.

(** What the table looks like after a switch. *)
Lemma switch_task_at s n j : sched_wf s → 0 ≤ n < MAX_TASKS → n ≠ current s → 0 ≤ j →
  task_at (switch_spec n s) j =
    if decide (j = n) then set_slices (slices (task_at s n) +u 1) (set_state TASK_RUNNING (task_at s n))
    else if decide (j = current s ∧ state (task_at s j) = TASK_RUNNING)
    then set_state TASK_READY (task_at s j) else task_at s j.
Proof.
  intros Hw Hn Hne Hj. unfold switch_spec. pose proof (sw_cur s Hw) as Hc.
  rewrite (proj2 (Z.ltb_ge n 0)), (proj2 (Z.eqb_neq n (current s))) by lia. cbn [orb].
  pose proof (sw_len s Hw) as Hlen.
  assert (∀ (s : sched_state) i f, length (tasks s) = 8%nat → 0 ≤ i < MAX_TASKS →
    task_at (put i f s) j = if decide (j = i) then f (task_at s i) else task_at s j) as Hput.
  { intros s' i f Hl Hi. apply task_at_alter; [unfold MAX_TASKS in *; lia|done]. }
  set (s1 := if bool_decide _ then _ else s).
  transitivity (task_at (put n (λ t, set_slices (slices t +u 1) (set_state TASK_RUNNING t)) s1) j);
    [by apply task_at_tasks|]. unfold s1. clear s1.
  destruct (bool_decide _) eqn:Hst; [apply bool_decide_eq_true in Hst|apply bool_decide_eq_false in Hst].
  - rewrite Hput by (try done; unfold put; cbn; by rewrite length_alter).
    rewrite !Hput by done.
    assert (task_at (put (current s) (set_state TASK_READY) s) n = task_at s n) as ->.
    { unfold put. rewrite task_at_alter by (unfold MAX_TASKS in *; lia). by rewrite decide_False. }
    case_decide; [done|]. destruct (decide (j = current s)) as [->|].
    + by rewrite decide_True.
    + rewrite decide_False by naive_solver. done.
  - rewrite Hput by done. case_decide; [done|]. rewrite decide_False by naive_solver. done.
Qed.

Lemma switch_statics s n : 0 ≤ n → n ≠ current s →
  current (switch_spec n s) = n ∧ quantum_left (switch_spec n s) = TASK_QUANTUM ∧
  sched_enabled (switch_spec n s) = sched_enabled s.
Proof.
  intros Hn Hne. unfold switch_spec.
  rewrite (proj2 (Z.ltb_ge n 0)), (proj2 (Z.eqb_neq n (current s))) by lia. cbn. by case_match.
Qed.

Lemma switch_length s n : length (tasks (switch_spec n s)) = length (tasks s).
Proof.
  unfold switch_spec. case_match; [done|]. cbn. case_match; cbn; by rewrite ?length_alter.
Qed.

(** Switching to a task that can run. *)
Lemma switch_wf s n : sched_wf s → n = -1 ∨ (0 ≤ n < MAX_TASKS ∧ runnable (task_at s n) = true) →
  sched_wf (switch_spec n s).
Proof.
  intros Hw [->|[Hn Hr]]; [done|].
  destruct (decide (n = current s)) as [->|Hne].
  { unfold switch_spec. by rewrite Z.eqb_refl, orb_true_r. }
  destruct (switch_statics s n ltac:(lia) Hne) as (Hc & Hq & _).
  pose proof (sw_cur s Hw). apply runnable_cases in Hr.
  split; rewrite ?Hc, ?Hq; try done.
  - rewrite switch_length. apply (sw_len s Hw).
  - intros i Hi. rewrite switch_task_at by (done || lia).
    case_decide; [done|]. case_decide as Hcur; [done|]. intros Hs. exfalso. apply Hcur.
    split; [|done]. by apply (sw_running s Hw).
  - rewrite switch_task_at, decide_True by (done || lia). by left.
  - rewrite switch_task_at by (done || lia). case_decide; [done|].
    case_decide; [done|]. apply (sw_zero s Hw).
  - intros i Hi. rewrite switch_task_at by (done || lia).
    case_decide as Hin; [subst; intros _|case_decide as Hcur].
    + apply (sw_id s Hw); [done|]. by destruct Hr as [->| ->].
    + intros _. apply (sw_id s Hw); [done|]. destruct Hcur as [_ ->]. done.
    + by apply (sw_id s Hw).
Qed.

Lemma next_task_cases s : sched_wf s →
  next_task s = -1 ∨ (0 ≤ next_task s < MAX_TASKS ∧ runnable (task_at s (next_task s)) = true).
Proof. intros Hw. destruct (pick_next_rep s (sw_cur s Hw)) as [(? & ? & _)|[? _]]; auto. Qed.

Lemma set_quantum_wf s q : sched_wf s → 1 ≤ q ≤ TASK_QUANTUM → sched_wf (set_quantum_left q s).
Proof. intros [] ?. by split. Qed.

Lemma set_enabled_wf s v : sched_wf s → sched_wf (set_sched_enabled v s).
Proof. intros []. by split. Qed.

Lemma preempt_wf s : sched_wf s → sched_wf (preempt_spec s).
Proof.
  intros Hw. unfold preempt_spec. destruct (Z.ltb_spec 1 (quantum_left s)).
  - pose proof (sw_quantum _ Hw). apply set_quantum_wf; [done|lia].
  - apply switch_wf; [done|]. by apply next_task_cases.
Qed.

Lemma tick_wf s : sched_wf s → sched_wf (tick_spec s).
Proof.
  intros Hw. unfold tick_spec. destruct (sched_enabled s =? 0); [done|]. by apply preempt_wf, reap_wf.
Qed.

(** ** Nobody waits for long *)

(** The ticks a task that can run still waits at most. *)
Definition wait_bound (s : sched_state) (i : Z) : Z :=
  TASK_QUANTUM * (distance (current s) i - 1) + quantum_left s.

Lemma preempt_runnable s i : sched_wf s → 0 ≤ i < MAX_TASKS → runnable (task_at s i) = true →
  runnable (task_at (preempt_spec s) i) = true.
Proof.
  intros Hw Hi Hr. unfold preempt_spec. destruct (1 <? quantum_left s); [done|].
  destruct (next_task_cases _ Hw) as [Hn|[Hb _]]; [by rewrite Hn|].
  generalize dependent (next_task s). intros n Hn.
  destruct (decide (n = current s)) as [->|Hne].
  - unfold switch_spec. by rewrite Z.eqb_refl, orb_true_r.
  - rewrite switch_task_at; [|done..|lia]. case_decide; [done|]. by case_decide.
Qed.

Lemma tick_runnable s i : sched_wf s → 0 ≤ i < MAX_TASKS → runnable (task_at s i) = true →
  runnable (task_at (tick_spec s) i) = true.
Proof.
  intros Hw Hi Hr. unfold tick_spec. destruct (sched_enabled s =? 0); [done|].
  apply preempt_runnable; [by apply reap_wf|done|]. by rewrite reap_runnable by (done || lia).
Qed.

(** A tick brings the task closer, unless it has the processor already. *)
Lemma preempt_progress s i : sched_wf s → 0 ≤ i < MAX_TASKS →
  runnable (task_at s i) = true → i ≠ current s →
  current (preempt_spec s) = i ∨ wait_bound (preempt_spec s) i < wait_bound s i.
Proof.
  intros Hw Hi Hr Hne. unfold preempt_spec. pose proof (sw_cur s Hw) as Hcur.
  destruct (1 <? quantum_left s); [right; unfold wait_bound; cbn; lia|].
  destruct (pick_next_rep _ Hcur) as [(Hn & Hrn & Hmin)|[_ Hnone]]; fold (next_task s) in *.
  2:{ by rewrite Hnone in Hr. }
  generalize dependent (next_task s). intros n Hn Hrn Hmin.
  assert (distance (current s) n ≤ distance (current s) i) as Hle.
  { apply Z.nlt_ge. intros Hlt. specialize (Hmin i Hi Hlt). congruence. }
  assert (n ≠ current s) as Hnc.
  { intros ->. unfold distance, MAX_TASKS in *. zlia. }
  destruct (switch_statics s n ltac:(lia) Hnc) as (Hc' & Hq' & _).
  destruct (decide (n = i)) as [<-|Hni]; [by left|right].
  unfold wait_bound. rewrite Hc', Hq'. pose proof (sw_quantum s Hw).
  unfold distance, TASK_QUANTUM, MAX_TASKS in *. zlia.
Qed.

Lemma tick_progress s i : sched_wf s → sched_enabled s ≠ 0 → 0 ≤ i < MAX_TASKS →
  runnable (task_at s i) = true → i ≠ current s →
  current (tick_spec s) = i ∨ wait_bound (tick_spec s) i < wait_bound s i.
Proof.
  intros Hw Hen Hi Hr Hne. unfold tick_spec. rewrite (proj2 (Z.eqb_neq _ 0)) by done.
  destruct (reap_statics s) as (Hc & Hq & _).
  assert (wait_bound s i = wait_bound (reap_spec s) i) as -> by (unfold wait_bound; by rewrite Hc, Hq).
  apply preempt_progress; [by apply reap_wf|done| |by rewrite Hc].
  by rewrite reap_runnable by (done || lia).
Qed.

Lemma preempt_enabled s : sched_enabled (preempt_spec s) = sched_enabled s.
Proof.
  unfold preempt_spec. destruct (1 <? quantum_left s); [done|]. generalize (next_task s). intros n.
  unfold switch_spec. destruct (_ || _); [done|]. cbn. by destruct (bool_decide _).
Qed.

Lemma tick_enabled s : sched_enabled (tick_spec s) = sched_enabled s.
Proof.
  unfold tick_spec. destruct (sched_enabled s =? 0); [done|]. rewrite preempt_enabled.
  by destruct (reap_statics s) as (_ & _ & He).
Qed.

Lemma fair_within n s i : sched_wf s → sched_enabled s ≠ 0 → 0 ≤ i < MAX_TASKS →
  runnable (task_at s i) = true → i = current s ∨ wait_bound s i ≤ Z.of_nat n →
  ∃ m, (m ≤ n)%nat ∧ current (Nat.iter m tick_spec s) = i.
Proof.
  revert s. induction n as [|n IH]; intros s Hw Hen Hi Hr [->|Hb].
  1,3: by exists O; split; [lia|].
  - exfalso. unfold wait_bound in Hb. pose proof (sw_quantum s Hw). pose proof (sw_cur s Hw).
    unfold distance, TASK_QUANTUM, MAX_TASKS in *. zlia.
  - destruct (decide (i = current s)) as [->|Hne]; [by exists O; split; [lia|]|].
    destruct (IH (tick_spec s)) as (m & Hm & Hc).
    + by apply tick_wf.
    + by rewrite tick_enabled.
    + done.
    + by apply tick_runnable.
    + destruct (tick_progress s i) as [?|?]; try done; [by left|right; lia].
    + exists (S m). split; [lia|]. by rewrite Nat.iter_succ_r.
Qed.

(** ** The code of the scheduler performs these functions *)

(** What [context_switch] leaves alone. *)
Record switch_frame (k k' : kernel) : Prop := {
  wf_sched : strip (sched_st k') = strip (sched_st k);
  wf_mem : mem_st k' = mem_st k;
  wf_pmm : pmm_st k' = pmm_st k;
  wf_paging : paging_st k' = paging_st k;
  wf_heap : heap_st k' = heap_st k;
  wf_idt : idt_st k' = idt_st k;
  wf_shell : shell_st k' = shell_st k;
  wf_ticks : ticks k' = ticks k;
  wf_cr : cr0_pg (mach k') = cr0_pg (mach k) ∧ cr3 (mach k') = cr3 (mach k) ∧ sym (mach k') = sym (mach k)
}.
#[export] Instance switch_frame_preorder : PreOrder switch_frame.
Proof.
  split.
  - intros k. by split.
  - intros k1 k2 k3 [] []. split; try congruence. naive_solver congruence.
Qed.

#[export] Instance load_switch n va : Preserves switch_frame (load n va).
Proof. intros k. unfold load. by destruct (m_load n va (mach k)). Qed.
#[export] Instance store_switch n va v : Preserves switch_frame (store n va v).
Proof. intros k. unfold store, m_store. by destruct (mmu_list (mach k) n va). Qed.
#[export] Instance upd_regs_switch f : Preserves switch_frame (upd_regs f).
Proof. by intros k. Qed.

Lemma strip_esp s i v : strip (put i (set_esp v) s) = strip s.
Proof.
  unfold put, strip, set_tasks. cbn. f_equal. apply list_eq. intros j. rewrite !list_lookup_fmap.
  destruct (decide (j = Z.to_nat i)) as [->|Hj].
  - rewrite list_lookup_alter_eq. by destruct (tasks s !! _).
  - by rewrite list_lookup_alter_ne.
Qed.

#[export] Instance esp_switch i v : Preserves switch_frame (upd_task i (set_esp v)).
Proof. intros k. split; try done. apply strip_esp. Qed.

#[export] Instance call_context_switch_switch save new : Preserves switch_frame (call_context_switch save new).
Proof.
  unfold call_context_switch, context_switch, popa, pusha, push, pop, reg, store_task_esp, load32, store32, on_mach.
  apply _.
Qed.

Definition keeps_wf (k : kernel) : Prop := sched_wf (sched_st k).

Lemma task_g_always {A} i (f : task_t → A) (Q : A → kernel → Prop) E k :
  Q (f (task_at (sched_st k) i)) k → always (task_g i f) Q E k.
Proof. done. Qed.

Lemma alter_alter {A} (f g : A → A) i (l : list A) :
  alter f i (alter g i l) = alter (λ t, f (g t)) i l.
Proof. revert i. induction l as [|x l IH]; intros [|i]; cbn; [done..|]. f_equal. apply IH. Qed.

(** [switch_to], whatever the memory of the stacks does. *)
Lemma switch_to_always n k :
  sched_wf (sched_st k) → n = -1 ∨ (0 ≤ n < MAX_TASKS ∧ runnable (task_at (sched_st k) n) = true) →
  always (switch_to n)
    (λ _ k', strip (sched_st k') = strip (switch_spec n (sched_st k)))
    keeps_wf k.
Proof.
  intros Hw Hn. pose proof (switch_wf _ _ Hw Hn) as Hw'.
  unfold switch_to, sched_g. apply always_bind, always_gets.
  destruct ((n <? 0) || (n =? current (sched_st k))) eqn:Hc.
  { apply always_ret. unfold switch_spec. by rewrite Hc. }
  apply always_bind, task_g_always, always_bind.
  set (k1 := if bool_decide (state (task_at (sched_st k) (current (sched_st k))) = TASK_RUNNING)
    then upd_sched_st (put (current (sched_st k)) (set_state TASK_READY)) k else k).
  assert (∀ (Q : () → kernel → Prop) E, Q tt k1 → always (when (bool_decide (state (task_at (sched_st k)
    (current (sched_st k))) = TASK_RUNNING)) (upd_task (current (sched_st k)) (set_state TASK_READY))) Q E k) as Hwhen.
  { intros Q E HQ. unfold k1 in HQ. destruct (bool_decide _); [by apply always_modify|by apply always_ret]. }
  apply Hwhen. do 5 apply always_bind, always_modify.
  apply always_bind, always_gets, always_bind, task_g_always.
  match goal with |- always _ _ _ ?k2 => set (k2' := k2) end.
  assert (sched_st k2' = switch_spec n (sched_st k)) as Heq.
  { unfold switch_spec. rewrite Hc. unfold k2', k1, put.
    destruct (bool_decide _); cbn; unfold set_quantum_left, set_switches, set_tasks, set_current;
      cbn; f_equal; apply alter_alter. }
  eapply (always_preserves switch_frame); [apply _|..].
  - intros _ k' Hf. by rewrite (wf_sched _ _ Hf), Heq.
  - intros k' Hf. unfold keeps_wf. eapply sched_wf_same; [|exact Hw'].
    by rewrite (wf_sched _ _ Hf), Heq.
Qed.

(** [reap]: the pointers it frees are all that matters besides the table. *)
Lemma reap_slot_always i k : 1 ≤ i < MAX_TASKS → sched_wf (sched_st k) →
  always (reap_slot i) (λ _ k', sched_st k' = reap_slot_spec i (sched_st k)) keeps_wf k.
Proof.
  intros Hi Hw. unfold reap_slot, sched_g.
  apply always_bind, task_g_always, always_bind, always_gets.
  unfold reap_slot_spec. destruct (bool_decide (state (task_at (sched_st k) i) = TASK_DEAD) && negb (i =? current (sched_st k))) eqn:Hc;
    [|by apply always_ret].
  cbn [when]. apply always_bind, task_g_always, always_bind.
  eapply always_mono.
  - refine (always_preserves memory_only _ (λ _ k', sched_st k' = sched_st k) keeps_wf _ _ _).
    + intros _ k' Hm. apply (mo_sched _ _ Hm).
    + intros k' Hm. unfold keeps_wf. by rewrite (mo_sched _ _ Hm).
  - cbn beta. intros _ k1 Hk1. apply always_bind, always_modify, always_modify.
    cbn. rewrite Hk1. unfold put, set_tasks. cbn. f_equal. apply alter_alter.
  - done.
Qed.

Lemma reap_always k : sched_wf (sched_st k) →
  always reap (λ _ k', sched_st k' = reap_spec (sched_st k)) keeps_wf k.
Proof.
  intros Hw. unfold reap, reap_spec. change (Z.to_nat (MAX_TASKS - 1)) with 7%nat.
  change (seqZ 1 7) with (seqZ 1 (Z.of_nat 7)).
  assert (∀ n lo k, 1 ≤ lo → lo + Z.of_nat n ≤ MAX_TASKS → sched_wf (sched_st k) →
    always (for_range n lo reap_slot)
      (λ _ k', sched_st k' = foldl (λ s i, reap_slot_spec i s) (sched_st k) (seqZ lo (Z.of_nat n))) keeps_wf k) as Hloop.
  { clear k Hw. induction n as [|n IH]; intros lo k Hlo Hhi Hw; cbn [for_range]; [done|].
    rewrite (seqZ_cons lo) by lia. cbn [foldl].
    replace (Z.pred (Z.of_nat (S n))) with (Z.of_nat n) by lia. replace (Z.succ lo) with (lo + 1) by lia.
    apply always_bind. eapply always_mono; [apply reap_slot_always; [lia|done]| |done].
    cbn beta. intros _ k' Hk'. rewrite <- Hk'. apply IH; [lia|lia|].
    rewrite Hk'. apply reap_slot_wf; [lia|done]. }
  apply Hloop; [done|done|done].
Qed.

(** One timer tick: whatever happens to the memory of the stacks, the table
    stays well formed; if the tick returns, the table is the one of
    [tick_spec]. *)
Lemma scheduler_tick_always k : sched_wf (sched_st k) →
  always scheduler_tick
    (λ _ k', strip (sched_st k') = strip (tick_spec (sched_st k))) keeps_wf k.
Proof.
  intros Hw. unfold scheduler_tick, sched_g, tick_spec. apply always_bind, always_gets.
  destruct (sched_enabled (sched_st k) =? 0); [by apply always_ret|].
  apply always_bind. eapply always_mono; [by apply reap_always| |done].
  cbn beta. intros _ k1 Hk1. apply always_bind, always_gets. unfold preempt_spec. rewrite <- Hk1.
  pose proof (reap_wf _ Hw) as Hw1. rewrite <- Hk1 in Hw1.
  destruct (Z.ltb_spec 1 (quantum_left (sched_st k1))) as [Hq|Hq].
  - apply always_modify. cbn. pose proof (sw_quantum _ Hw1). unfold TASK_QUANTUM in *.
    by rewrite u32_small by lia.
  - apply always_bind. unfold pick_next, sched_g. apply always_gets.
    apply switch_to_always; [done|]. by apply next_task_cases.
Qed.

Lemma task_yield_always k : sched_wf (sched_st k) →
  always task_yield (λ _ k', strip (sched_st k') =
    strip (if sched_enabled (sched_st k) =? 0 then sched_st k
           else switch_spec (next_task (sched_st k)) (sched_st k))) keeps_wf k.
Proof.
  intros Hw. unfold task_yield, sched_g. apply always_bind, always_gets.
  destruct (sched_enabled (sched_st k) =? 0); [by apply always_ret|].
  apply always_bind. unfold pick_next, sched_g. apply always_gets.
  apply switch_to_always; [done|]. by apply next_task_cases.
Qed.

(** ** Killing and leaving *)
Lemma task_kill_rep id k : sched_wf (sched_st k) → 0 ≤ id →
  wp (task_kill id) (λ r k',
    if bool_decide (0 < id < MAX_TASKS ∧ state (task_at (sched_st k) id) ≠ TASK_UNUSED)
    then r = 1 ∧ k' = upd_sched_st (put id (set_state TASK_DEAD)) k ∧ sched_wf (sched_st k')
    else r = 0 ∧ k' = k) k.
Proof.
  intros Hw Hid. unfold task_kill, task_g, sched_g.
  destruct ((id =? 0) || (MAX_TASKS <=? id)) eqn:Hc.
  { wp_go. rewrite bool_decide_eq_false_2; [done|]. intros [? _].
    apply orb_true_iff in Hc as [Hc%Z.eqb_eq|Hc%Z.leb_le]; lia. }
  apply orb_false_iff in Hc as [H1%Z.eqb_neq H2%Z.leb_gt]. wp_go.
  destruct (bool_decide (state (task_at (sched_st k) id) = TASK_UNUSED)) eqn:Hs.
  - apply bool_decide_eq_true in Hs. wp_go. rewrite bool_decide_eq_false_2; [done|naive_solver].
  - apply bool_decide_eq_false in Hs. unfold upd_task. wp_go.
    rewrite bool_decide_eq_true_2 by (split; [lia|done]). split_and!; [done..|].
    change (sched_wf (put id (set_state TASK_DEAD) (sched_st k))).
    apply sched_wf_put; [done|lia|done|lia| |by right]. intros _. apply (sw_id _ Hw); [lia|done].
Qed.

Lemma task_exit_rep k : sched_wf (sched_st k) → current (sched_st k) ≠ 0 →
  wp task_exit (λ _ k',
    sched_st k' = put (current (sched_st k)) (set_state TASK_DEAD) (sched_st k) ∧
    sched_wf (sched_st k') ∧ Z.testbit (r_eflags (regs (mach k'))) 9 = true) k.
Proof.
  intros Hw Hne. unfold task_exit, sched_g, upd_task, sti, upd_regs, upd_machine. wp_go.
  pose proof (sw_cur _ Hw). split_and!; [done| |].
  - apply (sched_wf_put _ _ (set_state TASK_DEAD)); [done|done|done|lia| |by right].
    intros _. apply (sw_id _ Hw); [done|]. by destruct (sw_now _ Hw) as [->| ->].
  - change (Z.testbit (Z.lor (r_eflags (regs (mach k))) 0x200) 9 = true).
    rewrite Z.lor_spec. apply orb_true_r.
Qed.

(** ** Creating a task *)
Section create.
Context {inv : kernel → gmap Z Z → Prop} `{!Allocator inv}.

Lemma kept_trans A W1 W2 k1 k2 k3 :
  kept A W1 k1 k2 → kept A W2 k2 k3 → kept A (λ x, W1 x ∨ W2 x) k1 k3.
Proof. intros H1 H2 x Hx Hn. rewrite H2, H1; auto. Qed.

Lemma kept_mono A A' (W W' : Z → Prop) k k' :
  (∀ x, allocated A' x → allocated A x) → (∀ x, allocated A' x → W x → W' x) →
  kept A W k k' → kept A' W' k k'.
Proof. intros HA HW H x Hx Hn. apply H; auto. Qed.

(** The words [ws] lie at [a] and up. *)
Definition frame_at (m : machine) (a : Z) (ws : list Z) : Prop :=
  ∀ i w, ws !! i = Some w → vword m (a + 4 * Z.of_nat i) = u32 w.

Lemma push_words_rep k A p n sp vs :
  inv k A → A !! p = Some n → p + 4 * Z.of_nat (length vs) ≤ sp → sp ≤ p + n →
  wp (push_words sp vs) (λ r k', r = sp - 4 * Z.of_nat (length vs) ∧ memory_only k k' ∧
    inv k' A ∧ kept A (λ x, r ≤ x < sp) k k' ∧ frame_at (mach k') r (rev vs)) k.
Proof.
  revert sp k. induction vs as [|v vs IH]; intros sp k Hi Hp Hlo Hhi; cbn [push_words length] in *.
  - rewrite wp_ret. split_and!; [lia|reflexivity|done|done|]. intros i w Hw. done.
  - destruct (al_range k A p n Hi Hp) as (Hp0 & _ & _ & Hpn).
    rewrite u32_small by lia. wp_go.
    wp_use (al_store k A p n (sp - 4) v); [done|done|lia|lia|].
    cbn beta. intros _ k1 (Hm1 & Hi1 & Hv1 & Hk1).
    wp_use IH; [done|done|lia|lia|]. cbn beta. intros r k2 (-> & Hm2 & Hi2 & Hk2 & Hf2).
    split_and!; [lia|by etrans|done| |].
    + eapply kept_mono; [|intros x Hx|eapply kept_trans; [exact Hk1|exact Hk2]]; [done|]. cbn beta. lia.
    + intros i w. cbn [rev]. rewrite lookup_app_Some, length_rev. intros [Hw|[Hi' Hw]]; [by apply Hf2|].
      apply list_lookup_singleton_Some in Hw as [Hz <-]. replace (Z.of_nat i) with (Z.of_nat (length vs)) by lia.
      replace (sp - 4 - 4 * Z.of_nat (length vs) + 4 * Z.of_nat (length vs)) with (sp - 4) by lia.
      rewrite <- Hv1. apply vword_ext. intros x Hx. apply Hk2; [|lia].
      exists p, n. split; [done|lia].
Qed.

(** The lowest free slot. *)
Lemma find_slot_rep k : sched_wf (sched_st k) →
  wp find_slot (λ r k', k' = k ∧
    match r with
    | Some i => 1 ≤ i < MAX_TASKS ∧ state (task_at (sched_st k) i) = TASK_UNUSED ∧
        ∀ j, 1 ≤ j < i → state (task_at (sched_st k) j) ≠ TASK_UNUSED
    | None => ∀ j, 1 ≤ j < MAX_TASKS → state (task_at (sched_st k) j) ≠ TASK_UNUSED
    end) k.
Proof.
  intros Hw. unfold find_slot.
  apply wp_for_find with (I := λ i k', k' = k ∧ ∀ j, 1 ≤ j < i → state (task_at (sched_st k) j) ≠ TASK_UNUSED).
  - split; [done|]. intros j ?. lia.
  - intros i k' Hi [-> Hb]. unfold task_g, sched_g. wp_go.
    destruct (bool_decide _) eqn:Hs; wp_go.
    + apply bool_decide_eq_true in Hs. split_and!; [done|unfold MAX_TASKS in *; lia..|done|done].
    + apply bool_decide_eq_false in Hs. split; [done|]. intros j Hj.
      destruct (decide (j = i)) as [->|]; [done|]. apply Hb. lia.
  - intros k' [-> Hb]. split; [done|]. intros j Hj. apply Hb. unfold MAX_TASKS in *. lia.
Qed.

(** The entry of a new task. *)
Definition new_task (slot stack sp : Z) (nm : cstr) (t : task_t) : task_t :=
  {| esp := sp; stack_base := stack; task_id := slot; name := set_name (name t) nm;
     state := TASK_READY; slices := 0; counter := 0 |}.

(** Where the stack pointer of a new task points: eleven words below the top. *)
Definition first_esp (stack : Z) : Z := stack + TASK_STACK_SIZE - 44.

(** The lowest slot that is free; no slot, or no memory for a stack. *)
Definition lowest_free (s : sched_state) (r : Z) : Prop :=
  1 ≤ r < MAX_TASKS ∧ state (task_at s r) = TASK_UNUSED ∧ ∀ j, 1 ≤ j < r → state (task_at s j) ≠ TASK_UNUSED.
Definition no_room_for_task (k : kernel) : Prop :=
  (∀ j, 1 ≤ j < MAX_TASKS → state (task_at (sched_st k) j) ≠ TASK_UNUSED) ∨
  ∃ k1, kmalloc TASK_STACK_SIZE k = Ok 0 k1.

Definition create_post (k : kernel) (A : gmap Z Z) (nm : cstr) (entry r : Z) (k' : kernel) : Prop :=
  (r = -1 ∧ no_room_for_task k ∧ inv k' A ∧ kept A nowhere k k' ∧ sched_st k' = sched_st k) ∨
  (∃ stack n, lowest_free (sched_st k) r ∧ (∃ k1, stack ≠ 0 ∧ kmalloc TASK_STACK_SIZE k = Ok stack k1) ∧
     A !! stack = None ∧ TASK_STACK_SIZE ≤ n ∧ inv k' (<[stack := n]> A) ∧ kept A nowhere k k' ∧
     frame_at (mach k') (first_esp stack) (rev (first_frame (sym (mach k) "task_exit") entry)) ∧
     sched_st k' = put r (new_task r stack (first_esp stack) nm) (sched_st k)).

Lemma upd_task_same_memory i f k : same_memory k (upd_sched_st (put i f) k).
Proof. by split. Qed.

(** Stores into a fresh allocation disturb nobody. *)
Lemma kept_fresh k A k1 k2 p n W :
  inv k1 (<[p := n]> A) → A !! p = None → kept A nowhere k k1 →
  kept (<[p := n]> A) W k1 k2 → (∀ x, W x → p ≤ x < p + n) → kept A nowhere k k2.
Proof.
  intros Hi Hp H1 H2 HW x Hx _. rewrite H2; [apply H1; [done|by intros []]| |].
  - by apply allocated_insert.
  - intros Hw%HW. destruct Hx as (q & m & Hq & Hqx).
    assert (p ≠ q) as Hne by congruence.
    destruct (al_disjoint k1 (<[p := n]> A) p q n m Hi); [by rewrite lookup_insert_eq|
      by rewrite lookup_insert_ne|done|lia|lia].
Qed.

Lemma task_create_rep k A nm entry :
  inv k A → sched_wf (sched_st k) → wp (task_create nm entry) (create_post k A nm entry) k.
Proof.
  intros Hi Hw. unfold task_create. wp_go. wp_use find_slot_rep; [done|].
  cbn beta. intros [slot|] k0 [-> Hslot]; wp_go; [|by left; split_and!; [|left| |..]].
  pose proof Hslot as (Hr & Hun & _).
  eapply wp_mono; [apply wp_eqn, (al_malloc k A TASK_STACK_SIZE); done|].
  cbn beta. intros p k1 (Hkm & Hm1 & Hk1 & [[-> Hi1]|(n & Hn & Hp & Hp0 & Hi1)]).
  { wp_go. left. split_and!; [done|right; by exists k1|done..|apply (mo_sched _ _ Hm1)]. }
  rewrite (proj2 (Z.eqb_neq p 0)) by done. unfold on_mach. wp_go.
  destruct (al_range k1 _ p n Hi1 ltac:(by rewrite lookup_insert_eq)) as (Hpos & _ & _ & Hpn).
  assert (length (first_frame (sym (mach k1) "task_exit") entry) = 11%nat) as Hlen by done.
  unfold TASK_STACK_SIZE in Hn. rewrite (u32_small (p + TASK_STACK_SIZE)) by (unfold TASK_STACK_SIZE; lia).
  wp_use (push_words_rep k1 (<[p := n]> A) p n); [done|by rewrite lookup_insert_eq|
    rewrite Hlen; unfold TASK_STACK_SIZE; lia|unfold TASK_STACK_SIZE; lia|].
  rewrite Hlen. cbn beta. intros sp k2 (-> & Hm2 & Hi2 & Hk2 & Hf2).
  unfold upd_task. wp_go. right. exists p, n.
  assert (sched_st k2 = sched_st k) as Hs by (rewrite (mo_sched _ _ Hm2); apply (mo_sched _ _ Hm1)).
  rewrite (mo_sym _ _ Hm1) in Hf2.
  split; [done|]. split; [by exists k1|]. split_and!; [done|done| | | |].
  - eapply al_ext; [|exact Hi2]. by split.
  - eapply kept_fresh; [exact Hi1|done|done|exact Hk2|]. cbn beta. unfold TASK_STACK_SIZE. lia.
  - exact Hf2.
  - cbn. rewrite Hs. unfold put, set_tasks. cbn. f_equal. by rewrite !alter_alter.
Qed.
End create.

(** ** context_switch *)

(** The ten words [context_switch] leaves at the saved stack pointer [sp]. *)
Definition frame_words (r : regfile) (sp : Z) : list Z :=
  [r_eflags r; r_edi r; r_esi r; r_ebp r; sp + 36; r_ebx r; r_edx r; r_ecx r; r_eax r; r_eip r].

(** The registers it loads from ten words at [sp]. *)
Definition frame_regs (ws : list Z) (sp : Z) : regfile :=
  let w i := default 0 (ws !! i) in
  {| r_eflags := w 0%nat; r_edi := w 1%nat; r_esi := w 2%nat; r_ebp := w 3%nat;
     r_ebx := w 5%nat; r_edx := w 6%nat; r_ecx := w 7%nat; r_eax := w 8%nat; r_eip := w 9%nat;
     r_esp := sp + 40 |}.

(** What was saved is what is loaded. *)
Lemma frame_round_trip r sp : frame_regs (frame_words r sp) sp = with_esp (sp + 40) r.
Proof. by destruct r. Qed.

(** The words [ws] can be read at [a] and up. *)
Definition readable (m : machine) (a : Z) (ws : list Z) : Prop :=
  ∀ i w, ws !! i = Some w → m_load 4 (a + 4 * Z.of_nat i) m = inr w.

Record same_store (m m' : machine) : Prop := {
  ss_phys : phys m' = phys m; ss_pg : cr0_pg m' = cr0_pg m; ss_cr3 : cr3 m' = cr3 m
}.

Lemma mmu_list_same m m' n a : same_store m m' → mmu_list m' n a = mmu_list m n a.
Proof.
  intros [Hp Hg Hc]. revert a. induction n as [|n IH]; intros a; [done|]. cbn [mmu_list].
  rewrite IH. unfold mmu. by rewrite Hp, Hg, Hc.
Qed.
Lemma m_load_same m m' n a : same_store m m' → m_load n a m' = m_load n a m.
Proof. intros Hs. unfold m_load. rewrite (mmu_list_same m m') by done. by rewrite (ss_phys _ _ Hs). Qed.
Lemma readable_same m m' a ws : same_store m m' → readable m a ws → readable m' a ws.
Proof. intros Hs Hr i w Hw. rewrite (m_load_same m m') by done. by apply Hr. Qed.

(** Registers, and nothing else, differ. *)
Definition at_regs (r : regfile) (k : kernel) : kernel := upd_mach (set_regs r) k.

Lemma at_regs_id k : at_regs (regs (mach k)) k = k.
Proof. by destruct k as [[]]. Qed.
Lemma at_regs_regs r r' k : at_regs r (at_regs r' k) = at_regs r k.
Proof. done. Qed.

Lemma wp_upd_regs f r (Q : () → kernel → Prop) k :
  Q tt (at_regs (f r) k) → wp (upd_regs f) Q (at_regs r k).
Proof. done. Qed.

Lemma wp_pop r w (Q : Z → kernel → Prop) k :
  m_load 4 (r_esp r) (mach k) = inr w → Q w (at_regs (with_esp (r_esp r +u 4) r) k) →
  wp pop Q (at_regs r k).
Proof.
  intros Hl HQ. unfold pop, reg, on_mach. wp_go. unfold wp, load32, load.
  rewrite (m_load_same (mach k)) by done. cbn [mach at_regs upd_mach set_regs regs]. rewrite Hl. done.
Qed.

(** The words [ws] have been pushed, the first at the top [e]. *)
Definition pushed (tr : Z → Z) (e : Z) (r : regfile) (k0 k : kernel) (ws : list Z) : Prop :=
  let sp := e - 4 * Z.of_nat (length ws) in
  (∃ ph, k = at_regs (with_esp sp r) (upd_mach (set_phys ph) k0)) ∧
  agrees_outside (image tr sp e) (mach k0) (mach k) ∧
  ∀ i w, ws !! i = Some w → vw tr (mach k) (e - 4 * (Z.of_nat i + 1)) = u32 w.

Lemma push_step tr lo e r k0 k ws v :
  window tr lo e (mach k0) → pushed tr e r k0 k ws →
  lo ≤ e - 4 * Z.of_nat (length (ws ++ [v])) → e < 0x100000000 →
  wp (push v) (λ _ k', pushed tr e r k0 k' (ws ++ [v])) k.
Proof.
  intros Hw ((ph & ->) & Ha & Hws) Hlo He. pose proof (win_range _ _ _ _ Hw) as Hr.
  rewrite length_app in Hlo. cbn [length] in Hlo.
  set (sp := e - 4 * Z.of_nat (length ws)) in *.
  assert (window tr lo e (mach (at_regs (with_esp sp r) (upd_mach (set_phys ph) k0)))) as Hw'.
  { eapply window_step; [done|]. eapply agrees_outside_mono, Ha. intros p (x & ? & ->).
    exists x. split; [lia|done]. }
  unfold push, reg, on_mach. wp_go. cbn [r_esp regs mach at_regs upd_mach set_regs with_esp].
  rewrite u32_small by lia. eapply wp_store32; [exact Hw'|lia|lia|].
  intros m' Hst. unfold upd_regs, upd_machine. wp_go.
  destruct (st_phys _ _ _ _ _ _ Hst) as [ph' ->].
  assert (e - 4 * Z.of_nat (length (ws ++ [v])) = sp - 4) as Hsp
    by (rewrite length_app; cbn [length]; unfold sp; lia).
  split; [|split]; rewrite ?Hsp.
  - by exists ph'.
  - etrans; [eapply agrees_outside_mono, Ha|].
    + intros p (x & ? & ->). exists x. split; [lia|done].
    + destruct (st_other _ _ _ _ _ _ Hst) as [? ? Hrd]. split; [done..|]. intros p Hp. apply Hrd.
      intros (x & ? & ->). apply Hp. exists x. split; [lia|done].
  - intros i w Hi. apply lookup_app_Some in Hi as [Hi|[Hi Hv]].
    + pose proof (lookup_lt_Some _ _ _ Hi). rewrite <- (Hws i w Hi).
      refine (stored_vw_other tr lo e 4 (sp - 4) v _ _ _ Hw' Hst _ _ _ _ _); lia.
    + apply list_lookup_singleton_Some in Hv as [Hz <-].
      replace (e - 4 * (Z.of_nat i + 1)) with (sp - 4) by (unfold sp; lia).
      by apply (stored_vw_same tr (sp - 4) v _ _ Hst).
Qed.

(** The unwinding half: from [mov esp, ecx] on. *)
Definition unwind : K () :=
  fl <- pop ;; upd_regs (with_eflags fl) ;;; popa ;;; ip <- pop ;; upd_regs (with_eip ip).

(** Popping word [i] of a readable frame at [a]. *)
Lemma wp_pop_frame {A} i w a ws r (m : Z → K A) (Q : A → kernel → Prop) k :
  readable (mach k) a ws → ws !! i = Some w → r_esp r = a + 4 * Z.of_nat i →
  0 ≤ a → a + 4 * Z.of_nat (length ws) < 0x100000000 →
  wp (m w) Q (at_regs (with_esp (a + 4 * (Z.of_nat i + 1)) r) k) → wp (bind pop m) Q (at_regs r k).
Proof.
  intros Hr Hw Hesp ?? Hm. pose proof (lookup_lt_Some _ _ _ Hw).
  rewrite wp_bind. eapply wp_pop; [rewrite Hesp; by apply Hr|].
  rewrite Hesp, u32_small by lia.
  by replace (a + 4 * Z.of_nat i + 4) with (a + 4 * (Z.of_nat i + 1)) by lia.
Qed.

Ltac pop_word Hr i := eapply (wp_pop_frame i); [exact Hr|reflexivity|cbn; lia|lia|cbn; lia|].

Ltac set_word := rewrite ?wp_bind; apply wp_upd_regs.

Lemma unwind_rep r ws (Q : () → kernel → Prop) k :
  readable (mach k) (r_esp r) ws → length ws = 10%nat → 0 ≤ r_esp r → r_esp r + 40 < 0x100000000 →
  Q tt (at_regs (frame_regs ws (r_esp r)) k) → wp unwind Q (at_regs r k).
Proof.
  intros Hr Hlen Hlo Hhi HQ.
  destruct ws as [|w0 [|w1 [|w2 [|w3 [|w4 [|w5 [|w6 [|w7 [|w8 [|w9 [|]]]]]]]]]]]; try done.
  unfold unwind. pop_word Hr 0%nat. set_word. rewrite wp_bind. unfold popa.
  pop_word Hr 1%nat. set_word. pop_word Hr 2%nat. set_word. pop_word Hr 3%nat. set_word.
  pop_word Hr 4%nat. pop_word Hr 5%nat. set_word. pop_word Hr 6%nat. set_word.
  pop_word Hr 7%nat. set_word. pop_word Hr 8%nat. set_word. pop_word Hr 9%nat.
  apply wp_upd_regs. exact HQ.
Qed.

Lemma pushed_regs tr e r k0 k ws : pushed tr e r k0 k ws →
  regs (mach k) = with_esp (e - 4 * Z.of_nat (length ws)) r.
Proof. by intros ((ph & ->) & _). Qed.

Lemma wp_reg_pushed {A B} (f : regfile → A) (m : A → K B) tr e r k0 k ws Q :
  pushed tr e r k0 k ws → wp (m (f (with_esp (e - 4 * Z.of_nat (length ws)) r))) Q k →
  wp (bind (reg f) m) Q k.
Proof. intros Hp Hm. unfold reg, on_mach. wp_go. by rewrite (pushed_regs _ _ _ _ _ _ Hp). Qed.

Lemma pushed_nil tr e k : r_esp (regs (mach k)) = e → pushed tr e (regs (mach k)) k k [].
Proof.
  intros He. split; [|split].
  - exists (phys (mach k)). destruct k as [[]], regs. cbn in *. by rewrite Z.sub_0_r, <- He.
  - done.
  - done.
Qed.

(** The stack of the outgoing task after the pushes, from the top down. *)
Definition switch_pushes (r : regfile) (save new : Z) : list Z :=
  [new; save; r_eip r; r_eax r; r_ecx r; r_edx r; r_ebx r; r_esp r - 12; r_ebp r; r_esi r; r_edi r;
   r_eflags r].

Ltac save_word Hw :=
  rewrite wp_bind; eapply wp_mono; [eapply push_step; [exact Hw|eassumption|cbn; lia|assumption]|];
  cbn beta; cbn [app]; intros _ ? ?.

Lemma switch_saves tr lo k save new (rest : Z → K ()) (Q : () → kernel → Prop) :
  let r := regs (mach k) in
  window tr lo (r_esp r) (mach k) → lo ≤ r_esp r - 48 → r_esp r < 0x100000000 →
  (∀ k', pushed tr (r_esp r) r k k' (switch_pushes r save new) → wp (rest (r_esp r - 48)) Q k') →
  wp (push new ;;; push save ;;; ip <- reg r_eip ;; push ip ;;; pusha ;;; fl <- reg r_eflags ;; push fl ;;;
      sp <- reg r_esp ;; rest sp) Q k.
Proof.
  intros r Hw Hlo He HQ.
  pose proof (pushed_nil tr (r_esp r) k eq_refl) as H0. fold r in H0.
  save_word Hw. save_word Hw. eapply wp_reg_pushed; [eassumption|]. save_word Hw.
  rewrite wp_bind. unfold pusha. eapply wp_reg_pushed; [eassumption|].
  do 7 save_word Hw.
  eapply wp_mono; [eapply push_step; [exact Hw|eassumption|cbn; lia|assumption]|]. cbn beta; cbn [app]; intros _ ? ?.
  eapply wp_reg_pushed; [eassumption|]. save_word Hw. eapply wp_reg_pushed; [eassumption|].
  apply HQ. assumption.
Qed.

(** The result of switching away from task [cur], whose registers are [r], to
    the ten words [ws] at [new]. *)
Definition switched (tr : Z → Z) (k : kernel) (cur new : Z) (ws : list Z) (k' : kernel) : Prop :=
  let r := regs (mach k) in
  let sp := r_esp r - 48 in
  (∃ ph, k' = at_regs (frame_regs ws new) (upd_sched_st (put cur (set_esp sp)) (upd_mach (set_phys ph) k))) ∧
  agrees_outside (image tr sp (r_esp r)) (mach k) (mach k') ∧
  ∀ i w, frame_words r sp !! i = Some w → vw tr (mach k') (sp + 4 * Z.of_nat i) = u32 w.

Lemma esp_slot m i : 0 ≤ i < MAX_TASKS → (esp_addr m i -u sym m "tasks") / sizeof_task = i.
Proof.
  unfold esp_addr, sizeof_task, MAX_TASKS. intros Hi. unfold u32. generalize (sym m "tasks"). intros b.
  rewrite Zminus_mod_idemp_l. replace (b + 40 * i - b) with (40 * i) by lia.
  rewrite Z.mod_small by lia. zlia.
Qed.

Lemma call_context_switch_rep tr lo k cur new ws :
  let r := regs (mach k) in
  window tr lo (r_esp r) (mach k) → lo ≤ r_esp r - 48 → r_esp r < 0x100000000 →
  0 ≤ cur < MAX_TASKS → length ws = 10%nat → 0 ≤ new → new + 40 < 0x100000000 →
  (∀ m', agrees_outside (image tr (r_esp r - 48) (r_esp r)) (mach k) m' → readable m' new ws) →
  wp (call_context_switch (esp_addr (mach k) cur) new) (λ _ k', switched tr k cur new ws k') k.
Proof.
  intros r Hw Hlo He Hcur Hlen Hnew Hnew' Hrd. pose proof (win_range _ _ _ _ Hw) as Hwr.
  set (save := esp_addr (mach k) cur).
  assert (0 ≤ save < 0x100000000) as Hsave by apply u32_range.
  unfold call_context_switch, context_switch.
  apply (switch_saves tr lo k save new); [done|done|done|]. fold r.
  intros k1 Hp. pose proof Hp as ((ph & ->) & Ha & Hws). change (length (switch_pushes r save new)) with 12%nat in *.
  change (r_esp r - 4 * Z.of_nat 12) with (r_esp r - 48) in *.
  set (sp := r_esp r - 48) in *. set (k0 := upd_mach (set_phys ph) k) in *.
  assert (window tr lo (r_esp r) (mach (at_regs (with_esp sp r) k0))) as Hw1.
  { eapply window_step; [exact Hw|]. eapply agrees_outside_mono, Ha. intros p (x & ? & ->).
    exists x. split; [unfold sp in *; lia|done]. }
  assert (∀ r', window tr lo (r_esp r) (mach (at_regs r' k0))) as Hw2
    by (intros r'; eapply window_step; [exact Hw1|by split]).
  assert (∀ i w, switch_pushes r save new !! i = Some w →
    vw tr (mach k0) (r_esp r - 4 * (Z.of_nat i + 1)) = u32 w) as Hvs by exact Hws.
  clear Hws. assert (sp = r_esp r - 48) as Hsp by done. clearbody sp.
  replace (sp +u 40) with (sp + 40) by (rewrite u32_small; lia).
  replace (sp +u 44) with (sp + 44) by (rewrite u32_small; lia).
  assert (vw tr (mach k0) (sp + 40) = save) as Hv1.
  { rewrite <- (u32_small save), <- (Hvs 1%nat save eq_refl) by lia. f_equal. lia. }
  assert (vw tr (mach k0) (sp + 44) = new) as Hv0.
  { rewrite <- (u32_small new), <- (Hvs 0%nat new eq_refl) by lia. f_equal. lia. }
  rewrite wp_bind. eapply wp_load32; [apply Hw2|lia|lia|].
  change (vw tr (mach (at_regs (with_esp sp r) k0)) (sp + 40)) with (vw tr (mach k0) (sp + 40)). rewrite Hv1.
  rewrite wp_bind. apply wp_upd_regs. set (r1 := with_eax save (with_esp sp r)).
  rewrite wp_bind. eapply wp_load32; [apply Hw2|lia|lia|].
  change (vw tr (mach (at_regs r1 k0)) (sp + 44)) with (vw tr (mach k0) (sp + 44)). rewrite Hv0.
  rewrite wp_bind. apply wp_upd_regs.
  unfold store_task_esp, on_mach, upd_task. wp_go.
  change (sym (mach (at_regs (with_ecx new r1) k0)) "tasks") with (sym (mach k) "tasks").
  replace ((save -u sym (mach k) "tasks") / sizeof_task) with cur by (symmetry; by apply esp_slot).
  change (upd_sched_st _ (at_regs (with_ecx new r1) k0)) with
    (at_regs (with_ecx new r1) (upd_sched_st (put cur (set_esp sp)) k0)).
  set (k2 := upd_sched_st (put cur (set_esp sp)) k0).
  apply wp_upd_regs. set (r2 := with_esp new (with_ecx new r1)).
  change (wp unwind (λ _ k', switched tr k cur new ws k') (at_regs r2 k2)).
  eapply (unwind_rep r2 ws); [|done|done|done|].
  - eapply readable_same; [|apply Hrd, Ha]. done.
  - unfold switched. fold r. rewrite <- Hsp. split; [|split].
    + by exists ph.
    + by destruct Ha; split.
    + intros i w Hi.
      assert (i < 10)%nat as Hlt by by apply lookup_lt_Some in Hi.
      change (vw tr (mach k0) (sp + 4 * Z.of_nat i) = u32 w).
      rewrite <- (Hvs (11 - i)%nat w); [f_equal; lia|].
      revert Hi. unfold frame_words, switch_pushes. do 10 (destruct i as [|i]; [intros [= <-]; cbn; f_equal; lia|]). lia.
Qed.

(** Two stacks in one window do not disturb each other. *)
Lemma window_readable tr lo hi m s e a n :
  window tr lo hi m → lo ≤ s → e ≤ hi → lo ≤ a → a + 4 * Z.of_nat n ≤ hi →
  (a + 4 * Z.of_nat n ≤ s ∨ e ≤ a) →
  ∀ m', agrees_outside (image tr s e) m m' →
    readable m' a ((λ i, vw tr m (a + 4 * i)) <$> seqZ 0 (Z.of_nat n)).
Proof.
  intros Hw Hs He Ha Hn Hd m' Hm' i w Hi.
  apply list_lookup_fmap_Some in Hi as (j & -> & [-> Hj]%lookup_seqZ).
  assert (window tr lo hi m') as Hw'.
  { eapply window_step; [done|]. eapply agrees_outside_mono, Hm'. intros p (x & ? & ->).
    exists x. split; [lia|done]. }
  erewrite window_load4; [|exact Hw'|lia|lia]. f_equal. apply vw_ext. intros x Hx. unfold vb.
  apply (ao_rd8 _ _ _ Hm'). intros (y & Hy & Heq). apply (win_inj _ _ _ _ Hw) in Heq; lia.
Qed.

Lemma put_alter i f k : upd_sched_st (λ s, set_tasks (alter f (Z.to_nat i) (tasks s)) s) k =
  upd_sched_st (put i f) k.
Proof. done. Qed.

(** [switch_to], with the memory of the two stacks. *)
Lemma switch_to_rep tr lo k n ws :
  let s := sched_st k in
  let r := regs (mach k) in
  sched_wf s → 0 ≤ n < MAX_TASKS → n ≠ current s →
  window tr lo (r_esp r) (mach k) → lo ≤ r_esp r - 48 → r_esp r < 0x100000000 →
  length ws = 10%nat → 0 ≤ esp (task_at s n) → esp (task_at s n) + 40 < 0x100000000 →
  (∀ m', agrees_outside (image tr (r_esp r - 48) (r_esp r)) (mach k) m' →
     readable m' (esp (task_at s n)) ws) →
  wp (switch_to n) (λ _ k', switched tr (upd_sched_st (switch_spec n) k) (current s)
    (esp (task_at s n)) ws k') k.
Proof.
  intros s r Hw Hn Hne Hwin Hlo He Hlen Hn0 Hn1 Hrd. pose proof (sw_cur _ Hw) as Hcur.
  unfold switch_to, task_g, sched_g, upd_task, on_mach. fold s.
  rewrite wp_bind, wp_gets. fold s.
  assert ((n <? 0) || (n =? current s) = false) as Hc
    by (apply orb_false_iff; split; [apply Z.ltb_ge; lia|by apply Z.eqb_neq]).
  rewrite Hc, wp_bind, wp_gets. fold s.
  set (k1 := if bool_decide (state (task_at s (current s)) = TASK_RUNNING)
    then upd_sched_st (put (current s) (set_state TASK_READY)) k else k).
  rewrite wp_bind. apply (wp_mono _ (λ _ k', k' = k1)).
  { unfold k1, when. destruct (bool_decide _); [by rewrite wp_modify|by rewrite wp_ret]. }
  intros [] _ ->. wp_go.
  match goal with |- wp _ _ ?k2 => set (k2' := k2) end.
  assert (sched_st k2' = switch_spec n s) as Hs.
  { unfold switch_spec. rewrite Hc. unfold k2', k1, put. subst s.
    destruct (bool_decide _); cbn; unfold set_quantum_left, set_switches, set_tasks, set_current;
      cbn; f_equal; apply alter_alter. }
  assert (k2' = upd_sched_st (λ _, sched_st k2') k) as Heq by (unfold k2', k1; by destruct (bool_decide _)).
  rewrite Hs in Heq. change (upd_sched_st (λ _, switch_spec n s) k) with (upd_sched_st (switch_spec n) k) in Heq.
  assert (esp (task_at (sched_st k2') n) = esp (task_at s n)) as Hesp.
  { rewrite Heq. cbn. rewrite switch_task_at by (done || lia). by rewrite decide_True. }
  rewrite Hesp. clearbody k2'. subst k2'.
  apply (call_context_switch_rep tr lo (upd_sched_st (switch_spec n) k)); done.
Qed.

(** Entering a task for the first time. *)
Lemma first_frame_regs texit entry sp :
  frame_regs (take 10 (rev (first_frame texit entry))) sp =
    {| r_eflags := 0x202; r_edi := 0; r_esi := 0; r_ebp := 0; r_ebx := 0; r_edx := 0; r_ecx := 0;
       r_eax := 0; r_eip := entry; r_esp := sp + 40 |} ∧
  rev (first_frame texit entry) !! 10%nat = Some texit.
Proof. done. Qed.

(** ** scheduler_init *)
Definition booted_sched (s : sched_state) : Prop :=
  sched_wf s ∧ current s = 0 ∧ sched_enabled s = 1 ∧
  ∀ i, 1 ≤ i < MAX_TASKS → state (task_at s i) = TASK_UNUSED.

Lemma scheduler_init_rep k :
  length (tasks (sched_st k)) = 8%nat → quantum_left (sched_st k) = TASK_QUANTUM →
  wp scheduler_init (λ _ k', booted_sched (sched_st k') ∧ slices (task_at (sched_st k') 0) = 1 ∧
    ∀ i, 1 ≤ i < MAX_TASKS → stack_base (task_at (sched_st k') i) = stack_base (task_at (sched_st k) i)) k.
Proof.
  intros Hl Hq. destruct k as [m ms pm pg hp [ts cur en sw ql] se vg id sh ti sd]. cbn in Hl, Hq. subst ql.
  destruct ts as [|t0 [|t1 [|t2 [|t3 [|t4 [|t5 [|t6 [|t7 [|]]]]]]]]]; try done.
  unfold scheduler_init, upd_task. change (Z.to_nat MAX_TASKS) with 8%nat. cbn [for_range]. wp_go.
  unfold MAX_TASKS. split; [split|split; [done|]].
  - split; try done.
    + intros i Hi. unfold MAX_TASKS in Hi.
      assert (i = 0 ∨ i = 1 ∨ i = 2 ∨ i = 3 ∨ i = 4 ∨ i = 5 ∨ i = 6 ∨ i = 7) as Hc by lia.
      by destruct Hc as [->|[->|[->|[->|[->|[->|[->| ->]]]]]]].
    + by left.
    + intros i Hi. unfold MAX_TASKS in Hi.
      assert (i = 0 ∨ i = 1 ∨ i = 2 ∨ i = 3 ∨ i = 4 ∨ i = 5 ∨ i = 6 ∨ i = 7) as Hc by lia.
      by destruct Hc as [->|[->|[->|[->|[->|[->|[->| ->]]]]]]].
  - split_and!; [done|done|]. intros i Hi. unfold MAX_TASKS in Hi.
    assert (i = 1 ∨ i = 2 ∨ i = 3 ∨ i = 4 ∨ i = 5 ∨ i = 6 ∨ i = 7) as Hc by lia.
    by destruct Hc as [->|[->|[->|[->|[->|[->| ->]]]]]].
  - intros i Hi. assert (i = 1 ∨ i = 2 ∨ i = 3 ∨ i = 4 ∨ i = 5 ∨ i = 6 ∨ i = 7) as Hc by lia.
    by destruct Hc as [->|[->|[->|[->|[->|[->| ->]]]]]].
Qed.

(** ** Contexts in memory *)

(** The bytes from [lo] to [hi] are where they were and what they were. *)
Definition same_bytes (m m' : machine) (lo hi : Z) : Prop :=
  ∀ x, lo ≤ x < hi → mmu m' x = mmu m x ∧ vbyte m' x = vbyte m x.

Lemma same_bytes_load tr lo hi m m' a e :
  window tr lo hi m → lo ≤ a → a + 4 ≤ e → e ≤ hi → same_bytes m m' a e →
  m_load 4 a m' = inr (vw tr m a).
Proof.
  intros Hw Ha He Hhi Hs. pose proof (win_range _ _ _ _ Hw).
  unfold m_load. rewrite (mmu_list_tr tr); [| |lia|lia].
  - unfold vw, vb. rewrite <- list_fmap_compose. do 2 f_equal. apply list_fmap_ext.
    intros i x Hx%lookup_seqZ. cbn. destruct (Hs x) as [Hm Hb]; [lia|].
    unfold vbyte in Hb. rewrite Hm, (window_mmu _ _ _ _ _ Hw) in Hb by lia. done.
  - intros x Hx. destruct (Hs x) as [-> _]; [lia|]. eapply window_mmu; [done|lia].
Qed.

Lemma same_bytes_readable tr lo hi m m' a ws :
  window tr lo hi m → lo ≤ a → a + 4 * Z.of_nat (length ws) ≤ hi →
  (∀ i w, ws !! i = Some w → vw tr m (a + 4 * Z.of_nat i) = w) →
  same_bytes m m' a (a + 4 * Z.of_nat (length ws)) → readable m' a ws.
Proof.
  intros Hw Ha Hhi Hv Hs i w Hi. pose proof (lookup_lt_Some _ _ _ Hi). rewrite <- (Hv i w Hi).
  eapply (same_bytes_load tr lo hi m m' (a + 4 * Z.of_nat i) (a + 4 * Z.of_nat (length ws))); [done|lia|lia|done|].
  intros x Hx. apply Hs. lia.
Qed.

Lemma readable_take n m a ws : readable m a ws → readable m a (take n ws).
Proof. intros H i w [Hi _]%lookup_take_Some. by apply H. Qed.

Definition regs_ok (r : regfile) : Prop := Forall (λ v, 0 ≤ v < 0x100000000)
  [r_eax r; r_ecx r; r_edx r; r_ebx r; r_esp r; r_ebp r; r_esi r; r_edi r; r_eflags r; r_eip r].

Lemma frame_words_small r sp i w :
  regs_ok r → 0 ≤ sp → sp + 36 < 0x100000000 → frame_words r sp !! i = Some w → u32 w = w.
Proof.
  intros Hr ?? Hw. apply u32_small. unfold regs_ok in Hr. rewrite !Forall_cons in Hr.
  revert Hw. unfold frame_words.
  do 10 (destruct i as [|i]; [intros [= <-]; first [lia|naive_solver]|]). done.
Qed.
