(* ===== verification/Input.v ===== *)
(** * keyboard.c, the receive side of serial.c and the ring of shell.c

    Interrupt handlers turn scancodes and received bytes into characters and
    put them into a ring buffer that the kernel task drains (Shell.v). *)
From stdpp Require Import prelude gmap list strings.
From Stdlib Require Import Lia ZArith.
From S2P Require Import Prelude Machine State Util Console.

#[local] Open Scope Z_scope.

(** ** The ring *)
Definition RING_SIZE : Z := 256.

(** src/shell.c:496-501. *)
Definition shell_push_char (c : Z) : K () :=
  h <- shell_g ring_head ;;
  t <- shell_g ring_tail ;;
  let next := (h +u 1) mod RING_SIZE in
  if next =? t then ret tt
  else
    modify (upd_shell_st (λ s, set_ring (<[Z.to_nat h := c]> (ring s)) s)) ;;;
    modify (upd_shell_st (set_ring_head next)).

(** ** keyboard.c *)

(** src/keyboard.c:9-15. *)
Definition normal_map : list Z :=
  [0; 0] ++ lit "1234567890-=" ++ [0; 9] ++ lit "qwertyuiop[]\n" ++
  [0] ++ lit "asdfghjkl;'`" ++ [0] ++ lit "\\zxcvbnm,./" ++ [0] ++ lit "*" ++ [0] ++ lit " " ++ [0].

(** src/keyboard.c:17-23; 34 is the double quote. *)
Definition shift_map : list Z :=
  [0; 0] ++ lit "!@#$%^&*()_+" ++ [0; 9] ++ lit "QWERTYUIOP{}\n" ++
  [0] ++ lit "ASDFGHJKL:" ++ [34] ++ lit "~" ++ [0] ++ lit "|ZXCVBNM<>?" ++ [0] ++ lit "*" ++ [0] ++ lit " " ++ [0].

(** src/keyboard.c:25-47. *)
Definition keyboard_handler : K () :=
  sc <- inb 0x60 ;;
  if (sc =? 0x2A) || (sc =? 0x36) then modify (upd_shift_down (λ _, 1))
  else if (sc =? 0xAA) || (sc =? 0xB6) then modify (upd_shift_down (λ _, 0))
  else if negb (Z.land sc 0x80 =? 0) then ret tt
  else if sc =? 0x0E then shell_push_char 8
  else
    shift <- gets shift_down ;;
    let c := if sc <? Z.of_nat (length normal_map)
             then default 0 ((if negb (shift =? 0) then shift_map else normal_map) !! Z.to_nat sc)
             else 0 in
    if c =? 0 then ret tt else shell_push_char c.

(** ** serial.c, receiving *)

(** src/serial.c:69-76, what a received byte is turned into. *)
Definition serial_char (byte : Z) : Z :=
  let byte := if byte =? 13 then 10 else byte in
  let byte := if byte =? 0x7F then 8 else byte in
  s8 byte.

(** src/serial.c:68-77, one turn of the loop. *)
Definition serial_step (_ : ()) : K (() + ()) :=
  st <- inb (COM1 + REG_LSR) ;;
  if Z.land st LSR_DATA_READY =? 0 then ret (inr tt)
  else
    byte <- inb (COM1 + REG_DATA) ;;
    modify (upd_serial_st (λ s, set_rx_count (rx_count s +u 1) s)) ;;;
    shell_push_char (serial_char byte) ;;;
    ret (inl tt).

(** src/serial.c:67-77.  How long the loop runs is up to the device; [fuel]
    bounds the number of bytes it delivers in one interrupt. *)
Definition serial_handler (fuel : nat) : K () := while_fuel fuel serial_step tt.
