(* ===== verification/Timer.v ===== *)
(** * timer.c: the PIT and the tick counter *)
From stdpp Require Import prelude gmap list strings.
From Stdlib Require Import Lia ZArith.
From S2P Require Import Prelude Machine State Util Console Memory Pmm Paging Heap HeapSpec.
From S2P Require Import HeapProof HeapMap Frames Alloc Task.

#[local] Open Scope Z_scope.

Definition PIT_FREQUENCY : Z := 1193182.
Definition PIT_CHANNEL0 : Z := 0x40.
Definition PIT_COMMAND : Z := 0x43.
(** src/timer.h *)
Definition TIMER_HZ : Z := 100.

(** src/timer.c:13-20. *)
Definition timer_init : K () :=
  let divisor := PIT_FREQUENCY / TIMER_HZ in
  outb PIT_COMMAND 0x36 ;;;
  outb PIT_CHANNEL0 (Z.land divisor 0xFF) ;;;
  outb PIT_CHANNEL0 (Z.land (Z.shiftr divisor 8) 0xFF).

(** src/timer.c:22-25. *)
Definition timer_tick : K () :=
  modify (upd_ticks (λ t, t +u 1)) ;;;
  scheduler_tick.

(** src/timer.c:27-28. *)
Definition timer_ticks : K Z := gets ticks.
Definition timer_seconds : K Z := gets (λ k, ticks k / TIMER_HZ).

Section sleep.
(** Everything that happens from a [hlt] until the same task continues:
    interrupts, and the turns of the other tasks. *)
Context (wait : K ()).

(** src/timer.c:32-33, one turn of the loop. *)
Definition sleep_step (target : Z) (_ : ()) : K (() + ()) :=
  t <- gets ticks ;;
  if t <? target then wait ;;; ret (inl tt) else ret (inr tt).

(** src/timer.c:31. *)
Definition sleep_target (now ms : Z) : Z := now +u (ms *u TIMER_HZ) / 1000.

(** src/timer.c:30-34. *)
Definition timer_sleep (fuel : nat) (ms : Z) : K () :=
  now <- gets ticks ;;
  while_fuel fuel (sleep_step (sleep_target now ms)) tt.
End sleep.
