(* ===== verification/Interrupts.v ===== *)
(** * idt.c and isr.c: interrupt gates and dispatch *)
From stdpp Require Import prelude gmap list strings pretty.
From Stdlib Require Import Lia ZArith.
From S2P Require Import Prelude Machine State Util Console Memory Pmm Paging Heap HeapSpec.
From S2P Require Import HeapProof HeapMap Frames Alloc Task Input Timer.

#[local] Open Scope Z_scope.

Definition IDT_ENTRIES : Z := 256.

(** ** idt.c *)
Definition no_gate : idt_entry := IdtEntry 0 0 0 0 0.

(** src/idt.c:12-18; the fields are 16, 16, 8, 8 and 16 bits wide. *)
Definition make_gate (base selector flags : Z) : idt_entry :=
  IdtEntry (Z.land base 0xFFFF) (u16 selector) 0 (u8 flags) (Z.land (Z.shiftr base 16) 0xFFFF).
Definition idt_set_gate (num base selector flags : Z) : K () :=
  modify (upd_idt_st (λ s,
    set_idt_table (<[Z.to_nat (u8 num) := make_gate base selector flags]> (idt_table s)) s)).

(** src/idt.c:20-36; [lidt] loads the pair (limit, base) from [idtp]. *)
Definition idt_install : K () :=
  modify (upd_idt_st (set_idtp_limit (8 * IDT_ENTRIES - 1))) ;;;
  base <- on_mach (λ m, sym m "idt") ;;
  modify (upd_idt_st (set_idtp_base base)) ;;;
  for_range (Z.to_nat IDT_ENTRIES) 0 (λ i,
    modify (upd_idt_st (λ s, set_idt_table (<[Z.to_nat i := no_gate]> (idt_table s)) s))) ;;;
  modify (upd_idt_st (λ s, set_idtr (Some (idtp_limit s, idtp_base s)) s)).

(** The handler address the processor finds in a gate. *)
Definition gate_base (g : idt_entry) : Z := base_low g + 0x10000 * base_high g.

(** ** isr.c *)

(** src/isr.c:24-35. *)
Definition pic_remap : K () :=
  outb 0x20 0x11 ;;;
  outb 0xA0 0x11 ;;;
  outb 0x21 0x20 ;;;
  outb 0xA1 0x28 ;;;
  outb 0x21 0x04 ;;;
  outb 0xA1 0x02 ;;;
  outb 0x21 0x01 ;;;
  outb 0xA1 0x01 ;;;
  outb 0x21 0x0 ;;;
  outb 0xA1 0x0.

(** src/isr.c:40-88, the vector and the stub of each call. *)
Definition gates : list (Z * string) :=
  ((λ i, (i, "isr" +:+ pretty i)) <$> seqZ 0 32) ++
  ((λ i, (32 + i, "irq" +:+ pretty i)) <$> seqZ 0 16).

Fixpoint set_gates (l : list (Z * string)) : K () :=
  match l with
  | [] => ret tt
  | (num, stub) :: l =>
      base <- on_mach (λ m, sym m stub) ;;
      idt_set_gate num base 0x08 0x8E ;;;
      set_gates l
  end.

(** src/isr.c:37-89. *)
Definition isr_install : K () := pic_remap ;;; set_gates gates.

(** src/isr.c:91-100. *)
Definition exception_names : list cstr := lit <$> [
  "divide by zero"; "debug"; "non-maskable interrupt"; "breakpoint";
  "overflow"; "bound range exceeded"; "invalid opcode"; "device not available";
  "double fault"; "coprocessor segment overrun"; "invalid TSS";
  "segment not present"; "stack-segment fault"; "general protection fault";
  "page fault"; "reserved"; "x87 floating-point"; "alignment check";
  "machine check"; "SIMD floating-point"; "virtualization"; "control protection";
  "reserved"; "reserved"; "reserved"; "reserved"; "reserved"; "reserved";
  "reserved"; "reserved"; "reserved"; "reserved"]%string.

(** src/isr.c:102-126. *)
Definition isr_handler (r : registers) : K () :=
  if int_no r =? 3 then
    print (lit "[breakpoint at ") ;;;
    print_hex (eip r) ;;;
    print (lit "]\n")
  else
    when (int_no r =? 14) (page_fault_handler (err_code r)) ;;;
    print (lit "\n*** CPU EXCEPTION ") ;;;
    print_int (int_no r) ;;;
    print (lit ": ") ;;;
    print (if int_no r <? 32 then default [] (exception_names !! Z.to_nat (int_no r))
           else lit "unknown") ;;;
    print (lit " ***\n  eip: ") ;;;
    print_hex (eip r) ;;;
    print (lit "  err: ") ;;;
    print_hex (err_code r) ;;;
    print (lit "\nSystem halted.\n") ;;;
    halt_forever.

(** src/isr.c:128-143. *)
Definition irq_handler (fuel : nat) (r : registers) : K () :=
  when (40 <=? int_no r) (outb 0xA0 0x20) ;;;
  outb 0x20 0x20 ;;;
  if int_no r =? 32 then timer_tick
  else if int_no r =? 33 then keyboard_handler
  else if int_no r =? 36 then serial_handler fuel
  else ret tt.
