(* ===== verification/Stubs.v ===== *)
(** * isr.asm: the way into and out of the handlers

    What the processor does when it takes an interrupt, the entry stubs, the
    two common stubs, and [iret], instruction by instruction.  The data segment
    registers are passed along explicitly; the code segment is the kernel's,
    [cs_sel].  Addresses inside a routine are not distinguished: the return
    address a [call] pushes is the routine's. *)
From stdpp Require Import prelude gmap list strings.
From Stdlib Require Import Lia ZArith.
From S2P Require Import Prelude Machine State Util Console Memory Pmm Paging Heap HeapSpec.
From S2P Require Import HeapProof HeapMap Frames Alloc Task Input Timer Interrupts.

#[local] Open Scope Z_scope.

(** The data segment registers. *)
Record segments := Segments { seg_ds : Z; seg_es : Z; seg_fs : Z; seg_gs : Z }.
Definition flat (v : Z) : segments := Segments v v v v.

(** [mov ax, v]: the upper half of eax stays. *)
Definition with_ax (v : Z) (r : regfile) : regfile := with_eax (Z.lor (Z.land (r_eax r) 0xFFFF0000) v) r.

(** [cli] clears the interrupt flag. *)
Definition cli : K () := upd_regs (λ r, with_eflags (Z.ldiff (r_eflags r) 0x200) r).
(** [add esp, n]. *)
Definition add_esp (n : Z) : K () := upd_regs (λ r, with_esp (r_esp r +u n) r).
(** [jmp]. *)
Definition jump (label : string) : K () := a <- on_mach (λ m, sym m label) ;; upd_regs (with_eip a).

Section stubs.
Context (cs_sel : Z).

(** The processor takes the interrupt (Intel manual vol. 3, 6.12.1: an interrupt
    gate clears TF, IF, NT, RF and VM); an exception pushes its error code, if
    it has one, afterwards. *)
Definition deliver (vec : Z) : K () :=
  fl <- reg r_eflags ;; push fl ;;;
  push cs_sel ;;;
  ip <- reg r_eip ;; push ip ;;;
  upd_regs (λ r, with_eflags (Z.ldiff (r_eflags r) 0x34300) r) ;;;
  g <- gets (λ k, default no_gate (idt_table (idt_st k) !! Z.to_nat vec)) ;;
  upd_regs (with_eip (gate_base g)).

(** src/isr.asm:48-55, the exceptions without an error code. *)
Definition isr_noerr (n : Z) : K () := cli ;;; push 0 ;;; push n ;;; jump "isr_common_stub".
(** src/isr.asm:57-63, those with one. *)
Definition isr_err (n : Z) : K () := cli ;;; push n ;;; jump "isr_common_stub".
(** src/isr.asm:65-72. *)
Definition irq_stub (n : Z) : K () := cli ;;; push 0 ;;; push n ;;; jump "irq_common_stub".

(** src/isr.asm:7-16 and, the same, 28-37: up to the call of the handler; the
    result is the pointer passed to it. *)
Definition common_enter (sg : segments) : K Z :=
  pusha ;;;
  upd_regs (with_ax (seg_ds sg)) ;;;
  a <- reg r_eax ;; push a ;;;
  upd_regs (with_ax 0x10) ;;;
  p <- reg r_esp ;; push p ;;;
  ip <- reg r_eip ;; push ip ;;;
  ret p.

(** src/isr.asm:17-25 and, the same, 38-46: after the handler has returned; the
    result is the segment registers loaded. *)
Definition common_leave : K (segments * Z) :=
  ip <- pop ;; upd_regs (with_eip ip) ;;;
  add_esp 4 ;;;
  a <- pop ;; upd_regs (with_eax a) ;;;
  let sg := flat (Z.land a 0xFFFF) in
  popa ;;;
  add_esp 8 ;;;
  ip <- pop ;; upd_regs (with_eip ip) ;;;
  c <- pop ;;
  fl <- pop ;; upd_regs (with_eflags fl) ;;;
  ret (sg, c).

(** The structure the stubs leave on the stack, as the handlers read it
    (src/isr.h:6-11); its last two fields exist only after a change of privilege, and
    no handler reads them. *)
Definition load_frame (p : Z) : K registers :=
  v0 <- load32 p ;; v1 <- load32 (p +u 4) ;; v2 <- load32 (p +u 8) ;; v3 <- load32 (p +u 12) ;;
  v4 <- load32 (p +u 16) ;; v5 <- load32 (p +u 20) ;; v6 <- load32 (p +u 24) ;; v7 <- load32 (p +u 28) ;;
  v8 <- load32 (p +u 32) ;; v9 <- load32 (p +u 36) ;; v10 <- load32 (p +u 40) ;; v11 <- load32 (p +u 44) ;;
  v12 <- load32 (p +u 48) ;; v13 <- load32 (p +u 52) ;;
  ret (Registers v0 v1 v2 v3 v4 v5 v6 v7 v8 v9 v10 v11 v12 v13 0 0).

(** src/isr.asm:6-25. *)
Definition isr_common_stub (sg : segments) : K (segments * Z) :=
  p <- common_enter sg ;; r <- load_frame p ;; isr_handler r ;;; common_leave.
(** src/isr.asm:27-46, as long as the handler comes back on the same stack; what
    happens when it does not is the subject of Preemption.v. *)
Definition irq_common_stub (fuel : nat) (sg : segments) : K (segments * Z) :=
  p <- common_enter sg ;; r <- load_frame p ;; irq_handler fuel r ;;; common_leave.

(** src/isr.asm:27-37, with what comes before: an interrupt request up to the
    call of [irq_handler], and up to the handler's return. *)
Definition irq_enter (sg : segments) (n : Z) : K Z := deliver n ;;; irq_stub n ;;; common_enter sg.
Definition irq_call (fuel : nat) (sg : segments) (n : Z) : K () :=
  p <- irq_enter sg n ;; r <- load_frame p ;; irq_handler fuel r.
(** src/isr.asm:6-25, with what comes before: a breakpoint, from the [int3] to the
    [iret]. *)
Definition take_breakpoint (sg : segments) : K (segments * Z) :=
  deliver 3 ;;; isr_noerr 3 ;;; isr_common_stub sg.
End stubs.
