(* ===== verification/Shell.v ===== *)
(** * shell.c: the commands and the line editor

    Every command of the shell over the components it calls, the dispatch of
    a line, and the character loop that drains the ring of Input.v into the
    line buffer.  [sleep] waits: [wait] stands for everything that happens
    while the kernel task is halted, and [fuel] bounds the waits. *)
From stdpp Require Import prelude gmap list strings.
From Stdlib Require Import Lia ZArith.
From S2P Require Import Prelude Machine State Util Console Memory Pmm Paging Heap HeapSpec.
From S2P Require Import HeapProof HeapMap Frames Alloc Task Input Timer.

#[local] Open Scope Z_scope.

(** src/shell.c:13-15. *)
Definition shell_prompt : K () := print (lit "jarvis> ").

(** ** Commands that only print *)

(** src/shell.c:17-49. *)
Definition cmd_help : K () :=
  print (lit "JarvisOS commands:\n") ;;;
  print (lit "  help     - show this list\n") ;;;
  print (lit "  clear    - clear the screen\n") ;;;
  print (lit "  echo X   - print X back\n") ;;;
  print (lit "  about    - about JarvisOS\n") ;;;
  print (lit "  version  - kernel version\n") ;;;
  print (lit "  calc     - calc 2 + 3  (also - * /)\n") ;;;
  print (lit "  banner   - show the banner\n") ;;;
  print (lit "  meminfo  - memory statistics\n") ;;;
  print (lit "  memmap   - physical memory regions\n") ;;;
  print (lit "  frames   - frame allocator status\n") ;;;
  print (lit "  alloc    - allocate one 4KB frame\n") ;;;
  print (lit "  free A   - free the frame at address A (hex, e.g. 0x200000)\n") ;;;
  print (lit "  paging   - paging status\n") ;;;
  print (lit "  virt A   - translate virtual address A to physical\n") ;;;
  print (lit "  map A    - map a fresh frame at virtual address A\n") ;;;
  print (lit "  unmap A  - unmap A and return its frame\n") ;;;
  print (lit "  fault    - trigger a page fault on purpose (halts)\n") ;;;
  print (lit "  heap     - kernel heap statistics and block list\n") ;;;
  print (lit "  kmalloc N- allocate N bytes on the kernel heap\n") ;;;
  print (lit "  kfree A  - free the heap pointer at address A (hex)\n") ;;;
  print (lit "             (use the address kmalloc printed, e.g. 0xC0000010)\n") ;;;
  print (lit "  uptime   - time since boot\n") ;;;
  print (lit "  ps       - list tasks and context switches\n") ;;;
  print (lit "  spawn N  - start a background task called N\n") ;;;
  print (lit "  kill ID  - stop task ID\n") ;;;
  print (lit "  sleep MS - sleep for MS milliseconds\n") ;;;
  print (lit "  serial   - UART status and byte counts\n") ;;;
  print (lit "  reboot   - restart the machine\n") ;;;
  print (lit "  halt     - stop the CPU\n").

(** src/shell.c:51-55. *)
Definition cmd_about : K () :=
  print (lit "JarvisOS - a hobby operating system built from scratch in C & asm.\n") ;;;
  print (lit "Drivers, interrupts, shell, and a physical memory manager.\n").

(** src/shell.c:57-60. *)
Definition cmd_version : K () :=
  print (lit "JarvisOS 1.0.0 (32-bit x86)\n").

(** src/shell.c:67-74. *)
Definition cmd_banner : K () :=
  print (lit "     _                  _      ___  ____  \n") ;;;
  print (lit "    | | __ _ _ ____   _(_)___ / _ \\/ ___| \n") ;;;
  print (lit " _  | |/ _` | '__\\ \\ / / / __| | | \\___ \\ \n") ;;;
  print (lit "| |_| | (_| | |   \\ V /| \\__ \\ |_| |___) |\n") ;;;
  print (lit " \\___/ \\__,_|_|    \\_/ |_|___/\\___/|____/ \n").

(** src/shell.c:62-65. *)
Definition cmd_echo (args : cstr) : K () := print args ;;; print (lit "\n").

(** ** calc *)

(** src/shell.c:80. *)
Fixpoint skip_digits (s : cstr) : cstr :=
  match s with c :: s' => if is_digit c then skip_digits s' else s | [] => [] end.

(** src/shell.c:77-84: the operands and the operator. *)
Definition calc_parse (args : cstr) : Z * Z * Z :=
  let a := atoi args in
  let p := skip_spaces args in
  let p := if deref p =? 45 then tail p else p in
  let p := skip_spaces (skip_digits p) in
  let op := deref p in
  let p := if negb (op =? 0) then tail p else p in
  let p := skip_spaces p in
  (a, op, atoi p).

(** src/shell.c:76-100; 43, 45, 42 and 47 are [+ - * /]. *)
Definition cmd_calc (args : cstr) : K () :=
  let '(a, op, b) := calc_parse args in
  let done (result : Z) : K () := print_int result ;;; print (lit "\n") in
  if op =? 43 then done (s32 (a + b))
  else if op =? 45 then done (s32 (a - b))
  else if op =? 42 then done (s32 (a * b))
  else if op =? 47 then
    if b =? 0 then print (lit "error: divide by zero\n")
    else if (a =? -0x80000000) && (b =? -1) then divide_error
    else done (Z.quot a b)
  else print (lit "usage: calc 2 + 3\n").

(** ** Memory commands *)

(** src/shell.c:102-120. *)
Definition cmd_meminfo : K () :=
  print (lit "Total reported : ") ;;;
  n <- mem_total_kb ;; print_int n ;;;
  print (lit " KB\n") ;;;
  print (lit "Usable RAM     : ") ;;;
  n <- mem_usable_kb ;; print_int n ;;;
  print (lit " KB (") ;;;
  n <- mem_usable_kb ;; print_int (n / 1024) ;;;
  print (lit " MB)\n") ;;;
  print (lit "Highest address: ") ;;;
  n <- mem_highest_addr ;; print_hex n ;;;
  print (lit "\n") ;;;
  print (lit "Free frames    : ") ;;;
  n <- pmm_free_frames ;; print_int n ;;;
  print (lit " of ") ;;;
  n <- pmm_total_frames ;; print_int n ;;;
  print (lit "\n").

(** src/shell.c:122-125. *)
Definition cmd_memmap : K () := memory_print_map.

(** src/shell.c:127-148. *)
Definition cmd_frames : K () :=
  print (lit "Frame size   : 4096 bytes\n") ;;;
  print (lit "Total frames : ") ;;;
  n <- pmm_total_frames ;; print_int n ;;;
  print (lit "\n") ;;;
  print (lit "Used frames  : ") ;;;
  n <- pmm_used_frames ;; print_int n ;;;
  print (lit " (") ;;;
  n <- pmm_used_frames ;; print_int ((n *u 4) / 1024) ;;;
  print (lit " MB)\n") ;;;
  print (lit "Free frames  : ") ;;;
  n <- pmm_free_frames ;; print_int n ;;;
  print (lit " (") ;;;
  n <- pmm_free_frames ;; print_int ((n *u 4) / 1024) ;;;
  print (lit " MB)\n") ;;;
  print (lit "Bitmap at    : ") ;;;
  n <- pmm_bitmap_addr ;; print_hex n ;;;
  print (lit "  size ") ;;;
  n <- pmm_bitmap_size ;; print_int n ;;;
  print (lit " bytes\n").

(** src/shell.c:150-162. *)
Definition cmd_alloc : K () :=
  addr <- pmm_alloc_frame ;;
  if addr =? 0 then print (lit "out of memory!\n")
  else
    print (lit "allocated frame at ") ;;;
    print_hex addr ;;;
    print (lit "   (free now: ") ;;;
    n <- pmm_free_frames ;; print_int n ;;;
    print (lit ")\n").

(** src/shell.c:164-176. *)
Definition cmd_free (args : cstr) : K () :=
  let addr := atoi_hex args in
  if addr =? 0 then print (lit "usage: free 0x200000\n")
  else
    pmm_free_frame addr ;;;
    print (lit "freed frame at ") ;;;
    print_hex addr ;;;
    print (lit "   (free now: ") ;;;
    n <- pmm_free_frames ;; print_int n ;;;
    print (lit ")\n").

(** src/shell.c:178-196. *)
Definition cmd_heap : K () :=
  print (lit "Heap base   : ") ;;;
  print_hex HEAP_START ;;;
  print (lit "\nMapped      : ") ;;;
  n <- heap_size ;; print_int (n / 1024) ;;;
  print (lit " KB (break at ") ;;;
  n <- heap_break ;; print_hex n ;;;
  print (lit ")\nUsed        : ") ;;;
  n <- heap_used ;; print_int n ;;;
  print (lit " bytes\nFree        : ") ;;;
  n <- heap_free ;; print_int n ;;;
  print (lit " bytes\nBlocks      : ") ;;;
  n <- heap_blocks ;; print_int n ;;;
  print (lit " total, ") ;;;
  n <- heap_free_blocks ;; print_int n ;;;
  print (lit " free\n") ;;;
  heap_dump.

(** src/shell.c:198-215. *)
Definition cmd_kmalloc (args : cstr) : K () :=
  let size := atoi args in
  if size <=? 0 then print (lit "usage: kmalloc 128\n")
  else
    p <- kmalloc (u32 size) ;;
    if p =? 0 then print (lit "kmalloc failed: heap exhausted\n")
    else
      memset p 0xAB (u32 size) ;;;
      print (lit "kmalloc(") ;;;
      print_int size ;;;
      print (lit ") = ") ;;;
      print_hex p ;;;
      print (lit "   (physical ") ;;;
      a <- paging_translate p ;; print_hex a ;;;
      print (lit ")\n").

(** src/shell.c:217-228. *)
Definition cmd_kfree (args : cstr) : K () :=
  let addr := atoi_hex args in
  if addr =? 0 then print (lit "usage: kfree 0xC000000C\n")
  else
    r <- kfree addr ;;
    if r =? 0 then ret tt
    else
      print (lit "freed ") ;;;
      print_hex addr ;;;
      print (lit "   (heap free now: ") ;;;
      n <- heap_free ;; print_int n ;;;
      print (lit " bytes)\n").

(** src/shell.c:230-245. *)
Definition cmd_paging : K () :=
  print (lit "Paging      : ") ;;;
  e <- paging_is_enabled ;;
  print (if negb (e =? 0) then lit "ENABLED\n" else lit "disabled\n") ;;;
  print (lit "Directory at: ") ;;;
  n <- paging_dir_phys ;; print_hex n ;;;
  print (lit "\nIdentity map: 0x00000000 - ") ;;;
  n <- paging_identity_end ;; print_hex (n -u 1) ;;;
  print (lit "\nPage tables : ") ;;;
  n <- paging_table_count ;; print_int n ;;;
  print (lit "\nMapped pages: ") ;;;
  n <- paging_mapped_pages ;; print_int n ;;;
  print (lit " (") ;;;
  n <- paging_mapped_pages ;; print_int ((n *u 4) / 1024) ;;;
  print (lit " MB)\n").

(** src/shell.c:247-259. *)
Definition cmd_virt (args : cstr) : K () :=
  let virt := atoi_hex args in
  phys <- paging_translate virt ;;
  print_hex virt ;;;
  if phys =? PAGE_UNMAPPED then print (lit " is not mapped\n")
  else
    print (lit " -> ") ;;;
    print_hex phys ;;;
    print (if virt =? phys then lit "  (identity)\n" else lit "  (translated)\n").

(** [~(PAGE_SIZE - 1)] *)
Definition page_mask : Z := ~u (PAGE_SIZE - 1).

(** src/shell.c:263-292. *)
Definition cmd_map (args : cstr) : K () :=
  let virt := Z.land (atoi_hex args) page_mask in
  if virt =? 0 then print (lit "usage: map 0xD0000000\n")
  else
    t <- paging_translate virt ;;
    if negb (t =? PAGE_UNMAPPED) then print (lit "that address is already mapped\n")
    else
      frame <- pmm_alloc_frame ;;
      if frame =? 0 then print (lit "out of physical memory\n")
      else
        r <- paging_map virt frame PAGE_WRITE ;;
        if r =? 0 then
          pmm_free_frame frame ;;;
          print (lit "mapping failed (no frame for a page table)\n")
        else
          store32 virt 0x1234ABCD ;;;
          print (lit "mapped ") ;;;
          print_hex virt ;;;
          print (lit " -> ") ;;;
          print_hex frame ;;;
          print (lit "\nwrote 0x1234ABCD, read back ") ;;;
          v <- load32 virt ;; print_hex v ;;;
          print (lit "\n").

(** src/shell.c:294-309. *)
Definition cmd_unmap (args : cstr) : K () :=
  let virt := Z.land (atoi_hex args) page_mask in
  phys <- paging_translate virt ;;
  if phys =? PAGE_UNMAPPED then print (lit "not mapped\n")
  else
    iend <- paging_identity_end ;;
    if virt <? iend then print (lit "refusing to unmap the identity region\n")
    else
      paging_unmap virt ;;;
      pmm_free_frame (Z.land phys page_mask) ;;;
      print (lit "unmapped ") ;;;
      print_hex virt ;;;
      print (lit " and returned the frame\n").

(** src/shell.c:311-316. *)
Definition cmd_fault : K () :=
  print (lit "Touching unmapped memory at 0xDEADB000 on purpose...\n") ;;;
  store32 0xDEADB000 1.

(** ** Devices, time and tasks *)

(** src/shell.c:318-328. *)
Definition cmd_serial : K () :=
  print (lit "COM1 (0x3F8) : ") ;;;
  r <- serial_is_ready ;;
  print (if negb (r =? 0) then lit "present, 38400 8N1\n" else lit "not detected\n") ;;;
  print (lit "Bytes sent   : ") ;;;
  n <- serial_tx_count ;; print_int n ;;;
  print (lit "\nBytes received: ") ;;;
  n <- serial_rx_count ;; print_int n ;;;
  print (lit "\nAll console output is mirrored here, and anything typed on the\n") ;;;
  print (lit "serial line drives the same shell as the keyboard.\n").

(** src/shell.c:330-343. *)
Definition cmd_uptime : K () :=
  secs <- timer_seconds ;;
  print (lit "Up ") ;;;
  print_int (secs / 60) ;;;
  print (lit "m ") ;;;
  print_int (secs mod 60) ;;;
  print (lit "s  (") ;;;
  n <- timer_ticks ;; print_int n ;;;
  print (lit " ticks at ") ;;;
  print_int TIMER_HZ ;;;
  print (lit " Hz)\n").

(** src/shell.c:349-366, one line of the table. *)
Definition ps_line (i : Z) : K () :=
  t <- task_get i ;;
  match t with
  | None => ret tt
  | Some t =>
      if bool_decide (state t = TASK_UNUSED) then ret tt
      else
        print_int (task_id t) ;;;
        print (lit "   ") ;;;
        print (name t) ;;;
        for_range (Z.to_nat (11 - strlen (name t))) (strlen (name t)) (λ _, print (lit " ")) ;;;
        print (match state t with
               | TASK_RUNNING => lit "running  " | TASK_READY => lit "ready    "
               | _ => lit "dead     " end) ;;;
        print_int (slices t) ;;;
        print (lit "      ") ;;;
        print_int (counter t) ;;;
        print (lit "\n")
  end.

(** src/shell.c:345-373. *)
Definition cmd_ps : K () :=
  print (lit "ID  NAME       STATE    SLICES   WORK\n") ;;;
  for_range (Z.to_nat MAX_TASKS) 0 ps_line ;;;
  print (lit "Context switches: ") ;;;
  n <- task_switches ;; print_int n ;;;
  print (lit "   current task: ") ;;;
  n <- task_current_id ;; print_int n ;;;
  print (lit "\n").

(** src/shell.c:375-391. *)
Definition cmd_spawn (args : cstr) : K () :=
  let nm := if negb (deref args =? 0) then args else lit "worker" in
  id <- task_spawn_counter nm ;;
  if id <? 0 then print (lit "cannot spawn: no free task slot or heap space\n")
  else
    print (lit "spawned task ") ;;;
    print_int id ;;;
    print (lit " ('") ;;;
    print nm ;;;
    print (lit "') with an ") ;;;
    print_int (TASK_STACK_SIZE / 1024) ;;;
    print (lit " KB stack from the heap\n").

(** src/shell.c:393-403. *)
Definition cmd_kill (args : cstr) : K () :=
  let id := atoi args in
  r <- task_kill (u32 id) ;;
  if r =? 0 then print (lit "no such task (and task 0 is the kernel itself)\n")
  else
    print (lit "task ") ;;;
    print_int id ;;;
    print (lit " marked dead; its stack returns to the heap on the next tick\n").

(** src/shell.c:418-422; the processor does not come back from this [outb]. *)
Definition cmd_reboot : K () := print (lit "Rebooting...\n") ;;; outb 0x64 0xFE.

(** src/shell.c:424-428; with interrupts off, nothing wakes [hlt]. *)
Definition cmd_halt : K () :=
  print (lit "System halted. You can close QEMU.\n") ;;; halt_forever.

(** src/shell.c:430-433. *)
Definition cmd_clear : K () := clear_screen.

(** ** Dispatch *)

(** src/shell.c:438-441: at most 31 characters up to a space or the end go to
    [cmd]; [args] starts after the character that ended the copy. *)
Fixpoint split_cmd (room : nat) (line : cstr) : cstr * cstr :=
  match line, room with
  | c :: line', S room =>
      if (c =? 0) || (c =? 32) then ([], line)
      else let '(cmd, rest) := split_cmd room line' in (c :: cmd, rest)
  | _, _ => ([], line)
  end.
Definition parse_line (line : cstr) : cstr * cstr :=
  let '(cmd, rest) := split_cmd 31 line in
  (cmd, if negb (deref rest =? 0) then tail rest else rest).

Definition is_cmd (cmd : cstr) (s : string) : bool := strcmp cmd (lit s) =? 0.

Section execute.
Context (wait : K ()) (fuel : nat).

(** src/shell.c:405-416. *)
Definition cmd_sleep (args : cstr) : K () :=
  let ms := atoi args in
  if ms <=? 0 then print (lit "usage: sleep 500   (milliseconds)\n")
  else
    print (lit "sleeping ") ;;;
    print_int ms ;;;
    print (lit " ms...\n") ;;;
    timer_sleep wait fuel (u32 ms) ;;;
    print (lit "awake again at tick ") ;;;
    n <- timer_ticks ;; print_int n ;;;
    print (lit "\n").

(** src/shell.c:443-476, the chain of comparisons. *)
Definition run_command (cmd args : cstr) : K () :=
  if is_cmd cmd "help" then cmd_help
  else if is_cmd cmd "clear" then cmd_clear
  else if is_cmd cmd "echo" then cmd_echo args
  else if is_cmd cmd "about" then cmd_about
  else if is_cmd cmd "version" then cmd_version
  else if is_cmd cmd "calc" then cmd_calc args
  else if is_cmd cmd "banner" then cmd_banner
  else if is_cmd cmd "meminfo" then cmd_meminfo
  else if is_cmd cmd "memmap" then cmd_memmap
  else if is_cmd cmd "frames" then cmd_frames
  else if is_cmd cmd "alloc" then cmd_alloc
  else if is_cmd cmd "free" then cmd_free args
  else if is_cmd cmd "heap" then cmd_heap
  else if is_cmd cmd "kmalloc" then cmd_kmalloc args
  else if is_cmd cmd "kfree" then cmd_kfree args
  else if is_cmd cmd "paging" then cmd_paging
  else if is_cmd cmd "virt" then cmd_virt args
  else if is_cmd cmd "map" then cmd_map args
  else if is_cmd cmd "unmap" then cmd_unmap args
  else if is_cmd cmd "fault" then cmd_fault
  else if is_cmd cmd "serial" then cmd_serial
  else if is_cmd cmd "uptime" then cmd_uptime
  else if is_cmd cmd "ps" then cmd_ps
  else if is_cmd cmd "spawn" then cmd_spawn args
  else if is_cmd cmd "kill" then cmd_kill args
  else if is_cmd cmd "sleep" then cmd_sleep args
  else if is_cmd cmd "reboot" then cmd_reboot
  else if is_cmd cmd "halt" then cmd_halt
  else
    print (lit "unknown command: ") ;;;
    print cmd ;;;
    print (lit "  (try 'help')\n").

(** src/shell.c:435-479. *)
Definition shell_execute (line : cstr) : K () :=
  if deref line =? 0 then shell_prompt
  else
    let '(cmd, args) := parse_line line in
    run_command cmd args ;;;
    shell_prompt.

(** ** The line editor *)
Definition LINE_MAX : Z := 128.

(** The C string a buffer holds. *)
Fixpoint c_string (buf : list Z) : cstr :=
  match buf with [] => [] | c :: buf => if c =? 0 then [] else c :: c_string buf end.

Definition poke_line (i v : Z) : K () :=
  modify (upd_shell_st (λ s, set_line_buf (<[Z.to_nat i := v]> (line_buf s)) s)).
Definition set_len (v : Z) : K () := modify (upd_shell_st (set_line_len v)).

(** src/shell.c:511-534. *)
Definition shell_input_char (c : Z) : K () :=
  if c =? 8 then
    n <- shell_g line_len ;;
    when (0 <? n) (set_len (s32 (n - 1)) ;;; backspace)
  else if c =? 10 then
    putchar 10 ;;;
    n <- shell_g line_len ;;
    poke_line n 0 ;;;
    set_len 0 ;;;
    buf <- shell_g line_buf ;;
    shell_execute (c_string buf)
  else if (c <? 32) || (126 <? c) then ret tt
  else
    n <- shell_g line_len ;;
    when (n <? LINE_MAX - 1) (
      poke_line n c ;;;
      set_len (s32 (n + 1)) ;;;
      putchar c).

(** src/shell.c:504-508, one turn of the loop. *)
Definition poll_step (_ : ()) : K (() + ()) :=
  t <- shell_g ring_tail ;;
  h <- shell_g ring_head ;;
  if t =? h then ret (inr tt)
  else
    c <- shell_g (λ s, default 0 (ring s !! Z.to_nat t)) ;;
    modify (upd_shell_st (set_ring_tail ((t +u 1) mod RING_SIZE))) ;;;
    shell_input_char c ;;;
    ret (inl tt).

(** src/shell.c:503-509; characters that arrive meanwhile are drained too. *)
Definition shell_poll (turns : nat) : K () := while_fuel turns poll_step tt.

(** src/shell.c:536-539. *)
Definition shell_init : K () := print (lit "\n") ;;; shell_prompt.
End execute.
