(* ===== verification/Boot.v ===== *)
(** * kernel.c: the boot sequence and the main loop *)
From stdpp Require Import prelude gmap list strings.
From Stdlib Require Import Lia ZArith.
From S2P Require Import Prelude Machine State Util Console Memory Pmm Paging Heap HeapSpec.
From S2P Require Import HeapProof HeapMap Frames Alloc Task Input Timer Interrupts Shell.

#[local] Open Scope Z_scope.

(** src/multiboot.h *)
Definition MULTIBOOT_MAGIC : Z := 0x2BADB002.

(** src/kernel.c:51-67, interrupts, scheduler and timer, and the first prompt. *)
Definition boot_devices : K () :=
  idt_install ;;;
  isr_install ;;;
  scheduler_init ;;;
  timer_init ;;;
  print (lit "Scheduler armed, PIT at ") ;;;
  print_int TIMER_HZ ;;;
  print (lit " Hz (") ;;;
  print_int (1000 / TIMER_HZ) ;;;
  print (lit " ms per tick).\n") ;;;
  sti ;;;
  print (lit "Interrupts online. Keyboard") ;;;
  r <- serial_is_ready ;;
  print (if negb (r =? 0) then lit " and COM1 serial ready.\n" else lit " ready (no serial port).\n") ;;;
  print (lit "Type 'help' for commands.\n") ;;;
  shell_init.

(** src/kernel.c:25-49, after the check of the magic number; then the devices. *)
Definition boot_rest (mbi : Z) : K () :=
  memory_init mbi ;;;
  print (lit "Memory map parsed: ") ;;;
  n <- mem_usable_kb ;; print_int (n / 1024) ;;;
  print (lit " MB usable RAM detected.\n") ;;;
  pmm_init ;;;
  print (lit "Physical allocator online: ") ;;;
  n <- pmm_free_frames ;; print_int n ;;;
  print (lit " free frames (") ;;;
  n <- pmm_free_frames ;; print_int ((n *u 4) / 1024) ;;;
  print (lit " MB).\n") ;;;
  paging_init ;;;
  print (lit "Paging enabled: identity map 0 - ") ;;;
  n <- paging_identity_end ;; print_hex n ;;;
  print (lit " (") ;;;
  n <- paging_table_count ;; print_int n ;;;
  print (lit " page tables).\n") ;;;
  heap_init ;;;
  print (lit "Kernel heap ready at ") ;;;
  print_hex HEAP_START ;;;
  print (lit " (") ;;;
  n <- heap_size ;; print_int (n / 1024) ;;;
  print (lit " KB mapped).\n") ;;;
  boot_devices.

(** src/kernel.c:15-23, and what follows. *)
Definition kernel_boot (magic mbi : Z) : K () :=
  serial_init ;;;
  clear_screen ;;;
  print (lit "JarvisOS 1.0.0 booting...\n") ;;;
  if negb (magic =? MULTIBOOT_MAGIC) then
    print (lit "FATAL: not booted by a Multiboot loader.\n") ;;;
    halt_forever
  else boot_rest mbi.

(** src/kernel.c:71-74, [turns] turns of the main loop; [wait] is what happens
    between [hlt] and the next turn. *)
Fixpoint main_loop (wait : K ()) (fuel turns : nat) : K () :=
  match turns with
  | O => ret tt
  | S turns => shell_poll wait fuel fuel ;;; wait ;;; main_loop wait fuel turns
  end.

(** src/kernel.c:15-75. *)
Definition kernel_main (wait : K ()) (fuel turns : nat) (magic mbi : Z) : K () :=
  kernel_boot magic mbi ;;; main_loop wait fuel turns.
