(* ===== verification/Booted.v ===== *)
(** * A small concrete machine

    A machine with 256 KB of RAM whose kernel image ends at 0x3000, taken
    through [pmm_init], [paging_init] and [heap_init] by computation.  The
    invariants of the components hold of it, and the witnesses of the theorems
    apply them to it, or to a state it reaches; other sizes of RAM are other
    arguments of [machine_with]. *)
From stdpp Require Import prelude gmap list strings.
From Stdlib Require Import Lia ZArith.
From S2P Require Import Prelude Machine State Util Console Memory Pmm Paging Heap HeapSpec.
From S2P Require Import HeapProof HeapMap Frames Alloc Task TaskProof Interrupts.

#[local] Open Scope Z_scope.

(** The addresses of the symbols the code refers to. *)
Definition demo_sym (s : string) : Z :=
  if String.eqb s "kernel_end" then 0x3000
  else if String.eqb s "tasks" then 0x2000
  else if String.eqb s "task_exit" then 0x1100 else 0x1000.

(** Every port answers "transmitter empty, nothing received". *)
Definition demo_env (_ : list io_event) (_ : Z) : Z := 0x20.

Definition demo_regs : regfile :=
  {| r_eax := 1; r_ecx := 2; r_edx := 3; r_ebx := 4; r_esp := 0x2800; r_ebp := 6; r_esi := 7;
     r_edi := 8; r_eflags := 0x202; r_eip := 0x1234 |}.

(** A machine with RAM from 0 to [top], powered on, its memory map read: the other
    statics have the values their declarations give them. *)
Definition machine_with (top : Z) : kernel :=
  {| mach := {| phys := ∅; cr0_pg := false; cr3 := 0; cr2 := 0; regs := demo_regs; io_log := [];
                io_env := demo_env; sym := demo_sym |};
     mem_st := {| total_kb := top / 1024; usable_kb := top / 1024; highest := top; region_count := 1;
                  regions := Region 0 top 1 :: replicate 31 (Region 0 0 0) |};
     pmm_st := {| bitmap := 0; total_frames := 0; used_frames := 0; bitmap_size := 0 |};
     paging_st := {| page_directory := 0; dir_phys := 0; identity_end := 0; table_count := 0;
                     mapped_pages := 0; paging_enabled := 0 |};
     heap_st := {| heap_head := 0; brk := 0; heap_ready := 0 |};
     sched_st := {| tasks := replicate 8 no_task; current := 0; sched_enabled := 0; switches := 0;
                    quantum_left := TASK_QUANTUM |};
     serial_st := {| serial_ready := 0; rx_count := 0; tx_count := 0 |};
     vga_st := {| vga_cells := replicate 2000 0; vga_stray := ∅; cursor_row := 0; cursor_col := 0; color := 15 |};
     idt_st := {| idt_table := replicate 256 no_gate; idtp_limit := 0; idtp_base := 0; idtr := None |};
     shell_st := {| line_buf := replicate 128 0; line_len := 0; ring := replicate 256 0;
                    ring_head := 0; ring_tail := 0 |};
     ticks := 0; shift_down := 0 |}.

(** 256 KB. *)
Definition cold : kernel := Eval cbv in machine_with 0x40000.

(** The state an operation leaves. *)
Definition run_state {A} (m : K A) (k : kernel) : kernel :=
  match m k with Ok _ k' => k' | _ => k end.

Definition framed : kernel := run_state pmm_init cold.
Definition paged : kernel := run_state paging_init framed.
Definition booted : kernel := run_state heap_init paged.

(** [closed] decides a closed arithmetic goal by computation, without looking
    at the hypotheses. *)
Ltac closed := vm_compute; repeat split; first [reflexivity | discriminate].

Lemma wp_run_state {A} (m : K A) (Q : A → kernel → Prop) k k' :
  k' = run_state m k → wp m Q k → ∃ a, Q a k'.
Proof. unfold wp, run_state. intros ->. destruct (m k); naive_solver. Qed.

Lemma framed_eq : framed = run_state pmm_init cold.
Proof. reflexivity. Qed.
Lemma paged_eq : paged = run_state paging_init framed.
Proof. reflexivity. Qed.
Lemma booted_eq : booted = run_state heap_init paged.
Proof. reflexivity. Qed.
#[global] Opaque framed paged booted.

(** ** The frame allocator *)
Lemma machine_boot top : 0 ≤ top < 0x100000000 → pmm_boot (machine_with top).
Proof.
  intros Htop. split; cbn; [done|lia| |done|done].
  assert (Forall (λ r, 0 ≤ r_base r < 0x100000000 ∧ 0 ≤ r_len r < 0x100000000)
    (regions (mem_st (machine_with top)))) as Hf.
  { apply Forall_cons. split; [cbn; lia|]. apply (Forall_replicate _ 31). cbn. lia. }
  intros r. unfold region_at. destruct (_ !! _) as [x|] eqn:Hx; [|cbn; lia].
  by eapply (Forall_lookup_1 _ _ _ _ Hf) in Hx.
Qed.

Lemma cold_boot : pmm_boot cold.
Proof. by apply (machine_boot 0x40000). Qed.

(** The frames in use after [pmm_init]: the image and the bitmap. *)
Definition frames0 : gset Z := list_to_set (seqZ 0 4).

Lemma elem_frames0 f : f ∈ frames0 ↔ 0 ≤ f < 4.
Proof. unfold frames0. rewrite elem_of_list_to_set, elem_of_seqZ. lia. Qed.

Lemma cold_usable f : 0 ≤ f < 64 → usable_frame (mem_st cold) (region_count (mem_st cold)) f.
Proof. intros Hf. exists 0. split; [by vm_compute|]. split; [by vm_compute|].
  change (0 / 0x1000 ≤ f < 0 / 0x1000 + 0x40000 / 0x1000). zlia.
Qed.

Lemma framed_rep : pmm_rep framed frames0.
Proof.
  destruct (wp_run_state _ _ _ _ framed_eq (pmm_init_rep cold cold_boot)) as ([] & _ & _ & _ & _ & Ht & U & HU & Hf).
  enough (U = frames0) as <- by done. apply set_eq. intros f. rewrite elem_frames0.
  assert (f ∈ U → 0 ≤ f < 64) as Hd.
  { intros H. apply (pr_dom _ _ HU) in H. rewrite Ht in H. exact H. }
  assert (last_reserved cold = 3) as Hl by by vm_compute.
  split.
  - intros H. pose proof (Hd H). apply Hf in H; [|done]. destruct H as [H|H]; [lia|].
    exfalso. apply H. by apply cold_usable.
  - intros H. apply Hf; [change (boot_total cold) with 64; lia|]. left. lia.
Qed.

(** ** Paging *)
Lemma framed_boot : paging_boot framed frames0.
Proof.
  split.
  - apply framed_rep.
  - by vm_compute.
  - by vm_compute.
  - by vm_compute.
  - by vm_compute.
  - by apply elem_frames0.
  - intros a. change (bm_lo framed ≤ a < bm_hi framed) with (0x3000 ≤ a < 0x3008).
    intros Ha. apply elem_frames0. zlia.
Qed.

Lemma paged_inv : ∃ U T P, paging_inv paged U T P ∧ frames0 ⊆ U ∧
  cr0_pg (mach paged) = true ∧ iend paged = 0x40000 ∧
  ∀ p, P !! p = if decide (0 ≤ p < 64) then Some (identity_entry p) else None.
Proof.
  destruct (wp_run_state _ _ _ _ paged_eq (paging_init_rep framed frames0 framed_boot ltac:(by vm_compute)
    ltac:(by vm_compute))) as ([] & U & T & P & Hi & HU & Hon & _ & He & _ & _ & _ & HP).
  exists U, T, P. split_and!; assumption.
Qed.

(** ** The heap *)
Lemma booted_inv : ∃ U T P, heap_inv booted U T P [initial_block].
Proof.
  destruct paged_inv as (U & T & P & Hi & _ & Hon & _ & _).
  destruct (wp_run_state _ _ _ _ booted_eq (heap_init_rep paged U T P Hi Hon)) as ([] & U' & T' & P' & _ & _ & [H|(_ & _ & _ & H)]).
  - exists U', T', P'; assumption.
  - exfalso. revert H. by vm_compute.
Qed.

Lemma booted_client : heap_client booted ∅.
Proof. destruct booted_inv as (U & T & P & H). exists U, T, P, [initial_block]. split; [assumption|reflexivity]. Qed.

(** After one [kmalloc(100)] and [kfree] of nothing else. *)
Definition held : kernel := run_state (kmalloc 100) booted.

Lemma held_eq : held = run_state (kmalloc 100) booted.
Proof. reflexivity. Qed.
#[global] Opaque held.

Lemma held_inv : ∃ U T P, heap_inv held U T P [Blk 104 false; Blk 65400 true].
Proof.
  destruct booted_inv as (U & T & P & H).
  destruct (wp_run_state _ _ _ _ held_eq (kmalloc_rep booted U T P _ 100 H ltac:(done))) as (r & U' & T' & P' & _ & _ & Hr).
  change (first_fit (align8 100) HEAP_START [initial_block])
    with (Some (HEAP_START + sizeof_block, [Blk 104 false; Blk 65400 true])) in Hr.
  destruct Hr as [_ Hr]. exists U', T', P'; assumption.
Qed.

(** ** The scheduler *)
Definition scheduling : kernel := run_state scheduler_init booted.

Lemma scheduling_eq : scheduling = run_state scheduler_init booted.
Proof. reflexivity. Qed.
#[global] Opaque scheduling.

(** The parts of a concrete state that arguments about it need are computed
    once. *)
Lemma booted_table : sched_st booted = sched_st cold.
Proof. vm_compute. reflexivity. Qed.

Lemma scheduling_wf : sched_wf (sched_st scheduling).
Proof.
  assert (length (tasks (sched_st booted)) = 8%nat) as Hl by (rewrite booted_table; reflexivity).
  assert (quantum_left (sched_st booted) = TASK_QUANTUM) as Hq by (rewrite booted_table; reflexivity).
  destruct (wp_run_state _ _ _ _ scheduling_eq (scheduler_init_rep booted Hl Hq)) as ([] & (H & _) & _). exact H.
Qed.

Definition initial_table : sched_state := Eval vm_compute in sched_st scheduling.
Lemma scheduling_table : sched_st scheduling = initial_table ∧ sym (mach scheduling) "task_exit" = 0x1100.
Proof. vm_compute. split; reflexivity. Qed.
