(* ===== verification/MemoryProps.v ===== *)
(** * Frames and pages: the properties

    What the frame allocator (src/pmm.c) and the page tables (src/paging.c)
    promise, stated on the code; the proofs apply the lemmas of Pmm.v and
    Paging.v.  The witnesses instantiate them on the machine of Booted.v. *)
From stdpp Require Import prelude gmap list strings.
From Stdlib Require Import Lia ZArith.
From S2P Require Import Prelude Machine State Util Console Memory Pmm Paging Heap HeapSpec.
From S2P Require Import HeapProof HeapMap Frames Alloc Task TaskProof Booted.

#[local] Open Scope Z_scope.

(** ** The frame allocator *)

(** C26: [pmm_alloc_frame] returns the address of the lowest frame that is not
    in use and marks exactly that frame used; when every frame is in use it
    returns 0 and changes nothing.  Only bitmap bytes change. *)
Theorem pmm_alloc_lowest k U :
  pmm_rep k U →
  wp pmm_alloc_frame (λ r k',
    (∃ f, least_free U (total_frames (pmm_st k)) f ∧ r = f * FRAME_SIZE ∧
       pmm_rep k' ({[f]} ∪ U) ∧ agrees_outside (image id (bm_lo k) (bm_hi k)) (mach k) (mach k')) ∨
    (r = 0 ∧ k' = k ∧ ∀ f, 0 ≤ f < total_frames (pmm_st k) → f ∈ U)) k.
Proof.
  intros HU. eapply wp_mono; [by apply pmm_alloc_frame_rep|]. intros r k' [(f & Hf & -> & HU' & Hs)|H].
  - left. exists f. split_and!; [done..|]. apply (ps_mem _ _ Hs).
  - by right.
Qed.

(** [cold] has frames 0 to 3 in use, so the first frame given out is frame 4. *)
Lemma pmm_alloc_lowest_witness :
  pmm_rep framed frames0 ∧ wp pmm_alloc_frame (λ r k',
    (∃ f, least_free frames0 (total_frames (pmm_st framed)) f ∧ r = f * FRAME_SIZE ∧
       pmm_rep k' ({[f]} ∪ frames0) ∧
       agrees_outside (image id (bm_lo framed) (bm_hi framed)) (mach framed) (mach k')) ∨
    (r = 0 ∧ k' = framed ∧ ∀ f, 0 ≤ f < total_frames (pmm_st framed) → f ∈ frames0)) framed.
Proof. split; [apply framed_rep|]. apply pmm_alloc_lowest, framed_rep. Defined.

(** Freeing the frame that was just allocated restores the set of used
    frames and the count [used_frames], whatever was in use. *)
Theorem pmm_alloc_free_restores k U :
  pmm_rep k U → 0 ∈ U →
  wp (a <- pmm_alloc_frame ;; when (negb (a =? 0)) (pmm_free_frame a) ;;; ret a)
     (λ a k', pmm_rep k' U ∧ used_frames (pmm_st k') = used_frames (pmm_st k) ∧
        (a = 0 → ∀ f, 0 ≤ f < total_frames (pmm_st k) → f ∈ U)) k.
Proof.
  intros HU H0. rewrite wp_bind. eapply wp_mono; [by apply pmm_alloc_frame_rep|].
  assert (∀ k', pmm_rep k' U → used_frames (pmm_st k') = used_frames (pmm_st k)) as Hu.
  { intros k' H'. by rewrite (pr_used _ _ HU), (pr_used _ _ H'). }
  intros r k' [(f & (Hf & HfU & Hmin) & -> & HU' & Hs)|(-> & -> & Hall)].
  - assert (f ≠ 0) by (intros ->; done). unfold FRAME_SIZE.
    assert (f * 4096 =? 0 = false) as -> by (apply Z.eqb_neq; lia). cbn [negb when].
    rewrite wp_bind. eapply wp_mono; [apply (pmm_free_frame_rep k' ({[f]} ∪ U)); [done|lia]|].
    intros [] k'' [HU'' _]. rewrite wp_ret.
    assert (({[f]} ∪ U) ∖ {[f * 4096 / FRAME_SIZE]} = U) as Heq.
    { unfold FRAME_SIZE. rewrite Z.div_mul by lia. set_solver. }
    rewrite Heq in HU''. split_and!; [done|by apply Hu|lia].
  - rewrite wp_bind. cbn [negb when Z.eqb]. rewrite !wp_ret. auto.
Qed.

(** From 60 free frames, one is taken and given back. *)
Lemma pmm_alloc_free_restores_witness :
  wp (a <- pmm_alloc_frame ;; when (negb (a =? 0)) (pmm_free_frame a) ;;; ret a)
     (λ a k', pmm_rep k' frames0 ∧ used_frames (pmm_st k') = used_frames (pmm_st framed) ∧
        (a = 0 → ∀ f, 0 ≤ f < total_frames (pmm_st framed) → f ∈ frames0)) framed.
Proof. apply pmm_alloc_free_restores; [apply framed_rep|by apply elem_frames0]. Defined.

(** C27: after [pmm_init] a frame is in use exactly if it belongs to the kernel
    image or the bitmap (or lies below them), or if GRUB did not report it
    usable; the bitmap represents that set. *)
Theorem pmm_init_exact k :
  pmm_boot k →
  wp pmm_init (λ _ k', total_frames (pmm_st k') = highest (mem_st k) / FRAME_SIZE ∧
    ∃ U, pmm_rep k' U ∧ ∀ f, 0 ≤ f < highest (mem_st k) / FRAME_SIZE →
      (f ∈ U ↔ f ≤ last_reserved k ∨ ¬ usable_frame (mem_st k) (region_count (mem_st k)) f)) k.
Proof.
  intros Hb. eapply wp_mono; [by apply pmm_init_rep|].
  by intros [] k' (_ & _ & _ & _ & Ht & HU).
Qed.

(** The machine of Booted.v. *)
Lemma pmm_init_exact_witness :
  wp pmm_init (λ _ k', total_frames (pmm_st k') = highest (mem_st cold) / FRAME_SIZE ∧
    ∃ U, pmm_rep k' U ∧ ∀ f, 0 ≤ f < highest (mem_st cold) / FRAME_SIZE →
      (f ∈ U ↔ f ≤ last_reserved cold ∨ ¬ usable_frame (mem_st cold) (region_count (mem_st cold)) f)) cold.
Proof. apply pmm_init_exact, cold_boot. Defined.

(** ** The page tables *)


Definition demo_virt : Z := 0x40000000.




(** C24: with paging on, the address [paging_translate] computes in software is
    the address the MMU uses, and it reports unmapped exactly when the MMU
    would fault. *)
Theorem paging_translate_is_mmu k U T P virt :
  paging_inv k U T P → cr0_pg (mach k) = true → 0 ≤ virt < 0x100000000 →
  wp (paging_translate virt) (λ r k', k' = k ∧ r = default PAGE_UNMAPPED (mmu (mach k) virt)) k.
Proof.
  intros Hi Hon Hv. eapply paging_translate_spec; [done..|]. split; [done|].
  rewrite (mmu_lookup _ _ _ _ (gi_core _ _ _ _ Hi) Hon Hv). by destruct (P !! _).
Qed.

(** The VGA buffer and an unmapped page. *)
Lemma paging_translate_is_mmu_witness :
  wp (paging_translate 0x12345) (λ r k', k' = paged ∧ r = default PAGE_UNMAPPED (mmu (mach paged) 0x12345)) paged ∧
  mmu (mach paged) 0x12345 = Some 0x12345 ∧ mmu (mach paged) demo_virt = None.
Proof.
  destruct paged_inv as (U & T & P & Hi & _ & Hon & _ & _).
  split; [|split; vm_compute; reflexivity]. apply (paging_translate_is_mmu paged U T P); [exact Hi|exact Hon|closed].
Defined.

(** Mapping a page and translating any address in it gives the mapped
    frame with the same offset; unmapping it afterwards makes it unmapped. *)
Theorem paging_map_translate k U T P virt phys flags off :
  paging_inv k U T P → 0 ≤ virt → virt mod 0x1000 = 0 → virt + off < 0x100000000 → 0 ≤ off < 0x1000 →
  0 ≤ phys < 0x100000000 → 0 ≤ flags → (cr0_pg (mach k) = true → iend k ≤ virt) →
  wp (r <- paging_map virt phys flags ;;
      a <- paging_translate (virt + off) ;;
      u <- paging_unmap virt ;;
      b <- paging_translate (virt + off) ;;
      ret (r, a, u, b))
     (λ '(r, a, u, b) k', r = 1 → a = phys - phys mod 0x1000 + off ∧ u = 1 ∧ b = PAGE_UNMAPPED) k.
Proof.
  intros Hi Hv Hal Ho Hoff Hp Hfl Hid. assert ((virt + off) / 0x1000 = virt / 0x1000) as Hpage by zlia.
  assert ((virt + off) mod 0x1000 = off) as Hmod by zlia.
  destruct (map_entry_spec phys flags Hp Hfl) as (_ & _ & Hframe).
  assert (∀ k' U' T' P', paging_inv k' U' T' P' →
    wp (paging_translate (virt + off)) (λ a k2, k2 = k' ∧
      a = match P' !! (virt / 0x1000) with Some e => frame_of e + off | None => PAGE_UNMAPPED end) k') as Htr.
  { intros k' U' T' P' Hi'. eapply paging_translate_spec; [done|lia|]. by rewrite Hpage, Hmod. }
  wp_go. eapply wp_mono; [apply (paging_map_rep k U T P); [done|lia|done..]|].
  assert (∀ r k' U' T' P', paging_inv k' U' T' P' → paging_step T' k k' →
    (r = 1 → P' = <[virt / 0x1000 := map_entry phys flags]> P) → wp (a <- paging_translate (virt + off) ;;
      u <- paging_unmap virt ;; b <- paging_translate (virt + off) ;; ret (r, a, u, b))
     (λ '(r, a, u, b) k', r = 1 → a = phys - phys mod 0x1000 + off ∧ u = 1 ∧ b = PAGE_UNMAPPED) k') as Hgo.
  { intros r k' U' T' P' Hi' Hs HP. wp_go. eapply wp_mono; [by eapply Htr|]. intros a ? [-> ->]. wp_go.
    destruct (gs_shape _ _ _ Hs) as (? & ? & ? & ? & ? & Hk').
    eapply wp_mono; [eapply paging_unmap_rep; [done|lia|]|].
    { subst k'. exact Hid. }
    intros u k2 Hu. wp_go.
    destruct Hu as [(_ & -> & _ & Hi2 & _)|(Hn & -> & ->)];
      (eapply wp_mono; [by eapply Htr|]; intros b ? [-> ->]; rewrite wp_ret; intros ->; specialize (HP eq_refl); subst P').
    - rewrite lookup_insert_eq, lookup_delete_eq, Hframe. auto.
    - by rewrite lookup_insert_eq in Hn. }
  intros r k' [(-> & _ & U' & T' & _ & Hi' & Hs)|(-> & _ & _ & Hi' & Hs)].
  - by eapply Hgo.
  - by eapply Hgo.
Qed.

(** A page that is mapped into the hole above the identity window. *)
Lemma paging_map_translate_witness :
  wp (r <- paging_map demo_virt 0x3F000 PAGE_WRITE ;;
      a <- paging_translate (demo_virt + 5) ;;
      u <- paging_unmap demo_virt ;;
      b <- paging_translate (demo_virt + 5) ;;
      ret (r, a, u, b))
     (λ '(r, a, u, b) k', r = 1 → a = 0x3F000 - 0x3F000 mod 0x1000 + 5 ∧ u = 1 ∧ b = PAGE_UNMAPPED) paged.
Proof.
  destruct paged_inv as (U & T & P & Hi & _ & _ & He & _).
  eapply (paging_map_translate paged U T P); [exact Hi|closed|closed|closed|closed|closed|closed|]. intros _. rewrite He. unfold demo_virt. lia.
Defined.

(** C25: [paging_init] maps exactly the pages of the identity window onto
    themselves and turns paging on, with one table per 4 MB.  The window is the
    first 16 MB where RAM reaches that far; on a smaller machine it is all of RAM,
    in whole pages. *)
Theorem paging_init_identity k U :
  paging_boot k U → bm_hi k ≤ boot_iend k →
  1 + tables_for (boot_pages k) ≤ Z.of_nat (size (free_below U (boot_pages k))) →
  wp paging_init (λ _ k', cr0_pg (mach k') = true ∧ paging_enabled (paging_st k') = 1 ∧
    (0x1000000 ≤ highest (mem_st k) → iend k' = 0x1000000) ∧
    (highest (mem_st k) < 0x1000000 → iend k' = highest (mem_st k) - highest (mem_st k) mod 0x1000) ∧
    (∀ va, 0 ≤ va < iend k' → mmu (mach k') va = Some va) ∧
    (∀ va, iend k' ≤ va < 0x100000000 → mmu (mach k') va = None) ∧
    ∃ U' T' P', paging_inv k' U' T' P' ∧ U ⊆ U' ∧ Z.of_nat (size T') = tables_for (boot_pages k)) k.
Proof.
  intros Hb Hh Hf. eapply wp_mono; [by apply paging_init_rep|].
  intros [] k' (U' & T' & P' & Hi & HU & Hon & Hen & He & HT & _ & _ & HP).
  assert (boot_iend k = Z.min 0x1000000 (highest (mem_st k) - highest (mem_st k) mod 0x1000)) as Hie
    by (unfold boot_iend, IDENTITY_BYTES, PAGE_SIZE; zlia).
  rewrite He. split; [done|]. split; [done|]. split; [rewrite Hie; zlia|]. split; [rewrite Hie; zlia|].
  split; [|split; [|by exists U', T', P']].
  - intros va Hva. eapply mmu_identity; [apply (gi_core _ _ _ _ Hi)|]. by rewrite He.
  - intros va Hva. destruct (gc_end _ _ _ (gi_core _ _ _ _ Hi)) as [Hend Hal]. rewrite He in Hend, Hal.
    assert (0 ≤ va < 0x100000000) as Hva4 by (unfold IDENTITY_BYTES in Hend; lia).
    rewrite (mmu_lookup _ _ _ _ (gi_core _ _ _ _ Hi) Hon Hva4), HP.
    rewrite decide_False; [done|]. unfold boot_pages, PAGE_SIZE. zlia.
Qed.

(** A machine with 32 MB, its frames counted. *)
Definition wide : kernel := machine_with 0x2000000.

Lemma wide_numbers :
  boot_total wide = 8192 ∧ boot_bitmap wide = 0x3000 ∧ boot_size wide = 1024 ∧ last_reserved wide = 3.
Proof. split_and!; reflexivity. Qed.

Lemma wide_usable f : 0 ≤ f < 8192 → usable_frame (mem_st wide) (region_count (mem_st wide)) f.
Proof.
  intros Hf. exists 0. split; [by vm_compute|]. split; [by vm_compute|].
  change (0 / 0x1000 ≤ f < 0 / 0x1000 + 0x2000000 / 0x1000). zlia.
Qed.

Lemma wide_statics : pmm_boot wide ∧ highest (mem_st wide) = 0x2000000 ∧ cr0_pg (mach wide) = false ∧
  table_count (paging_st wide) = 0 ∧ mapped_pages (paging_st wide) = 0.
Proof. split; [by apply (machine_boot 0x2000000)|]. split_and!; reflexivity. Qed.
#[global] Opaque wide.

Lemma wide_framed : ∃ k U, pmm_init wide = Ok tt k ∧ paging_boot k U ∧ highest (mem_st k) = 0x2000000 ∧
  bm_hi k ≤ boot_iend k ∧ 1 + tables_for (boot_pages k) ≤ Z.of_nat (size (free_below U (boot_pages k))).
Proof.
  destruct wide_numbers as (Ht & Hb & Hs & Hl). destruct wide_statics as (Hboot & Hhi & Hoff & Htc & Hmp).
  destruct (wp_inv _ _ _ (pmm_init_rep wide Hboot))
    as ([] & k & Hk & (p & ph & Heq) & _ & Hbm & Hsz & Htot & U & HU & Hf).
  exists k, U. split; [done|]. clear Hk. rewrite Ht, Hl in Hf. rewrite Hb in Hbm. rewrite Hs in Hsz.
  assert (∀ f, 0 ≤ f < 8192 → f ∈ U ↔ f ≤ 3) as HfU.
  { intros f Hr. rewrite Hf by done. split; [|by left]. intros [?|[]]; [done|]. by apply wide_usable. }
  assert (highest (mem_st k) = 0x2000000 ∧ table_count (paging_st k) = 0 ∧ mapped_pages (paging_st k) = 0 ∧
    cr0_pg (mach k) = false) as (Hm & Htc' & Hmp' & Hpg) by by rewrite Heq.
  assert (boot_iend k = 0x1000000) as Hie by (unfold boot_iend; by rewrite Hm).
  unfold boot_pages. rewrite Hie. unfold bm_hi, bm_lo. rewrite Hbm, Hsz. split_and!.
  - split; [done|done|done|by rewrite Hm|by rewrite Htot, Hm|apply HfU; lia|].
    intros a. unfold bm_hi, bm_lo. rewrite Hbm, Hsz. intros ?. apply HfU; zlia.
  - done.
  - done.
  - transitivity (Z.of_nat (size (list_to_set (seqZ 4 5) : gset Z))); [by vm_compute|].
    apply inj_le, subseteq_size. intros f. rewrite elem_of_list_to_set, elem_of_seqZ, elem_of_free_below.
    intros ?. change (0x1000000 / PAGE_SIZE) with 4096. split; [lia|]. rewrite HfU; lia.
Qed.

(** The 256 KB of Booted.v, and 32 MB. *)
Lemma paging_init_identity_witness :
  wp paging_init (λ _ k', cr0_pg (mach k') = true ∧ paging_enabled (paging_st k') = 1 ∧
    (0x1000000 ≤ highest (mem_st framed) → iend k' = 0x1000000) ∧
    (highest (mem_st framed) < 0x1000000 → iend k' = highest (mem_st framed) - highest (mem_st framed) mod 0x1000) ∧
    (∀ va, 0 ≤ va < iend k' → mmu (mach k') va = Some va) ∧
    (∀ va, iend k' ≤ va < 0x100000000 → mmu (mach k') va = None) ∧
    ∃ U' T' P', paging_inv k' U' T' P' ∧ frames0 ⊆ U' ∧
      Z.of_nat (size T') = tables_for (boot_pages framed)) framed ∧
  wp (pmm_init ;;; paging_init) (λ _ k', iend k' = 0x1000000 ∧ mmu (mach k') 0xFFFFFF = Some 0xFFFFFF ∧
    mmu (mach k') 0x1000000 = None) wide.
Proof.
  split; [apply paging_init_identity; [apply framed_boot|vm_compute; discriminate|vm_compute; discriminate]|].
  destruct wide_framed as (k & U & Hk & Hb & Hh & Hbm & Hf). rewrite wp_bind. eapply wp_ok; [exact Hk|].
  eapply wp_mono; [apply (paging_init_identity k U Hb Hbm Hf)|]. cbn beta.
  intros _ k' (_ & _ & Hie & _ & Hin & Hout & _). rewrite Hh in Hie. specialize (Hie ltac:(lia)). rewrite Hie in Hin, Hout.
  split; [exact Hie|]. split; [apply Hin; lia|apply Hout; lia].
Defined.
