(* ===== verification/HeapProps.v ===== *)
(** * The heap: the properties

    What [kmalloc], [kfree] and [heap_init] (src/heap.c) promise, on top of
    HeapProof.v, HeapMap.v and Alloc.v.  First come three facts about the list
    of blocks (nothing adjacent is free, releasing undoes first fit) and the
    loop that the statistics share. *)
From stdpp Require Import prelude gmap list strings.
From Stdlib Require Import Lia ZArith.
From S2P Require Import Prelude Machine State Util Console Memory Pmm Paging Heap HeapSpec.
From S2P Require Import HeapProof HeapMap Frames Alloc Task TaskProof Booted.

#[local] Open Scope Z_scope.

(** ** Neighbours *)
Lemma coalesced_tail b bs : coalesced (b :: bs) → coalesced bs.
Proof. destruct bs; [done|]. by intros [_ ?]. Qed.

Lemma coalesced_cons b bs :
  (∀ c cs, bs = c :: cs → ¬ (bfree b = true ∧ bfree c = true)) → coalesced bs → coalesced (b :: bs).
Proof. destruct bs as [|c cs]; [done|]. intros H ?. split; [by eapply H|done]. Qed.

Lemma coalesced_head b c bs : coalesced (b :: c :: bs) → ¬ (bfree b = true ∧ bfree c = true).
Proof. by intros [? _]. Qed.

(** What first fit starts its new list with is free only if the old head was. *)
Lemma first_fit_head size a b bs p c cs :
  first_fit size a (b :: bs) = Some (p, c :: cs) → bfree c = true → bfree b = true.
Proof.
  cbn [first_fit]. destruct (bfree b) eqn:Hb; [done|]. cbn [andb].
  destruct (first_fit size _ bs) as [[q ds]|]; [|done]. cbn. intros [= _ <- _]. congruence.
Qed.

Lemma first_fit_coalesced size a bs p bs' :
  coalesced bs → first_fit size a bs = Some (p, bs') → coalesced bs'.
Proof.
  revert a p bs'. induction bs as [|b bs IH]; intros a p bs' Hc; [done|]. cbn [first_fit].
  destruct (bfree b && (size <=? bsz b)) eqn:Hf.
  - apply andb_prop in Hf as [Hb _]. intros [= _ <-].
    assert (∀ c, coalesced (c :: bs)) as Hskip by
      (intros c; destruct bs as [|d ds]; [done|]; split; [|by apply coalesced_tail in Hc];
       intros [_ ?]; by apply (coalesced_head _ _ _ Hc)).
    unfold carve. destruct (_ <=? _); cbn [app]; [|apply Hskip].
    apply coalesced_cons; [by intros c cs [= <- _] [? _]|apply Hskip].
  - destruct (first_fit size _ bs) as [[q ds]|] eqn:Hff; [|done]. cbn. intros [= <- <-].
    apply coalesced_cons; [|by eapply IH, Hff; apply coalesced_tail in Hc].
    intros c cs -> [Hb Hc']. destruct bs as [|d bs]; [done|].
    apply (coalesced_head _ _ _ Hc). split; [done|]. by eapply first_fit_head.
Qed.

(** Releasing what first fit returned gives the old list back. *)
Lemma release_first_fit size a bs p bs' :
  sizes_ok bs → coalesced bs → first_fit size a bs = Some (p, bs') →
  ∃ bs'', release p a bs' = Some bs'' ∧ coalesce_spec bs'' = bs.
Proof.
  revert a p bs'. induction bs as [|b bs IH]; intros a p bs' Hs Hc; [done|]. cbn [first_fit].
  pose proof (coalesce_spec_id _ (coalesced_tail _ _ Hc)) as Hid.
  apply Forall_cons in Hs as [Hs0 Hs].
  destruct (bfree b && (size <=? bsz b)) eqn:Hf.
  - apply andb_prop in Hf as [Hb _]. intros [= <- <-].
    assert (∀ n, coalesce_spec (Blk n true :: bs) = Blk n true :: bs) as Hone.
    { intros n. cbn [coalesce_spec]. rewrite Hid. destruct bs as [|c cs]; [done|]. cbn [bfree andb].
      destruct (bfree c) eqn:Hc'; [|done]. by destruct (coalesced_head _ _ _ Hc). }
    destruct b as [n f]; cbn in Hb; subst f. unfold carve. cbn [bsz].
    destruct (_ <=? n); cbn [app release]; rewrite Z.eqb_refl; eexists; (split; [done|]).
    + cbn [bsz coalesce_spec]. cbn [coalesce_spec] in Hone. rewrite Hone. cbn [bfree bsz andb].
      do 2 f_equal. lia.
    + apply Hone.
  - destruct (first_fit size _ bs) as [[q ds]|] eqn:Hff; [|done]. cbn. intros [= <- <-].
    destruct (first_fit_some _ _ _ _ _ Hff) as (pre & c & post & Heq & _ & _ & _ & Hq & _).
    assert (0 ≤ span pre) by (apply span_nonneg; rewrite Heq in Hs; by apply sizes_ok_app in Hs as [? _]).
    destruct (IH _ _ _ Hs (coalesced_tail _ _ Hc) Hff) as (es & Hr & Hes).
    assert (q =? a + sizeof_block = false) as Hne by (apply Z.eqb_neq; unfold blk_span, sizeof_block in *; lia).
    exists (b :: es). cbn [release]. rewrite Hne, Hr. split; [done|]. cbn [coalesce_spec]. rewrite Hes.
    destruct bs as [|d bs]; [done|]. pose proof (coalesced_head _ _ _ Hc).
    destruct (bfree b), (bfree d); naive_solver.
Qed.

(** ** A heap and its list of blocks *)
Definition heap_model (k : kernel) (bs : list blk) : Prop :=
  coalesced bs ∧ ∃ U T P, heap_inv k U T P bs.

Lemma heap_model_sizes k bs : heap_model k bs → sizes_ok bs.
Proof. intros (_ & U & T & P & H). by eapply heap_inv_sizes. Qed.

Lemma booted_model : heap_model booted [initial_block].
Proof. split; [exact I|]. apply booted_inv. Qed.

Lemma held_model : heap_model held [Blk 104 false; Blk 65400 true].
Proof. split; [cbn; naive_solver|]. apply held_inv. Qed.

(** C5: [kmalloc] is first fit on the list of blocks: the pointer and the new
    list are those of [first_fit] for the size rounded up to eight.  When nothing
    fits, all depends on [can_extend]: the heap's address space holds the new pages
    and the free frames suffice, one for every page and one inside the identity
    window for every page table that is missing.  If so, [kmalloc] appends a free
    block of at least that size, merges, and takes its first fit there; if not, and
    only then, it returns null and keeps the list.  In every case no two
    neighbouring blocks are free. *)
Theorem kmalloc_first_fit k U T P bs size :
  coalesced bs → heap_inv k U T P bs → 0 < size ≤ KMALLOC_MAX →
  wp (kmalloc size) (λ r k',
    match first_fit (align8 size) HEAP_START bs with
    | Some (p, bs') => r = p ∧ heap_model k' bs'
    | None =>
        (r = 0 ∧ ¬ can_extend k U T (align8 size) ∧ heap_model k' bs) ∨
        (can_extend k U T (align8 size) ∧ ∃ n bs', align8 size ≤ n ∧
           first_fit (align8 size) HEAP_START (coalesce_spec (bs ++ [Blk n true])) = Some (r, bs') ∧
           heap_model k' bs')
    end) k.
Proof.
  intros Hc Hi Hs. eapply wp_mono; [by eapply kmalloc_rep|].
  intros r k' (U' & T' & P' & _ & _ & H). destruct (first_fit _ _ bs) as [[p bs']|] eqn:Hff.
  - destruct H as [-> H]. split; [done|]. split; [by eapply first_fit_coalesced|]. by exists U', T', P'.
  - destruct H as [(-> & Hx & H)|(Hx & n & bs' & Hn & Hff' & H)]; [left|right].
    + split; [done|]. split; [done|]. split; [done|]. by exists U', T', P'.
    + split; [done|]. exists n, bs'. split; [done|]. split; [done|]. split; [|by exists U', T', P'].
      eapply first_fit_coalesced, Hff'. apply coalesce_spec_coalesced.
Qed.

(** 100 bytes of the fresh heap: the initial block is split after 104 bytes.  And
    256 KB, for which the heap would have to grow. *)
Lemma kmalloc_first_fit_witness : ∃ U T P, heap_inv booted U T P [initial_block] ∧
  first_fit (align8 100) HEAP_START [initial_block] =
    Some (HEAP_START + 16, [Blk 104 false; Blk 65400 true]) ∧
  wp (kmalloc 100) (λ r k', r = HEAP_START + 16 ∧ heap_model k' [Blk 104 false; Blk 65400 true]) booted ∧
  wp (kmalloc 0x40000) (λ r k',
    (r = 0 ∧ ¬ can_extend booted U T 0x40000 ∧ heap_model k' [initial_block]) ∨
    (can_extend booted U T 0x40000 ∧ ∃ n bs', 0x40000 ≤ n ∧
       first_fit 0x40000 HEAP_START (coalesce_spec ([initial_block] ++ [Blk n true])) = Some (r, bs') ∧
       heap_model k' bs')) booted.
Proof.
  destruct booted_inv as (U & T & P & Hi). exists U, T, P. split; [exact Hi|]. split; [reflexivity|]. split.
  - exact (kmalloc_first_fit booted U T P [initial_block] 100 I Hi ltac:(split; closed)).
  - exact (kmalloc_first_fit booted U T P [initial_block] 0x40000 I Hi ltac:(split; closed)).
Defined.

(** C6: [kfree] of a pointer to a block in use returns 1, marks that block free
    and merges every run of adjacent free blocks; the payload of every other
    block in use keeps its bytes. *)
Theorem kfree_releases k bs bs' ptr :
  heap_model k bs → release ptr HEAP_START bs = Some bs' →
  wp (kfree ptr) (λ r k', r = 1 ∧ heap_model k' (coalesce_spec bs') ∧
    ∀ x, used_payload HEAP_START bs' x → vbyte (mach k') x = vbyte (mach k) x) k.
Proof.
  intros (Hc & U & T & P & Hi) Hr. eapply wp_mono; [by eapply kfree_accepts_rep|].
  intros r k' (-> & Hi' & Hp & _). split_and!; [done| |].
  - split; [apply coalesce_spec_coalesced|]. by exists U, T, P.
  - intros x Hx. destruct (Hp x Hx) as [_ Hb].
    assert (used_payload HEAP_START (coalesce_spec bs') x) as Hx' by by apply coalesce_spec_payload.
    assert (used_payload HEAP_START bs x) as Hx0.
    { destruct (release_split _ _ _ _ Hr) as (pre & b & post & -> & Hbf & _ & ->). revert Hx.
      rewrite !used_payload_app. cbn [used_payload bfree]. unfold blk_span. cbn [bsz]. naive_solver. }
    apply (heap_allocated _ _ _ _ _ _ Hi), (allocated_heap _ _ _ _ _ _ Hi) in Hx0.
    apply (heap_allocated _ _ _ _ _ _ Hi'), (allocated_heap _ _ _ _ _ _ Hi') in Hx'.
    by rewrite (heap_vbyte _ _ _ _ _ _ Hi Hx0), (heap_vbyte _ _ _ _ _ _ Hi' Hx').
Qed.

(** The 104-byte block of [held] is released and merges with the rest. *)
Lemma kfree_releases_witness :
  release (HEAP_START + 16) HEAP_START [Blk 104 false; Blk 65400 true] =
    Some [Blk 104 true; Blk 65400 true] ∧
  wp (kfree (HEAP_START + 16)) (λ r k', r = 1 ∧
    heap_model k' (coalesce_spec [Blk 104 true; Blk 65400 true]) ∧
    ∀ x, used_payload HEAP_START [Blk 104 true; Blk 65400 true] x → vbyte (mach k') x = vbyte (mach held) x) held.
Proof.
  split; [reflexivity|].
  apply (kfree_releases held [Blk 104 false; Blk 65400 true]); [apply held_model|reflexivity].
Defined.

(** C28: an allocation that fits, followed by the release of the pointer, gives
    back exactly the list of blocks there was before. *)
Theorem kmalloc_kfree_restores k bs size :
  heap_model k bs → 0 < size ≤ KMALLOC_MAX → is_Some (first_fit (align8 size) HEAP_START bs) →
  wp (p <- kmalloc size ;; kfree p) (λ r k', r = 1 ∧ heap_model k' bs) k.
Proof.
  intros Hm Hs [[p bs'] Hff]. pose proof Hm as (Hc & U & T & P & Hi).
  rewrite wp_bind. eapply wp_mono; [by eapply kmalloc_rep|].
  intros r k' (U' & T' & P' & _ & _ & H). rewrite Hff in H. destruct H as [-> H].
  destruct (release_first_fit _ _ _ _ _ (heap_model_sizes _ _ Hm) Hc Hff) as (bs'' & Hr & Hbs).
  eapply wp_mono; [by eapply kfree_accepts_rep|]. intros q k'' (-> & Hi'' & _). rewrite Hbs in Hi''.
  split; [done|]. split; [done|]. by exists U', T', P'.
Qed.

Lemma kmalloc_kfree_restores_witness :
  wp (p <- kmalloc 100 ;; kfree p) (λ r k', r = 1 ∧ heap_model k' [Blk 104 false; Blk 65400 true]) held.
Proof.
  apply kmalloc_kfree_restores; [apply held_model|closed|]. vm_compute. eexists; reflexivity.
Defined.

(** C29: [kfree] of anything else -- null, an address outside the heap, an
    address whose header does not carry the magic number, or a block that is
    already free -- returns 0 and changes nothing but the console. *)
Theorem kfree_refuses_bad k bs ptr :
  heap_model k bs → 0 ≤ ptr < 0x100000000 →
  ptr < HEAP_START + sizeof_block ∨ brk (heap_st k) ≤ ptr ∨
  vword (mach k) (ptr - sizeof_block) ≠ BLOCK_MAGIC ∨
  (∃ pre b post, bs = pre ++ b :: post ∧ bfree b = true ∧ ptr = HEAP_START + span pre + sizeof_block) →
  wp (kfree ptr) (λ r k', r = 0 ∧ heap_model k' bs ∧ console_only k k') k.
Proof.
  intros (Hc & U & T & P & Hi) Hp Hbad. destruct (heap_inv_lay _ _ _ _ _ Hi) as [Hl Hst].
  eapply wp_mono; [eapply (kfree_rejects _ _ bs); [done|done|apply (hv_ok _ _ _ _ _ Hi)|done|]|].
  - unfold kfree_refuses. destruct (decide (HEAP_START + sizeof_block ≤ ptr < brk (heap_st k))) as [Hr|]; [|lia].
    do 3 right. destruct Hbad as [?|[?|[Hm|H]]]; [lia|lia| |by right]. left.
    rewrite (heap_vword _ _ _ _ _ _ Hi) in Hm; [done|unfold sizeof_block in *; lia..].
  - intros r k' [-> Hk']. split_and!; [done| |done]. split; [done|]. exists U, T, P. by eapply heap_inv_console.
Qed.

(** A pointer that was never allocated, and a double free. *)
Lemma kfree_refuses_bad_witness :
  wp (kfree 0x1234) (λ r k', r = 0 ∧ heap_model k' [initial_block] ∧ console_only booted k') booted ∧
  wp (kfree (HEAP_START + 16)) (λ r k', r = 0 ∧ heap_model k' [initial_block] ∧ console_only booted k') booted.
Proof.
  split; (apply kfree_refuses_bad; [apply booted_model|closed|]).
  - left. closed.
  - do 3 right. exists [], initial_block, []. split; [reflexivity|]. split; reflexivity.
Defined.

(** ** What a client sees *)

(** C7: an allocation is 8-aligned, at least as large as asked for, disjoint
    from every live allocation, and inside the 32-bit address space; the bytes
    of every live allocation keep their values.  On failure the allocations
    are what they were. *)
Theorem kmalloc_fresh k A size :
  heap_client k A → 0 < size ≤ KMALLOC_MAX →
  wp (kmalloc size) (λ p k',
    (∀ x, allocated A x → vbyte (mach k') x = vbyte (mach k) x) ∧
    ((p = 0 ∧ heap_client k' A) ∨
     (∃ n, size ≤ n ∧ p mod 8 = 0 ∧ 0 < p ∧ p + n < 0x100000000 ∧
        (∀ x, p ≤ x < p + n → ¬ allocated A x) ∧ heap_client k' (<[p := n]> A)))) k.
Proof.
  intros Hc Hs. eapply wp_mono; [by eapply (al_malloc k A)|]. intros p k' (_ & Hk & H).
  split; [intros x Hx; apply Hk; [done|by intros []]|]. destruct H as [[-> H]|(n & Hn & HA & Hp & H)]; [by left|right].
  exists n. destruct (al_range k' _ p n H) as (? & ? & ? & ?); [by rewrite lookup_insert_eq|].
  split_and!; [done..| |done]. intros x Hx (q & m & Hq & Hqm).
  assert (q ≠ p) by (intros ->; by rewrite HA in Hq).
  destruct (al_disjoint k' _ p q n m H); [by rewrite lookup_insert_eq|by rewrite lookup_insert_ne|done|lia|lia].
Qed.

(** A second allocation beside the one [held] has. *)
Lemma held_client : heap_client held {[HEAP_START + 16 := 104]}.
Proof. destruct held_inv as (U & T & P & H). exists U, T, P, [Blk 104 false; Blk 65400 true]. by split. Qed.

Lemma kmalloc_fresh_witness :
  wp (kmalloc 64) (λ p k',
    (∀ x, allocated {[HEAP_START + 16 := 104]} x → vbyte (mach k') x = vbyte (mach held) x) ∧
    ((p = 0 ∧ heap_client k' {[HEAP_START + 16 := 104]}) ∨
     (∃ n, 64 ≤ n ∧ p mod 8 = 0 ∧ 0 < p ∧ p + n < 0x100000000 ∧
        (∀ x, p ≤ x < p + n → ¬ allocated {[HEAP_START + 16 := 104]} x) ∧
        heap_client k' (<[p := n]> {[HEAP_START + 16 := 104]})))) held.
Proof. apply kmalloc_fresh; [apply held_client|closed]. Defined.

(** A store inside an allocation succeeds, changes no byte of another
    allocation, and leaves the heap's own structure intact: the allocator
    answers afterwards as if the store had not happened. *)
Theorem store_in_allocation k A p n a v :
  heap_client k A → A !! p = Some n → p ≤ a → a + 4 ≤ p + n →
  wp (store32 a v) (λ _ k', heap_client k' A ∧ vword (mach k') a = u32 v ∧
    ∀ x, allocated (delete p A) x → vbyte (mach k') x = vbyte (mach k) x) k.
Proof.
  intros Hc HA Ha Hn. eapply wp_mono; [by eapply (al_store k A p n)|].
  intros [] k' (_ & Hc' & Hv & Hk). split_and!; [done..|]. intros x (q & m & Hq & Hx).
  apply lookup_delete_Some in Hq as [Hne Hq]. apply Hk; [by exists q, m|].
  destruct (al_disjoint k A p q n m Hc HA Hq ltac:(done)); lia.
Qed.

Lemma store_in_allocation_witness :
  wp (store32 (HEAP_START + 20) 7) (λ _ k', heap_client k' {[HEAP_START + 16 := 104]} ∧
    vword (mach k') (HEAP_START + 20) = u32 7 ∧
    ∀ x, allocated (delete (HEAP_START + 16) {[HEAP_START + 16 := 104]}) x →
      vbyte (mach k') x = vbyte (mach held) x) held.
Proof.
  apply (store_in_allocation held _ (HEAP_START + 16) 104); [apply held_client|reflexivity|closed|closed].
Defined.

(** ** The statistics *)

(** A loop over the blocks that only reads. *)
Lemma list_loop_rep {A} (f : A → Z → K A) (g : A → blk → A) tr hi bs k a0 :
  heap_lay tr hi bs k → heap_statics hi k → bs ≠ [] →
  (∀ pre b post a, bs = pre ++ b :: post →
     wp (f a (HEAP_START + span pre)) (λ r k', r = g a b ∧ k' = k) k) →
  wp (list_loop f a0) (λ r k', r = foldl g a0 bs ∧ k' = k) k.
Proof.
  intros Hl [Hh Hbrk] Hne Hf. unfold list_loop, heap_fuel, heap_g. wp_go. rewrite Hh, Hbrk.
  pose proof (hl_top _ _ _ _ Hl) as Ht.
  apply wp_while_fuel with (I := λ '(b, a) k', k' = k ∧ ∃ pre post, bs = pre ++ post ∧
      b = at_block pre post ∧ a = foldl g a0 pre)
    (variant := λ '(b, a) k', if b =? 0 then 0%nat else Z.to_nat ((hi - b) / sizeof_block + 1)).
  - split; [done|]. exists [], bs. split_and!; [done| |done]. by destruct bs.
  - cbn. pose proof (hl_span _ _ _ _ Hl). pose proof (span_nonneg _ (hl_sizes _ _ _ _ Hl)).
    unfold sizeof_block. apply Nat2Z.inj_lt. zlia.
  - intros [b a] k' (-> & pre & post & Hbs & -> & ->). destruct post as [|c post].
    { cbn [at_block]. rewrite Z.eqb_refl, wp_ret. by rewrite Hbs, app_nil_r. }
    rewrite Hbs in Hl. destruct (heap_at _ _ _ _ _ _ Hl) as (Hhd & Ha & Hsz & Hhi & Hq).
    cbn [at_block]. rewrite (proj2 (Z.eqb_neq _ 0)) by (unfold HEAP_START in *; lia).
    rewrite wp_bind. eapply wp_mono; [by apply (Hf pre c post)|]. intros r k' [-> ->].
    rewrite wp_bind. eapply (wp_next tr hi k); [apply Hl|done|heap_lia|heap_lia|done|].
    rewrite wp_ret. split; [split; [done|]|].
    + exists (pre ++ [c]), post. rewrite <- app_assoc, foldl_app. split_and!; [done| |done].
      destruct post; cbn [at_block span]; [done|]. rewrite ?span_app. cbn [span]. lia.
    + destruct post as [|d post]; cbn [Z.eqb]; [heap_unfold; apply Nat2Z.inj_lt; zlia|].
      rewrite (proj2 (Z.eqb_neq _ 0)) by heap_lia. heap_unfold. apply Nat2Z.inj_lt. zlia.
Qed.

(** The payload bytes of the free blocks, and the number of free blocks. *)
Definition free_payload (bs : list blk) : Z := foldr (λ b n, (if bfree b then bsz b else 0) + n) 0 bs.
Definition free_count (bs : list blk) : Z := foldr (λ b n, Z.b2z (bfree b) + n) 0 bs.

Lemma free_payload_span bs : sizes_ok bs → 0 ≤ free_payload bs ≤ span bs.
Proof.
  induction 1 as [|b bs Hb _ IH]; cbn [free_payload foldr span]; [done|].
  fold (free_payload bs). unfold blk_span, sizeof_block. destruct (bfree b); lia.
Qed.

(** Sums that do not wrap. *)
Lemma foldl_sum {A} (g : Z → A → Z) (w : A → Z) (l : list A) (n : Z) :
  (∀ m x, x ∈ l → 0 ≤ m → m + w x < 0x100000000 → g m x = m + w x) → Forall (λ x, 0 ≤ w x) l →
  0 ≤ n → n + foldr (λ x s, w x + s) 0 l < 0x100000000 →
  foldl g n l = n + foldr (λ x s, w x + s) 0 l.
Proof.
  intros Hg Hw. revert n. induction Hw as [|x l Hx Hw IH]; intros n Hn Hlt; cbn [foldl foldr] in *; [lia|].
  assert (0 ≤ foldr (λ x s, w x + s) 0 l) by (clear -Hw; induction Hw; cbn; lia).
  rewrite Hg by (first [apply list_elem_of_here|lia]).
  rewrite IH; [lia|intros; apply Hg; [by apply list_elem_of_further|done..]|lia|lia].
Qed.

Section statistics.
Context (k : kernel) (U : gset Z) (T P : gmap Z Z) (bs : list blk) (Hi : heap_inv k U T P bs).

Lemma model_lay : heap_lay (heap_tr P) (brk (heap_st k)) bs k ∧ heap_statics (brk (heap_st k)) k.
Proof using Hi. by eapply heap_inv_lay. Qed.

Lemma span_bound : 0 ≤ span bs ≤ HEAP_MAX ∧ brk (heap_st k) = HEAP_START + span bs.
Proof using Hi.
  destruct model_lay as [Hl _]. pose proof (hl_span _ _ _ _ Hl). pose proof (hl_top _ _ _ _ Hl) as Ht.
  unfold heap_top in Ht. pose proof (span_nonneg _ (hl_sizes _ _ _ _ Hl)). lia.
Qed.

(** Reading a field of the block at a position. *)
Lemma block_fields pre b post (Q : Z → kernel → Prop) : bs = pre ++ b :: post →
  (Q (Z.b2z (bfree b)) k → wp (load32 (blk_free (HEAP_START + span pre))) Q k) ∧
  (Q (bsz b) k → wp (load32 (blk_size (HEAP_START + span pre))) Q k).
Proof using Hi.
  intros Hbs. destruct model_lay as [Hl _]. rewrite Hbs in Hl.
  destruct (heap_at _ _ _ _ _ _ Hl) as (Hh & Ha & Hs & He & Hq). pose proof (hl_top _ _ _ _ Hl). split; intros HQ.
  - eapply wp_free; [apply Hl|done|heap_lia|heap_lia|done|done].
  - eapply wp_size; [apply Hl|done|heap_lia|heap_lia|done|done].
Qed.

Lemma heap_size_rep : wp heap_size (λ r k', r = span bs ∧ k' = k) k.
Proof using Hi.
  unfold heap_size, heap_g. wp_go. destruct span_bound as [? ->]. split; [|done].
  rewrite u32_small; unfold HEAP_START, HEAP_MAX in *; lia.
Qed.

Lemma blocks_range : Forall (λ b, 0 ≤ bsz b) bs.
Proof using Hi. destruct model_lay as [Hl _]. apply (hl_sizes _ _ _ _ Hl). Qed.

Lemma heap_used_rep : wp heap_used (λ r k', r = span bs - free_payload bs ∧ k' = k) k.
Proof using Hi.
  destruct model_lay as [Hl Hst]. pose proof span_bound as [Hb _]. pose proof blocks_range as Hr.
  pose proof (free_payload_span _ Hr) as Hfp.
  assert (foldr (λ b n, (sizeof_block + (if bfree b then 0 else bsz b)) + n) 0 bs =
    span bs - free_payload bs) as Hsum.
  { clear. induction bs as [|b l IH]; [done|]. cbn [foldr span free_payload]. fold (free_payload l).
    rewrite IH. unfold blk_span. destruct (bfree b); lia. }
  eapply wp_mono; [eapply (list_loop_rep _ (λ n b, if bfree b then n +u sizeof_block else (n +u sizeof_block) +u bsz b));
    [done|done|apply (hv_ne _ _ _ _ _ Hi)|]|].
  - intros pre b post a Hbs. wp_go. apply (block_fields pre b post); [done|].
    destruct (bfree b) eqn:Hf; cbn [Z.b2z Z.eqb]; wp_go; [done|].
    by apply (block_fields pre b post).
  - intros r k' [-> ->]. split; [|done]. rewrite <- Hsum.
    rewrite <- (Z.add_0_l (foldr _ _ _)). apply foldl_sum.
    + intros m b Hb' Hm Hlt. unfold sizeof_block in *. rewrite Forall_forall in Hr.
      pose proof (Hr b Hb'). destruct (bfree b); rewrite (u32_small (m + 16)) by lia; [lia|rewrite u32_small; lia].
    + eapply Forall_impl; [exact Hr|]. intros b Hb0. unfold sizeof_block. cbn beta in *. destruct (bfree b); lia.
    + lia.
    + rewrite Hsum. unfold HEAP_MAX in Hb. lia.
Qed.

Lemma heap_free_rep : wp heap_free (λ r k', r = free_payload bs ∧ k' = k) k.
Proof using Hi.
  unfold heap_free. rewrite wp_bind. eapply wp_mono; [apply heap_size_rep|]. intros s k' [-> ->].
  rewrite wp_bind. eapply wp_mono; [apply heap_used_rep|]. intros u k' [-> ->].
  rewrite wp_ret. split; [|done]. pose proof (free_payload_span _ blocks_range). pose proof span_bound.
  unfold HEAP_MAX in *. rewrite u32_small; lia.
Qed.

Lemma count_bound : Z.of_nat (length bs) ≤ span bs.
Proof using Hi.
  pose proof blocks_range as H. clear -H. induction H; cbn [length span]; [done|].
  unfold blk_span, sizeof_block. lia.
Qed.

Lemma heap_blocks_rep : wp heap_blocks (λ r k', r = Z.of_nat (length bs) ∧ k' = k) k.
Proof using Hi.
  destruct model_lay as [Hl Hst]. pose proof span_bound as [Hb _]. pose proof count_bound as Hc.
  assert (foldr (λ (_ : blk) n, 1 + n) 0 bs = Z.of_nat (length bs)) as Hsum.
  { clear. induction bs as [|b l IH]; [done|]. cbn [foldr length]. rewrite IH. lia. }
  eapply wp_mono; [eapply (list_loop_rep _ (λ n _, n +u 1)); [done|done|apply (hv_ne _ _ _ _ _ Hi)|]|].
  - intros pre b post a Hbs. by rewrite wp_ret.
  - intros r k' [-> ->]. split; [|done]. rewrite <- Hsum, <- (Z.add_0_l (foldr _ _ _)). apply foldl_sum.
    + intros m b _ ? ?. by rewrite u32_small by lia.
    + by apply Forall_true.
    + lia.
    + rewrite Hsum. unfold HEAP_MAX in Hb. lia.
Qed.

Lemma heap_free_blocks_rep : wp heap_free_blocks (λ r k', r = free_count bs ∧ k' = k) k.
Proof using Hi.
  destruct model_lay as [Hl Hst]. pose proof span_bound as [Hb _]. pose proof count_bound as Hc.
  assert (0 ≤ free_count bs ≤ Z.of_nat (length bs)) as Hfc.
  { clear. induction bs as [|b l IH]; cbn [free_count foldr length]; [lia|]. fold (free_count l).
    destruct (bfree b); cbn [Z.b2z]; lia. }
  eapply wp_mono; [eapply (list_loop_rep _ (λ n b, if bfree b then n +u 1 else n));
    [done|done|apply (hv_ne _ _ _ _ _ Hi)|]|].
  - intros pre b post a Hbs. wp_go. apply (block_fields pre b post); [done|].
    by destruct (bfree b); cbn [Z.b2z Z.eqb]; rewrite wp_ret.
  - intros r k' [-> ->]. split; [|done]. rewrite <- (Z.add_0_l (free_count bs)). apply foldl_sum.
    + intros m b _ ? ?. destruct (bfree b); cbn [Z.b2z] in *; [by rewrite u32_small by lia|lia].
    + apply Forall_forall. intros b _. by destruct (bfree b).
    + lia.
    + fold (free_count bs). unfold HEAP_MAX in Hb. lia.
Qed.
End statistics.

(** The statistics describe the list of blocks exactly, with no wrap-around:
    the size of the heap, the bytes not free (headers included), the payload
    bytes that are free, and the numbers of blocks and of free blocks. *)
Theorem heap_statistics k bs :
  heap_model k bs →
  wp (s <- heap_size ;; u <- heap_used ;; f <- heap_free ;; n <- heap_blocks ;; nf <- heap_free_blocks ;;
      ret (s, u, f, n, nf))
     (λ r k', k' = k ∧
        r = (span bs, span bs - free_payload bs, free_payload bs, Z.of_nat (length bs), free_count bs)) k.
Proof.
  intros (_ & U & T & P & Hi).
  rewrite wp_bind. eapply wp_mono; [by eapply heap_size_rep|]. intros ? ? [-> ->].
  rewrite wp_bind. eapply wp_mono; [by eapply heap_used_rep|]. intros ? ? [-> ->].
  rewrite wp_bind. eapply wp_mono; [by eapply heap_free_rep|]. intros ? ? [-> ->].
  rewrite wp_bind. eapply wp_mono; [by eapply heap_blocks_rep|]. intros ? ? [-> ->].
  rewrite wp_bind. eapply wp_mono; [by eapply heap_free_blocks_rep|]. by intros ? ? [-> ->].
Qed.

Lemma heap_statistics_witness :
  wp (s <- heap_size ;; u <- heap_used ;; f <- heap_free ;; n <- heap_blocks ;; nf <- heap_free_blocks ;;
      ret (s, u, f, n, nf))
     (λ r k', k' = held ∧ r = (span [Blk 104 false; Blk 65400 true],
        span [Blk 104 false; Blk 65400 true] - free_payload [Blk 104 false; Blk 65400 true],
        free_payload [Blk 104 false; Blk 65400 true],
        Z.of_nat (length [Blk 104 false; Blk 65400 true]), free_count [Blk 104 false; Blk 65400 true])) held.
Proof. apply heap_statistics, held_model. Defined.

(** ** Starting up *)

(** [heap_init] either sets up a heap of one free block of 64 KB less a
    header with nothing allocated, or runs out of frames, says so, and leaves
    the heap not ready, so that [kmalloc] keeps refusing. *)
Theorem heap_init_starts k U T P :
  paging_inv k U T P → cr0_pg (mach k) = true → heap_ready (heap_st k) = 0 →
  wp heap_init (λ _ k', heap_model k' [initial_block] ∨
    (heap_ready (heap_st k') = 0 ∧ (∃ U' T' P', paging_inv k' U' T' P') ∧
     ∀ size, kmalloc size k' = Ok 0 k')) k.
Proof.
  intros Hi Hon Hr. eapply wp_mono; [by eapply heap_init_rep|].
  intros [] k' (U' & T' & P' & _ & _ & [H|(_ & H & _ & Hr')]).
  - left. split; [exact I|]. by exists U', T', P'.
  - right. rewrite Hr in Hr'. split_and!; [done|by exists U', T', P'|].
    intros size. unfold kmalloc, heap_g, bind, gets. by rewrite Hr'.
Qed.

Lemma heap_init_starts_witness :
  wp heap_init (λ _ k', heap_model k' [initial_block] ∨
    (heap_ready (heap_st k') = 0 ∧ (∃ U' T' P', paging_inv k' U' T' P') ∧
     ∀ size, kmalloc size k' = Ok 0 k')) paged.
Proof.
  destruct paged_inv as (U & T & P & Hi & _ & Hon & _ & _).
  apply (heap_init_starts paged U T P); [exact Hi|exact Hon|vm_compute; reflexivity].
Defined.

(** ** Sizes near 2^32 *)

(** The two additions that are not checked do wrap.  Rounding a size of
    0xFFFFFFF9 or more up to eight gives 0, so [kmalloc] returns a pointer to a
    block of no bytes; and a size of 0x7FFFFFFF passes the test against the
    ceiling because [brk + bytes] wraps, so [kmalloc] maps pages until the
    frames run out and returns null with no frame left. *)
Theorem kmalloc_size_wraps :
  (∀ size, 0xFFFFFFF9 ≤ size < 0x100000000 → align8 size = 0) ∧
  wp (kmalloc 0xFFFFFFFF) (λ p k', p = HEAP_START + 16 ∧ vword (mach k') (blk_size HEAP_START) = 0) booted ∧
  wp (kmalloc 0x7FFFFFFF) (λ p k', p = 0 ∧
    used_frames (pmm_st k') = total_frames (pmm_st k') ∧ used_frames (pmm_st booted) = 23) booted.
Proof.
  split_and!.
  - intros size Hs. unfold align8. replace (u32 (size + 7)) with (size + 7 - 0x100000000) by (unfold u32; zlia).
    assert (size = 0xFFFFFFF9 ∨ size = 0xFFFFFFFA ∨ size = 0xFFFFFFFB ∨ size = 0xFFFFFFFC ∨
      size = 0xFFFFFFFD ∨ size = 0xFFFFFFFE ∨ size = 0xFFFFFFFF) as Hc by lia.
    by destruct Hc as [->|[->|[->|[->|[->|[->| ->]]]]]].
  - closed.
  - closed.
Qed.
