(* ===== verification/TaskStacks.v ===== *)
(** * Who owns the stacks

    The invariant that ties the task table to the heap: every stack in the table
    is a live allocation of its own.  [task_create] and [reap] keep it, for any
    allocator with the laws of Alloc.v.  At the end, the concrete machine of
    Booted.v gets a worker task. *)
From stdpp Require Import prelude gmap list strings.
From Stdlib Require Import Lia ZArith.
From S2P Require Import Prelude Machine State Util Console Memory Pmm Paging Heap HeapSpec.
From S2P Require Import HeapProof HeapMap Frames Alloc Task TaskProof Booted.

#[local] Open Scope Z_scope.

(** ** Who owns the stacks *)

(** Every stack in the table is a live allocation large enough, no two slots
    share one, and a free slot has none. *)
Record stacks_owned (A : gmap Z Z) (s : sched_state) : Prop := {
  so_alloc i : 1 ≤ i < MAX_TASKS → stack_base (task_at s i) ≠ 0 →
    ∃ n, A !! stack_base (task_at s i) = Some n ∧ TASK_STACK_SIZE ≤ n;
  so_inj i j : 1 ≤ i < MAX_TASKS → 1 ≤ j < MAX_TASKS → stack_base (task_at s i) ≠ 0 →
    stack_base (task_at s i) = stack_base (task_at s j) → i = j;
  so_unused i : 1 ≤ i < MAX_TASKS → state (task_at s i) = TASK_UNUSED → stack_base (task_at s i) = 0
}.

(** Slot [i] holds a dead task whose stack can go: it is not the current one. *)
Definition reapable (s : sched_state) (i : Z) : Prop :=
  1 ≤ i < MAX_TASKS ∧ state (task_at s i) = TASK_DEAD ∧ i ≠ current s.

Section stacks.
Context {inv : kernel → gmap Z Z → Prop} `{!Allocator inv}.

(** What creating a task promises. *)
Definition created (k : kernel) (A : gmap Z Z) (nm : cstr) (entry r : Z) (k' : kernel) : Prop :=
    sched_wf (sched_st k') ∧ kept A nowhere k k' ∧
    ((r = -1 ∧ no_room_for_task k ∧ inv k' A ∧ sched_st k' = sched_st k) ∨
     (∃ stack n, lowest_free (sched_st k) r ∧ (∃ k1, stack ≠ 0 ∧ kmalloc TASK_STACK_SIZE k = Ok stack k1) ∧
        A !! stack = None ∧ inv k' (<[stack := n]> A) ∧ stacks_owned (<[stack := n]> A) (sched_st k') ∧
        frame_at (mach k') (first_esp stack) (rev (first_frame (sym (mach k) "task_exit") entry)) ∧
        sched_st k' = put r (new_task r stack (first_esp stack) nm) (sched_st k))).

Lemma task_create_owned k A nm entry :
  inv k A → sched_wf (sched_st k) → stacks_owned A (sched_st k) →
  wp (task_create nm entry) (created k A nm entry) k.
Proof using All.
  intros Hi Hw Hso. eapply wp_mono; [by apply (task_create_rep k A)|]. unfold created.
  intros r k' [(-> & Hno & Hi' & Hk & Hs)|(stack & n & Hlow & Hkm & HA & Hn & Hi' & Hk & Hf & Hs)].
  { rewrite Hs. split_and!; [done..|]. by left. }
  pose proof Hlow as (Hr & Hun & _).
  assert (∀ j, 1 ≤ j < MAX_TASKS → task_at (sched_st k') j =
    if decide (j = r) then new_task r stack (first_esp stack) nm (task_at (sched_st k) r)
    else task_at (sched_st k) j) as Hat.
  { intros j Hj. rewrite Hs, task_at_put by (done || lia). done. }
  assert (0 < stack) as Hpos by (eapply (al_range k' _ stack n Hi'); by rewrite lookup_insert_eq).
  split_and!; [|done|right].
  - rewrite Hs. pose proof (sw_now _ Hw) as Hnow. apply sched_wf_put; [done|lia|..]; cbn; try done.
    intros ->. destruct Hnow; congruence.
  - exists stack, n. split; [done|]. split; [done|]. split_and!; [done|done| |done|done]. split.
    + intros i Hir. rewrite Hat by done. case_decide; cbn [stack_base new_task].
      * intros _. exists n. by rewrite lookup_insert_eq.
      * intros Hne. destruct (so_alloc _ _ Hso i Hir Hne) as (m & Hm & ?).
        exists m. rewrite lookup_insert_ne by congruence. done.
    + intros i j Hir Hjr. rewrite !Hat by done. do 2 case_decide; cbn [stack_base new_task]; intros Hne Heq.
      * congruence.
      * destruct (so_alloc _ _ Hso j Hjr) as (m & Hm & _); [congruence|]. congruence.
      * destruct (so_alloc _ _ Hso i Hir) as (m & Hm & _); [done|]. congruence.
      * by eapply so_inj.
    + intros i Hir. rewrite Hat by done. case_decide; [done|]. by apply (so_unused _ _ Hso).
Qed.


(** Killing a task keeps the table well formed and leaves the stacks alone. *)
Lemma sched_wf_kill s i : sched_wf s → 1 ≤ i < MAX_TASKS → state (task_at s i) ≠ TASK_UNUSED →
  sched_wf (put i (set_state TASK_DEAD) s).
Proof using Type.
  intros Hw Hi Hu. apply sched_wf_put; [done|lia|..]; cbn; [done|lia| |by right].
  intros _. by apply (sw_id _ Hw); [lia|].
Qed.

Lemma stacks_owned_kill A s i : sched_wf s → 1 ≤ i < MAX_TASKS → stacks_owned A s →
  stacks_owned A (put i (set_state TASK_DEAD) s).
Proof using Type.
  intros Hw Hi Hso. assert (∀ j, 1 ≤ j < MAX_TASKS →
    stack_base (task_at (put i (set_state TASK_DEAD) s) j) = stack_base (task_at s j)) as Hb.
  { intros j Hj. rewrite task_at_put by (done || lia). by case_decide; subst. }
  split.
  - intros j Hj. rewrite Hb by done. by apply (so_alloc _ _ Hso).
  - intros j j' Hj Hj'. rewrite !Hb by done. by apply (so_inj _ _ Hso).
  - intros j Hj. rewrite Hb, task_at_put by (done || lia). case_decide; [done|]. by apply (so_unused _ _ Hso).
Qed.

(** The table and the allocations when [reap] has passed the slots below [i]. *)
Definition reaped_below (k : kernel) (A : gmap Z Z) (i : Z) (k' : kernel) : Prop :=
  let s := sched_st k in
  length (tasks (sched_st k')) = 8%nat ∧ current (sched_st k') = current s ∧
  (∀ j, 0 ≤ j < MAX_TASKS → (j < i ∧ reapable s j →
      task_at (sched_st k') j = set_state TASK_UNUSED (set_stack_base 0 (task_at s j))) ∧
    (¬ (j < i ∧ reapable s j) → task_at (sched_st k') j = task_at s j)) ∧
  ∃ A', inv k' A' ∧ A' ⊆ A ∧ kept A' nowhere k k' ∧
    (∀ j, j < i → reapable s j → A' !! stack_base (task_at s j) = None) ∧
    (∀ p, (∀ j, j < i → reapable s j → stack_base (task_at s j) ≠ p) → A' !! p = A !! p).

Lemma zero_not_allocated k A : inv k A → A !! 0 = None.
Proof using All.
  intros Hi. destruct (A !! 0) as [n|] eqn:HA; [|done]. destruct (al_range k A 0 n Hi HA). lia.
Qed.

(** The slot [i] changes, and the allocations with it. *)
Lemma reaped_step k A i k1 k2 A2 :
  stacks_owned A (sched_st k) → 1 ≤ i < MAX_TASKS → reapable (sched_st k) i →
  reaped_below k A i k1 → inv k2 A2 →
  sched_st k2 = put i (λ t, set_state TASK_UNUSED (set_stack_base 0 t)) (sched_st k1) →
  (∃ A1, A1 ⊆ A ∧ A2 = delete (stack_base (task_at (sched_st k) i)) A1 ∧ kept A2 nowhere k k2 ∧
    (∀ j, j < i → reapable (sched_st k) j → A1 !! stack_base (task_at (sched_st k) j) = None) ∧
    (∀ p, (∀ j, j < i → reapable (sched_st k) j → stack_base (task_at (sched_st k) j) ≠ p) → A1 !! p = A !! p)) →
  reaped_below k A (i + 1) k2.
Proof using All.
  intros Hso Hir Hreap (Hlen & Hcur & Htab & _) Hi2 Hs2 (A1 & HA1 & -> & Hk & Hgone & Hstay).
  unfold reaped_below. rewrite Hs2. split_and!; [by rewrite <- Hlen; apply length_alter|done| |].
  - intros j Hj. unfold put. rewrite task_at_alter by (rewrite ?Hlen; unfold MAX_TASKS in *; lia).
    destruct (Htab j Hj) as [Hdo Hdont]. destruct (Htab i ltac:(lia)) as [_ Hi']. split; intros Hc.
    + case_decide as Hd; [subst j; rewrite Hi' by lia; done|]. apply Hdo. split; [lia|apply Hc].
    + case_decide as Hd; [subst j; destruct Hc; split; [lia|done]|]. apply Hdont. intros [? ?]. apply Hc. split; [lia|done].
  - eexists. split; [exact Hi2|]. split_and!; [|exact Hk| |].
    + etrans; [apply delete_subseteq|done].
    + intros j Hj Hrj. destruct (decide (j = i)) as [->|]; [apply lookup_delete_eq|].
      apply lookup_delete_None. right. apply Hgone; [lia|done].
    + intros p Hp. rewrite lookup_delete_ne by (apply Hp; [lia|done]). apply Hstay. intros j Hj. apply Hp. lia.
Qed.

Lemma reap_slot_rep k A i k1 :
  stacks_owned A (sched_st k) → inv k A → 1 ≤ i < MAX_TASKS → reaped_below k A i k1 →
  wp (reap_slot i) (λ _ k2, reaped_below k A (i + 1) k2) k1.
Proof using All.
  intros Hso Hinv Hir Hr. pose proof Hr as (Hlen & Hcur & Htab & A1 & Hi1 & HA1 & Hk1 & Hgone & Hstay).
  destruct (Htab i ltac:(lia)) as [_ Hti]. specialize (Hti ltac:(lia)).
  unfold reap_slot, task_g, sched_g. wp_go. rewrite Hti, Hcur.
  destruct (bool_decide _ && negb _) eqn:Hdec; unfold when at 1.
  2:{ assert (¬ reapable (sched_st k) i) as Hno.
      { intros (_ & Hd & Hne). rewrite bool_decide_true in Hdec by done. apply Z.eqb_neq in Hne.
        by rewrite Hne in Hdec. }
      rewrite wp_ret. split_and!; [done|done| |].
      - intros j Hj. destruct (Htab j Hj) as [Hdo Hdont]. split; intros Hc.
        + apply Hdo. destruct (decide (j = i)) as [->|]; [by destruct Hc|]. split; [lia|apply Hc].
        + apply Hdont. intros [? ?]. apply Hc. split; [lia|done].
      - exists A1. split_and!; [done..| |]; intros.
        + destruct (decide (j = i)) as [->|]; [done|]. apply Hgone; [lia|done].
        + apply Hstay. intros j Hj. apply H. lia. }
  apply andb_prop in Hdec as [Hd%bool_decide_eq_true Hne%negb_true_iff%Z.eqb_neq].
  assert (reapable (sched_st k) i) as Hreap by done. wp_go. rewrite Hti.
  set (b := stack_base (task_at (sched_st k) i)).
  assert (∀ k2 A2, sched_st k2 = sched_st k1 → inv k2 A2 → A2 = delete b A1 → kept A2 nowhere k k2 →
    wp (upd_task i (set_stack_base 0) ;;; upd_task i (set_state TASK_UNUSED))
      (λ _ k3, reaped_below k A (i + 1) k3) k2) as Hend.
  { intros k2 A2 Hs2 Hi2 -> Hk2. unfold upd_task. wp_go.
    eapply (reaped_step k A i k1); [done|done|done|done| | |].
    - eapply al_ext, Hi2. by split.
    - cbn. rewrite Hs2. unfold put, set_tasks. cbn. f_equal. apply alter_alter.
    - exists A1. by split_and!. }
  destruct (b =? 0) eqn:Hb0; cbn [negb when].
  - apply Z.eqb_eq in Hb0. rewrite wp_ret. eapply Hend; [done|exact Hi1| |done].
    rewrite delete_id; [done|]. rewrite Hb0. by apply (zero_not_allocated k1).
  - apply Z.eqb_neq in Hb0. destruct (so_alloc _ _ Hso i Hir Hb0) as (n & HA & _). fold b in HA.
    assert (A1 !! b = Some n) as HA1b.
    { rewrite <- HA. apply Hstay. intros j Hj (Hjr & _) Heq. assert (j = i); [|lia].
      apply (so_inj _ _ Hso); [done|done|by rewrite Heq|by rewrite Heq]. }
    wp_go. eapply wp_mono; [by apply (al_free k1 A1 b n)|]. intros r k2 (Hmo & Hk2 & _ & Hi2).
    rewrite wp_ret. eapply Hend; [apply (mo_sched _ _ Hmo)|exact Hi2|done|].
    intros x Hx Hnw. rewrite Hk2 by done. apply Hk1; [by eapply allocated_delete|done].
Qed.

(** What [reap] promises. *)
Definition reaped (k : kernel) (A : gmap Z Z) (k' : kernel) : Prop :=
    sched_st k' = reap_spec (sched_st k) ∧ sched_wf (sched_st k') ∧
    ∃ A', inv k' A' ∧ A' ⊆ A ∧ kept A' nowhere k k' ∧ stacks_owned A' (sched_st k') ∧
      (∀ i, reapable (sched_st k) i → A' !! stack_base (task_at (sched_st k) i) = None) ∧
      (∀ p, (∀ i, reapable (sched_st k) i → stack_base (task_at (sched_st k) i) ≠ p) → A' !! p = A !! p).

Lemma reap_owned k A :
  inv k A → sched_wf (sched_st k) → stacks_owned A (sched_st k) → wp reap (λ _ k', reaped k A k') k.
Proof using All.
  intros Hi Hw Hso.
  assert (wp reap (λ _ k', reaped_below k A 8 k') k) as Hwp.
  { unfold reap. apply (wp_for_range (reaped_below k A)).
    - split_and!; [apply (sw_len _ Hw)|done| |].
      + intros j Hj. split; [intros [? (? & _)]; lia|done].
      + exists A. split_and!; [done..| |done]. intros j Hj (? & _). lia.
    - intros i k1 Hir. apply reap_slot_rep; [done..|unfold MAX_TASKS in *; lia].
    - intros k'. done. }
  eapply wp_mono; [eapply always_wp; [by apply reap_always|exact Hwp]|].
  intros [] k' [Hs (_ & Hcur & Htab & A' & Hi' & Hsub & Hk & Hgone & Hstay)].
  split; [exact Hs|]. split; [rewrite Hs; by apply reap_wf|]. exists A'. split_and!; [done..| | |].
  - assert (∀ i, 1 ≤ i < MAX_TASKS → stack_base (task_at (sched_st k') i) ≠ 0 →
      ¬ reapable (sched_st k) i ∧ task_at (sched_st k') i = task_at (sched_st k) i) as Hkeep.
    { intros i Hir Hne. destruct (Htab i ltac:(lia)) as [Hdo Hdont].
      assert (¬ reapable (sched_st k) i) as Hnr.
      { intros Hr. rewrite Hdo in Hne by (split; [unfold MAX_TASKS in *; lia|done]). done. }
      split; [done|]. apply Hdont. by intros [_ ?]. }
    split.
    + intros i Hir Hne. destruct (Hkeep i Hir Hne) as [Hnr Heq]. rewrite Heq in *.
      destruct (so_alloc _ _ Hso i Hir Hne) as (n & HA & ?). exists n. split; [|done]. rewrite <- HA.
      apply Hstay. intros j _ Hr Hj. apply Hnr. replace i with j; [done|].
      apply (so_inj _ _ Hso); [apply Hr|done|by rewrite Hj|done].
    + intros i j Hir Hjr Hne Heq. destruct (Hkeep i Hir Hne) as [_ Hi1].
      destruct (Hkeep j Hjr ltac:(congruence)) as [_ Hj1]. rewrite Hi1, Hj1 in *. by eapply so_inj.
    + intros i Hir Hun. destruct (Htab i ltac:(lia)) as [Hdo Hdont].
      destruct (decide (stack_base (task_at (sched_st k') i) = 0)) as [|Hne]; [done|].
      destruct (Hkeep i Hir Hne) as [_ Heq]. rewrite Heq in *. by apply (so_unused _ _ Hso).
  - intros i Hr. apply Hgone; [destruct Hr; unfold MAX_TASKS in *; lia|done].
  - intros p Hp. apply Hstay. intros j _. apply Hp.
Qed.
End stacks.

(** ** A worker task beside task 0 *)
#[export] Instance same_memory_preorder : PreOrder same_memory.
Proof.
  split; [by intros k; split|]. intros k1 k2 k3 [] []. split; congruence.
Qed.
#[export] Instance upd_sched_same_memory f : Preserves same_memory (modify (upd_sched_st f)).
Proof. by intros k. Qed.
#[export] Instance scheduler_init_same_memory : Preserves same_memory scheduler_init.
Proof. unfold scheduler_init, upd_task. apply _. Qed.

Lemma scheduling_client : heap_client scheduling ∅.
Proof.
  assert (length (tasks (sched_st booted)) = 8%nat) as Hl by (rewrite booted_table; reflexivity).
  assert (quantum_left (sched_st booted) = TASK_QUANTUM) as Hq by (rewrite booted_table; reflexivity).
  destruct (wp_run_state _ _ _ _ scheduling_eq (wp_preserves same_memory scheduler_init _ _
    (scheduler_init_rep booted Hl Hq))) as (_ & _ & Hs).
  eapply (al_ext booted); [exact Hs|apply booted_client].
Qed.

Lemma slots_unused s : (∀ i, 1 ≤ i < MAX_TASKS → stack_base (task_at s i) = 0) → ∀ A, stacks_owned A s.
Proof. intros H A. split; [intros i Hi Hne; by rewrite H in Hne|intros i j Hi _ Hne; by rewrite H in Hne|auto]. Qed.

Lemma small_range (P : Z → Prop) :
  P 1 → P 2 → P 3 → P 4 → P 5 → P 6 → P 7 → ∀ i, 1 ≤ i < MAX_TASKS → P i.
Proof.
  intros H1 H2 H3 H4 H5 H6 H7 i Hi. unfold MAX_TASKS in Hi.
  assert (i = 1 ∨ i = 2 ∨ i = 3 ∨ i = 4 ∨ i = 5 ∨ i = 6 ∨ i = 7) as Hc by lia.
  by destruct Hc as [->|[->|[->|[->|[->|[->| ->]]]]]].
Qed.

Lemma scheduling_owned : stacks_owned ∅ (sched_st scheduling).
Proof. apply slots_unused. rewrite (proj1 scheduling_table). apply small_range; reflexivity. Qed.

Definition worker : string := "worker".

Definition spawned : kernel := run_state (task_create (lit worker) 0x5000) scheduling.
Lemma spawned_eq : spawned = run_state (task_create (lit worker) 0x5000) scheduling.
Proof. reflexivity. Qed.
#[global] Opaque spawned.

Definition worker_stack : Z := HEAP_START + 16.
Definition worker_table : sched_state := Eval vm_compute in sched_st spawned.

(** What the witnesses need to know of this state. *)
Record spawned_state : Prop := {
  sp_table : sched_st spawned = worker_table;
  sp_regs : regs (mach spawned) = demo_regs;
  sp_exit : sym (mach spawned) "task_exit" = 0x1100;
  sp_bitmap : bm_lo spawned = 0x3000;
  sp_directory : pdir spawned / 0x1000 ≠ 2;
  sp_identity : iend spawned = 0x40000;
  sp_brk : brk (heap_st spawned) = HEAP_START + HEAP_INITIAL
}.
Lemma spawned_now : spawned_state.
Proof.
  assert (sched_st spawned = worker_table ∧ regs (mach spawned) = demo_regs ∧
    sym (mach spawned) "task_exit" = 0x1100 ∧ bm_lo spawned = 0x3000 ∧ pdir spawned / 0x1000 ≠ 2 ∧
    iend spawned = 0x40000 ∧
    brk (heap_st spawned) = HEAP_START + HEAP_INITIAL) as H by closed.
  split; apply H.
Qed.

Lemma spawned_facts : ∃ n, heap_client spawned {[worker_stack := n]} ∧
  stacks_owned {[worker_stack := n]} (sched_st spawned) ∧ sched_wf (sched_st spawned) ∧
  frame_at (mach spawned) (first_esp worker_stack) (rev (first_frame 0x1100 0x5000)).
Proof.
  pose proof (task_create_owned (inv := heap_client) scheduling ∅ (lit worker) 0x5000
    scheduling_client scheduling_wf scheduling_owned) as Hwp.
  destruct (wp_run_state _ _ _ spawned spawned_eq Hwp) as [r Hr]. clear Hwp. unfold created in Hr.
  destruct Hr as (Hw & _ & [(_ & _ & _ & Hs)|(stack & n & (Hr & Hun & _) & _ & HA & Hi & Hso & Hf & Hs)]).
  { exfalso. rewrite (sp_table spawned_now), (proj1 scheduling_table) in Hs. discriminate. }
  assert (state (task_at (sched_st spawned) 1) = TASK_READY ∧
    stack_base (task_at (sched_st spawned) 1) = worker_stack) as Hc by (rewrite (sp_table spawned_now); closed).
  rewrite Hs in Hc. destruct (decide (r = 1)) as [->|Hne].
  2:{ exfalso. destruct Hc as [Hc _]. rewrite task_at_put in Hc; [|apply scheduling_wf|clear -Hr; lia|closed].
      rewrite decide_False, (proj1 scheduling_table) in Hc by congruence. discriminate. }
  rewrite task_at_put in Hc; [|apply scheduling_wf|closed|closed]. rewrite decide_True in Hc by reflexivity.
  destruct Hc as [_ Hc]. cbn [stack_base new_task] in Hc. subst stack.
  rewrite (proj2 scheduling_table) in Hf.
  exists n. split; [exact Hi|]. split; [exact Hso|]. split; [exact Hw|exact Hf].
Qed.

(** The worker has been killed, but not yet reaped. *)
Definition doomed : kernel := upd_sched_st (put 1 (set_state TASK_DEAD)) spawned.
