(* ===== verification/Multitask.v ===== *)
(** * Several tasks on one processor

    The tasks of task.c share the processor and the memory.  This file states
    what each of them sees: a register file of its own ([view]) and a stack of
    its own.  [system] is the invariant of the running kernel: the memory
    managers are in order, every live task has a stack that nobody else owns,
    and the context of every task that waits lies inside its stack.  Every
    operation keeps it, and leaves the contexts of the other tasks alone.  The
    step relation that puts the operations together is in Running.v. *)
From stdpp Require Import prelude gmap list strings.
From Stdlib Require Import Lia ZArith.
From S2P Require Import Prelude Machine State Util Console Memory Pmm Paging Heap HeapSpec.
From S2P Require Import HeapProof HeapMap Frames Alloc StackMemory Task TaskProof TaskStacks.
From S2P Require Import Input Timer Interrupts.

#[local] Open Scope Z_scope.

(** ** What stays when only memory managers run *)
Record same_cpu (k k' : kernel) : Prop := {
  sc_regs : regs (mach k') = regs (mach k);
  sc_sym : sym (mach k') = sym (mach k)
}.

#[export] Instance same_cpu_preorder : PreOrder same_cpu.
Proof.
  split.
  - intros k. by split.
  - intros k1 k2 k3 [] []. split; congruence.
Qed.

#[export] Instance memory_same_cpu {A} (m : K A) : MemoryOp m → Preserves same_cpu m.
Proof. intros H k. by destruct (H k). Qed.
#[export] Instance upd_sched_same_cpu f : Preserves same_cpu (modify (upd_sched_st f)).
Proof. by intros k. Qed.

#[export] Instance reap_same_cpu : Preserves same_cpu reap.
Proof. unfold reap, reap_slot, task_g, sched_g, upd_task. apply _. Qed.
#[export] Instance task_create_same_cpu nm e : Preserves same_cpu (task_create nm e).
Proof.
  unfold task_create, find_slot, task_g, sched_g, upd_task, on_mach.
  assert (∀ vs sp, Preserves same_cpu (push_words sp vs)) as Hp.
  { induction vs as [|v vs IH]; intros sp; cbn [push_words]; unfold store32; apply _. }
  apply _.
Qed.

(** Nothing changed but devices and what the kernel prints or reads. *)
Record calm (k k' : kernel) : Prop := {
  ca_memory : same_memory k k';
  ca_sched : sched_st k' = sched_st k;
  ca_regs : regs (mach k') = regs (mach k)
}.
Notation Calm := (Preserves calm).

#[export] Instance calm_preorder : PreOrder calm.
Proof.
  split.
  - intros k. by split.
  - intros k1 k2 k3 [] []. split; [by etrans|congruence|congruence].
Qed.

Section calm_ops.
#[export] Instance outb_calm p v : Calm (outb p v).
Proof. by apply outb_preserves. Qed.
#[export] Instance inb_calm p : Calm (inb p).
Proof. by intros k. Qed.
#[export] Instance upd_shell_calm f : Calm (modify (upd_shell_st f)).
Proof. by intros k. Qed.
#[export] Instance upd_serial_calm f : Calm (modify (upd_serial_st f)).
Proof. by intros k. Qed.
#[export] Instance upd_ticks_calm f : Calm (modify (upd_ticks f)).
Proof. by intros k. Qed.
#[export] Instance upd_shift_calm f : Calm (modify (upd_shift_down f)).
Proof. by intros k. Qed.
End calm_ops.

#[export] Instance shell_push_char_calm c : Calm (shell_push_char c).
Proof. unfold shell_push_char, shell_g. apply _. Qed.
#[export] Instance keyboard_handler_calm : Calm keyboard_handler.
Proof. unfold keyboard_handler. apply _. Qed.
#[export] Instance serial_handler_calm n : Calm (serial_handler n).
Proof. unfold serial_handler, serial_step. apply _. Qed.

(** The registers after [sti]. *)
Definition interruptible (r : regfile) : regfile := with_eflags (Z.lor (r_eflags r) 0x200) r.

Lemma interruptible_ok r : regs_ok r → regs_ok (interruptible r).
Proof.
  unfold regs_ok, interruptible. cbn. rewrite !Forall_cons, !Forall_nil.
  intros (? & ? & ? & ? & ? & ? & ? & ? & Hf & ?). split_and!; try done; try lia; by apply lor_u32.
Qed.

(** ** Reading words *)
Lemma vbyte_range m x : 0 ≤ vbyte m x < 0x100.
Proof. unfold vbyte. destruct (mmu m x); [apply u8_range|lia]. Qed.

Lemma vword_range m a : 0 ≤ vword m a < 0x100000000.
Proof.
  unfold vword. pose proof (le_combine_range (vbyte m <$> seqZ a 4)) as H.
  rewrite length_fmap, length_seqZ in H. apply H. apply Forall_fmap, Forall_true. intros x. apply vbyte_range.
Qed.

Lemma window_vword tr lo hi m a : window tr lo hi m → lo ≤ a → a + 4 ≤ hi → vw tr m a = vword m a.
Proof.
  intros Hw ??. unfold vw, vword, vb, vbyte. f_equal. apply list_fmap_ext. intros i x Hx%lookup_seqZ.
  by rewrite (window_mmu _ _ _ _ _ Hw) by lia.
Qed.

(** [n] words from [a] on. *)
Definition words (m : machine) (a : Z) (n : nat) : list Z :=
  (λ j, vword m (a + 4 * j)) <$> seqZ 0 (Z.of_nat n).

Lemma words_lookup m a n i w : words m a n !! i = Some w → w = vword m (a + 4 * Z.of_nat i) ∧ (i < n)%nat.
Proof.
  unfold words. intros (j & -> & Hj)%list_lookup_fmap_Some. apply lookup_seqZ in Hj as [-> ?].
  rewrite Z.add_0_l. split; [done|lia].
Qed.

Lemma words_eq m a n ws : length ws = n →
  (∀ i w, ws !! i = Some w → vword m (a + 4 * Z.of_nat i) = w) → words m a n = ws.
Proof.
  intros <- H. apply list_eq. intros i. destruct (ws !! i) as [w|] eqn:Hi.
  - unfold words. rewrite list_lookup_fmap, lookup_seqZ_lt; [cbn; f_equal; by apply H|].
    apply lookup_lt_Some in Hi. lia.
  - apply lookup_ge_None in Hi. apply lookup_ge_None. unfold words. by rewrite length_fmap, length_seqZ, Nat2Z.id.
Qed.

Lemma words_ext m m' a n :
  (∀ x, a ≤ x < a + 4 * Z.of_nat n → vbyte m' x = vbyte m x) → words m' a n = words m a n.
Proof.
  intros H. unfold words. apply list_fmap_ext. intros i j Hj%lookup_seqZ.
  apply vword_ext. intros x Hx. apply H. lia.
Qed.

Lemma words_readable tr lo hi m a n :
  window tr lo hi m → lo ≤ a → a + 4 * Z.of_nat n ≤ hi → readable m a (words m a n).
Proof.
  intros Hw ??. eapply same_bytes_readable; [done|done| | |done].
  - unfold words. rewrite length_fmap, length_seqZ. lia.
  - intros i w [-> Hi]%words_lookup. eapply window_vword; [done|lia|lia].
Qed.

(** ** The tasks *)
Section system.
(** The boot stack. *)
Context (lo0 hi0 : Z).

Definition stack_lo (s : sched_state) (i : Z) : Z := if i =? 0 then lo0 else stack_base (task_at s i).
Definition stack_hi (s : sched_state) (i : Z) : Z :=
  if i =? 0 then hi0 else stack_base (task_at s i) + TASK_STACK_SIZE.

(** A task with a life before it: it can run, or it is running (its last
    slice, if it has been killed). *)
Definition live (s : sched_state) (i : Z) : Prop :=
  0 ≤ i < MAX_TASKS ∧ (runnable (task_at s i) = true ∨ i = current s).

Record system (k : kernel) (A : gmap Z Z) : Prop := {
  sy_mem : client (boot_stack lo0 hi0) k A;
  sy_wf : sched_wf (sched_st k);
  sy_owned : stacks_owned A (sched_st k);
  sy_based i : 1 ≤ i → live (sched_st k) i → stack_base (task_at (sched_st k) i) ≠ 0;
  sy_parked i : live (sched_st k) i → i ≠ current (sched_st k) →
    stack_lo (sched_st k) i ≤ esp (task_at (sched_st k) i) ∧
    esp (task_at (sched_st k) i) + 40 ≤ stack_hi (sched_st k) i;
  sy_regs : regs_ok (regs (mach k));
  sy_esp : stack_lo (sched_st k) (current (sched_st k)) ≤ r_esp (regs (mach k)) ≤
    stack_hi (sched_st k) (current (sched_st k))
}.

(** The register file a task sees: the processor's, or the one it will find
    when it gets the processor back. *)
Definition view (k : kernel) (i : Z) : regfile :=
  if i =? current (sched_st k) then regs (mach k)
  else let a := esp (task_at (sched_st k) i) in frame_regs (words (mach k) a 10) a.

(** Task [i] notices nothing between [k] and [k']. *)
Record undisturbed (i : Z) (k k' : kernel) : Prop := {
  ud_view : view k' i = view k i;
  ud_top : stack_hi (sched_st k') i = stack_hi (sched_st k) i;
  ud_bytes x : r_esp (view k i) ≤ x < stack_hi (sched_st k) i → vbyte (mach k') x = vbyte (mach k) x
}.

(** Registers inside a call of [context_switch]: the two arguments are on the
    stack. *)
Definition in_call (r : regfile) : regfile := with_esp (r_esp r - 8) r.

(** Task [i] lost the processor between [k] and [k']. *)
Record paused (i : Z) (k k' : kernel) : Prop := {
  pa_view : view k' i = in_call (view k i);
  pa_top : stack_hi (sched_st k') i = stack_hi (sched_st k) i;
  pa_bytes x : r_esp (view k i) ≤ x < stack_hi (sched_st k) i → vbyte (mach k') x = vbyte (mach k) x
}.

#[export] Instance undisturbed_preorder i : PreOrder (undisturbed i).
Proof.
  split; [by split|]. intros k1 k2 k3 [V1 T1 B1] [V2 T2 B2]. split; [congruence|congruence|].
  intros x Hx. rewrite B2; [by apply B1|]. by rewrite V1, T1.
Qed.

Lemma view_current k : view k (current (sched_st k)) = regs (mach k).
Proof. unfold view. by rewrite Z.eqb_refl. Qed.

Lemma view_esp k i : i ≠ current (sched_st k) → r_esp (view k i) = esp (task_at (sched_st k) i) + 40.
Proof. intros Hi. unfold view. by rewrite (proj2 (Z.eqb_neq _ _)). Qed.

(** What a task sees depends on its slot, its stack and, if it runs, the
    processor. *)
Lemma undisturbed_parked k k' i :
  i ≠ current (sched_st k) → i ≠ current (sched_st k') →
  esp (task_at (sched_st k') i) = esp (task_at (sched_st k) i) →
  stack_base (task_at (sched_st k') i) = stack_base (task_at (sched_st k) i) →
  (∀ x, esp (task_at (sched_st k) i) ≤ x < stack_hi (sched_st k) i → vbyte (mach k') x = vbyte (mach k) x) →
  esp (task_at (sched_st k) i) + 40 ≤ stack_hi (sched_st k) i →
  undisturbed i k k'.
Proof.
  intros Hc Hc' He Hb Hx Hr. split.
  - unfold view. rewrite !(proj2 (Z.eqb_neq _ _)) by done. rewrite He. f_equal. apply words_ext.
    intros x ?. apply Hx. lia.
  - unfold stack_hi. by rewrite Hb.
  - rewrite view_esp by done. intros x ?. apply Hx. lia.
Qed.

Lemma undisturbed_current k k' :
  current (sched_st k') = current (sched_st k) → regs (mach k') = regs (mach k) →
  stack_base (task_at (sched_st k') (current (sched_st k))) = stack_base (task_at (sched_st k) (current (sched_st k))) →
  (∀ x, r_esp (regs (mach k)) ≤ x < stack_hi (sched_st k) (current (sched_st k)) →
     vbyte (mach k') x = vbyte (mach k) x) →
  undisturbed (current (sched_st k)) k k'.
Proof.
  intros Hc Hr Hb Hx. split.
  - rewrite view_current. rewrite <- Hc at 1. by rewrite view_current.
  - unfold stack_hi. by rewrite Hb.
  - by rewrite view_current.
Qed.

Lemma slot_stack A s i : stacks_owned A s → 0 ≤ i < MAX_TASKS → (1 ≤ i → stack_base (task_at s i) ≠ 0) →
  stack_at lo0 hi0 A (stack_lo s i) (stack_hi s i).
Proof.
  intros Ho Hi Hb. unfold stack_lo, stack_hi. destruct (Z.eqb_spec i 0) as [|Hne]; [by left|right].
  destruct (so_alloc _ _ Ho i ltac:(lia) (Hb ltac:(lia))) as (n & HA & ?).
  unfold TASK_STACK_SIZE in *. split; [lia|]. exists n. split; [done|lia].
Qed.

Section invariant.
Context (k : kernel) (A : gmap Z Z) (Hsy : system k A).
Notation s := (sched_st k).

(** The stack of a live task, as a region of memory. *)
Lemma live_stack i : live s i → stack_at lo0 hi0 A (stack_lo s i) (stack_hi s i).
Proof using All.
  intros Hl. apply slot_stack; [apply (sy_owned _ _ Hsy)|apply Hl|]. intros ?. by apply (sy_based _ _ Hsy).
Qed.

Lemma live_on_stack i x : live s i → stack_lo s i ≤ x < stack_hi s i → on_stack lo0 hi0 A x.
Proof using All. intros Hl. apply stack_on. by apply live_stack. Qed.

(** Two live tasks share no byte of stack. *)
Lemma live_disjoint i j x : live s i → live s j → i ≠ j →
  stack_lo s i ≤ x < stack_hi s i → stack_lo s j ≤ x < stack_hi s j → False.
Proof using All.
  intros Hi Hj Hne. pose proof (sy_mem _ _ Hsy) as Hm. unfold stack_lo, stack_hi.
  assert (∀ i, live s i → i ≠ 0 → ∃ n, A !! stack_base (task_at s i) = Some n ∧ TASK_STACK_SIZE ≤ n ∧
    stack_base (task_at s i) ≠ 0 ∧ 1 ≤ i < MAX_TASKS) as Ha.
  { intros l Hl Hl0. pose proof Hl as [? _]. pose proof (sy_based _ _ Hsy l ltac:(lia) Hl) as Hb.
    destruct (so_alloc _ _ (sy_owned _ _ Hsy) l ltac:(lia) Hb) as (n & HA & ?). exists n. split_and!; [done..|lia|lia]. }
  destruct (Z.eqb_spec i 0) as [->|Hi0], (Z.eqb_spec j 0) as [->|Hj0]; [done| | |].
  - destruct (Ha j Hj Hj0) as (n & HA & ?). pose proof (boot_below _ _ _ _ _ _ Hm HA). lia.
  - destruct (Ha i Hi Hi0) as (n & HA & ?). pose proof (boot_below _ _ _ _ _ _ Hm HA). lia.
  - destruct (Ha i Hi Hi0) as (n & HA & ? & Hb & Hri), (Ha j Hj Hj0) as (m & HA' & ? & ? & Hrj).
    pose proof (al_disjoint _ _ _ _ _ _ Hm HA HA') as Hd. intros ??.
    assert (stack_base (task_at s i) ≠ stack_base (task_at s j)) as Hnb
      by (intros Heq; apply Hne; by eapply (so_inj _ _ (sy_owned _ _ Hsy))).
    specialize (Hd Hnb). lia.
Qed.

Lemma live_current : live s (current s).
Proof using All. split; [apply (sw_cur _ (sy_wf _ _ Hsy))|by right]. Qed.

Lemma live_range i : live s i → 0 < stack_lo s i ≤ stack_hi s i ∧ stack_hi s i < 0x100000000.
Proof using All. intros Hl. eapply stack_range; [apply (sy_mem _ _ Hsy)|by apply live_stack]. Qed.

Lemma runnable_live i : 0 ≤ i < MAX_TASKS → runnable (task_at s i) = true → live s i.
Proof using. intros ??. split; [done|by left]. Qed.

(** A live task whose slot and stack are left alone. *)
Lemma undisturbed_slot k' i :
  live s i → current (sched_st k') = current s → regs (mach k') = regs (mach k) →
  esp (task_at (sched_st k') i) = esp (task_at s i) →
  stack_base (task_at (sched_st k') i) = stack_base (task_at s i) →
  (∀ x, stack_lo s i ≤ x < stack_hi s i → vbyte (mach k') x = vbyte (mach k) x) → undisturbed i k k'.
Proof using All.
  intros Hl Hc Hr He Hb Hx. destruct (decide (i = current s)) as [->|Hne].
  - apply undisturbed_current; [done..|]. pose proof (sy_esp _ _ Hsy). intros x ?. apply Hx. lia.
  - pose proof (sy_parked _ _ Hsy i Hl Hne). apply undisturbed_parked; [done|congruence|done..| |lia].
    intros x ?. apply Hx. lia.
Qed.

(** The table changed, but no stack and no context of a live task. *)
Lemma system_table k' A' B :
  client (boot_stack lo0 hi0) k' A' → sched_wf (sched_st k') → stacks_owned A' (sched_st k') →
  stacks_owned B (sched_st k') →
  current (sched_st k') = current s → regs (mach k') = regs (mach k) →
  (∀ i, live (sched_st k') i → live s i ∧ esp (task_at (sched_st k') i) = esp (task_at s i) ∧
     stack_base (task_at (sched_st k') i) = stack_base (task_at s i)) →
  (∀ x, on_stack lo0 hi0 B x → vbyte (mach k') x = vbyte (mach k) x) →
  system k' A' ∧ ∀ i, live (sched_st k') i → undisturbed i k k'.
Proof using All.
  intros Hm Hw Ho HoB Hc Hr Ht Hx. split.
  - split; [done..| | | |].
    + intros i Hi Hl. destruct (Ht i Hl) as (Hl0 & _ & ->). by apply (sy_based _ _ Hsy).
    + intros i Hl Hne. destruct (Ht i Hl) as (Hl0 & -> & Hb). unfold stack_lo, stack_hi. rewrite Hb.
      apply (sy_parked _ _ Hsy); [done|congruence].
    + rewrite Hr. apply (sy_regs _ _ Hsy).
    + assert (live (sched_st k') (current (sched_st k'))) as Hl by (split; [apply (sw_cur _ Hw)|by right]).
      destruct (Ht _ Hl) as (_ & _ & Hb). unfold stack_lo, stack_hi. rewrite Hb, Hr, Hc. apply (sy_esp _ _ Hsy).
  - intros i Hl. destruct (Ht i Hl) as (Hl0 & ? & ?). apply undisturbed_slot; [done..|].
    intros x Hx'. apply Hx. eapply stack_on; [eapply (slot_stack _ _ i HoB); [apply Hl|]|].
    + intros ?. destruct (Ht i Hl) as (_ & _ & ->). by apply (sy_based _ _ Hsy).
    + unfold stack_lo, stack_hi in *. destruct (Ht i Hl) as (_ & _ & ->). done.
Qed.
End invariant.

(** The memory managers leave the bytes of the stacks alone. *)
Lemma quiet_bytes k k' A B :
  client (boot_bytes lo0 hi0 (vbyte (mach k))) k' B → kept A nowhere k k' →
  ∀ x, on_stack lo0 hi0 A x → vbyte (mach k') x = vbyte (mach k) x.
Proof.
  intros Hc Hk x [Hx|Hx]; [apply Hk; [done|by intros []]|]. by eapply frozen_vbyte.
Qed.

(** ** Reaping *)
Lemma reap_live s i : sched_wf s → live (reap_spec s) i →
  live s i ∧ task_at (reap_spec s) i = task_at s i.
Proof.
  intros Hw [Hi Hr]. destruct (reap_statics s) as (Hc & _). unfold live. rewrite Hc in Hr.
  destruct (reap_slot_cases s i Hw ltac:(lia)) as [Heq|[Hu Hne]].
  - split; [|done]. split; [done|]. by rewrite Heq in Hr.
  - exfalso. destruct Hr as [Hr%runnable_cases|?]; [|done]. rewrite Hu in Hr. by destruct Hr.
Qed.

Lemma reap_system k A : system k A →
  wp reap (λ _ k', ∃ A', system k' A' ∧ sched_st k' = reap_spec (sched_st k) ∧
    ∀ i, live (sched_st k') i → undisturbed i k k') k.
Proof.
  intros Hsy. pose proof (sy_wf _ _ Hsy) as Hw.
  eapply wp_mono; [apply (wp_preserves same_cpu reap), (reap_owned (inv := client (boot_bytes lo0 hi0 (vbyte (mach k)))) k A)|].
  - apply client_frozen, (sy_mem _ _ Hsy).
  - done.
  - apply (sy_owned _ _ Hsy).
  - cbn beta. intros _ k' [(Hs & Hw' & A' & Hc & Hsub & Hk & Ho & _) [Hr _]].
    destruct (reap_statics (sched_st k)) as (Hcur & _). rewrite <- Hs in Hcur.
    destruct (system_table k A Hsy k' A' A') as [Hsy' Hud]; [|done..| |by eapply quiet_bytes|].
    + by eapply frozen_client.
    + rewrite Hs. intros i Hl. destruct (reap_live _ _ Hw Hl) as [Hl0 ->]. done.
    + by exists A'.
Qed.

(** ** Switching *)
Lemma stacks_owned_same A s s' :
  (∀ i, 1 ≤ i < MAX_TASKS → stack_base (task_at s' i) = stack_base (task_at s i) ∧
     (state (task_at s' i) = TASK_UNUSED → state (task_at s i) = TASK_UNUSED)) →
  stacks_owned A s → stacks_owned A s'.
Proof.
  intros H [Ha Hi Hu]. split.
  - intros i Hr. destruct (H i Hr) as [-> _]. by apply Ha.
  - intros i j Hri Hrj. destruct (H i Hri) as [-> _], (H j Hrj) as [-> _]. by apply Hi.
  - intros i Hr. destruct (H i Hr) as [-> HU]. intros ?%HU. by apply Hu.
Qed.

(** The table after a switch away from the current task, whose stack pointer is
    saved. *)
Definition switched_table (n sp : Z) (s : sched_state) : sched_state :=
  put (current s) (set_esp sp) (switch_spec n s).

Lemma switched_slot n sp s i : sched_wf s → 0 ≤ n < MAX_TASKS → runnable (task_at s n) = true →
  n ≠ current s → 0 ≤ i →
  let t := task_at (switched_table n sp s) i in
  esp t = (if decide (i = current s) then sp else esp (task_at s i)) ∧
  stack_base t = stack_base (task_at s i) ∧
  (state t = TASK_UNUSED → state (task_at s i) = TASK_UNUSED) ∧ runnable t = runnable (task_at s i).
Proof.
  intros Hw Hn Hrn Hne Hi. unfold switched_table.
  rewrite task_at_put; [|apply switch_wf; auto|apply (sw_cur _ Hw)|done].
  rewrite (switch_task_at s n (current s)), (switch_task_at s n i) by (done || pose proof (sw_cur _ Hw); lia).
  rewrite (decide_False (P := current s = n)) by done.
  destruct (decide (i = current s)) as [->|Hic].
  - case_decide as Hc; [destruct Hc as [_ Hc]|done]. split_and!; [done..|]. unfold runnable. rewrite Hc. done.
  - destruct (decide (i = n)) as [->|Hin].
    + split_and!; [done..|]. cbn. by rewrite Hrn.
    + rewrite decide_False by naive_solver. done.
Qed.

Lemma switched_wf n sp s : sched_wf s → 0 ≤ n < MAX_TASKS → runnable (task_at s n) = true →
  sched_wf (switched_table n sp s).
Proof.
  intros Hw Hn Hr. assert (sched_wf (switch_spec n s)) as Hw' by (apply switch_wf; auto).
  pose proof (sw_cur _ Hw). apply sched_wf_put; [done|done| | | |].
  - by apply (sw_running _ Hw').
  - intros ->. apply (sw_zero _ Hw').
  - by apply (sw_id _ Hw').
  - intros ->. apply (sw_now _ Hw').
Qed.

(** The context of a waiting task can be read whatever is written to another
    stack. *)
Lemma context_readable k A c n s e m' :
  system k A → live (sched_st k) n → n ≠ current (sched_st k) → c = current (sched_st k) →
  stack_lo (sched_st k) c ≤ s → e ≤ stack_hi (sched_st k) c →
  (∃ tr, window tr s e (mach k) ∧ agrees_outside (image tr s e) (mach k) m') →
  readable m' (esp (task_at (sched_st k) n)) (words (mach k) (esp (task_at (sched_st k) n)) 10).
Proof.
  intros Hsy Hl Hne -> Hs He (tr & Hw & Ha). pose proof (sy_mem _ _ Hsy) as Hm.
  pose proof (live_current _ _ Hsy) as Hlc. set (a := esp (task_at (sched_st k) n)).
  destruct (sy_parked _ _ Hsy n Hl Hne) as [Hlo Hhi]. fold a in Hlo, Hhi.
  assert (writes s e k (upd_mach (set_phys (phys m')) k)) as Hwr.
  { apply (writes_window tr); [intros x Hx; by eapply window_mmu|]. by destruct Ha. }
  destruct (stack_write _ _ k A _ _ s e _ Hm (live_stack _ _ Hsy _ Hlc) Hs He Hwr) as [Hm' Hb].
  destruct (stack_window _ _ _ _ _ _ Hm' (live_stack _ _ Hsy _ Hl)) as [tr' Hw'].
  rewrite <- (words_ext _ (mach (upd_mach (set_phys (phys m')) k))).
  - eapply readable_same; [|by eapply words_readable].
    split; [done|apply (ao_pg _ _ _ Ha)|apply (ao_cr3 _ _ _ Ha)].
  - intros x Hx. apply Hb; [eapply live_on_stack; [done|exact Hl|lia]|].
    intros Hx'. eapply (live_disjoint _ _ Hsy n (current (sched_st k)) x); [done|done|done|lia|lia].
Qed.

Lemma frame_regs_ok m a : 0 ≤ a → a + 40 < 0x100000000 → regs_ok (frame_regs (words m a 10) a).
Proof.
  intros ??. assert (∀ i, 0 ≤ default 0 (words m a 10 !! i) < 0x100000000) as Hd.
  { intros i. destruct (words m a 10 !! i) eqn:Hi; [|done]. apply words_lookup in Hi as [-> _]. apply vword_range. }
  unfold regs_ok, frame_regs. cbn [r_eax r_ecx r_edx r_ebx r_esp r_ebp r_esi r_edi r_eflags r_eip].
  repeat constructor; try apply Hd; lia.
Qed.

(** The context that was saved, read back. *)
Lemma switched_words tr lo hi m m' r sp :
  window tr lo hi m → agrees_outside (image tr sp (r_esp r)) m m' →
  lo ≤ sp → r_esp r ≤ hi → r_esp r = sp + 48 → 0 < lo → hi < 0x100000000 → regs_ok r →
  (∀ i w, frame_words r sp !! i = Some w → vw tr m' (sp + 4 * Z.of_nat i) = u32 w) →
  words m' sp 10 = frame_words r sp.
Proof.
  intros Hw Ha Hlo Hhi Hsp Hpos Hmax Hok Hsv.
  assert (window tr lo hi m') as Hw'.
  { eapply window_step; [exact Hw|]. eapply agrees_outside_mono, Ha. intros q (x & Hx & ->). exists x. split; [lia|done]. }
  apply words_eq; [done|]. intros i w Hi. assert (i < 10)%nat by (by apply lookup_lt_Some in Hi).
  rewrite <- (window_vword tr lo hi) by (done || lia). rewrite Hsv with (w := w) by done.
  eapply frame_words_small; [done| | |done]; lia.
Qed.

(** What [switch_to] did, in terms of stacks. *)
Record did_switch (k : kernel) (A : gmap Z Z) (n : Z) (k' : kernel) : Prop := {
  ds_mem : client (boot_stack lo0 hi0) k' A;
  ds_table : sched_st k' = switched_table n (r_esp (regs (mach k)) - 48) (sched_st k);
  ds_regs : regs (mach k') = view k n;
  ds_saved : words (mach k') (r_esp (regs (mach k)) - 48) 10 =
    frame_words (regs (mach k)) (r_esp (regs (mach k)) - 48);
  ds_bytes i x : live (sched_st k) i → stack_lo (sched_st k) i ≤ x < stack_hi (sched_st k) i →
    (i = current (sched_st k) → r_esp (regs (mach k)) ≤ x) → vbyte (mach k') x = vbyte (mach k) x
}.

Section switching.
Context (k : kernel) (A : gmap Z Z) (n : Z) (Hsy : system k A).
Notation s := (sched_st k).
Notation c := (current (sched_st k)).
Notation r := (regs (mach k)).
Notation sp := (r_esp (regs (mach k)) - 48).
Context (Hn : 0 ≤ n < MAX_TASKS) (Hrn : runnable (task_at s n) = true) (Hne : n ≠ c).
Context (Hroom : stack_lo s c + 48 ≤ r_esp r).

Lemma switch_did : wp (switch_to n) (λ _ k', did_switch k A n k') k.
Proof using All.
  pose proof (sy_mem _ _ Hsy) as Hm. pose proof (sy_wf _ _ Hsy) as Hw.
  pose proof (live_current _ _ Hsy) as Hlc. pose proof (sy_esp _ _ Hsy) as Hesp.
  assert (live s n) as Hln by by apply runnable_live.
  pose proof (live_range _ _ Hsy _ Hlc) as Hrc. pose proof (live_range _ _ Hsy _ Hln) as Hrn'.
  destruct (sy_parked _ _ Hsy n Hln Hne) as [Hnlo Hnhi].
  destruct (stack_window _ _ _ _ _ _ Hm (live_stack _ _ Hsy _ Hlc)) as [tr Hwin].
  assert (window tr (stack_lo s c) (r_esp r) (mach k)) as Hwin1 by (eapply window_sub; [exact Hwin|lia|lia]).
  assert (window tr sp (r_esp r) (mach k)) as Hwin2 by (eapply window_sub; [exact Hwin|lia|lia]).
  eapply wp_mono.
  { eapply (switch_to_rep tr (stack_lo s c) k n (words (mach k) (esp (task_at s n)) 10)); try done; try lia.
    intros m' Ha. eapply (context_readable k A c n sp (r_esp r)); try done; [lia|lia|]. by exists tr. }
  cbn beta. intros [] k' ((ph & Hk') & Ha & Hsv). cbn [sched_st upd_sched_st regs mach] in *.
  set (k1 := upd_mach (set_phys ph) k).
  assert (writes sp (r_esp r) k k1) as Hwr.
  { apply (writes_window tr); [intros x Hx; by eapply window_mmu|]. rewrite Hk' in Ha. by destruct Ha. }
  destruct (stack_write _ _ k A _ _ sp (r_esp r) k1 Hm (live_stack _ _ Hsy _ Hlc)) as [Hm1 Hb]; [lia|lia|done|].
  assert (same_memory k1 k') as Hsame by (by rewrite Hk').
  split; [by eapply al_ext|by rewrite Hk'| | |].
  - rewrite Hk'. unfold view. by rewrite (proj2 (Z.eqb_neq _ _)).
  - eapply switched_words; [exact Hwin|exact Ha|lia..|apply (sy_regs _ _ Hsy)|exact Hsv].
  - intros i x Hl Hx Hcx. rewrite (same_memory_vbyte k1 k') by done.
    apply Hb; [by eapply live_on_stack|]. intros Hx'. destruct (decide (i = c)) as [->|Hic]; [lia|].
    eapply (live_disjoint _ _ Hsy i c x); [done|done|done|lia|lia].
Qed.

Context (k' : kernel) (Hds : did_switch k A n k').

Lemma did_slot i : 0 ≤ i → let t := task_at (sched_st k') i in
  esp t = (if decide (i = c) then sp else esp (task_at s i)) ∧ stack_base t = stack_base (task_at s i) ∧
  (state t = TASK_UNUSED → state (task_at s i) = TASK_UNUSED) ∧ runnable t = runnable (task_at s i).
Proof using All. intros Hi. rewrite (ds_table _ _ _ _ Hds). apply switched_slot; try done. apply (sy_wf _ _ Hsy). Qed.

Lemma did_current : current (sched_st k') = n.
Proof using All. rewrite (ds_table _ _ _ _ Hds). apply switch_statics; [lia|done]. Qed.

Lemma did_bounds i : 0 ≤ i →
  stack_lo (sched_st k') i = stack_lo s i ∧ stack_hi (sched_st k') i = stack_hi s i.
Proof using All. intros Hi. unfold stack_lo, stack_hi. by destruct (did_slot i Hi) as (_ & -> & _). Qed.

Lemma did_live i : live (sched_st k') i → live s i ∧ runnable (task_at s i) = true.
Proof using All.
  intros [Hir Hl]. destruct (did_slot i ltac:(lia)) as (_ & _ & _ & Hrun). rewrite Hrun, did_current in Hl.
  assert (runnable (task_at s i) = true) as Hr by (by destruct Hl as [Hl| ->]). by split; [apply runnable_live|].
Qed.

Lemma did_system : system k' A.
Proof using All.
  pose proof (live_current _ _ Hsy) as Hlc. pose proof (sy_esp _ _ Hsy) as Hesp.
  pose proof (live_range _ _ Hsy _ Hlc) as Hrc. assert (live s n) as Hln by by apply runnable_live.
  pose proof (live_range _ _ Hsy _ Hln) as Hrn'. destruct (sy_parked _ _ Hsy n Hln Hne) as [Hnlo Hnhi].
  split.
  - apply (ds_mem _ _ _ _ Hds).
  - rewrite (ds_table _ _ _ _ Hds). apply switched_wf; try done. apply (sy_wf _ _ Hsy).
  - eapply stacks_owned_same; [|apply (sy_owned _ _ Hsy)]. intros i Hi.
    destruct (did_slot i ltac:(lia)) as (_ & ? & ? & _). done.
  - intros i Hi [Hl _]%did_live. destruct (did_slot i ltac:(lia)) as (_ & -> & _). by apply (sy_based _ _ Hsy).
  - intros i [Hli _]%did_live Hni. assert (0 ≤ i) as Hi0 by (destruct Hli; lia).
    destruct (did_slot i Hi0) as (-> & _). destruct (did_bounds i Hi0) as [-> ->].
    case_decide as Hic; [subst i; lia|]. by apply (sy_parked _ _ Hsy).
  - rewrite (ds_regs _ _ _ _ Hds). unfold view. rewrite (proj2 (Z.eqb_neq _ _)) by done. apply frame_regs_ok; lia.
  - rewrite did_current, (ds_regs _ _ _ _ Hds), view_esp by done.
    destruct (did_bounds n ltac:(lia)) as [-> ->]. lia.
Qed.

(** The task that loses the processor. *)
Lemma did_pause : paused c k k'.
Proof using All.
  pose proof (live_current _ _ Hsy) as Hlc. pose proof (sy_esp _ _ Hsy) as Hesp.
  assert (0 ≤ c) as Hc0 by (destruct Hlc; lia). split.
  - unfold view at 1. rewrite did_current, (proj2 (Z.eqb_neq _ _)) by done.
    destruct (did_slot c Hc0) as (-> & _). rewrite decide_True by done. cbn zeta.
    rewrite (ds_saved _ _ _ _ Hds), frame_round_trip, view_current. unfold in_call. f_equal. lia.
  - by apply did_bounds.
  - rewrite view_current. intros x Hx. apply (ds_bytes _ _ _ _ Hds c); [done|lia|lia].
Qed.

(** Everybody else, the task that gets it included. *)
Lemma did_not_disturb i : live s i → i ≠ c → undisturbed i k k'.
Proof using All.
  intros Hl Hic. destruct (sy_parked _ _ Hsy i Hl Hic) as [Hp1 Hp2].
  assert (0 ≤ i) as Hi0 by (destruct Hl; lia).
  assert (∀ x, esp (task_at s i) ≤ x < stack_hi s i → vbyte (mach k') x = vbyte (mach k) x) as Hb.
  { intros x Hx. by apply (ds_bytes _ _ _ _ Hds i); [|lia|]. }
  destruct (decide (i = n)) as [->|Hin].
  - split; [|by apply did_bounds|].
    + unfold view at 1. by rewrite did_current, Z.eqb_refl, (ds_regs _ _ _ _ Hds).
    + rewrite view_esp by done. intros x Hx. apply Hb. lia.
  - destruct (did_slot i Hi0) as (He & Hbase & _). rewrite decide_False in He by done.
    apply undisturbed_parked; try done. by rewrite did_current.
Qed.
End switching.

(** A call of the scheduler needs 48 bytes of stack; nothing in the code checks
    for them. *)
Definition room (k : kernel) : Prop :=
  stack_lo (sched_st k) (current (sched_st k)) + 48 ≤ r_esp (regs (mach k)).

(** ** Ticks and yields *)

(** What the tasks notice of a call of the scheduler: the one that had the
    processor and lost it finds itself inside the call; nobody else notices
    anything. *)
Definition scheduled (k k' : kernel) : Prop :=
  (∃ A, system k' A) ∧
  ∀ i, live (sched_st k') i → live (sched_st k) i ∧
    if decide (i = current (sched_st k) ∧ i ≠ current (sched_st k')) then paused i k k' else undisturbed i k k'.

Lemma paused_after i k1 k2 k3 : undisturbed i k1 k2 → paused i k2 k3 → paused i k1 k3.
Proof.
  intros [V1 T1 B1] [V2 T2 B2]. split; [by rewrite V2, V1|by rewrite T2|].
  intros x Hx. rewrite B2; [by apply B1|]. by rewrite V1, T1.
Qed.

Lemma next_task_runnable s : sched_wf s →
  0 ≤ next_task s < MAX_TASKS ∧ runnable (task_at s (next_task s)) = true.
Proof.
  intros Hw. destruct (pick_next_rep s (sw_cur s Hw)) as [(? & ? & _)|[_ Hnone]]; [done|].
  pose proof (sw_zero _ Hw) as H0. by rewrite Hnone in H0.
Qed.

Lemma scheduled_refl k A : system k A → scheduled k k.
Proof. intros Hsy. split; [by exists A|]. intros i Hl. split; [done|]. by rewrite decide_False by naive_solver. Qed.

Lemma switch_scheduled k A : system k A →
  room k → wp (n <- pick_next ;; switch_to n) (λ _ k', scheduled k k') k.
Proof.
  intros Hsy Hroom. unfold pick_next, sched_g. rewrite wp_bind, wp_gets. fold (next_task (sched_st k)).
  destruct (next_task_runnable _ (sy_wf _ _ Hsy)) as [Hn Hr]. generalize dependent (next_task (sched_st k)).
  intros n Hn Hr. destruct (decide (n = current (sched_st k))) as [->|Hne].
  - unfold switch_to, sched_g. rewrite wp_bind, wp_gets, Z.eqb_refl, orb_true_r. by eapply scheduled_refl.
  - eapply wp_mono; [by eapply switch_did|]. cbn beta. intros _ k' Hds. split.
    + exists A. by eapply did_system.
    + intros i Hl. destruct (did_live _ _ _ Hsy Hn Hr Hne Hroom _ Hds i Hl) as [Hl0 _]. split; [done|].
      rewrite (did_current _ _ _ Hsy Hn Hr Hne Hroom _ Hds). case_decide as Hc.
      * destruct Hc as [-> _]. by eapply did_pause.
      * eapply did_not_disturb; try done. naive_solver.
Qed.

Lemma undisturbed_lo i k k' : undisturbed i k k' → stack_lo (sched_st k') i = stack_lo (sched_st k) i.
Proof. intros [_ Ht _]. unfold stack_lo, stack_hi in *. destruct (i =? 0); [done|lia]. Qed.

(** A change of the scheduler's registers only. *)
Lemma sched_system f k A : system k A → sched_wf (f (sched_st k)) → tasks (f (sched_st k)) = tasks (sched_st k) →
  current (f (sched_st k)) = current (sched_st k) →
  system (upd_sched_st f k) A ∧ ∀ i, live (sched_st (upd_sched_st f k)) i → live (sched_st k) i ∧
    undisturbed i k (upd_sched_st f k).
Proof.
  intros Hsy Hw Ht Hc.
  assert (∀ i, task_at (f (sched_st k)) i = task_at (sched_st k) i) as Hta by (intros; by apply task_at_tasks).
  assert (∀ i, live (f (sched_st k)) i → live (sched_st k) i) as Hl by (unfold live; intros i; by rewrite Hta, Hc).
  assert (stacks_owned A (f (sched_st k))) as Ho.
  { eapply stacks_owned_same, (sy_owned _ _ Hsy). intros i _. by rewrite Hta. }
  destruct (system_table k A Hsy (upd_sched_st f k) A A) as [Hsy' Hud]; try done.
  - eapply al_ext; [|apply (sy_mem _ _ Hsy)]. done.
  - intros i Hi. cbn [sched_st upd_sched_st]. rewrite Hta. split_and!; [by apply Hl|done..].
  - split; [done|]. intros i Hi. split; [by apply Hl|by apply Hud].
Qed.

(** The processor still belongs to the same task with the same registers. *)
Lemma room_kept k A k' : system k' A → current (sched_st k') = current (sched_st k) →
  (∀ i, live (sched_st k') i → undisturbed i k k') →
  stack_lo (sched_st k') (current (sched_st k')) = stack_lo (sched_st k) (current (sched_st k)) ∧
  regs (mach k') = regs (mach k).
Proof.
  intros Hsy Hc Hud. specialize (Hud _ (live_current _ _ Hsy)). split.
  - rewrite (undisturbed_lo _ _ _ Hud). by rewrite Hc.
  - rewrite <- (view_current k), <- (view_current k'), (ud_view _ _ _ Hud). by rewrite Hc.
Qed.

Lemma scheduler_tick_system k A : system k A →
  room k → wp scheduler_tick (λ _ k', scheduled k k') k.
Proof.
  intros Hsy Hroom. unfold scheduler_tick, sched_g. rewrite wp_bind, wp_gets.
  destruct (sched_enabled (sched_st k) =? 0); [by eapply scheduled_refl|].
  rewrite wp_bind. eapply wp_mono; [by eapply reap_system|].
  cbn beta. intros _ k1 (A1 & Hsy1 & Hs1 & Hud). rewrite wp_bind, wp_gets.
  destruct (reap_statics (sched_st k)) as (Hc & _). rewrite <- Hs1 in Hc.
  assert (∀ i, live (sched_st k1) i → live (sched_st k) i) as Hlive.
  { intros i Hl. rewrite Hs1 in Hl. by destruct (reap_live _ _ (sy_wf _ _ Hsy) Hl). }
  destruct (Z.ltb_spec 1 (quantum_left (sched_st k1))) as [Hq|Hq].
  - rewrite wp_modify. pose proof (sw_quantum _ (sy_wf _ _ Hsy1)) as Hqr.
    destruct (sched_system (set_quantum_left (quantum_left (sched_st k1) -u 1)) k1 A1 Hsy1) as [Hsy2 Hud2]; try done.
    { unfold TASK_QUANTUM in *. apply set_quantum_wf; [apply (sy_wf _ _ Hsy1)|].
      unfold TASK_QUANTUM. rewrite u32_small; lia. }
    split; [by exists A1|]. intros i Hl. destruct (Hud2 i Hl) as [Hl1 Hu]. split; [by apply Hlive|].
    rewrite decide_False by (cbn; naive_solver). etrans; [by apply Hud|done].
  - destruct (room_kept k A1 k1 Hsy1 Hc Hud) as [Hlo Hregs].
    eapply wp_mono; [eapply switch_scheduled; [exact Hsy1|unfold room; by rewrite Hlo, Hregs]|].
    cbn beta. intros _ k' [HA Hk']. split; [done|]. intros i Hl. destruct (Hk' i Hl) as [Hl' Hi].
    split; [by apply Hlive|]. rewrite Hc in Hi. case_decide.
    + eapply paused_after; [by apply Hud|done].
    + etrans; [by apply Hud|done].
Qed.

Lemma task_yield_system k A : system k A →
  room k → wp task_yield (λ _ k', scheduled k k') k.
Proof.
  intros Hsy Hroom. unfold task_yield, sched_g. rewrite wp_bind, wp_gets.
  destruct (sched_enabled (sched_st k) =? 0); [by eapply scheduled_refl|]. by eapply switch_scheduled.
Qed.

(** *** The interrupt handlers *)
Lemma calm_system k A k' : system k A → calm k k' → system k' A ∧ ∀ i, undisturbed i k k'.
Proof.
  intros Hsy [Hm Hs Hr].
  assert (sched_wf (sched_st k') ∧ stacks_owned A (sched_st k')) as [Hw Ho]
    by (rewrite Hs; split; [apply (sy_wf _ _ Hsy)|apply (sy_owned _ _ Hsy)]).
  assert (∀ x, vbyte (mach k') x = vbyte (mach k) x) as Hb by (intros x; by apply same_memory_vbyte).
  split.
  - apply (system_table k A Hsy k' A A); rewrite ?Hs; try done; [|by rewrite <- Hs..].
    eapply al_ext; [exact Hm|apply (sy_mem _ _ Hsy)].
  - intros i. split; [|by unfold stack_hi; rewrite Hs|done].
    unfold view. rewrite Hs, Hr. case_match; [done|]. cbn zeta. f_equal. by apply words_ext.
Qed.

Lemma scheduled_after k1 k2 k3 : calm k1 k2 → (∀ i, undisturbed i k1 k2) → scheduled k2 k3 → scheduled k1 k3.
Proof.
  intros [_ Hs _] Hud [HA H]. split; [done|]. intros i Hl. destruct (H i Hl) as [Hl' Hi]. rewrite Hs in Hl', Hi.
  split; [done|]. case_decide; [eapply paused_after; [apply Hud|done]|etrans; [apply Hud|done]].
Qed.

Lemma room_calm k k' : calm k k' → room k → room k'.
Proof. intros [_ Hs Hr]. unfold room. by rewrite Hs, Hr. Qed.

(** The timer interrupt. *)
Lemma timer_irq_system fuel r k A : system k A → room k → int_no r = 32 →
  wp (irq_handler fuel r) (λ _ k', scheduled k k') k.
Proof.
  intros Hsy Hroom Hr. unfold irq_handler, timer_tick. rewrite Hr.
  change (40 <=? 32) with false. change (32 =? 32) with true. cbn [when]. cbv iota.
  rewrite wp_bind, wp_ret, wp_bind. eapply wp_ok; [reflexivity|]. rewrite wp_bind, wp_modify.
  set (k1 := upd_ticks _ _). assert (calm k k1) as Hc by done.
  destruct (calm_system _ _ _ Hsy Hc) as [Hsy1 Hud].
  eapply wp_mono; [by eapply scheduler_tick_system, room_calm|].
  cbn beta. intros _ k'. by apply scheduled_after.
Qed.

(** The others do not touch the tasks. *)
Lemma other_irq_calm fuel r : int_no r ≠ 32 → Calm (irq_handler fuel r).
Proof. intros Hr%Z.eqb_neq. unfold irq_handler. rewrite Hr. apply _. Qed.

Lemma calm_scheduled k A k' : system k A → calm k k' → scheduled k k'.
Proof.
  intros Hsy Hc. destruct (calm_system _ _ _ Hsy Hc) as [Hsy' Hud]. split; [by exists A|].
  intros i Hl. destruct Hc as [_ Hs _]. rewrite Hs in *. split; [done|]. by rewrite decide_False by naive_solver.
Qed.

Lemma irq_scheduled fuel r k A k' : system k A → room k → irq_handler fuel r k = Ok tt k' → scheduled k k'.
Proof.
  intros Hsy Hroom Hm. destruct (decide (int_no r = 32)) as [Hr|Hr].
  - pose proof (timer_irq_system fuel r _ _ Hsy Hroom Hr) as H. by apply (wp_result _ _ _ _ _ H) in Hm.
  - eapply calm_scheduled; [exact Hsy|]. pose proof (other_irq_calm fuel r Hr k) as Hc. by rewrite Hm in Hc.
Qed.

(** ** Starting and killing tasks, using the heap *)

(** Nobody who was alive notices. *)
Definition unnoticed (k k' : kernel) : Prop :=
  ∀ i, live (sched_st k) i → live (sched_st k') i → undisturbed i k k'.

Lemma kill_system k A id : system k A → 1 ≤ id < MAX_TASKS → state (task_at (sched_st k) id) ≠ TASK_UNUSED →
  let k' := upd_sched_st (put id (set_state TASK_DEAD)) k in
  system k' A ∧ ∀ i, live (sched_st k') i → undisturbed i k k'.
Proof.
  intros Hsy Hid Hu k'. pose proof (sy_wf _ _ Hsy) as Hw.
  assert (∀ i, 0 ≤ i → task_at (sched_st k') i = if decide (i = id) then set_state TASK_DEAD (task_at (sched_st k) id)
    else task_at (sched_st k) i) as Ht by (intros; apply task_at_put; (done || lia)).
  assert (stacks_owned A (sched_st k')) as Ho by (apply stacks_owned_kill; [done|lia|apply (sy_owned _ _ Hsy)]).
  apply (system_table k A Hsy k' A A); try done.
  - eapply al_ext; [|apply (sy_mem _ _ Hsy)]. done.
  - apply sched_wf_kill; [done|lia|done].
  - intros i [Hi Hl]. rewrite Ht in Hl by lia. rewrite Ht by lia. case_decide as Hiid; [subst|].
    + split; [|done]. split; [done|]. cbn in Hl. destruct Hl as [Hl| ->]; [by apply runnable_cases in Hl as []|by right].
    + by split_and!.
Qed.

Lemma task_kill_system k A id : system k A → 0 ≤ id →
  wp (task_kill id) (λ _ k', system k' A ∧ current (sched_st k') = current (sched_st k) ∧ unnoticed k k') k.
Proof.
  intros Hsy Hid. unfold task_kill, task_g, sched_g.
  destruct ((id =? 0) || (MAX_TASKS <=? id)) eqn:Hr; [by split_and!|].
  apply orb_false_iff in Hr as [?%Z.eqb_neq ?%Z.leb_gt].
  rewrite wp_bind, wp_gets. case_bool_decide as Hu; [by split_and!|].
  unfold upd_task. rewrite wp_bind, wp_modify, put_alter.
  destruct (kill_system k A id Hsy ltac:(lia) Hu) as [Hsy' Hud].
  split_and!; [done|done|]. intros i _ Hl. by apply Hud.
Qed.

(** The register file with which a task enters [entry], and the word above its
    stack pointer where it returns to. *)
Definition entry_regs (entry a : Z) : regfile :=
  {| r_eflags := 0x202; r_edi := 0; r_esi := 0; r_ebp := 0; r_ebx := 0; r_edx := 0; r_ecx := 0;
     r_eax := 0; r_eip := entry; r_esp := a |}.

Record starts (i entry exit : Z) (k : kernel) : Prop := {
  st_live : live (sched_st k) i;
  st_waits : i ≠ current (sched_st k);
  st_view : view k i = entry_regs (u32 entry) (stack_hi (sched_st k) i - 4);
  st_exit : vword (mach k) (stack_hi (sched_st k) i - 4) = u32 exit
}.

Lemma first_words m a texit entry :
  frame_at m a (rev (first_frame texit entry)) →
  frame_regs (words m a 10) a = entry_regs (u32 entry) (a + 40) ∧ vword m (a + 40) = u32 texit.
Proof.
  intros Hf. split; [|by apply (Hf 10%nat)].
  assert (words m a 10 = u32 <$> take 10 (rev (first_frame texit entry))) as ->; [|done].
  apply words_eq; [done|]. intros i w (v & -> & [Hv _]%lookup_take_Some)%list_lookup_fmap_Some. by apply Hf.
Qed.

Definition create_outcome (k : kernel) (entry r : Z) (k' : kernel) : Prop :=
  (∃ A', system k' A') ∧ current (sched_st k') = current (sched_st k) ∧ unnoticed k k' ∧
  (r = -1 ∨ (1 ≤ r < MAX_TASKS ∧ ¬ live (sched_st k) r ∧ starts r entry (sym (mach k) "task_exit") k')).

(** The allocations changed, but none that holds a stack. *)
Lemma heap_system k A k' A' B :
  system k A → same_cpu k k' → sched_st k' = sched_st k → kept B nowhere k k' →
  client (boot_bytes lo0 hi0 (vbyte (mach k))) k' A' →
  stacks_owned A' (sched_st k) → stacks_owned B (sched_st k) →
  system k' A' ∧ unnoticed k k'.
Proof.
  intros Hsy [Hregs _] Hs Hk Hc HoA HoB.
  destruct (system_table k A Hsy k' A' B) as [Hsy' Hud]; rewrite ?Hs; try done.
  - by eapply frozen_client.
  - apply (sy_wf _ _ Hsy).
  - by eapply quiet_bytes.
  - split; [done|]. intros i _ Hl. by apply Hud.
Qed.

(** A task was created in slot [r], with its stack at [stack]. *)
Section created_task.
Context (k : kernel) (A : gmap Z Z) (nm : cstr) (entry r stack n : Z) (k' : kernel).
Context (Hsy : system k A) (Hregs : regs (mach k') = regs (mach k)) (Hw' : sched_wf (sched_st k')).
Context (Hk : kept A nowhere k k') (Hr : 1 ≤ r < MAX_TASKS).
Context (Hu : state (task_at (sched_st k) r) = TASK_UNUSED) (HA : A !! stack = None).
Context (Hc : client (boot_bytes lo0 hi0 (vbyte (mach k))) k' (<[stack:=n]> A)).
Context (Ho : stacks_owned (<[stack:=n]> A) (sched_st k')).
Context (Hf : frame_at (mach k') (first_esp stack) (rev (first_frame (sym (mach k) "task_exit") entry))).
Context (Hs : sched_st k' = put r (new_task r stack (first_esp stack) nm) (sched_st k)).

Lemma created_task_at i : 0 ≤ i → task_at (sched_st k') i = if decide (i = r)
  then new_task r stack (first_esp stack) nm (task_at (sched_st k) r) else task_at (sched_st k) i.
Proof using All. intros Hi. rewrite Hs. apply task_at_put; [apply (sy_wf _ _ Hsy)|lia|done]. Qed.

Lemma created_current : current (sched_st k') = current (sched_st k).
Proof using Hs. by rewrite Hs. Qed.

Lemma created_fresh : ¬ live (sched_st k) r.
Proof using All.
  intros [_ [Hl%runnable_cases| ->]]; [rewrite Hu in Hl; by destruct Hl|].
  destruct (sw_now _ (sy_wf _ _ Hsy)) as [Hn|Hn]; by rewrite Hn in Hu.
Qed.

Lemma created_live i : live (sched_st k') i → i ≠ r → live (sched_st k) i.
Proof using All.
  intros [Hi Hl] Hne. rewrite created_task_at, created_current in Hl by lia.
  rewrite decide_False in Hl by done. by split.
Qed.

Lemma created_range : 0 < stack ∧ stack + TASK_STACK_SIZE < 0x100000000.
Proof using All.
  assert (<[stack:=n]> A !! stack = Some n) as HAs by (by rewrite lookup_insert_eq).
  pose proof (al_range _ _ _ _ Hc HAs).
  assert (stack_base (task_at (sched_st k') r) = stack) as Hb by (by rewrite created_task_at, decide_True by (done || lia)).
  destruct (so_alloc _ _ Ho r ltac:(lia)) as (n' & HA' & ?); [lia|]. rewrite Hb, HAs in HA'. simplify_eq. lia.
Qed.

Lemma created_bounds : stack_lo (sched_st k') r = stack ∧ stack_hi (sched_st k') r = stack + TASK_STACK_SIZE.
Proof using All.
  unfold stack_lo, stack_hi. rewrite (proj2 (Z.eqb_neq r 0)) by lia.
  by rewrite created_task_at, decide_True by (done || lia).
Qed.

Lemma created_undisturbed i : live (sched_st k) i → undisturbed i k k'.
Proof using All.
  intros Hl. assert (i ≠ r) as Hne by (intros ->; by apply created_fresh).
  assert (task_at (sched_st k') i = task_at (sched_st k) i) as Ht
    by (rewrite created_task_at by (destruct Hl; lia); by rewrite decide_False).
  apply (undisturbed_slot _ _ Hsy); try done; [apply created_current|by rewrite Ht..|].
  intros x Hx. apply (quiet_bytes k k' A (<[stack:=n]> A)); [done|done|].
  by eapply live_on_stack.
Qed.

Lemma created_system : system k' (<[stack:=n]> A).
Proof using All.
  pose proof created_range. split.
  - by eapply frozen_client.
  - done.
  - done.
  - intros i Hi Hl. destruct (decide (i = r)) as [->|Hne].
    + rewrite created_task_at, decide_True by (done || lia). cbn. lia.
    + rewrite created_task_at, decide_False by (done || lia). apply (sy_based _ _ Hsy); [done|by apply created_live].
  - intros i Hl Hc'. rewrite created_current in Hc'. destruct (decide (i = r)) as [->|Hne].
    + destruct created_bounds as [-> ->]. rewrite created_task_at, decide_True by (done || lia).
      cbn. unfold first_esp, TASK_STACK_SIZE in *. lia.
    + pose proof (created_live i Hl Hne) as Hl0. pose proof (created_undisturbed i Hl0) as Hud.
      rewrite (undisturbed_lo _ _ _ Hud), (ud_top _ _ _ Hud), created_task_at, decide_False
        by (done || destruct Hl; lia). by apply (sy_parked _ _ Hsy).
  - rewrite Hregs. apply (sy_regs _ _ Hsy).
  - pose proof (created_undisturbed _ (live_current _ _ Hsy)) as Hud.
    rewrite created_current, Hregs, (undisturbed_lo _ _ _ Hud), (ud_top _ _ _ Hud). apply (sy_esp _ _ Hsy).
Qed.

Lemma created_starts : starts r entry (sym (mach k) "task_exit") k'.
Proof using All.
  destruct created_bounds as [_ Hhi]. destruct (first_words _ _ _ _ Hf) as [Hv Hx].
  assert (r ≠ current (sched_st k')) as Hrc.
  { rewrite created_current. intros Heq. apply created_fresh. rewrite Heq. apply (live_current _ _ Hsy). }
  split.
  - split; [lia|left]. by rewrite created_task_at, decide_True by (done || lia).
  - done.
  - unfold view. rewrite (proj2 (Z.eqb_neq _ _)) by done. rewrite created_task_at, decide_True by (done || lia).
    cbn [esp new_task]. rewrite Hv, Hhi. f_equal. unfold first_esp. lia.
  - rewrite Hhi, <- Hx. f_equal. unfold first_esp. lia.
Qed.
End created_task.

Lemma task_create_system k A nm entry : system k A →
  wp (task_create nm entry) (create_outcome k entry) k.
Proof.
  intros Hsy. eapply wp_mono.
  { apply (wp_preserves same_cpu (task_create nm entry)),
      (task_create_owned (inv := client (boot_bytes lo0 hi0 (vbyte (mach k)))) k A).
    - apply client_frozen, (sy_mem _ _ Hsy).
    - apply (sy_wf _ _ Hsy).
    - apply (sy_owned _ _ Hsy). }
  cbn beta. intros r k' [(Hw' & Hk & [(-> & _ & Hc & Hs)|(stack & n & (Hr & Hu & _) & _ & HA & Hc & Ho & Hf & Hs)]) Hcpu];
    pose proof (sc_regs _ _ Hcpu) as Hregs.
  - destruct (heap_system k A k' A A) as [??]; try done; try apply (sy_owned _ _ Hsy).
    split_and!; [by exists A|by rewrite Hs|done|by left].
  - split_and!.
    + eexists. by eapply created_system.
    + by rewrite Hs.
    + intros i Hl _. by eapply created_undisturbed.
    + right. split_and!; [lia|lia|by eapply created_fresh|by eapply created_starts].
Qed.

(** *** The heap for other purposes *)
Lemma stacks_owned_mono A A' s : A ⊆ A' → stacks_owned A s → stacks_owned A' s.
Proof.
  intros HA [Ha Hi Hu]. split; [|done..]. intros i Hr Hb. destruct (Ha i Hr Hb) as (n & Hn & ?).
  exists n. split; [by eapply lookup_weaken|done].
Qed.

(** An allocation that is nobody's stack. *)
Definition plain (s : sched_state) (p : Z) : Prop := ∀ i, 1 ≤ i < MAX_TASKS → stack_base (task_at s i) ≠ p.

Lemma stacks_owned_plain A s p : plain s p → stacks_owned A s → stacks_owned (delete p A) s.
Proof.
  intros Hp [Ha Hi Hu]. split; [|done..]. intros i Hr Hb. destruct (Ha i Hr Hb) as (n & Hn & ?).
  exists n. rewrite lookup_delete_ne by (intros ->; by apply (Hp i Hr)). done.
Qed.

Definition heap_outcome (k k' : kernel) : Prop :=
  (∃ A', system k' A') ∧ sched_st k' = sched_st k ∧ unnoticed k k'.

Lemma heap_outcome_intro k A k' A' B :
  system k A → memory_only k k' → kept B nowhere k k' →
  client (boot_bytes lo0 hi0 (vbyte (mach k))) k' A' →
  stacks_owned A' (sched_st k) → stacks_owned B (sched_st k) → heap_outcome k k'.
Proof.
  intros Hsy [? ? _ ? _ _ _ _] Hk Hc HoA HoB. destruct (heap_system k A k' A' B) as [??]; try done.
  split_and!; [by exists A'|done|done].
Qed.

Lemma kmalloc_system k A size : system k A → 0 < size ≤ KMALLOC_MAX →
  wp (kmalloc size) (λ _ k', heap_outcome k k') k.
Proof.
  intros Hsy Hsz. eapply wp_mono; [apply (al_malloc (inv := client (boot_bytes lo0 hi0 (vbyte (mach k)))) k A size)|].
  - apply client_frozen, (sy_mem _ _ Hsy).
  - done.
  - cbn beta. intros p k' (Hmo & Hk & [[_ Hc]|(n & _ & HA & _ & Hc)]); eapply heap_outcome_intro; try done.
    1, 2, 4: apply (sy_owned _ _ Hsy).
    eapply stacks_owned_mono, (sy_owned _ _ Hsy). by apply insert_subseteq.
Qed.

Lemma kfree_system k A p n : system k A → A !! p = Some n → plain (sched_st k) p →
  wp (kfree p) (λ _ k', heap_outcome k k') k.
Proof.
  intros Hsy HA Hp. pose proof (stacks_owned_plain _ _ _ Hp (sy_owned _ _ Hsy)) as Ho.
  eapply wp_mono; [eapply (al_free (inv := client (boot_bytes lo0 hi0 (vbyte (mach k)))) k A p n); [|done]|].
  - apply client_frozen, (sy_mem _ _ Hsy).
  - cbn beta. intros r k' (Hmo & Hk & _ & Hc). by eapply heap_outcome_intro.
Qed.

Lemma store_system k A p n a v : system k A → A !! p = Some n → plain (sched_st k) p → p ≤ a → a + 4 ≤ p + n →
  wp (store32 a v) (λ _ k', heap_outcome k k') k.
Proof.
  intros Hsy HA Hp Ha1 Ha2. pose proof (stacks_owned_plain _ _ _ Hp (sy_owned _ _ Hsy)) as Ho.
  eapply wp_mono; [eapply (al_store (inv := client (boot_bytes lo0 hi0 (vbyte (mach k)))) k A p n a v); [|done..]|].
  - apply client_frozen, (sy_mem _ _ Hsy).
  - cbn beta. intros _ k' (Hmo & Hc & _ & Hk).
    eapply (heap_outcome_intro k A k' A (delete p A)); [done|done| |done|apply (sy_owned _ _ Hsy)|done].
    intros x (q & m & [Hqp Hq]%lookup_delete_Some & Hx) _. apply Hk; [by exists q, m|].
    pose proof (al_disjoint _ _ _ _ _ _ (sy_mem _ _ Hsy) Hq HA (not_eq_sym Hqp)). lia.
Qed.

(** *** The task itself *)

(** The current task computed: on registers, on its own stack, on whatever else
    is neither memory of the managers nor the task table (the table's [counter]
    of its own slot apart). *)
Record runs (k k' : kernel) : Prop := {
  ru_memory : ∃ k1, writes (stack_lo (sched_st k) (current (sched_st k)))
    (stack_hi (sched_st k) (current (sched_st k))) k k1 ∧ same_memory k1 k';
  ru_table : sched_st k' = sched_st k ∨
    ∃ v, sched_st k' = put (current (sched_st k)) (set_counter v) (sched_st k);
  ru_regs : regs_ok (regs (mach k'));
  ru_esp : stack_lo (sched_st k) (current (sched_st k)) ≤ r_esp (regs (mach k')) ≤
    stack_hi (sched_st k) (current (sched_st k))
}.

Lemma runs_system k A k' : system k A → runs k k' →
  system k' A ∧ current (sched_st k') = current (sched_st k) ∧
  ∀ i, live (sched_st k) i → i ≠ current (sched_st k) → undisturbed i k k'.
Proof.
  intros Hsy [(k1 & Hwr & Hsame) Hs Hregs Hesp].
  pose proof (live_current _ _ Hsy) as Hlc. pose proof (sy_wf _ _ Hsy) as Hw.
  assert (∀ i, 0 ≤ i → let t := task_at (sched_st k') i in let t0 := task_at (sched_st k) i in
    esp t = esp t0 ∧ stack_base t = stack_base t0 ∧ state t = state t0 ∧ task_id t = task_id t0) as Ht.
  { intros i Hi. cbn zeta. destruct Hs as [->|(v & ->)]; [done|].
    rewrite task_at_put by (done || apply (sw_cur _ Hw)). case_decide; [by subst|done]. }
  assert (current (sched_st k') = current (sched_st k)) as Hc by (by destruct Hs as [->|(v & ->)]).
  assert (∀ i, live (sched_st k') i ↔ live (sched_st k) i) as Hlive.
  { intros i. unfold live, runnable. rewrite Hc.
    split; intros [Hi Hl]; (split; [done|]); destruct (Ht i ltac:(lia)) as (_ & _ & Hst & _); by rewrite Hst in *. }
  assert (∀ i, 0 ≤ i → stack_lo (sched_st k') i = stack_lo (sched_st k) i ∧
    stack_hi (sched_st k') i = stack_hi (sched_st k) i) as Hb.
  { intros i Hi. unfold stack_lo, stack_hi. by destruct (Ht i Hi) as (_ & -> & _). }
  destruct (stack_write _ _ k A _ _ _ _ k1 (sy_mem _ _ Hsy) (live_stack _ _ Hsy _ Hlc) (Z.le_refl _) (Z.le_refl _) Hwr)
    as [Hm1 Hbytes].
  assert (0 ≤ current (sched_st k)) as Hc0 by (destruct Hlc; lia).
  split_and!; [|done|].
  - split.
    + by eapply al_ext.
    + destruct Hs as [->|(v & ->)]; [done|]. apply sched_wf_put; [done|apply (sw_cur _ Hw)|done| | |].
      * intros H0. cbn. rewrite H0. apply (sw_zero _ Hw).
      * apply (sw_id _ Hw), (sw_cur _ Hw).
      * intros _. apply (sw_now _ Hw).
    + eapply stacks_owned_same, (sy_owned _ _ Hsy). intros i Hi. destruct (Ht i ltac:(lia)) as (_ & -> & -> & _). done.
    + intros i Hi Hl%Hlive. destruct (Ht i ltac:(lia)) as (_ & -> & _). by apply (sy_based _ _ Hsy).
    + intros i Hl%Hlive Hne. rewrite Hc in Hne. destruct (Hb i ltac:(destruct Hl; lia)) as [-> ->].
      destruct (Ht i ltac:(destruct Hl; lia)) as (-> & _). by apply (sy_parked _ _ Hsy).
    + done.
    + rewrite Hc. destruct (Hb _ Hc0) as [-> ->]. done.
  - intros i Hl Hne. destruct (Ht i ltac:(destruct Hl; lia)) as (He & Hbase & _).
    destruct (sy_parked _ _ Hsy i Hl Hne). apply undisturbed_parked; [done|by rewrite Hc|done|done| |done].
    intros x Hx. rewrite (same_memory_vbyte k1 k') by done. apply Hbytes; [eapply live_on_stack; [done|exact Hl|lia]|].
    intros Hx'. eapply (live_disjoint _ _ Hsy i (current (sched_st k)) x); [done|done|done|lia|done].
Qed.

(** [counter_task] counts in its slot, modulo 2^32, and that is all it does. *)
Definition count (n : nat) (v : Z) : Z := Nat.iter n (λ v, v +u 1) v.

Lemma count_turns n lo c k : wp (for_range n lo (λ _, counter_step c))
  (λ _ k', k' = upd_sched_st (put c (λ t, set_counter (count n (counter t)) t)) k) k.
Proof.
  revert lo k. induction n as [|n IH]; intros lo k; cbn [for_range].
  - change (k = upd_sched_st (put c (λ t, set_counter (counter t) t)) k). destruct k as [? ? ? ? ? []].
    unfold upd_sched_st, put, set_tasks. cbn. do 2 f_equal. symmetry. apply list_alter_id. by intros [].
  - unfold counter_step, upd_task. rewrite wp_bind, wp_modify. eapply wp_mono; [apply IH|].
    cbn beta. intros _ k' ->. unfold upd_sched_st, put, set_tasks. cbn. do 2 f_equal.
    rewrite list_alter_alter_eq. apply list_alter_ext; [|done]. intros t _.
    change (set_counter (count n (counter t +u 1)) t = set_counter (count (S n) (counter t)) t). f_equal.
    exact (eq_sym (Nat.iter_succ_r n _ (λ v, v +u 1) (counter t))).
Qed.

Lemma counter_runs turns k A : system k A → wp (counter_task turns) (λ _ k', runs k k') k.
Proof.
  intros Hsy. unfold counter_task, sched_g. rewrite wp_bind, wp_gets. eapply wp_mono; [apply count_turns|].
  cbn beta. intros _ k' ->. set (c := current (sched_st k)). split.
  - exists k. split; [|done]. split; [by exists (phys (mach k)); destruct k as [[]]|done].
  - right. exists (count turns (counter (task_at (sched_st k) c))). cbn. unfold put, set_tasks. f_equal.
    apply list_alter_ext; [|done]. intros t Ht. unfold task_at, c. by rewrite Ht.
  - apply (sy_regs _ _ Hsy).
  - apply (sy_esp _ _ Hsy).
Qed.

(** The current task exits: it is dead, but has the processor until the next
    tick. *)
Lemma task_exit_system k A : system k A → current (sched_st k) ≠ 0 →
  wp task_exit (λ _ k', system k' A ∧ current (sched_st k') = current (sched_st k) ∧
    ∀ i, live (sched_st k') i → i ≠ current (sched_st k) → undisturbed i k k') k.
Proof.
  intros Hsy Hc. unfold task_exit, sched_g, upd_task. rewrite wp_bind, wp_gets, wp_bind, wp_modify, put_alter.
  pose proof (sy_wf _ _ Hsy) as Hw. pose proof (sw_cur _ Hw).
  destruct (kill_system k A (current (sched_st k)) Hsy ltac:(lia)) as [Hsy1 Hud1].
  { by destruct (sw_now _ Hw) as [->| ->]. }
  set (k1 := upd_sched_st _ k) in *. unfold sti, upd_regs, upd_machine. rewrite wp_modify.
  set (k2 := upd_mach _ k1). assert (runs k1 k2) as Hr.
  { split; [exists k1|by left|..].
    - split; [|done]. split; [by exists (phys (mach k1)); destruct k1 as [[]]|done].
    - apply (interruptible_ok (regs (mach k1))), (sy_regs _ _ Hsy1).
    - apply (sy_esp _ _ Hsy1). }
  destruct (runs_system _ _ _ Hsy1 Hr) as (Hsy2 & Hc2 & Hud2).
  split_and!; [done|done|]. intros i Hl Hne. etrans; [by apply Hud1|by apply Hud2].
Qed.

(** ** Away and back *)

(** From the step that takes the processor from a task to the one that gives it
    back. *)
Record back (i : Z) (k1 k4 : kernel) : Prop := {
  ba_system : ∃ A, system k4 A;
  ba_regs : regs (mach k4) = in_call (view k1 i);
  ba_lo : stack_lo (sched_st k4) i = stack_lo (sched_st k1) i;
  ba_hi : stack_hi (sched_st k4) i = stack_hi (sched_st k1) i;
  ba_bytes x : r_esp (view k1 i) ≤ x < stack_hi (sched_st k1) i → vbyte (mach k4) x = vbyte (mach k1) x
}.
End system.
