(* ===== verification/Preemption.v ===== *)
(** * Preemption, from the interrupt to the return

    The entry stubs of isr.asm save the interrupted task's registers on its own
    stack; [common_leave] brings them back, whether the handler comes straight
    back or the task was switched away in between and resumed much later. *)
From stdpp Require Import prelude gmap list strings.
From Stdlib Require Import Lia ZArith.
From S2P Require Import Prelude Machine State Util Console Memory Pmm Paging Heap HeapSpec.
From S2P Require Import HeapProof HeapMap Frames Alloc StackMemory Task TaskProof TaskStacks.
From S2P Require Import Input Timer Interrupts Stubs Multitask.

#[local] Open Scope Z_scope.

(** ** On the way in *)
Lemma pushed_upd f tr e r k0 k ws : (∀ sp, f (with_esp sp r) = with_esp sp (f r)) →
  pushed tr e r k0 k ws → wp (upd_regs f) (λ _ k', pushed tr e (f r) k0 k' ws) k.
Proof.
  intros Hf ((ph & ->) & Ha & Hws). unfold upd_regs, upd_machine. rewrite wp_modify. split; [|split].
  - exists ph. unfold at_regs, upd_mach. cbn. f_equal. by rewrite <- Hf.
  - destruct Ha as [? ? ?]. by split.
  - exact Hws.
Qed.

Lemma wp_sym_pushed {A} s (m : Z → K A) tr e r k0 k ws Q :
  pushed tr e r k0 k ws → wp (m (sym (mach k0) s)) Q k → wp (bind (on_mach (λ m, sym m s)) m) Q k.
Proof. intros ((ph & ->) & _) Hm. exact Hm. Qed.

Lemma wp_gate_pushed {A} (f : idt_state → idt_entry) (m : idt_entry → K A) tr e r k0 k ws Q :
  pushed tr e r k0 k ws → wp (m (f (idt_st k0))) Q k → wp (bind (gets (λ k, f (idt_st k))) m) Q k.
Proof. intros ((ph & ->) & _) Hm. exact Hm. Qed.

Ltac unnest := repeat lazymatch goal with |- wp (bind (bind _ _) _) _ _ => rewrite wp_bind end.
Ltac at_head := unnest; lazymatch goal with |- wp (bind _ _) _ _ => rewrite wp_bind | _ => idtac end.
Ltac save Hw := at_head; eapply wp_mono; [eapply push_step; [exact Hw|eassumption|cbn; lia|assumption]|];
  cbn beta; cbn [app]; intros _ ? ?.
Ltac set_reg := at_head; eapply wp_mono; [eapply pushed_upd; [|eassumption]; done|]; cbn beta; intros _ ? ?.
Ltac get_reg := unnest; eapply wp_reg_pushed; [eassumption|].
Ltac get_sym := unnest; eapply wp_sym_pushed; [eassumption|].

(** The stubs of the exceptions without an error code and of the interrupt
    requests differ in where they jump to. *)
Definition entry_stub (lab : string) (n : Z) : K () := cli ;;; push 0 ;;; push n ;;; jump lab.

(** What the stub leaves on the stack, from the top down. *)
Definition irq_pushes (lab : string) (cs_sel : Z) (m : machine) (sg : segments) (n : Z) (r : regfile) : list Z :=
  [r_eflags r; cs_sel; r_eip r; 0; n; r_eax r; r_ecx r; r_edx r; r_ebx r; r_esp r - 20; r_ebp r;
   r_esi r; r_edi r; Z.lor (Z.land (r_eax r) 0xFFFF0000) (seg_ds sg); r_esp r - 56;
   sym m lab].

(** The registers with which the handler is called. *)
Definition irq_regs (lab : string) (m : machine) (sg : segments) (r : regfile) : regfile :=
  with_ax 0x10 (with_ax (seg_ds sg) (with_eip (sym m lab)
    (with_eflags (Z.ldiff (Z.ldiff (r_eflags r) 0x34300) 0x200) r))).

Lemma enter_rep lab cs_sel tr lo sg n k : let r := regs (mach k) in
  window tr lo (r_esp r) (mach k) → lo ≤ r_esp r - 64 → r_esp r < 0x100000000 →
  wp (deliver cs_sel n ;;; entry_stub lab n ;;; common_enter sg) (λ p k', p = r_esp r - 56 ∧
    pushed tr (r_esp r) (irq_regs lab (mach k) sg r) k k' (irq_pushes lab cs_sel (mach k) sg n r)) k.
Proof.
  intros r Hw Hlo He. pose proof (pushed_nil tr (r_esp r) k eq_refl) as H0. fold r in H0.
  unfold deliver, entry_stub, cli, jump.
  get_reg. save Hw. save Hw. get_reg. save Hw. set_reg.
  unnest. eapply (wp_gate_pushed (λ s, default no_gate (idt_table s !! Z.to_nat n))); [eassumption|]. set_reg.
  set_reg. save Hw. save Hw. get_sym. set_reg. unfold common_enter, pusha. get_reg. do 8 save Hw.
  set_reg. get_reg. save Hw. set_reg. get_reg. save Hw. get_reg. save Hw.
  rewrite wp_ret. split; [done|]. eassumption.
Qed.

(** ** On the way out *)
Lemma wp_add_esp n r (Q : () → kernel → Prop) k : 0 ≤ r_esp r + n < 0x100000000 →
  Q tt (at_regs (with_esp (r_esp r + n) r) k) → wp (add_esp n) Q (at_regs r k).
Proof. intros Hn HQ. unfold add_esp. apply wp_upd_regs. by rewrite u32_small. Qed.

(** The registers [common_leave] loads from sixteen words at [a]. *)
Definition leave_regs (ws : list Z) (a : Z) : regfile :=
  let w i := default 0 (ws !! i) in
  {| r_edi := w 3%nat; r_esi := w 4%nat; r_ebp := w 5%nat; r_ebx := w 7%nat; r_edx := w 8%nat;
     r_ecx := w 9%nat; r_eax := w 10%nat; r_eip := w 13%nat; r_eflags := w 15%nat; r_esp := a + 64 |}.

Lemma common_leave_rep r ws (Q : segments * Z → kernel → Prop) k :
  readable (mach k) (r_esp r) ws → length ws = 16%nat → 0 ≤ r_esp r → r_esp r + 64 < 0x100000000 →
  Q (flat (Z.land (default 0 (ws !! 2%nat)) 0xFFFF), default 0 (ws !! 14%nat))
    (at_regs (leave_regs ws (r_esp r)) k) → wp common_leave Q (at_regs r k).
Proof.
  intros Hr Hlen Hlo Hhi HQ.
  destruct ws as [|w0 [|w1 [|w2 [|w3 [|w4 [|w5 [|w6 [|w7 [|w8 [|w9 [|w10 [|w11 [|w12 [|w13 [|w14 [|w15 [|]]]]]]]]]]]]]]]]];
    try done. cbn [lookup list_lookup default] in HQ.
  unfold common_leave, popa. pop_word Hr 0%nat. set_word. rewrite wp_bind. apply wp_add_esp; [cbn; lia|].
  pop_word Hr 2%nat. set_word. cbv zeta. unnest.
  pop_word Hr 3%nat. set_word. pop_word Hr 4%nat. set_word. pop_word Hr 5%nat. set_word.
  pop_word Hr 6%nat. pop_word Hr 7%nat. set_word. pop_word Hr 8%nat. set_word.
  pop_word Hr 9%nat. set_word. pop_word Hr 10%nat. set_word. rewrite ?wp_bind. apply wp_add_esp; [cbn; lia|].
  pop_word Hr 13%nat. set_word. pop_word Hr 14%nat. pop_word Hr 15%nat. set_word.
  exact HQ.
Qed.

(** The structure passed to the handlers. *)
Definition frame_of_words (ws : list Z) : registers :=
  let w i := default 0 (ws !! i) in
  Registers (w 0%nat) (w 1%nat) (w 2%nat) (w 3%nat) (w 4%nat) (w 5%nat) (w 6%nat) (w 7%nat) (w 8%nat)
    (w 9%nat) (w 10%nat) (w 11%nat) (w 12%nat) (w 13%nat) 0 0.

Lemma wp_load_frame_word {A} i w ws p p' (f : Z → K A) (Q : A → kernel → Prop) k :
  readable (mach k) p ws → ws !! i = Some w → p' = p + 4 * Z.of_nat i → wp (f w) Q k →
  wp (bind (load32 p') f) Q k.
Proof.
  intros Hr Hw -> Hf. rewrite wp_bind. unfold wp at 1, load32, load. by rewrite (Hr i w Hw).
Qed.

Ltac frame_word Hr i :=
  eapply (wp_load_frame_word i); [exact Hr|reflexivity|rewrite ?u32_small by lia; lia|].

Lemma load_frame_rep p ws (Q : registers → kernel → Prop) k :
  readable (mach k) p ws → length ws = 14%nat → 0 ≤ p → p + 56 < 0x100000000 →
  Q (frame_of_words ws) k → wp (load_frame p) Q k.
Proof.
  intros Hr Hlen Hlo Hhi HQ.
  destruct ws as [|w0 [|w1 [|w2 [|w3 [|w4 [|w5 [|w6 [|w7 [|w8 [|w9 [|w10 [|w11 [|w12 [|w13 [|]]]]]]]]]]]]]]]; try done.
  unfold load_frame. frame_word Hr 0%nat. frame_word Hr 1%nat. frame_word Hr 2%nat. frame_word Hr 3%nat.
  frame_word Hr 4%nat. frame_word Hr 5%nat. frame_word Hr 6%nat. frame_word Hr 7%nat. frame_word Hr 8%nat.
  frame_word Hr 9%nat. frame_word Hr 10%nat. frame_word Hr 11%nat. frame_word Hr 12%nat. frame_word Hr 13%nat.
  exact HQ.
Qed.

(** ** The round trip *)
Section round_trip.
Context (lab : string) (cs_sel n : Z) (sg : segments) (m : machine) (r : regfile).
Context (Hcs : 0 ≤ cs_sel < 0x100000000) (Hn : 0 ≤ n < 0x100000000) (Hds : 0 ≤ seg_ds sg < 0x10000).
Context (Hsym : 0 ≤ sym m lab < 0x100000000).
Context (Hr : regs_ok r) (He : 64 ≤ r_esp r).

Definition irq_words : list Z := reverse (irq_pushes lab cs_sel m sg n r).

Lemma irq_words_small : Forall (λ w, 0 ≤ w < 0x100000000) irq_words.
Proof using All.
  unfold irq_words. rewrite Forall_reverse. unfold irq_pushes.
  unfold regs_ok in Hr. rewrite !Forall_cons, Forall_nil in Hr.
  destruct Hr as (? & ? & ? & ? & ? & ? & ? & ? & ? & ? & _).
  repeat constructor; try lia; apply lor_u32; try lia; by apply land_u32.
Qed.

(** What [common_leave] loads is what the stub saved. *)
Lemma leave_round_trip : leave_regs irq_words (r_esp r - 64) = r.
Proof using. clear Hr He. unfold irq_words, leave_regs. destruct r. cbn. f_equal. apply Z.sub_simpl_r. Qed.

Lemma leave_segments : Z.land (default 0 (irq_words !! 2%nat)) 0xFFFF = seg_ds sg ∧
  default 0 (irq_words !! 14%nat) = cs_sel.
Proof using Hds.
  split; [|done]. cbn. rewrite Z.land_lor_distr_l, <- Z.land_assoc. change (Z.land 0xFFFF0000 0xFFFF) with 0.
  rewrite Z.land_0_r, Z.lor_0_l. change 0xFFFF with (Z.ones 16). rewrite Z.land_ones by lia. by apply Z.mod_small.
Qed.
End round_trip.

(** ** In the running system *)
Section system.
Context (lo0 hi0 : Z) (lab : string) (cs_sel ds : Z) (Hcs : 0 ≤ cs_sel < 0x100000000) (Hds : 0 ≤ ds < 0x10000).
Context (k : kernel) (A : gmap Z Z) (Hsy : system lo0 hi0 k A).
Context (Hsym : 0 ≤ sym (mach k) lab < 0x100000000).
Notation s := (sched_st k).
Notation c := (current (sched_st k)).
Notation r := (regs (mach k)).
Context (Hroom : stack_lo lo0 s c + 64 ≤ r_esp r).

(** The handler is about to run, on the stack of the interrupted task, below the
    sixteen words of the interrupt frame. *)
Record entered (n : Z) (p : Z) (k1 : kernel) : Prop := {
  en_pointer : p = r_esp r - 56;
  en_runs : runs lo0 hi0 k k1;
  en_shape : ∃ ph, k1 = at_regs (with_esp (r_esp r - 64) (irq_regs lab (mach k) (flat ds) r))
    (upd_mach (set_phys ph) k);
  en_words : words (mach k1) (r_esp r - 64) 16 = irq_words lab cs_sel n (flat ds) (mach k) r;
  en_bytes x : r_esp r ≤ x < stack_hi hi0 s c → vbyte (mach k1) x = vbyte (mach k) x
}.

Lemma en_table n p k1 : entered n p k1 → sched_st k1 = s.
Proof using. intros He. by destruct (en_shape _ _ _ He) as (ph & ->). Qed.
Lemma en_regs n p k1 : entered n p k1 →
  regs (mach k1) = with_esp (r_esp r - 64) (irq_regs lab (mach k) (flat ds) r).
Proof using. intros He. by destruct (en_shape _ _ _ He) as (ph & ->). Qed.

Lemma irq_regs_ok v : 0 ≤ v < 0x100000000 → regs_ok (with_esp v (irq_regs lab (mach k) (flat ds) r)).
Proof using Hds Hsym Hsy.
  intros Hv. pose proof (sy_regs _ _ _ _ Hsy) as Hr. unfold regs_ok in *. rewrite !Forall_cons in Hr.
  destruct Hr as (? & ? & ? & ? & ? & ? & ? & ? & ? & ? & _).
  assert (0 ≤ ds < 0x100000000 ∧ 0 ≤ 0x10 < 0x100000000) as [??] by lia.
  repeat apply Forall_cons_2; [cbn; auto 10 with kernel..|done].
Qed.

Lemma enter_runs n : 0 ≤ n < 0x100000000 →
  wp (deliver cs_sel n ;;; entry_stub lab n ;;; common_enter (flat ds)) (entered n) k.
Proof using All.
  intros Hn. pose proof (sy_mem _ _ _ _ Hsy) as Hm. pose proof (sy_esp _ _ _ _ Hsy) as Hesp.
  pose proof (live_current _ _ _ _ Hsy) as Hlc. pose proof (live_range _ _ _ _ Hsy _ Hlc) as Hrc.
  pose proof (live_stack _ _ _ _ Hsy _ Hlc) as Hst.
  destruct (stack_window _ _ _ _ _ _ Hm Hst) as [tr Hwin].
  assert (window tr (stack_lo lo0 s c) (r_esp r) (mach k)) as Hw1 by (eapply window_sub; [exact Hwin|lia|lia]).
  eapply wp_mono; [eapply enter_rep; [exact Hw1|lia|lia]|].
  cbn beta. intros p k1 [-> ((ph & Hk1) & Ha & Hsv)]. cbn [length irq_pushes] in Hk1, Ha.
  change (Z.of_nat 16) with 16 in *. replace (r_esp r - 4 * 16) with (r_esp r - 64) in * by lia.
  set (k2 := upd_mach (set_phys ph) k).
  assert (writes (r_esp r - 64) (r_esp r) k k2) as Hwr.
  { apply (writes_window tr); [intros x Hx; eapply window_mmu; [exact Hw1|lia]|]. rewrite Hk1 in Ha. by destruct Ha. }
  destruct (stack_write _ _ k A _ _ (r_esp r - 64) (r_esp r) k2 Hm Hst) as [_ Hb]; [lia|lia|exact Hwr|].
  assert (same_memory k2 k1) as Hsame by (by rewrite Hk1).
  assert (regs (mach k1) = with_esp (r_esp r - 64) (irq_regs lab (mach k) (flat ds) r)) as Hregs by (by rewrite Hk1).
  split; [done| |by exists ph| |].
  - split; [|by left; rewrite Hk1|rewrite Hregs; apply irq_regs_ok; lia|rewrite Hregs; cbn; lia].
    exists k2. split; [|done]. eapply writes_mono; [exact Hwr|lia|lia].
  - apply words_eq; [done|]. intros i w Hi. unfold irq_words in Hi.
    pose proof (lookup_lt_Some _ _ _ Hi) as Hlt. rewrite length_reverse in Hlt. cbn in Hlt.
    rewrite <- (window_vword tr (stack_lo lo0 s c) (r_esp r)); [|eapply window_step; [exact Hw1|]|lia|lia].
    + rewrite reverse_lookup in Hi by done. cbn [length irq_pushes] in Hi.
      rewrite <- (u32_small w).
      * rewrite <- (Hsv _ _ Hi). f_equal. lia.
      * pose proof (irq_words_small lab cs_sel n (flat ds) (mach k) r Hcs Hn Hds Hsym (sy_regs _ _ _ _ Hsy) ltac:(lia)) as Hs.
        rewrite Forall_lookup in Hs. eapply Hs. unfold irq_words. rewrite reverse_lookup; [exact Hi|cbn; lia].
    + eapply agrees_outside_mono, Ha. intros q (x & Hx & ->). exists x. split; [lia|done].
  - intros x Hx. rewrite (same_memory_vbyte k2 k1) by done. apply Hb; [|lia].
    eapply stack_on; [exact Hst|lia].
Qed.

(** The interrupted task goes on as if nothing had happened: whatever registers
    the handler returns with, its stack pointer apart. *)
Definition continues (k2 : kernel) : Prop := ∀ r', r_esp r' = r_esp r - 64 →
  wp common_leave (λ sc k3, sc = (flat ds, cs_sel) ∧ k3 = at_regs r k2 ∧
    ∀ x, r_esp r ≤ x < stack_hi hi0 s c → vbyte (mach k3) x = vbyte (mach k) x) (at_regs r' k2).

Section entered.
Context (n p : Z) (k1 : kernel) (Hn : 0 ≤ n < 0x100000000) (He : entered n p k1).

Lemma entered_system : system lo0 hi0 k1 A ∧ view k1 c = regs (mach k1).
Proof using All.
  destruct (runs_system _ _ _ _ _ Hsy (en_runs _ _ _ He)) as (Hs1 & Hc & _). split; [done|].
  rewrite <- Hc at 1. apply view_current.
Qed.

Lemma leave_continues k2 A2 : system lo0 hi0 k2 A2 → live (sched_st k2) c →
  stack_lo lo0 (sched_st k2) c = stack_lo lo0 s c → stack_hi hi0 (sched_st k2) c = stack_hi hi0 s c →
  (∀ x, r_esp r - 64 ≤ x < stack_hi hi0 s c → vbyte (mach k2) x = vbyte (mach k1) x) → continues k2.
Proof using All.
  intros Hs2 Hl2 Hlo Hhi Hb r' Hr'. pose proof (sy_esp _ _ _ _ Hsy) as Hesp.
  pose proof (live_stack _ _ _ _ Hs2 _ Hl2) as Hst. pose proof (live_range _ _ _ _ Hs2 _ Hl2) as Hrc.
  rewrite Hlo, Hhi in *. destruct (stack_window _ _ _ _ _ _ (sy_mem _ _ _ _ Hs2) Hst) as [tr Hwin].
  assert (words (mach k2) (r_esp r - 64) 16 = irq_words lab cs_sel n (flat ds) (mach k) r) as Hws.
  { rewrite <- (en_words _ _ _ He). apply words_ext. intros x Hx. apply Hb. lia. }
  destruct (leave_segments lab cs_sel n (flat ds) (mach k) r Hds) as [Hsg Hc'].
  apply (common_leave_rep r' (irq_words lab cs_sel n (flat ds) (mach k) r)).
  - rewrite Hr', <- Hws. eapply words_readable; [exact Hwin|lia|lia].
  - done.
  - lia.
  - lia.
  - rewrite Hsg, Hc'. split; [done|]. split.
    + by rewrite Hr', leave_round_trip.
    + intros x Hx. change (vbyte (mach k2) x = vbyte (mach k) x).
      rewrite Hb by lia. by apply (en_bytes _ _ _ He).
Qed.

(** The structure the handler finds on the stack. *)
Lemma frame_loaded : wp (load_frame p) (λ fr k', k' = k1 ∧ int_no fr = n ∧ State.eip fr = r_eip r) k1.
Proof using All.
  destruct entered_system as [Hs1 _]. pose proof (sy_esp _ _ _ _ Hsy) as Hesp.
  pose proof (live_current _ _ _ _ Hsy) as Hlc. pose proof (live_range _ _ _ _ Hsy _ Hlc) as Hrc.
  destruct (stack_window _ _ _ _ _ _ (sy_mem _ _ _ _ Hs1) (live_stack _ _ _ _ Hsy _ Hlc)) as [tr Hwin].
  rewrite (en_pointer _ _ _ He).
  apply (load_frame_rep _ (drop 2 (irq_words lab cs_sel n (flat ds) (mach k) r))); [|done|lia|lia|done].
  rewrite <- (en_words _ _ _ He). intros i w Hi. rewrite lookup_drop in Hi.
  replace (r_esp r - 56 + 4 * Z.of_nat i) with (r_esp r - 64 + 4 * Z.of_nat (2 + i)) by lia.
  apply (words_readable _ _ _ _ _ 16 Hwin); [lia|lia|exact Hi].
Qed.

(** The handler came back without giving the processor away. *)
Lemma stayed_continues k2 : scheduled lo0 hi0 k1 k2 → current (sched_st k2) = c → continues k2.
Proof using All.
  intros [[A2 Hs2] H] Hc2. destruct entered_system as [Hs1 Hv]. pose proof (en_table _ _ _ He) as Ht.
  pose proof (live_current _ _ _ _ Hs2) as Hl2. destruct (H _ Hl2) as [_ Hud]. rewrite Hc2, Ht in Hud.
  rewrite decide_False in Hud by naive_solver. rewrite Hc2 in Hl2.
  pose proof (undisturbed_lo lo0 _ _ _ _ Hud) as Hlo. destruct Hud as [_ Htop Hb].
  rewrite Hv, (en_regs _ _ _ He), Ht in *. by eapply leave_continues.
Qed.

(** It gave the processor away, and got it back. *)
Lemma back_continues k4 : back lo0 hi0 c k1 k4 → live (sched_st k4) c →
  r_esp (regs (mach k4)) = r_esp r - 72 ∧ continues k4.
Proof using All.
  intros [[A4 Hs4] Hr Hlo Hhi Hb] Hl. destruct entered_system as [_ Hv]. pose proof (en_table _ _ _ He) as Ht.
  rewrite Hv, (en_regs _ _ _ He), Ht in *. split; [rewrite Hr; cbn; lia|]. by eapply leave_continues.
Qed.
End entered.

(** An interrupt or exception, up to the call of the handler. *)
Lemma entered_frame n : 0 ≤ n < 0x100000000 → ∃ p k1 fr,
  (deliver cs_sel n ;;; entry_stub lab n ;;; common_enter (flat ds)) k = Ok p k1 ∧
  load_frame p k1 = Ok fr k1 ∧ entered n p k1 ∧ int_no fr = n ∧ State.eip fr = r_eip r ∧
  system lo0 hi0 k1 A.
Proof using All.
  intros Hn. destruct (wp_inv _ _ _ (enter_runs n Hn)) as (p & k1 & Hent & He).
  destruct (wp_inv _ _ _ (frame_loaded n p k1 Hn He)) as (fr & k1' & Hload & -> & Hfr & Hip).
  exists p, k1, fr. split_and!; try done. by eapply entered_system.
Qed.
End system.

(** An interrupt request, up to the handler. *)
Lemma irq_entered lo0 hi0 cs_sel ds (Hcs : 0 ≤ cs_sel < 0x100000000) (Hds : 0 ≤ ds < 0x10000) k A
  (Hsy : system lo0 hi0 k A) (Hsym : 0 ≤ sym (mach k) "irq_common_stub" < 0x100000000) n :
  0 ≤ n < 0x100000000 → stack_lo lo0 (sched_st k) (current (sched_st k)) + 112 ≤ r_esp (regs (mach k)) →
  ∃ p k1 fr, entered lo0 hi0 "irq_common_stub" cs_sel ds k n p k1 ∧ int_no fr = n ∧
    system lo0 hi0 k1 A ∧ room lo0 k1 ∧
    ∀ fuel, irq_call cs_sel fuel (flat ds) n k = irq_handler fuel fr k1.
Proof.
  intros Hn Hroom.
  destruct (entered_frame lo0 hi0 "irq_common_stub" cs_sel ds Hcs Hds k A Hsy Hsym ltac:(lia) n Hn)
    as (p & k1 & fr & Hent & Hload & He & Hfr & _ & Hsy1).
  exists p, k1, fr. split_and!; [done|done|done| |].
  - unfold room. rewrite (en_table _ _ _ _ _ _ _ _ _ He), (en_regs _ _ _ _ _ _ _ _ _ He). cbn. lia.
  - intros fuel. unfold irq_call, bind. change (irq_enter cs_sel (flat ds) n k = Ok p k1) in Hent. by rewrite Hent, Hload.
Qed.
