(* ===== verification/TaskProps.v ===== *)
(** * The scheduler: the properties

    What src/task.c and src/switch.asm promise: round robin, the invariant of
    the task table in every outcome, a bound on waiting, the ownership of the
    stacks (against the interface of Alloc.v), and what a context switch does
    to registers and memory. *)
From stdpp Require Import prelude gmap list strings.
From Stdlib Require Import Lia ZArith.
From S2P Require Import Prelude Machine State Util Console Memory Pmm Paging Heap HeapSpec.
From S2P Require Import HeapProof HeapMap Frames Alloc Task TaskProof Booted TaskStacks.

#[local] Open Scope Z_scope.

(** ** Round robin *)

(** [pick_next] returns a task that can run, and no task that can run comes
    earlier when the table is walked cyclically from the slot after the current
    one; it never fails, because task 0 can always run. *)
Theorem pick_next_round_robin k :
  sched_wf (sched_st k) →
  wp pick_next (λ i k', k' = k ∧ 0 ≤ i < MAX_TASKS ∧ runnable (task_at (sched_st k) i) = true ∧
    ∀ j, 0 ≤ j < MAX_TASKS → runnable (task_at (sched_st k) j) = true →
      distance (current (sched_st k)) i ≤ distance (current (sched_st k)) j) k.
Proof.
  intros Hw. unfold pick_next, sched_g. rewrite wp_gets. split; [done|].
  destruct (pick_next_rep (sched_st k) (sw_cur _ Hw)) as [(Hi & Hr & Hmin)|[_ Hnone]].
  - split_and!; [apply Hi..|done|]. intros j Hj Hrj. apply Z.nlt_ge. intros Hlt.
    by rewrite (Hmin j Hj Hlt) in Hrj.
  - specialize (Hnone 0 ltac:(done)). by rewrite (sw_zero _ Hw) in Hnone.
Qed.

Lemma pick_next_round_robin_witness :
  wp pick_next (λ i k', k' = scheduling ∧ 0 ≤ i < MAX_TASKS ∧
    runnable (task_at (sched_st scheduling) i) = true ∧
    ∀ j, 0 ≤ j < MAX_TASKS → runnable (task_at (sched_st scheduling) j) = true →
      distance (current (sched_st scheduling)) i ≤ distance (current (sched_st scheduling)) j) scheduling.
Proof. apply pick_next_round_robin, scheduling_wf. Defined.

(** ** The table, tick by tick *)

(** C13: one timer tick, however it ends, leaves a well formed table (one
    current task, the only one running, task 0 alive, a quantum of at most five
    ticks); if it returns, the table is the one [tick_spec] computes, saved
    stack pointers apart. *)
Theorem scheduler_tick_refines k :
  sched_wf (sched_st k) →
  always scheduler_tick
    (λ _ k', strip (sched_st k') = strip (tick_spec (sched_st k)) ∧ sched_wf (sched_st k'))
    (λ k', sched_wf (sched_st k')) k.
Proof.
  intros Hw. eapply always_mono; [by apply scheduler_tick_always| |by intros k' H].
  intros [] k' H. split; [done|]. eapply sched_wf_same; [symmetry; exact H|by apply tick_wf].
Qed.

Lemma scheduler_tick_refines_witness :
  always scheduler_tick
    (λ _ k', strip (sched_st k') = strip (tick_spec (sched_st scheduling)) ∧ sched_wf (sched_st k'))
    (λ k', sched_wf (sched_st k')) scheduling.
Proof. apply scheduler_tick_refines, scheduling_wf. Defined.

(** Giving up the processor keeps the table well formed in every outcome and
    switches to the round-robin choice at once, quantum or not. *)
Theorem task_yield_refines k :
  sched_wf (sched_st k) →
  always task_yield
    (λ _ k', strip (sched_st k') = strip (if sched_enabled (sched_st k) =? 0 then sched_st k
               else switch_spec (next_task (sched_st k)) (sched_st k)) ∧ sched_wf (sched_st k'))
    (λ k', sched_wf (sched_st k')) k.
Proof.
  intros Hw. eapply always_mono; [by apply task_yield_always| |by intros k' H].
  intros [] k' H. split; [done|]. eapply sched_wf_same; [symmetry; exact H|].
  case_match; [done|]. apply switch_wf; [done|by apply next_task_cases].
Qed.

Lemma task_yield_refines_witness :
  always task_yield
    (λ _ k', strip (sched_st k') = strip (if sched_enabled (sched_st scheduling) =? 0 then sched_st scheduling
               else switch_spec (next_task (sched_st scheduling)) (sched_st scheduling)) ∧ sched_wf (sched_st k'))
    (λ k', sched_wf (sched_st k')) scheduling.
Proof. apply task_yield_refines, scheduling_wf. Defined.

(** A history of the kernel: the states at the ticks, each tick starting from
    the table the previous one left. *)
Record tick_history (ks ks' : nat → kernel) : Prop := {
  th_tick n : scheduler_tick (ks n) = Ok tt (ks' n);
  th_next n : sched_st (ks (S n)) = sched_st (ks' n)
}.

Lemma tick_history_iter ks ks' n :
  tick_history ks ks' → sched_wf (sched_st (ks 0%nat)) →
  strip (sched_st (ks n)) = strip (Nat.iter n tick_spec (sched_st (ks 0%nat))) ∧
  sched_wf (sched_st (ks n)).
Proof.
  intros Hh Hw. induction n as [|n [IH IHw]]; [done|].
  pose proof (scheduler_tick_always (ks n) IHw) as Ht. unfold always in Ht.
  rewrite (th_tick _ _ Hh n) in Ht. rewrite (th_next _ _ Hh n). cbn [Nat.iter].
  split; [rewrite Ht; by apply tick_same|]. eapply sched_wf_same; [symmetry; exact Ht|by apply tick_wf].
Qed.

(** C14: nobody starves: in every history of ticks a task that can run has the
    processor within 35 ticks (seven tasks before it, five ticks each). *)
Theorem no_starvation ks ks' i :
  tick_history ks ks' → sched_wf (sched_st (ks 0%nat)) → sched_enabled (sched_st (ks 0%nat)) ≠ 0 →
  0 ≤ i < MAX_TASKS → runnable (task_at (sched_st (ks 0%nat)) i) = true →
  ∃ n, (n ≤ 35)%nat ∧ current (sched_st (ks n)) = i.
Proof.
  intros Hh Hw Hen Hi Hr. set (s := sched_st (ks 0%nat)) in *.
  assert (∃ m, (m ≤ 35)%nat ∧ current (Nat.iter m tick_spec s) = i) as (m & Hm & Hc).
  { destruct (decide (i = current s)) as [->|Hne]; [exists 0%nat; split; [lia|reflexivity]|].
    apply fair_within; [done..|]. pose proof (sw_cur _ Hw) as Hcur. pose proof (sw_quantum _ Hw) as Hq.
    unfold wait_bound, distance, TASK_QUANTUM, MAX_TASKS in *. zlia. }
  exists m. split; [done|]. destruct (tick_history_iter _ _ m Hh Hw) as [Hs _]. fold s in Hs.
  rewrite <- Hc. exact (f_equal current Hs).
Qed.

(** Task 0 alone, at the end of its quantum: the tick changes nothing. *)
Definition idle : kernel := upd_sched_st (set_quantum_left 1) scheduling.

Lemma idle_tick k : sched_st k = sched_st idle → scheduler_tick k = Ok tt k.
Proof.
  assert (sched_st idle = set_quantum_left 1 initial_table) as ->.
  { unfold idle. cbn [sched_st upd_sched_st]. by rewrite (proj1 scheduling_table). }
  destruct k as [m ms pm pg hp sc se vg id sh ti sd]. cbn [sched_st]. intros ->.
  vm_compute. reflexivity.
Qed.

Lemma idle_history : tick_history (λ _, idle) (λ _, idle).
Proof. split; [intros _; by apply idle_tick|reflexivity]. Qed.

Lemma no_starvation_witness : ∃ n, (n ≤ 35)%nat ∧ current (sched_st ((λ _, idle) n)) = 0.
Proof.
  apply (no_starvation (λ _, idle) (λ _, idle)); [apply idle_history| |closed|closed|closed].
  apply set_quantum_wf; [apply scheduling_wf|closed].
Defined.

(** ** Starting, killing, leaving *)

(** [task_kill] marks exactly the given task dead, and refuses task 0, slots
    outside the table and slots that are not in use, changing nothing. *)
Theorem task_kill_marks id k :
  sched_wf (sched_st k) → 0 ≤ id →
  wp (task_kill id) (λ r k',
    if bool_decide (0 < id < MAX_TASKS ∧ state (task_at (sched_st k) id) ≠ TASK_UNUSED)
    then r = 1 ∧ k' = upd_sched_st (put id (set_state TASK_DEAD)) k ∧ sched_wf (sched_st k')
    else r = 0 ∧ k' = k) k.
Proof. apply task_kill_rep. Qed.

Lemma task_kill_marks_witness :
  wp (task_kill 3) (λ r k',
    if bool_decide (0 < 3 < MAX_TASKS ∧ state (task_at (sched_st scheduling) 3) ≠ TASK_UNUSED)
    then r = 1 ∧ k' = upd_sched_st (put 3 (set_state TASK_DEAD)) scheduling ∧ sched_wf (sched_st k')
    else r = 0 ∧ k' = scheduling) scheduling.
Proof. apply task_kill_marks; [apply scheduling_wf|closed]. Defined.

(** ** The stacks *)
Section stacks.
Context {inv : kernel → gmap Z Z → Prop} `{!Allocator inv}.

(** C15: [task_create] takes the lowest free slot -- every slot below it is taken --
    and the stack [kmalloc] gives it, builds on it the frame from which the first
    switch enters [entry] with interrupts on and [task_exit] as the return address,
    and leaves every other slot and every live allocation alone; the stacks stay
    owned.  It returns -1 only if no slot is free or [kmalloc] returned null, and
    then the table is unchanged. *)
Theorem task_create_builds k A nm entry :
  inv k A → sched_wf (sched_st k) → stacks_owned A (sched_st k) →
  wp (task_create nm entry) (λ r k',
    sched_wf (sched_st k') ∧ kept A nowhere k k' ∧
    ((r = -1 ∧ no_room_for_task k ∧ inv k' A ∧ sched_st k' = sched_st k) ∨
     (∃ stack n, lowest_free (sched_st k) r ∧ (∃ k1, stack ≠ 0 ∧ kmalloc TASK_STACK_SIZE k = Ok stack k1) ∧
        A !! stack = None ∧ inv k' (<[stack := n]> A) ∧ stacks_owned (<[stack := n]> A) (sched_st k') ∧
        frame_at (mach k') (first_esp stack) (rev (first_frame (sym (mach k) "task_exit") entry)) ∧
        sched_st k' = put r (new_task r stack (first_esp stack) nm) (sched_st k)))) k.
Proof using All. apply task_create_owned. Qed.

(** C16: [reap] frees exactly the stacks of the dead tasks that are not the
    current one and clears their slots; every other allocation and its contents
    stay, and the remaining stacks stay owned: none is freed twice, and none is
    freed while its task can still run. *)
Theorem reap_frees k A :
  inv k A → sched_wf (sched_st k) → stacks_owned A (sched_st k) →
  wp reap (λ _ k', sched_st k' = reap_spec (sched_st k) ∧ sched_wf (sched_st k') ∧
    ∃ A', inv k' A' ∧ A' ⊆ A ∧ kept A' nowhere k k' ∧ stacks_owned A' (sched_st k') ∧
      (∀ i, reapable (sched_st k) i → A' !! stack_base (task_at (sched_st k) i) = None) ∧
      (∀ p, (∀ i, reapable (sched_st k) i → stack_base (task_at (sched_st k) i) ≠ p) → A' !! p = A !! p)) k.
Proof using All. apply reap_owned. Qed.
End stacks.

Lemma task_create_builds_witness :
  wp (task_create (lit worker) 0x5000) (λ r k',
    sched_wf (sched_st k') ∧ kept ∅ nowhere scheduling k' ∧
    ((r = -1 ∧ no_room_for_task scheduling ∧ heap_client k' ∅ ∧ sched_st k' = sched_st scheduling) ∨
     (∃ stack n, lowest_free (sched_st scheduling) r ∧
        (∃ k1, stack ≠ 0 ∧ kmalloc TASK_STACK_SIZE scheduling = Ok stack k1) ∧
        (∅ : gmap Z Z) !! stack = None ∧ heap_client k' (<[stack := n]> ∅) ∧
        stacks_owned (<[stack := n]> ∅) (sched_st k') ∧
        frame_at (mach k') (first_esp stack) (rev (first_frame (sym (mach scheduling) "task_exit") 0x5000)) ∧
        sched_st k' = put r (new_task r stack (first_esp stack) (lit worker)) (sched_st scheduling)))) scheduling.
Proof.
  apply task_create_builds; [apply scheduling_client|apply scheduling_wf|apply scheduling_owned].
Defined.

Lemma doomed_table : sched_st doomed = put 1 (set_state TASK_DEAD) worker_table.
Proof. unfold doomed. cbn [sched_st upd_sched_st]. by rewrite (sp_table spawned_now). Qed.

Lemma reap_frees_witness : ∃ n,
  wp reap (λ _ k', sched_st k' = reap_spec (sched_st doomed) ∧ sched_wf (sched_st k') ∧
    ∃ A', heap_client k' A' ∧ A' ⊆ {[worker_stack := n]} ∧ kept A' nowhere doomed k' ∧
      stacks_owned A' (sched_st k') ∧
      (∀ i, reapable (sched_st doomed) i → A' !! stack_base (task_at (sched_st doomed) i) = None) ∧
      (∀ p, (∀ i, reapable (sched_st doomed) i → stack_base (task_at (sched_st doomed) i) ≠ p) →
         A' !! p = ({[worker_stack := n]} : gmap Z Z) !! p)) doomed ∧
  reapable (sched_st doomed) 1.
Proof.
  destruct spawned_facts as (n & Hi & Hso & Hw & _). exists n. split; [|rewrite doomed_table; split; [closed|split; closed]].
  unfold doomed. apply reap_frees.
  - eapply (al_ext spawned); [apply upd_task_same_memory|exact Hi].
  - apply sched_wf_kill; [exact Hw|closed|rewrite (sp_table spawned_now); closed].
  - apply stacks_owned_kill; [exact Hw|closed|exact Hso].
Defined.
