(* ===== verification/SwitchProps.v ===== *)
(** * The context switch: the properties

    What [switch_to] (src/task.c) and [context_switch] (src/switch.asm) do to
    the registers and the two stacks, the first entry of a new task, and the
    round trip of a task that is switched away and back. *)
From stdpp Require Import prelude gmap list strings.
From Stdlib Require Import Lia ZArith.
From S2P Require Import Prelude Machine State Util Console Memory Pmm Paging Heap HeapSpec.
From S2P Require Import HeapProof HeapMap Frames Alloc StackMemory Task TaskProof Booted TaskStacks.

#[local] Open Scope Z_scope.

(** ** Bytes that stay *)

(** A frame in the heap survives what is written to a stack elsewhere. *)
Lemma frame_survives k U T P bs tr sp e a ws m' :
  heap_inv k U T P bs → HEAP_START ≤ a → a + 4 * Z.of_nat (length ws) ≤ brk (heap_st k) →
  frame_at (mach k) a ws →
  (∀ x, sp ≤ x < e → ¬ owned k T (tr x / 0x1000) ∧
     ∀ y, a ≤ y < a + 4 * Z.of_nat (length ws) → mmu (mach k) y ≠ Some (tr x)) →
  agrees_outside (image tr sp e) (mach k) m' →
  same_bytes (mach k) m' a (a + 4 * Z.of_nat (length ws)) ∧ readable m' a (u32 <$> ws).
Proof.
  intros Hi Ha Hb Hf Hapart Hm'. pose proof (hv_paging _ _ _ _ _ Hi) as Hp.
  pose proof (hv_on _ _ _ _ _ Hi) as Hon.
  pose proof (heap_window _ _ _ _ _ Hp Hon (hv_frames _ _ _ _ _ Hi)) as Hh.
  pose proof (win_range _ _ _ _ Hh) as Hhr.
  assert (same_bytes (mach k) m' a (a + 4 * Z.of_nat (length ws))) as Hsame.
  { intros x Hx. assert (mmu m' x = mmu (mach k) x) as Hmmu.
    { eapply mmu_apart; [done|done|exact Hm'| |unfold HEAP_START in *; lia].
      intros q (y & Hy & ->). by apply Hapart. }
    split; [done|]. unfold vbyte. rewrite Hmmu. destruct (mmu (mach k) x) as [p|] eqn:Hpx; [|done].
    apply (ao_rd8 _ _ _ Hm'). intros (y & Hy & ->). by apply (proj2 (Hapart y Hy) x). }
  split; [done|].
  eapply (same_bytes_readable (heap_tr P) HEAP_START (brk (heap_st k)) (mach k));
    [done|done|by rewrite length_fmap| |by rewrite length_fmap].
  intros i w Hiw. apply list_lookup_fmap_Some in Hiw as (v & -> & Hv').
  rewrite <- (Hf i v Hv'). apply lookup_lt_Some in Hv'. symmetry. eapply heap_vword; [done|lia|lia].
Qed.

(** ** One switch *)

(** [switch_to] saves the ten words of the running task's context below its
    stack pointer, records that pointer in its slot, loads the registers from
    the ten words of the next task's stack, updates the table as [switch_spec]
    says, and changes no byte outside the 48 bytes it pushes. *)
Theorem switch_to_swaps tr lo k n ws :
  let s := sched_st k in
  let r := regs (mach k) in
  let sp := r_esp r - 48 in
  sched_wf s → 0 ≤ n < MAX_TASKS → n ≠ current s →
  window tr lo (r_esp r) (mach k) → lo ≤ sp → r_esp r < 0x100000000 →
  length ws = 10%nat → 0 ≤ esp (task_at s n) → esp (task_at s n) + 40 < 0x100000000 →
  (∀ m', agrees_outside (image tr sp (r_esp r)) (mach k) m' → readable m' (esp (task_at s n)) ws) →
  wp (switch_to n) (λ _ k',
    sched_st k' = put (current s) (set_esp sp) (switch_spec n s) ∧
    regs (mach k') = frame_regs ws (esp (task_at s n)) ∧
    (∀ i w, frame_words r sp !! i = Some w → vw tr (mach k') (sp + 4 * Z.of_nat i) = u32 w) ∧
    agrees_outside (image tr sp (r_esp r)) (mach k) (mach k')) k.
Proof.
  intros s r sp **. eapply wp_mono; [by apply (switch_to_rep tr lo k n ws)|].
  intros [] k' ((ph & ->) & Ha & Hv). by split_and!.
Qed.

(** ** The first entry *)

(** The first switch to a task that [task_create] built starts it at its
    entry point, with interrupts enabled, all other registers zero, and the
    stack pointer at a return address that leads to [task_exit]. *)
Theorem first_switch_enters k U T P bs tr lo n entry :
  let s := sched_st k in
  let r := regs (mach k) in
  let a := esp (task_at s n) in
  heap_inv k U T P bs → sched_wf s → 0 ≤ n < MAX_TASKS → n ≠ current s →
  window tr lo (r_esp r) (mach k) → lo ≤ r_esp r - 48 → r_esp r < 0x100000000 →
  HEAP_START ≤ a → a + 44 ≤ brk (heap_st k) →
  frame_at (mach k) a (rev (first_frame (sym (mach k) "task_exit") entry)) →
  (∀ x, r_esp r - 48 ≤ x < r_esp r → ¬ owned k T (tr x / 0x1000) ∧
     ∀ y, a ≤ y < a + 44 → mmu (mach k) y ≠ Some (tr x)) →
  wp (switch_to n) (λ _ k', current (sched_st k') = n ∧
    regs (mach k') = {| r_eflags := 0x202; r_edi := 0; r_esi := 0; r_ebp := 0; r_ebx := 0; r_edx := 0;
      r_ecx := 0; r_eax := 0; r_eip := u32 entry; r_esp := a + 40 |} ∧
    vword (mach k') (a + 40) = u32 (sym (mach k) "task_exit")) k.
Proof.
  intros s r a Hi Hw Hn Hne Hwin Hlo Hesp Ha Hb Hf Hapart.
  set (texit := sym (mach k) "task_exit") in *. set (fr := rev (first_frame texit entry)) in *.
  assert (∀ m', agrees_outside (image tr (r_esp r - 48) (r_esp r)) (mach k) m' →
    same_bytes (mach k) m' a (a + 44) ∧ readable m' a (u32 <$> fr)) as Hs.
  { intros m' Hm'. by apply (frame_survives k U T P bs tr (r_esp r - 48) (r_esp r) a fr). }
  assert (brk (heap_st k) ≤ 0x100000000) as Htop by apply (win_range _ _ _ _ (heap_window _ _ _ _ _
    (hv_paging _ _ _ _ _ Hi) (hv_on _ _ _ _ _ Hi) (hv_frames _ _ _ _ _ Hi))).
  eapply wp_mono; [apply (switch_to_rep tr lo k n (take 10 (u32 <$> fr))); try done; fold s a;
    [unfold HEAP_START in Ha; lia|lia|]|].
  - intros m' Hm'. by apply readable_take, Hs.
  - intros [] k' ((ph & Hk') & Hag & _). fold r in Hag. split_and!.
    + rewrite Hk'. cbn. by apply switch_statics; [lia|].
    + by rewrite Hk'.
    + fold s a. rewrite <- (Hf 10%nat texit) by done. apply vword_ext. intros x Hx.
      apply (Hs (mach k')); [|lia]. destruct Hag; by split.
Qed.

(** ** There and back *)
(** A task that is switched away and later switched back to resumes with the
    registers it had, provided the 40 bytes of context on its stack are
    untouched meanwhile; the stack pointer is 8 below, for the caller of
    [context_switch] to drop the two arguments. *)
Theorem switch_back_resumes tr lo k n ws :
  let s := sched_st k in
  let r := regs (mach k) in
  let sp := r_esp r - 48 in
  sched_wf s → 0 ≤ n < MAX_TASKS → n ≠ current s → regs_ok r →
  window tr lo (r_esp r) (mach k) → lo ≤ sp →
  length ws = 10%nat → 0 ≤ esp (task_at s n) → esp (task_at s n) + 40 < 0x100000000 →
  (∀ m', agrees_outside (image tr sp (r_esp r)) (mach k) m' → readable m' (esp (task_at s n)) ws) →
  wp (switch_to n) (λ _ k1, esp (task_at (sched_st k1) (current s)) = sp ∧
    ∀ tr2 lo2 k2, let r2 := regs (mach k2) in
      sched_wf (sched_st k2) → current (sched_st k2) ≠ current s →
      esp (task_at (sched_st k2) (current s)) = sp →
      window tr2 lo2 (r_esp r2) (mach k2) → lo2 ≤ r_esp r2 - 48 → r_esp r2 < 0x100000000 →
      (∀ m', agrees_outside (image tr2 (r_esp r2 - 48) (r_esp r2)) (mach k2) m' →
         same_bytes (mach k1) m' sp (sp + 40)) →
      wp (switch_to (current s)) (λ _ k3, current (sched_st k3) = current s ∧
        regs (mach k3) = with_esp (r_esp r - 8) r) k2) k.
Proof.
  intros s r sp Hw Hn Hne Hr Hwin Hlo Hlen Hn0 Hn1 Hrd. pose proof (sw_cur _ Hw) as Hcur.
  assert (0 ≤ r_esp r < 0x100000000) as Hesp by (unfold regs_ok in Hr; rewrite !Forall_cons in Hr; tauto).
  pose proof (win_range _ _ _ _ Hwin) as Hwr.
  eapply wp_mono; [apply (switch_to_rep tr lo k n ws); try done; apply Hesp|].
  intros [] k1 ((ph & Hk1) & Ha & Hv). change (mach (upd_sched_st (switch_spec n) k)) with (mach k) in *.
  fold r sp in Ha, Hv.
  assert (window tr lo (r_esp r) (mach k1)) as Hw1.
  { eapply window_step; [exact Hwin|]. eapply agrees_outside_mono, Ha. intros p (x & ? & ->).
    exists x. split; [lia|done]. }
  split.
  { rewrite Hk1. cbn [at_regs upd_mach upd_sched_st sched_st]. fold s.
    assert (length (tasks (switch_spec n s)) = 8%nat) as Hl by (rewrite switch_length; apply (sw_len _ Hw)).
    unfold put. rewrite task_at_alter by (rewrite ?Hl; unfold MAX_TASKS in *; lia). by rewrite decide_True. }
  intros tr2 lo2 k2 r2 Hw2 Hne2 Hsp2 Hwin2 Hlo2 Hr2 Hsame.
  eapply wp_mono; [apply (switch_to_rep tr2 lo2 k2 (current s) (frame_words r sp)); try done; rewrite ?Hsp2|].
  - lia.
  - lia.
  - intros m' Hm'. eapply (same_bytes_readable tr lo (r_esp r) (mach k1)); [done|lia|cbn; lia| |].
    + intros i w Hi. rewrite (Hv i w Hi). eapply frame_words_small; [done| | |done]; lia.
    + by apply Hsame.
  - intros [] k3 ((ph3 & ->) & _). split.
    + cbn. apply switch_statics; [lia|done].
    + cbn [at_regs upd_mach mach regs set_regs]. rewrite Hsp2, frame_round_trip. f_equal. unfold sp. lia.
Qed.

(** ** From task 0 to the worker *)

(** Task 0 of Booted.v runs on a stack in page 2, which is not a page table. *)
Definition low_page (p : Z) : bool := p / 0x1000 =? 2.

Lemma spawned_tables :
  forallb (λ i, negb (low_page (rd32 (phys (mach spawned)) (pdir spawned + 4 * i)))) (seqZ 0 1024) = true.
Proof. vm_compute. reflexivity. Qed.

Lemma forallb_seqZ f n x : forallb f (seqZ 0 n) = true → 0 ≤ x < n → f x = true.
Proof. rewrite forallb_forall. intros H Hx. apply H. apply list_elem_of_In, elem_of_seqZ. lia. Qed.

Lemma spawned_stack U T P : paging_inv spawned U T P →
  (∀ t, is_table spawned T t → t / 0x1000 ≠ 2) ∧ ¬ owned spawned T 2 ∧
  window id 0x2000 0x2800 (mach spawned).
Proof.
  intros Hi. pose proof (gc_pt _ _ _ (gi_core _ _ _ _ Hi)) as Hpt.
  assert (∀ t, is_table spawned T t → t / 0x1000 ≠ 2) as Ht.
  { intros t [->|[i Hti]] Heq; [by apply (sp_directory spawned_now)|].
    destruct (pt_T _ _ _ _ Hpt _ _ Hti) as (Hir & [Hal Hr] & _).
    pose proof (forallb_seqZ _ _ i spawned_tables Hir) as Hf. cbn beta in Hf.
    rewrite (pt_pde _ _ _ _ Hpt i Hir), Hti in Hf. revert Hf. unfold low_page.
    replace ((t + 3) / 0x1000) with 2 by (clear -Heq Hal; zlia). done. }
  split; [exact Ht|]. split.
  - intros [H|[(a & Ha & H)|(t & Htt & H)]]; [done| |by apply (Ht t)].
    assert (0x3000 ≤ a) as Ha' by (rewrite (sp_bitmap spawned_now) in Ha; apply Ha).
    clear -Ha' H. zlia.
  - eapply (data_window spawned T P); [apply (gi_core _ _ _ _ Hi)|closed|by rewrite (sp_identity spawned_now)|].
    intros t Htt. pose proof (Ht t Htt) as Hne.
    destruct (is_table_page _ _ _ _ _ Hi Htt) as [Hal Hr]. change 0x2800 with (0x2000 + 0x800). clear -Hne Hal Hr. zlia.
Qed.

Lemma spawned_inv : ∃ U T P bs, heap_inv spawned U T P bs.
Proof. destruct spawned_facts as (n & (U & T & P & bs & Hi & _) & _). by exists U, T, P, bs. Qed.

Lemma spawned_frame : frame_at (mach spawned) (esp (task_at (sched_st spawned) 1))
  (rev (first_frame (sym (mach spawned) "task_exit") 0x5000)).
Proof.
  destruct spawned_facts as (_ & _ & _ & _ & Hf).
  assert (esp (task_at (sched_st spawned) 1) = first_esp worker_stack) as -> by (rewrite (sp_table spawned_now); closed).
  rewrite (sp_exit spawned_now). exact Hf.
Qed.

(** The frame of the worker lies in none of the bytes of page 2. *)
Definition off_page (k : kernel) (a i : Z) : bool :=
  match mmu (mach k) (a + i) with Some p => negb (low_page p) | None => false end.

Lemma spawned_frame_pages :
  forallb (off_page spawned (esp (task_at (sched_st spawned) 1))) (seqZ 0 44) = true.
Proof. vm_compute. reflexivity. Qed.

Lemma spawned_apart U T P : paging_inv spawned U T P →
  ∀ x, r_esp (regs (mach spawned)) - 48 ≤ x < r_esp (regs (mach spawned)) →
    ¬ owned spawned T (id x / 0x1000) ∧
    ∀ y, esp (task_at (sched_st spawned) 1) ≤ y < esp (task_at (sched_st spawned) 1) + 44 →
      mmu (mach spawned) y ≠ Some (id x).
Proof.
  intros Hi x Hx. rewrite (sp_regs spawned_now) in Hx. cbn in Hx.
  assert (x / 0x1000 = 2) as Hp by (clear -Hx; zlia). unfold id. rewrite Hp.
  split; [by apply (spawned_stack U T P)|]. intros y Hy Hm.
  pose proof (forallb_seqZ _ _ (y - esp (task_at (sched_st spawned) 1)) spawned_frame_pages
    ltac:(clear -Hy; lia)) as Hf.
  unfold off_page in Hf. rewrite Zplus_minus, Hm in Hf. unfold low_page in Hf. by rewrite Hp in Hf.
Qed.

Lemma spawned_regs : regs_ok (regs (mach spawned)).
Proof.
  rewrite (sp_regs spawned_now). unfold regs_ok. cbn.
  repeat (apply Forall_cons; split; [lia|]). apply Forall_nil. exact I.
Qed.

Lemma spawned_stacks : sched_wf (sched_st spawned) ∧
  window id 0x2000 (r_esp (regs (mach spawned))) (mach spawned) ∧
  ∀ m', agrees_outside (image id (r_esp (regs (mach spawned)) - 48) (r_esp (regs (mach spawned)))) (mach spawned) m' →
    readable m' (esp (task_at (sched_st spawned) 1)) (take 10 (u32 <$> rev (first_frame 0x1100 0x5000))).
Proof.
  destruct spawned_inv as (U & T & P & bs & Hi). pose proof (hv_paging _ _ _ _ _ Hi) as Hp.
  split; [by destruct spawned_facts as (_ & _ & _ & Hw & _)|]. split.
  - rewrite (sp_regs spawned_now). by apply (spawned_stack U T P).
  - intros m' Hm'. apply readable_take.
    pose proof spawned_frame as Hf. rewrite (sp_exit spawned_now) in Hf.
    eapply (frame_survives spawned U T P bs id (r_esp (regs (mach spawned)) - 48) (r_esp (regs (mach spawned)))
      _ (rev (first_frame 0x1100 0x5000)) m' Hi);
      [rewrite (sp_table spawned_now); closed|rewrite (sp_table spawned_now), (sp_brk spawned_now); closed|exact Hf|exact (spawned_apart U T P Hp)|exact Hm'].
Qed.

Lemma switch_to_swaps_witness : ∃ ws,
  wp (switch_to 1) (λ _ k',
    sched_st k' = put (current (sched_st spawned)) (set_esp (r_esp (regs (mach spawned)) - 48))
      (switch_spec 1 (sched_st spawned)) ∧
    regs (mach k') = frame_regs ws (esp (task_at (sched_st spawned) 1)) ∧
    (∀ i w, frame_words (regs (mach spawned)) (r_esp (regs (mach spawned)) - 48) !! i = Some w →
       vw id (mach k') (r_esp (regs (mach spawned)) - 48 + 4 * Z.of_nat i) = u32 w) ∧
    agrees_outside (image id (r_esp (regs (mach spawned)) - 48) (r_esp (regs (mach spawned))))
      (mach spawned) (mach k')) spawned.
Proof.
  destruct spawned_stacks as (Hw & Hwin & Hrd). exists (take 10 (u32 <$> rev (first_frame 0x1100 0x5000))).
  apply (switch_to_swaps id 0x2000 spawned 1);
    [exact Hw|closed|by rewrite (sp_table spawned_now)|exact Hwin|by rewrite (sp_regs spawned_now)
    |by rewrite (sp_regs spawned_now)|reflexivity|rewrite (sp_table spawned_now); closed
    |rewrite (sp_table spawned_now); closed|exact Hrd].
Defined.
