(* ===== verification/ConsoleProps.v ===== *)
(** * The console: the properties

    src/vga.c against a model of the screen as a list of cells that scrolls,
    the bound on waiting for the UART (src/serial.c), and the round trips
    between printing and parsing numbers (src/vga.c, src/util.c). *)
From stdpp Require Import prelude gmap list strings.
From Stdlib Require Import Lia ZArith.
From S2P Require Import Prelude Machine State Util Console Memory Pmm Paging Heap HeapSpec.
From S2P Require Import HeapProof HeapMap Frames Alloc Task TaskProof Booted.

#[local] Open Scope Z_scope.

(** ** The screen *)

(** The buffer has 25 rows of 80 cells and the cursor is on it. *)
Record screen_ok (s : vga_state) : Prop := {
  sc_cells : length (vga_cells s) = 2000%nat;
  sc_row : 0 ≤ cursor_row s < VGA_HEIGHT;
  sc_col : 0 ≤ cursor_col s < VGA_WIDTH
}.

Definition blank (s : vga_state) : Z := vga_entry 32 (color s).

(** One row up: the first row is lost, a blank one appears. *)
Definition screen_scroll (s : vga_state) : vga_state :=
  set_cursor_row (VGA_HEIGHT - 1) (set_vga_cells (drop 80 (vga_cells s) ++ replicate 80 (blank s)) s).

(** The cursor moves to the start of the next row. *)
Definition screen_newline (s : vga_state) : vga_state :=
  let s := set_cursor_row (cursor_row s + 1) (set_cursor_col 0 s) in
  if cursor_row s <? VGA_HEIGHT then s else screen_scroll s.

(** What printing one character means. *)
Definition screen_put (c : Z) (s : vga_state) : vga_state :=
  if c =? 10 then screen_newline s
  else
    let s := set_vga_cells (<[Z.to_nat (cursor_row s * VGA_WIDTH + cursor_col s) := vga_entry c (color s)]> (vga_cells s)) s in
    if cursor_col s + 1 <? VGA_WIDTH then set_cursor_col (cursor_col s + 1) s else screen_newline s.

Lemma length_scrolled s : length (vga_cells s) = 2000%nat → length (vga_cells (screen_scroll s)) = 2000%nat.
Proof.
  intros Hl. change (length (drop 80 (vga_cells s) ++ replicate 80 (blank s)) = 2000%nat).
  by rewrite length_app, length_drop, Hl, length_replicate.
Qed.

Lemma screen_newline_ok s : length (vga_cells s) = 2000%nat → 0 ≤ cursor_row s < VGA_HEIGHT →
  screen_ok (screen_newline s).
Proof.
  intros Hl Hr. unfold screen_newline. cbn [cursor_row set_cursor_row]. case_match eqn:Hlt.
  - apply Z.ltb_lt in Hlt. split; cbn; [done|lia|done].
  - split; [by apply length_scrolled|done|done].
Qed.

Lemma screen_put_ok c s : screen_ok s → screen_ok (screen_put c s).
Proof.
  intros [Hl Hr Hc]. unfold screen_put. case_match; [by apply screen_newline_ok|].
  cbn [cursor_col set_vga_cells]. destruct (cursor_col s + 1 <? VGA_WIDTH) eqn:Hlt.
  - apply Z.ltb_lt in Hlt. split; cbn; [by rewrite length_insert|done|lia].
  - apply screen_newline_ok; cbn; [by rewrite length_insert|done].
Qed.

Lemma screen_put_stray c s : vga_stray (screen_put c s) = vga_stray s.
Proof. unfold screen_put, screen_newline. cbn. repeat (case_match; try done). Qed.

(** *** The loops of [scroll] *)

(** Only the VGA statics differ. *)
Definition at_vga (v : vga_state) (k : kernel) : kernel := upd_vga_st (λ _, v) k.

Lemma at_vga_id k : at_vga (vga_st k) k = k.
Proof. by destruct k. Qed.

Lemma on_screen_true i : 0 ≤ i < VGA_WIDTH * VGA_HEIGHT → on_screen i = true.
Proof. intros [? ?]. unfold on_screen. by rewrite (proj2 (Z.leb_le _ _)), (proj2 (Z.ltb_lt _ _)). Qed.

Lemma wp_poke i v s (Q : () → kernel → Prop) k :
  0 ≤ i < VGA_WIDTH * VGA_HEIGHT →
  Q tt (at_vga (set_vga_cells (<[Z.to_nat i := v]> (vga_cells s)) s) k) → wp (vga_poke i v) Q (at_vga s k).
Proof. intros Hi HQ. unfold vga_poke. rewrite wp_modify. unfold at_vga, upd_vga_st at 1. cbn. by rewrite on_screen_true. Qed.

Definition cell (s : vga_state) (i : Z) : Z := default 0 (vga_cells s !! Z.to_nat i).

(** A loop that fills the cells from [lo] on with [f]. *)
Lemma fill_cells (f : Z → Z) (body : Z → K ()) base n s (Q : () → kernel → Prop) k :
  0 ≤ base → base + Z.of_nat n ≤ Z.of_nat (length (vga_cells s)) →
  (∀ i s' Q', 0 ≤ i < Z.of_nat n → length (vga_cells s') = length (vga_cells s) →
     (∀ j, base + i ≤ j < Z.of_nat (length (vga_cells s)) → cell s' j = cell s j) →
     (∃ cs, s' = set_vga_cells cs s) →
     Q' tt (at_vga (set_vga_cells (<[Z.to_nat (base + i) := f i]> (vga_cells s')) s') k) →
     wp (body i) Q' (at_vga s' k)) →
  (∀ cs, length cs = length (vga_cells s) →
     (∀ j, 0 ≤ j < Z.of_nat (length (vga_cells s)) →
        default 0 (cs !! Z.to_nat j) = if decide (base ≤ j < base + Z.of_nat n) then f (j - base) else cell s j) →
     Q tt (at_vga (set_vga_cells cs s) k)) →
  wp (for_range n 0 body) Q (at_vga s k).
Proof.
  intros Hb Hn Hbody HQ.
  apply (wp_for_range (λ i k', ∃ cs, k' = at_vga (set_vga_cells cs s) k ∧ length cs = length (vga_cells s) ∧
    ∀ j, 0 ≤ j < Z.of_nat (length (vga_cells s)) →
      default 0 (cs !! Z.to_nat j) = if decide (base ≤ j < base + i) then f (j - base) else cell s j)).
  - exists (vga_cells s). split_and!; [by destruct s|done|]. intros j Hj. by rewrite decide_False by lia.
  - intros i k' Hi (cs & -> & Hl & Hcs). apply Hbody; [lia|done| |by eexists|].
    + intros j Hj. unfold cell at 1. cbn. rewrite Hcs by lia. by rewrite decide_False by lia.
    + exists (<[Z.to_nat (base + i) := f i]> cs). split_and!; [done|by rewrite length_insert|].
      intros j Hj. destruct (decide (j = base + i)) as [->|Hne].
      * rewrite list_lookup_insert_eq by lia. cbn. rewrite decide_True by lia. f_equal. lia.
      * rewrite list_lookup_insert_ne by lia. rewrite Hcs by done.
        destruct (decide (base ≤ j < base + i)); [by rewrite decide_True by lia|by rewrite decide_False by lia].
  - intros k' (cs & -> & Hl & Hcs). by apply HQ.
Qed.

Lemma scroll_rep s (Q : () → kernel → Prop) k :
  length (vga_cells s) = 2000%nat → Q tt (at_vga (screen_scroll s) k) → wp scroll Q (at_vga s k).
Proof.
  intros Hl HQ. unfold scroll. rewrite wp_bind.
  apply (fill_cells (λ i, cell s (i + VGA_WIDTH)) _ 0); [done|by rewrite Hl| |].
  { intros i s' Q' Hi Hl' Hs' _ HQ'. unfold vga_peek, vga_g. wp_go.
    change (Z.of_nat (Z.to_nat ((VGA_HEIGHT - 1) * VGA_WIDTH))) with 1920 in Hi.
    rewrite on_screen_true by (unfold VGA_WIDTH, VGA_HEIGHT; lia). apply wp_poke; [unfold VGA_WIDTH, VGA_HEIGHT; lia|].
    assert (default 0 (vga_cells s' !! Z.to_nat (i + VGA_WIDTH)) = cell s (i + VGA_WIDTH)) as Heq.
    { apply Hs'. unfold VGA_WIDTH. rewrite Hl. lia. }
    cbn [at_vga upd_vga_st vga_st]. rewrite Heq. exact HQ'. }
  change (Z.of_nat (Z.to_nat ((VGA_HEIGHT - 1) * VGA_WIDTH))) with 1920.
  intros cs Hlc Hcs. rewrite Hl in Hlc, Hcs. unfold vga_g. wp_go. cbn [at_vga upd_vga_st vga_st set_vga_cells color].
  apply (fill_cells (λ _, blank s) _ 1920); [done|cbn; by rewrite Hlc| |].
  { intros i s' Q' Hi _ _ _ HQ'. change (Z.of_nat (Z.to_nat VGA_WIDTH)) with 80 in Hi.
    apply wp_poke; [unfold VGA_WIDTH, VGA_HEIGHT; lia|done]. }
  intros cs' Hlc' Hcs'. cbn [set_vga_cells vga_cells] in Hlc', Hcs'. rewrite Hlc in Hlc', Hcs'.
  unfold set_row. rewrite wp_modify.
  enough (drop 80 (vga_cells s) ++ replicate 80 (blank s) = cs') as Heq
    by (unfold screen_scroll in HQ; rewrite Heq in HQ; exact HQ).
  apply list_eq_same_length with 2000%nat; [done|by apply (length_scrolled s)|].
  intros i x y Hi Hx Hy. specialize (Hcs' (Z.of_nat i) ltac:(lia)). specialize (Hcs (Z.of_nat i) ltac:(lia)).
  unfold cell in Hcs', Hcs. cbn [vga_cells set_vga_cells] in Hcs', Hcs. rewrite Nat2Z.id in Hcs', Hcs.
  rewrite Hy in Hcs'. cbn [default from_option id] in Hcs'. subst y. destruct (decide (i < 1920)%nat).
  - rewrite decide_False by lia. rewrite Hcs, decide_True by lia.
    rewrite lookup_app_l, lookup_drop in Hx by (rewrite length_drop; lia).
    replace (Z.to_nat (Z.of_nat i - 0 + VGA_WIDTH)) with (80 + i)%nat by (unfold VGA_WIDTH; lia). by rewrite Hx.
  - rewrite decide_True by (unfold VGA_WIDTH; lia).
    rewrite lookup_app_r, length_drop, Hl in Hx by (rewrite length_drop; lia).
    by apply lookup_replicate in Hx as [-> _].
Qed.

Definition same_vga (k k' : kernel) : Prop := vga_st k' = vga_st k.
#[export] Instance same_vga_preorder : PreOrder same_vga.
Proof. split; [done|]. unfold same_vga. intros k1 k2 k3. congruence. Qed.
#[export] Instance upd_serial_vga f : Preserves same_vga (modify (upd_serial_st f)).
Proof. by intros k. Qed.
#[export] Instance inb_vga p : Preserves same_vga (inb p).
Proof. by intros k. Qed.
#[export] Instance outb_vga p v : Preserves same_vga (outb p v).
Proof. by apply outb_preserves. Qed.
#[export] Instance tx_vga c : Preserves same_vga (tx c).
Proof. unfold tx, tx_wait. apply _. Qed.
#[export] Instance serial_write_char_vga_op c : Preserves same_vga (serial_write_char c).
Proof. unfold serial_write_char, serial_g. apply _. Qed.

(** The UART does not touch the screen. *)
Lemma serial_write_char_vga c k : wp (serial_write_char c) (λ _ k', vga_st k' = vga_st k) k.
Proof.
  pose proof (wp_preserves same_vga (serial_write_char c) _ k (serial_write_char_console c k)) as H.
  eapply wp_mono; [exact H|]. by intros [] k' [_ ?].
Qed.

(** C31: [putchar] implements the screen model exactly -- placing the character,
    wrapping at column 80, scrolling at row 25, newline.  The cursor stays on the
    screen, and nothing is stored through [vga] outside the 80*25 cells: the
    stores that would miss them, [vga_stray], remain what they were. *)
Theorem putchar_screen c k :
  screen_ok (vga_st k) →
  wp (putchar c) (λ _ k', vga_st k' = screen_put c (vga_st k) ∧ screen_ok (vga_st k') ∧
    vga_stray (vga_st k') = vga_stray (vga_st k) ∧ console_only k k') k.
Proof.
  intros Hok.
  assert (wp (putchar c) (λ _ k', vga_st k' = screen_put c (vga_st k)) k) as Hwp.
  { unfold putchar. rewrite wp_bind.
    eapply wp_mono; [apply (serial_write_char_vga c)|]. cbn beta. intros [] k1 Hv. rewrite <- Hv in *.
    set (s := vga_st k1) in *. rewrite <- (at_vga_id k1). fold s. clearbody s. destruct Hok as [Hl Hr Hc].
    assert (∀ s' Q', length (vga_cells s') = 2000%nat → 0 ≤ cursor_row s' < VGA_HEIGHT →
      Q' tt (at_vga (screen_newline s') k1) →
      wp (when (VGA_HEIGHT <=? cursor_row s' + 1) scroll) Q'
        (at_vga (set_cursor_row (cursor_row s' + 1) (set_cursor_col 0 s')) k1)) as Hnl.
    { intros s' Q' Hl' Hr' HQ'. unfold screen_newline in HQ'. cbn [cursor_row set_cursor_row set_cursor_col] in HQ'.
      destruct (cursor_row s' + 1 <? VGA_HEIGHT) eqn:Hlt; rewrite Z.leb_antisym, Hlt; cbn [negb when]; [done|].
      by apply scroll_rep. }
    unfold vga_g, set_col, set_row. wp_go. cbn [at_vga upd_vga_st vga_st]. unfold screen_put.
    assert (cursor_row s +u 1 = cursor_row s + 1) as Hu by (apply u32_small; unfold VGA_HEIGHT in *; lia).
    assert (cursor_col s +u 1 = cursor_col s + 1) as Hu' by (apply u32_small; unfold VGA_WIDTH in *; lia).
    rewrite Hu, Hu'. destruct (c =? 10).
    - wp_go. cbn [at_vga upd_vga_st vga_st set_cursor_row cursor_row]. by apply Hnl.
    - rewrite wp_bind, wp_gets. cbn [at_vga upd_vga_st vga_st]. rewrite wp_bind.
      apply (wp_poke (cursor_row s * VGA_WIDTH + cursor_col s)); [unfold VGA_WIDTH, VGA_HEIGHT in *; lia|]. set (s1 := set_vga_cells _ s).
      change (cursor_col s) with (cursor_col s1). change (cursor_row s) with (cursor_row s1).
      change (0 ≤ cursor_row s1 < VGA_HEIGHT) in Hr.
      assert (length (vga_cells s1) = 2000%nat) as Hl1 by (cbn; by rewrite length_insert).
      clearbody s1. wp_go. unfold when at 1. rewrite Z.leb_antisym. destruct (cursor_col s1 + 1 <? VGA_WIDTH) eqn:Hlt; cbn [negb].
      + wp_go. cbn [at_vga upd_vga_st vga_st set_cursor_col cursor_row].
        by rewrite Z.leb_antisym, (proj2 (Z.ltb_lt _ _)) by apply Hr.
      + wp_go. cbn [at_vga upd_vga_st vga_st set_cursor_row cursor_row set_cursor_col].
        by apply (Hnl s1). }
  eapply wp_mono; [eapply wp_conj; [exact Hwp|apply putchar_console]|].
  intros [] k' [Hv Hc]. split_and!; [done| | |done]; rewrite Hv; [by apply screen_put_ok|apply screen_put_stray].
Qed.

Lemma putchar_screen_witness :
  wp (putchar 10) (λ _ k', vga_st k' = screen_put 10 (vga_st cold) ∧ screen_ok (vga_st k') ∧
    vga_stray (vga_st k') = vga_stray (vga_st cold) ∧ console_only cold k') cold.
Proof. apply putchar_screen. split; closed. Defined.

(** ** The UART *)
Definition status_read (v : Z) : io_event := Inb (COM1 + REG_LSR) v.
Definition tx_ready (v : Z) : bool := negb (Z.land v LSR_THR_EMPTY =? 0).

(** C32: sending a byte ends whatever the UART answers: it reads the line status
    at most 100,001 times; it writes the byte, once, exactly if the last answer
    said that the transmitter is empty, and then counts it; a dead UART costs
    exactly 100,001 reads and nothing is written. *)
Theorem tx_bounded c k :
  wp (tx c) (λ _ k', ∃ vs, Z.of_nat (length vs) ≤ TX_SPIN_LIMIT + 1 ∧
    ((∃ v vs', vs = v :: vs' ∧ tx_ready v = true ∧ Forall (λ v, tx_ready v = false) vs' ∧
        io_log (mach k') = Outb (COM1 + REG_DATA) (u8 c) :: (status_read <$> vs) ++ io_log (mach k) ∧
        tx_count (serial_st k') = tx_count (serial_st k) +u 1) ∨
     (Z.of_nat (length vs) = TX_SPIN_LIMIT + 1 ∧ Forall (λ v, tx_ready v = false) vs ∧
        io_log (mach k') = (status_read <$> vs) ++ io_log (mach k) ∧ serial_st k' = serial_st k))) k.
Proof.
  unfold tx. rewrite wp_bind.
  apply wp_while_fuel with (variant := λ n _, Z.to_nat (TX_SPIN_LIMIT + 1 - n))
    (I := λ n k', n ≤ TX_SPIN_LIMIT ∧ serial_st k' = serial_st k ∧
      ∃ vs, Z.of_nat (length vs) = n ∧ Forall (λ v, tx_ready v = false) vs ∧
        io_log (mach k') = (status_read <$> vs) ++ io_log (mach k)).
  - split; [done|]. split; [done|]. by exists [].
  - unfold TX_SPIN_LIMIT. lia.
  - intros n k1 (Hn & Hs & vs & Hlen & Hvs & Hlog). unfold tx_wait, inb. rewrite wp_bind. unfold wp at 1.
    set (v := u8 _). set (k2 := upd_mach _ k1).
    assert (io_log (mach k2) = (status_read <$> (v :: vs)) ++ io_log (mach k)) as Hlog2 by (cbn; by rewrite <- Hlog).
    assert (serial_st k2 = serial_st k) as Hs2 by done. clearbody k2.
    change (negb (Z.land v LSR_THR_EMPTY =? 0)) with (tx_ready v). destruct (tx_ready v) eqn:Hv.
    + rewrite wp_ret, wp_bind, outb_writes by done. rewrite !wp_modify. exists (v :: vs).
      split; [cbn [length]; lia|]. left. exists v, vs. split_and!; try done.
      * cbn [upd_serial_st upd_mach mach log_io io_log]. rewrite Hlog2. f_equal. f_equal. apply u8_small, u8_range.
      * cbn. by rewrite Hs2.
    + destruct (TX_SPIN_LIMIT <? n + 1) eqn:Hlim.
      * apply Z.ltb_lt in Hlim. rewrite wp_ret, wp_ret. exists (v :: vs). cbn [length] in *.
        split; [lia|]. right. split_and!; [lia|by apply Forall_cons|done|done].
      * apply Z.ltb_ge in Hlim. rewrite wp_ret. split; [|lia]. split; [done|]. split; [done|].
        exists (v :: vs). split_and!; [cbn [length]; lia|by apply Forall_cons|done].
Qed.

(** ** Numbers, printed and parsed *)

(** The characters [print_int] prints. *)
Definition int_chars (n : Z) : cstr :=
  if n =? 0 then [48]
  else (if n <? 0 then [45] else []) ++ rev (digits_loop 12 [] (if n <? 0 then s32 (- n) else n)).

(** [ds] are the digits of [n], last one first, and [atoi] reads them back. *)
Record digits_of (n : Z) (ds : cstr) : Prop := {
  dg_digits : Forall (λ c, is_digit c = true) ds;
  dg_some : 0 < n → ds ≠ [];
  dg_atoi rest : 0 ≤ n → atoi_loop (rev ds ++ rest) 0 = atoi_loop rest n
}.

Lemma digits_none n : n ≤ 0 → digits_of n [].
Proof. intros Hn. split; [done|lia|]. intros rest ?. by assert (n = 0) as -> by lia. Qed.

Lemma is_digit_val d : 0 ≤ d < 10 → is_digit (48 + d) = true.
Proof. intros Hd. unfold is_digit. apply andb_true_intro. split; apply Z.leb_le; lia. Qed.

Lemma digits_spec fuel buf n : n < 10 ^ Z.of_nat fuel → n < 0x80000000 →
  ∃ ds, digits_loop fuel buf n = buf ++ ds ∧ digits_of n ds.
Proof.
  revert buf n. induction fuel as [|fuel IH]; intros buf n Hn Hmax; cbn [digits_loop].
  { exists []. rewrite app_nil_r. split; [done|]. apply digits_none. change (10 ^ Z.of_nat 0) with 1 in Hn. lia. }
  destruct (0 <? n) eqn:Hpos.
  2:{ apply Z.ltb_ge in Hpos. exists []. rewrite app_nil_r. split; [done|by apply digits_none]. }
  apply Z.ltb_lt in Hpos. rewrite Nat2Z.inj_succ, Z.pow_succ_r in Hn by lia.
  rewrite Z.quot_div_nonneg, Z.rem_mod_nonneg by lia.
  destruct (IH (buf ++ [48 + n mod 10]) (n / 10)) as (ds & -> & [Hdig _ Hat]); [zlia|zlia|].
  assert (is_digit (48 + n mod 10) = true) as Hd by (apply is_digit_val; zlia).
  exists ((48 + n mod 10) :: ds). rewrite <- app_assoc. split; [done|]. split; [by apply Forall_cons|done|].
  intros rest _. cbn [rev]. rewrite <- app_assoc, Hat by zlia. cbn [app atoi_loop]. rewrite Hd.
  f_equal. rewrite (s32_small (n / 10 * 10)) by zlia. rewrite s32_small by zlia. zlia.
Qed.

Lemma bind_ret {A} (m : K A) k : bind m ret k = m k.
Proof. unfold bind. by destruct (m k). Qed.

Lemma bind_pointwise {A B} (m m' : K A) (f f' : A → K B) k :
  m k = m' k → (∀ a k, f a k = f' a k) → bind m f k = bind m' f' k.
Proof. intros Hm Hf. unfold bind. rewrite Hm. by destruct (m' k). Qed.

(** Printing the characters of an array is printing the string. *)
Lemma each_print l k : Forall (λ c, c ≠ 0) l → each putchar l k = print l k.
Proof.
  unfold print. intros Hl. revert k. induction Hl as [|c l Hc _ IH]; intros k; [done|].
  cbn [each str_iter]. apply Z.eqb_neq in Hc. rewrite Hc. by apply bind_pointwise.
Qed.

Lemma digits_nonzero ds : Forall (λ c, is_digit c = true) ds → Forall (λ c, c ≠ 0) (rev ds).
Proof.
  intros H. apply Forall_rev. eapply Forall_impl; [exact H|]. cbn. intros c Hc ->. discriminate.
Qed.

Lemma print_one c k : c ≠ 0 → print [c] k = putchar c k.
Proof.
  intros Hc. unfold print. cbn [str_iter]. apply Z.eqb_neq in Hc. rewrite Hc. unfold bind, ret.
  by destruct (putchar c k) as [[] ?| | | |].
Qed.

Lemma print_int_chars n k : -0x80000000 ≤ n < 0x80000000 → print_int n k = print (int_chars n) k.
Proof.
  intros Hn. unfold print_int, int_chars. rewrite (s32_small n) by lia.
  destruct (n =? 0) eqn:Hz; [by rewrite print_one|]. apply Z.eqb_neq in Hz. cbv zeta.
  destruct (digits_spec 12 [] (if n <? 0 then s32 (- n) else n)) as (ds & Hds & [Hdig _ _]).
  { change (10 ^ Z.of_nat 12) with 1000000000000. case_match; [|lia]. pose proof (Z.mod_pos_bound (- n + 0x80000000) 0x100000000). unfold s32. lia. }
  { case_match; [|lia]. unfold s32. zlia. }
  cbn [app] in Hds. rewrite Hds. apply digits_nonzero in Hdig. unfold when.
  destruct (n <? 0).
  - cbn [app]. unfold print. cbn [str_iter Z.eqb Pos.eqb]. apply bind_pointwise; [done|]. intros _ k'. by apply each_print.
  - cbn [app]. unfold bind at 1, ret at 1. by apply each_print.
Qed.

(** The sign and the digits. *)
Lemma int_chars_shape n : -0x80000000 < n < 0x80000000 →
  ∃ ds, int_chars n = (if n <? 0 then [45] else []) ++ ds ∧ Forall (λ c, is_digit c = true) ds ∧ ds ≠ [] ∧
    ∀ rest, atoi_loop (ds ++ rest) 0 = atoi_loop rest (Z.abs n).
Proof.
  intros Hn. unfold int_chars. destruct (Z.eqb_spec n 0) as [->|Hz]; [by exists [48]; repeat constructor|].
  destruct (digits_spec 12 [] (Z.abs n)) as (ds & Hds & [Hdig Hne Hat]).
  { change (10 ^ Z.of_nat 12) with 1000000000000. lia. }
  { lia. }
  exists (rev ds). split_and!.
  - f_equal. change (rev ds) with (rev ([] ++ ds)). rewrite <- Hds. do 2 f_equal. destruct (n <? 0) eqn:Hneg; [rewrite s32_small|]; lia.
  - by apply Forall_rev.
  - intros Hrev. apply (f_equal (@rev Z)) in Hrev. rewrite rev_involutive in Hrev. by apply Hne in Hrev; [|lia].
  - intros rest. apply Hat. lia.
Qed.

Lemma digits_head ds rest : Forall (λ c, is_digit c = true) ds → ds ≠ [] → 48 ≤ deref (ds ++ rest) ≤ 57.
Proof.
  intros Hds Hne. destruct ds as [|d ds]; [done|]. apply Forall_cons in Hds as [Hd _]. unfold is_digit in Hd.
  cbn. lia.
Qed.

(** [atoi] stops after the digits. *)
Lemma atoi_int_chars n rest : -0x80000000 < n < 0x80000000 → is_digit (deref rest) = false →
  atoi (int_chars n ++ rest) = n.
Proof.
  intros Hn Hrest. destruct (int_chars_shape n Hn) as (ds & -> & Hdig & Hne & Hat).
  assert (∀ m, atoi_loop rest m = m) as Hstop by (intros m; destruct rest as [|c rest]; cbn in *; by rewrite ?Hrest).
  rewrite <- app_assoc. unfold atoi. pose proof (digits_head ds rest Hdig Hne) as Hd.
  destruct (n <? 0) eqn:Hneg; cbn [app deref head default from_option id tail].
  - rewrite Hat, Hstop. cbn [Z.eqb Pos.eqb]. rewrite s32_small; lia.
  - assert (deref (ds ++ rest) =? 45 = false) as -> by lia. rewrite Hat, Hstop, s32_small; lia.
Qed.

(** C38: what [print_int] prints for an [int], [atoi] reads back as the same
    number -- for every [int] but the smallest: negating INT_MIN overflows
    (wraps, as the machine does) and only the minus sign comes out. *)
Theorem print_int_atoi :
  (∀ n, -0x80000000 < n < 0x80000000 →
     ∃ s, (∀ k, print_int n k = print s k) ∧ atoi s = n) ∧
  (∀ k, print_int (-0x80000000) k = print (lit "-") k).
Proof.
  split.
  - intros n Hn. exists (int_chars n). split.
    2:{ rewrite <- (app_nil_r (int_chars n)). by apply atoi_int_chars. }
    intros k. apply print_int_chars. lia.
  - intros k. by rewrite print_int_chars.
Qed.

Lemma print_int_atoi_witness : ∃ s, (∀ k, print_int (-42) k = print s k) ∧ atoi s = -42.
Proof. apply print_int_atoi. lia. Defined.

(** The digit [print_hex] prints for a nibble. *)
Definition hexc (d : Z) : Z := default 0 (hex_chars !! Z.to_nat d).

Lemma hexc_digit d : 0 ≤ d < 16 → hex_digit (hexc d) = Some d ∧ hexc d ≠ 0.
Proof.
  intros Hd. assert (∃ m : nat, (m < 16)%nat ∧ d = Z.of_nat m) as (m & Hm & ->) by (exists (Z.to_nat d); lia).
  do 16 (destruct m as [|m]; [by split|]). lia.
Qed.

Definition hex_nibble (n i : Z) : Z := Z.land (Z.shiftr n (28 - 4 * i)) 0xF.

Lemma hex_nibble_eq n i : 0 ≤ n < 0x100000000 → 0 ≤ i < 8 → hex_nibble n i = (n / 16 ^ (7 - i)) mod 16.
Proof.
  intros Hn Hi. unfold hex_nibble. rewrite Z.shiftr_div_pow2 by lia. change 0xF with (Z.ones 4). rewrite Z.land_ones by lia.
  replace (28 - 4 * i) with (4 * (7 - i)) by lia. rewrite Z.pow_mul_r by lia. done.
Qed.

Lemma hex_loop_step rest m : 0 ≤ m < 0x100000000 →
  hex_loop (hexc (m mod 16) :: rest) (m / 16) = hex_loop rest m.
Proof.
  intros Hm. destruct (hexc_digit (m mod 16)) as [Hd Hz]; [zlia|]. cbn [hex_loop]. apply Z.eqb_neq in Hz.
  rewrite Hz, Hd. f_equal. rewrite (u32_small (m / 16 * 16)) by zlia. rewrite u32_small by zlia. zlia.
Qed.

(** The characters from nibble [i] on, read after the number they follow. *)
Lemma hex_loop_tail n m i : 0 ≤ n < 0x100000000 → Z.of_nat m + i = 8 → 0 ≤ i →
  hex_loop ((λ j, hexc (hex_nibble n j)) <$> seqZ i (Z.of_nat m)) (n / 16 ^ (8 - i)) = n.
Proof.
  intros Hn. revert i. induction m as [|m IH]; intros i Hi Hi0.
  { replace i with 8 by lia. cbn. by rewrite Z.div_1_r. }
  rewrite seqZ_cons, fmap_cons by lia. rewrite hex_nibble_eq by lia.
  replace (n / 16 ^ (8 - i)) with (n / 16 ^ (7 - i) / 16).
  2:{ replace (8 - i) with (7 - i + 1) by lia. rewrite Z.pow_add_r, Z.div_div by lia. done. }
  rewrite hex_loop_step.
  - replace (Z.pred (Z.of_nat (S m))) with (Z.of_nat m) by lia. specialize (IH (i + 1) ltac:(lia) ltac:(lia)).
    replace (8 - (i + 1)) with (7 - i) in IH by lia. exact IH.
  - split; [apply Z.div_pos; lia|]. apply Z.le_lt_trans with n; [|lia]. apply Z.div_le_upper_bound; [lia|].
    pose proof (Z.pow_pos_nonneg 16 (7 - i)). nia.
Qed.

Lemma for_range_print f n lo k : (∀ i, f i ≠ 0) →
  for_range n lo (λ i, putchar (f i)) k = print (f <$> seqZ lo (Z.of_nat n)) k.
Proof.
  intros Hf. unfold print. revert lo k. induction n as [|n IH]; intros lo k; [done|].
  rewrite seqZ_cons, fmap_cons by lia. replace (Z.pred (Z.of_nat (S n))) with (Z.of_nat n) by lia.
  cbn [for_range str_iter]. pose proof (Hf lo) as Hz. apply Z.eqb_neq in Hz. rewrite Hz. by apply bind_pointwise.
Qed.

(** The characters [print_hex] prints. *)
Definition hex_string (n : Z) : cstr := lit "0x" ++ ((λ i, hexc (hex_nibble n i)) <$> seqZ 0 8).

Lemma hex_nibble_range n i : 0 ≤ hex_nibble n i < 16.
Proof. unfold hex_nibble. change 0xF with (Z.ones 4). rewrite Z.land_ones by lia. apply Z.mod_pos_bound. lia. Qed.

Lemma print_cons c s k : c ≠ 0 → print (c :: s) k = (putchar c ;;; print s) k.
Proof. intros Hc. unfold print. cbn [str_iter]. apply Z.eqb_neq in Hc. by rewrite Hc. Qed.

Lemma print_app s1 s2 k : Forall (λ c, c ≠ 0) s1 → print (s1 ++ s2) k = (print s1 ;;; print s2) k.
Proof.
  intros Hs. revert k. induction Hs as [|c s1 Hc _ IH]; intros k; [done|].
  cbn [app]. unfold bind at 1. rewrite !print_cons by done. unfold bind.
  destruct (putchar c k) as [[] k'| | | |]; [|done..]. apply IH.
Qed.

Lemma print_hex_chars n k : print_hex n k = print (hex_string n) k.
Proof.
  unfold hex_string. rewrite print_app by (repeat (apply Forall_cons; split; [done|]); done).
  apply bind_pointwise; [done|]. intros _ k'.
  apply (for_range_print (λ i, hexc (hex_nibble n i)) 8). intros i. apply hexc_digit, hex_nibble_range.
Qed.

Lemma hex_string_nonzero n : Forall (λ c, c ≠ 0) (hex_string n).
Proof.
  unfold hex_string. repeat (apply Forall_cons; split; [done|]).
  apply Forall_fmap, Forall_true. intros i. apply hexc_digit, hex_nibble_range.
Qed.

(** What [print_hex] prints for a 32-bit word -- "0x" and eight capital
    digits -- [atoi_hex] reads back as the same word. *)
Theorem print_hex_atoi_hex n :
  0 ≤ n < 0x100000000 →
  ∃ s, (∀ k, print_hex n k = print s k) ∧ length s = 10%nat ∧ atoi_hex s = n.
Proof.
  intros Hn. exists (hex_string n). split_and!; [intros k; apply print_hex_chars|done|].
  transitivity (hex_loop ((λ i, hexc (hex_nibble n i)) <$> seqZ 0 8) 0); [done|].
  pose proof (hex_loop_tail n 8 0 Hn eq_refl ltac:(done)) as Ht. change (n / 16 ^ (8 - 0)) with (n / 0x100000000) in Ht.
  rewrite Z.div_small in Ht by done. exact Ht.
Qed.

Lemma print_hex_atoi_hex_witness :
  0 ≤ 0xB8000 < 0x100000000 ∧
  ∃ s, (∀ k, print_hex 0xB8000 k = print s k) ∧ length s = 10%nat ∧ atoi_hex s = 0xB8000.
Proof. split; [done|]. by apply print_hex_atoi_hex. Defined.
