(* ===== verification/InputProps.v ===== *)
(** * Input: the properties

    The ring buffer between the interrupt handlers and the kernel task
    (src/shell.c) as a queue, also when the two run interleaved, and what the
    keyboard (src/keyboard.c) and the serial port (src/serial.c) put into it. *)
From stdpp Require Import prelude gmap list strings.
From Stdlib Require Import Lia ZArith.
From S2P Require Import Prelude Machine State Util Console Memory Pmm Paging Heap HeapSpec.
From S2P Require Import HeapProof HeapMap Frames Alloc Task TaskProof Input Timer Shell Booted.

#[local] Open Scope Z_scope.

(** ** The ring as a queue *)
Record ring_wf (s : shell_state) : Prop := {
  rg_len : length (ring s) = 256%nat;
  rg_head : 0 ≤ ring_head s < RING_SIZE;
  rg_tail : 0 ≤ ring_tail s < RING_SIZE
}.

Definition ring_count (s : shell_state) : Z := (ring_head s - ring_tail s) mod RING_SIZE.
Definition ring_at (s : shell_state) (i : Z) : Z :=
  default 0 (ring s !! Z.to_nat ((ring_tail s + i) mod RING_SIZE)).
(** The characters waiting, oldest first. *)
Definition ring_chars (s : shell_state) : list Z := ring_at s <$> seqZ 0 (ring_count s).

Lemma length_ring_chars s : Z.of_nat (length (ring_chars s)) = ring_count s.
Proof.
  unfold ring_chars. rewrite length_fmap, length_seqZ. pose proof (Z.mod_pos_bound (ring_head s - ring_tail s) RING_SIZE).
  unfold ring_count, RING_SIZE in *. lia.
Qed.

(** A queue of at most 255 characters that drops what does not fit. *)
Definition enqueue (q : list Z) (c : Z) : list Z :=
  if Z.of_nat (length q) <? RING_SIZE - 1 then q ++ [c] else q.

Definition pushed (c : Z) (s : shell_state) : shell_state :=
  set_ring_head ((ring_head s + 1) mod RING_SIZE) (set_ring (<[Z.to_nat (ring_head s) := c]> (ring s)) s).

Lemma pushed_wf c s : ring_wf s → ring_wf (pushed c s).
Proof.
  intros [Hl Hh Ht]. split; cbn; [by rewrite length_insert| |done]. apply Z.mod_pos_bound. done.
Qed.

Lemma pushed_chars c s : ring_wf s → ring_count s < RING_SIZE - 1 → ring_chars (pushed c s) = ring_chars s ++ [c].
Proof.
  intros [Hl Hh Ht] Hroom. unfold ring_chars. unfold ring_count, RING_SIZE in *.
  assert (ring_count (pushed c s) = (ring_head s - ring_tail s) mod 256 + 1) as Hc.
  { unfold ring_count, RING_SIZE. cbn. unfold RING_SIZE. zlia. }
  fold (ring_count (pushed c s)). unfold ring_count, RING_SIZE in Hc. cbn in *. unfold RING_SIZE in *. rewrite Hc.
  rewrite (seqZ_app _ _ 1), fmap_app by zlia.
  f_equal.
  - apply list_fmap_ext. intros i x Hx%lookup_seqZ. unfold ring_at. cbn. unfold RING_SIZE.
    rewrite list_lookup_insert_ne by zlia. done.
  - rewrite seqZ_cons, seqZ_nil by lia. cbn [fmap list_fmap]. f_equal. unfold ring_at. cbn. unfold RING_SIZE.
    assert ((ring_tail s + (0 + (ring_head s - ring_tail s) mod 256)) mod 256 = ring_head s) as Hi by zlia.
    cbn in Hi. by rewrite Hi, list_lookup_insert_eq by lia.
Qed.

Definition popped (s : shell_state) : shell_state := set_ring_tail ((ring_tail s + 1) mod RING_SIZE) s.

Lemma popped_wf s : ring_wf s → ring_wf (popped s).
Proof. intros [Hl Hh Ht]. split; cbn; [done|done|]. apply Z.mod_pos_bound. done. Qed.

Lemma popped_chars s : ring_wf s → ring_tail s ≠ ring_head s →
  ring_chars s = ring_at s 0 :: ring_chars (popped s).
Proof.
  intros [Hl Hh Ht] Hne. unfold ring_chars, ring_count. cbn. unfold RING_SIZE in *.
  replace ((ring_head s - (ring_tail s + 1) mod 256) mod 256) with ((ring_head s - ring_tail s) mod 256 - 1) by zlia.
  rewrite seqZ_cons, fmap_cons by zlia. f_equal. rewrite <- (fmap_add_seqZ 1 0), <- list_fmap_compose.
  apply list_fmap_ext. intros i x Hx%lookup_seqZ. unfold ring_at. cbn. unfold RING_SIZE. do 3 f_equal. zlia.
Qed.

Lemma ring_empty s : ring_wf s → (ring_tail s = ring_head s ↔ ring_chars s = []).
Proof.
  intros Hwf. split.
  - intros Heq. apply nil_length_inv. pose proof (length_ring_chars s) as Hlen. unfold ring_count in Hlen.
    rewrite Heq, Z.sub_diag, Z.mod_0_l in Hlen by done. by apply (Nat2Z.inj _ 0).
  - intros Hnil. destruct (decide (ring_tail s = ring_head s)); [done|]. by rewrite popped_chars in Hnil.
Qed.

Lemma ring_at_first s : ring_wf s → ring_at s 0 = default 0 (ring s !! Z.to_nat (ring_tail s)).
Proof. intros [Hl Hh Ht]. unfold ring_at. by rewrite Z.add_0_r, Z.mod_small. Qed.

Lemma push_eq c k : ring_wf (shell_st k) →
  shell_push_char c k =
  Ok tt (if ring_count (shell_st k) <? RING_SIZE - 1 then upd_shell_st (pushed c) k else k).
Proof.
  intros [Hl Hh Ht]. set (s := shell_st k) in *. unfold RING_SIZE in *.
  assert ((ring_head s +u 1) mod 256 = (ring_head s + 1) mod 256) as Hu by (by rewrite u32_small by lia).
  change (shell_push_char c k) with
    ((if ((ring_head s +u 1) mod 256 =? ring_tail s) then ret tt
      else modify (upd_shell_st (λ s, set_ring (<[Z.to_nat (ring_head (shell_st k)) := c]> (ring s)) s)) ;;;
           modify (upd_shell_st (set_ring_head ((ring_head s +u 1) mod 256)))) k).
  rewrite Hu. unfold ring_count, RING_SIZE. case_match eqn:Hf; case_match eqn:Hr; try lia; try done.
  - apply Z.eqb_eq in Hf. apply Z.ltb_lt in Hr. zlia.
  - apply Z.eqb_neq in Hf. apply Z.ltb_ge in Hr. zlia.
Qed.

Lemma push_enqueue c s : ring_wf s →
  ring_chars (if ring_count s <? RING_SIZE - 1 then pushed c s else s) = enqueue (ring_chars s) c.
Proof.
  intros Hwf. unfold enqueue. rewrite length_ring_chars. case_match eqn:Hr; [|done].
  apply Z.ltb_lt in Hr. by apply pushed_chars.
Qed.

(** Only the ring differs. *)
Lemma push_rep c (Q : () → kernel → Prop) k : ring_wf (shell_st k) →
  (∀ s, ring_wf s → ring_chars s = enqueue (ring_chars (shell_st k)) c → Q tt (upd_shell_st (λ _, s) k)) →
  wp (shell_push_char c) Q k.
Proof.
  intros Hwf HQ. eapply wp_ok; [by apply push_eq|].
  replace (if ring_count (shell_st k) <? RING_SIZE - 1 then upd_shell_st (pushed c) k else k) with
    (upd_shell_st (λ _, if ring_count (shell_st k) <? RING_SIZE - 1 then pushed c (shell_st k) else shell_st k) k)
    by (case_match; by destruct k).
  apply HQ; [|by apply push_enqueue]. case_match; [by apply pushed_wf|done].
Qed.

(** ** Interrupts against the kernel task *)

(** The steps of one turn of [shell_poll], between which an interrupt may
    come; [poll_step] is their composition. *)
Definition ring_test : K bool :=
  t <- shell_g ring_tail ;; h <- shell_g ring_head ;; ret (negb (t =? h)).
Definition ring_read : K Z :=
  t <- shell_g ring_tail ;; shell_g (λ s, default 0 (ring s !! Z.to_nat t)).
Definition ring_advance : K () :=
  t <- shell_g ring_tail ;; modify (upd_shell_st (set_ring_tail ((t +u 1) mod RING_SIZE))).

Lemma poll_step_steps wait fuel k :
  poll_step wait fuel tt k =
  (more <- ring_test ;;
   if more : bool then c <- ring_read ;; ring_advance ;;; shell_input_char wait fuel c ;;; ret (inl tt)
   else ret (inr tt)) k.
Proof.
  unfold poll_step, ring_test, ring_read, ring_advance, shell_g, bind, gets, modify, ret.
  by destruct (ring_tail (shell_st k) =? ring_head (shell_st k)).
Qed.

Inductive consumer := Testing | Reading | Advancing (c : Z) | Handling (c : Z).
Definition in_flight (p : consumer) : list Z := match p with Handling c => [c] | _ => [] end.

Record ring_world := World {
  w_kernel : kernel;
  w_at : consumer;
  w_accepted : list Z;      (* the characters the queue took, in order *)
  w_handled : list Z        (* those the line editor got, in order *)
}.

Definition same_ring (k k' : kernel) : Prop :=
  ring (shell_st k') = ring (shell_st k) ∧ ring_head (shell_st k') = ring_head (shell_st k) ∧
  ring_tail (shell_st k') = ring_tail (shell_st k).

(** An interrupt handler pushes (with interrupts off, hence in one step), or
    the kernel task goes on. *)
Inductive ring_event : ring_world → ring_world → Prop :=
  | ev_push c k k' p acc h : shell_push_char c k = Ok tt k' →
      ring_event (World k p acc h)
        (World k' p (if ring_count (shell_st k) <? RING_SIZE - 1 then acc ++ [c] else acc) h)
  | ev_test b k k' acc h : ring_test k = Ok b k' →
      ring_event (World k Testing acc h) (World k' (if b then Reading else Testing) acc h)
  | ev_read c k k' acc h : ring_read k = Ok c k' →
      ring_event (World k Reading acc h) (World k' (Advancing c) acc h)
  | ev_advance c k k' acc h : ring_advance k = Ok tt k' →
      ring_event (World k (Advancing c) acc h) (World k' (Handling c) acc h)
  | ev_handle c k k' acc h : same_ring k k' →
      ring_event (World k (Handling c) acc h) (World k' Testing acc (h ++ [c])).

(** What the consumer knows while it is in the middle of a turn. *)
Definition consumer_ok (s : shell_state) (p : consumer) : Prop :=
  match p with
  | Reading => ring_chars s ≠ []
  | Advancing c => ∃ q, ring_chars s = c :: q
  | _ => True
  end.

Record ring_inv (w : ring_world) : Prop := {
  ri_wf : ring_wf (shell_st (w_kernel w));
  ri_pos : consumer_ok (shell_st (w_kernel w)) (w_at w);
  ri_fifo : w_accepted w = w_handled w ++ in_flight (w_at w) ++ ring_chars (shell_st (w_kernel w))
}.

Lemma enqueue_grows q c : ∃ l, enqueue q c = q ++ l.
Proof. unfold enqueue. case_match; [by eexists|]. exists []. by rewrite app_nil_r. Qed.

Lemma consumer_ok_push s s' p c : ring_chars s' = enqueue (ring_chars s) c → consumer_ok s p → consumer_ok s' p.
Proof.
  destruct (enqueue_grows (ring_chars s) c) as [l ->]. unfold consumer_ok. intros ->. destruct p; try done.
  - intros Hne [? _]%app_nil. done.
  - intros [q ->]. by exists (q ++ l).
Qed.

Lemma same_ring_chars k k' : same_ring k k' →
  ring_chars (shell_st k') = ring_chars (shell_st k) ∧ (ring_wf (shell_st k) → ring_wf (shell_st k')).
Proof.
  intros (Hr & Hh & Ht). split.
  - unfold ring_chars, ring_count. rewrite Hh, Ht. apply list_fmap_ext. intros. unfold ring_at. by rewrite Hr, Ht.
  - intros [? ? ?]. split; congruence.
Qed.

Lemma advance_eq k : ring_wf (shell_st k) → ring_advance k = Ok tt (upd_shell_st popped k).
Proof.
  intros [Hl Hh Ht]. unfold RING_SIZE in Ht. unfold ring_advance, shell_g, bind, gets, modify.
  rewrite u32_small by lia. done.
Qed.

Lemma ring_event_inv w w' : ring_inv w → ring_event w w' → ring_inv w'.
Proof.
  intros [Hwf Hpos Hfifo] Hev. destruct Hev as [c k k' p acc h Hk|b k k' acc h Hk|c k k' acc h Hk|c k k' acc h Hk|c k k' acc h Hk];
    cbn [w_kernel w_at w_accepted w_handled] in *.
  - rewrite push_eq in Hk by done. injection Hk as <-. pose proof (push_enqueue c _ Hwf) as Hq.
    assert (shell_st (if ring_count (shell_st k) <? RING_SIZE - 1 then upd_shell_st (pushed c) k else k) =
      if ring_count (shell_st k) <? RING_SIZE - 1 then pushed c (shell_st k) else shell_st k) as Hs by (by case_match).
    split; cbn [w_kernel w_at w_accepted w_handled]; rewrite Hs.
    + case_match; [by apply pushed_wf|done].
    + by eapply consumer_ok_push.
    + rewrite Hq. unfold enqueue. rewrite length_ring_chars. case_match; [|done].
      by rewrite Hfifo, <- !app_assoc.
  - injection Hk as <- <-. split; [done| |by destruct (_ =? _)]. cbn.
    destruct (_ =? _) eqn:Heq; cbn; [done|]. rewrite <- ring_empty by done. by apply Z.eqb_neq.
  - injection Hk as <- <-. split; [done| |done]. cbn.
    unfold consumer_ok in Hpos. rewrite <- ring_empty in Hpos by done.
    rewrite popped_chars, ring_at_first by done. by eexists.
  - rewrite advance_eq in Hk by done. injection Hk as <-. destruct Hpos as [q Hq].
    assert (ring_tail (shell_st k) ≠ ring_head (shell_st k)) as Hne by (rewrite ring_empty by done; by rewrite Hq).
    split; cbn; [by apply popped_wf|done|].
    rewrite popped_chars in Hq by done. injection Hq as <- _. rewrite Hfifo. by rewrite popped_chars by done.
  - destruct (same_ring_chars k k' Hk) as [Hc Hw]. split; cbn; [by apply Hw|done|].
    by rewrite Hc, Hfifo, <- app_assoc.
Qed.

(** C21: the ring is a lossless queue under every interleaving of the interrupt
    handlers with the steps of the consumer: whatever the schedule, the
    characters handed to the line editor, the one on its way and those still
    in the ring are, in order, exactly the characters the ring accepted --
    nothing is lost, duplicated, reordered or read before it is written. *)
Theorem ring_fifo k w :
  ring_wf (shell_st k) →
  rtc ring_event (World k Testing (ring_chars (shell_st k)) []) w →
  ring_wf (shell_st (w_kernel w)) ∧
  w_accepted w = w_handled w ++ in_flight (w_at w) ++ ring_chars (shell_st (w_kernel w)).
Proof.
  intros Hwf Hr.
  assert (ring_inv w) as [? ? ?].
  { eapply (rtc_ind_l (λ v, ring_inv v → ring_inv w)); [done| |exact Hr|by split].
    intros v v' Hev _ IH Hinv. apply IH. by eapply ring_event_inv. }
  done.
Qed.

Lemma ring_fifo_witness :
  ∃ w, ring_wf (shell_st (w_kernel w)) ∧ w_handled w = [104] ∧
    w_accepted w = w_handled w ++ in_flight (w_at w) ++ ring_chars (shell_st (w_kernel w)) ∧
    ring_chars (shell_st (w_kernel w)) = [105].
Proof.
  set (k1 := final (shell_push_char 104 cold)). set (k2 := final (shell_push_char 105 k1)).
  set (k3 := final (ring_advance k2)).
  assert (rtc ring_event (World cold Testing (ring_chars (shell_st cold)) []) (World k3 Testing [104; 105] [104])) as Hr.
  { eapply rtc_l; [apply (ev_push 104 _ k1); reflexivity|].
    eapply rtc_l; [apply (ev_test true _ k1); reflexivity|].
    eapply rtc_l; [apply (ev_read 104 _ k1); reflexivity|].
    eapply rtc_l; [apply (ev_push 105 _ k2); reflexivity|].
    eapply rtc_l; [apply (ev_advance 104 _ k3); reflexivity|].
    apply rtc_once. apply (ev_handle 104 k3 k3). done. }
  exists (World k3 Testing [104; 105] [104]).
  destruct (ring_fifo cold _ ltac:(split; closed) Hr) as [Hwf Hq].
  split_and!; [exact Hwf|done|exact Hq|closed].
Defined.

(** ** The keyboard *)

(** What the line editor has a use for: printable ASCII, backspace, tab and
    newline. *)
Definition typeable (c : Z) : bool := (c =? 8) || (c =? 9) || (c =? 10) || ((32 <=? c) && (c <=? 126)).

(** What a port answers now. *)
Definition answer (k : kernel) (port : Z) : Z := u8 (io_env (mach k) (io_log (mach k)) port).

(** The character of a key press, 0 for none. *)
Definition key_char (sc shift : Z) : Z :=
  if (sc =? 0x2A) || (sc =? 0x36) || negb (Z.land sc 0x80 =? 0) then 0
  else if sc =? 0x0E then 8
  else if sc <? Z.of_nat (length normal_map)
       then default 0 ((if negb (shift =? 0) then shift_map else normal_map) !! Z.to_nat sc) else 0.

Lemma keyboard_rep (Q : () → kernel → Prop) k : ring_wf (shell_st k) →
  (∀ s d l, ring_wf s →
     ring_chars s = (if key_char (answer k 0x60) (shift_down k) =? 0 then ring_chars (shell_st k)
                     else enqueue (ring_chars (shell_st k)) (key_char (answer k 0x60) (shift_down k))) →
     Q tt (upd_shift_down (λ _, d) (upd_shell_st (λ _, s) (upd_mach (log_io l) k)))) →
  wp keyboard_handler Q k.
Proof.
  intros Hwf HQ. unfold keyboard_handler, inb. rewrite wp_bind. unfold wp at 1. fold (answer k 0x60).
  set (sc := answer k 0x60) in *. set (k1 := upd_mach _ k).
  assert (∀ d, k1 = k1 ∧ upd_shift_down (λ _, d) k1 =
    upd_shift_down (λ _, d) (upd_shell_st (λ _, shell_st k) k1)) as Hk1 by (by intros d).
  assert (k1 = upd_shift_down (λ _, shift_down k) (upd_shell_st (λ _, shell_st k) k1)) as Hid by done.
  unfold key_char in HQ. assert (sc = 0xAA ∨ sc = 0xB6 → negb (Z.land sc 0x80 =? 0) = true) as Hrel
    by (by intros [-> | ->]).
  destruct ((sc =? 0x2A) || (sc =? 0x36)) eqn:H1.
  { rewrite wp_modify. apply HQ; done. }
  destruct ((sc =? 0xAA) || (sc =? 0xB6)) eqn:H2.
  { rewrite wp_modify. apply HQ; [done|]. rewrite orb_false_l, Hrel; [done|].
    apply orb_prop in H2 as [?%Z.eqb_eq|?%Z.eqb_eq]; auto. }
  cbn [orb] in HQ. destruct (negb (Z.land sc 0x80 =? 0)) eqn:H3.
  { rewrite wp_ret, Hid. by apply HQ. }
  destruct (sc =? 0x0E) eqn:H4.
  { apply push_rep; [done|]. intros s Hs Hq. apply (HQ s (shift_down k)); done. }
  rewrite wp_bind, wp_gets. change (shift_down k1) with (shift_down k). cbv zeta.
  set (c := if sc <? _ then _ else 0) in *. clearbody c. destruct (c =? 0).
  { rewrite wp_ret, Hid. by apply HQ. }
  apply push_rep; [done|]. intros s Hs Hq. by apply (HQ s (shift_down k)).
Qed.

Lemma key_char_typeable sc shift : key_char sc shift = 0 ∨ typeable (key_char sc shift) = true.
Proof.
  unfold key_char. case_match; [by left|]. case_match; [by right|]. case_match; [|by left].
  assert (∀ l, forallb (λ c, (c =? 0) || typeable c) l = true → default 0 (l !! Z.to_nat sc) = 0 ∨
    typeable (default 0 (l !! Z.to_nat sc)) = true) as Hl.
  { intros l Hl. destruct (l !! Z.to_nat sc) as [c|] eqn:Hc; [|by left]. rewrite forallb_forall in Hl.
    apply list_elem_of_lookup_2, list_elem_of_In, Hl in Hc. cbn. apply orb_prop in Hc as [?%Z.eqb_eq|?]; auto. }
  case_match; apply Hl; vm_compute; reflexivity.
Qed.

(** Some key types [c]. *)
Definition key_for (c : Z) : option (Z * Z) :=
  match list_find (λ p : Z * Z, bool_decide (key_char p.1 p.2 = c)) (list_prod (seqZ 0 128) [0; 1]) with
  | Some (_, p) => Some p
  | None => None
  end.

Lemma key_for_all c : typeable c = true → ∃ sc shift, key_char sc shift = c ∧ 0 ≤ sc < 128.
Proof.
  intros Hc.
  assert (forallb (λ c, negb (typeable c) ||
    match key_for c with Some (sc, sh) => (key_char sc sh =? c) && (0 <=? sc) && (sc <? 128) | None => false end)
    (seqZ 0 127) = true) as Hall by (vm_compute; reflexivity).
  rewrite forallb_forall in Hall. specialize (Hall c).
  assert (In c (seqZ 0 127)) as Hin.
  { apply list_elem_of_In, elem_of_seqZ. unfold typeable in Hc. lia. }
  apply Hall in Hin. rewrite Hc in Hin. cbn [negb orb] in Hin. destruct (key_for c) as [[sc sh]|]; [|done].
  exists sc, sh. lia.
Qed.

(** C37: a keyboard interrupt adds to the ring at most one character, a
    printable one, backspace, tab or newline, or changes the shift state; and
    each of those characters can be typed, by some key with shift up or down. *)
Theorem keyboard_types k :
  ring_wf (shell_st k) →
  wp keyboard_handler (λ _ k', ring_wf (shell_st k') ∧
    (ring_chars (shell_st k') = ring_chars (shell_st k) ∨
     ∃ c, typeable c = true ∧ ring_chars (shell_st k') = ring_chars (shell_st k) ++ [c])) k ∧
  (∀ c, typeable c = true → ∃ sc shift, 0 ≤ sc < 128 ∧
     ∀ k, ring_wf (shell_st k) → answer k 0x60 = sc → shift_down k = shift →
       wp keyboard_handler (λ _ k', ring_chars (shell_st k') = enqueue (ring_chars (shell_st k)) c) k).
Proof.
  intros Hwf. split.
  - apply keyboard_rep; [done|]. intros s d l Hs Hq. split; [done|]. cbn.
    destruct (key_char_typeable (answer k 0x60) (shift_down k)) as [Hz|Ht]; [rewrite Hz in Hq; by left|].
    set (c := key_char _ _) in *. destruct (c =? 0); [by left|]. unfold enqueue in Hq.
    case_match; [right; by exists c|by left].
  - intros c Hc. destruct (key_for_all c Hc) as (sc & shift & Hk & Hr). exists sc, shift. split; [done|].
    clear k Hwf. intros k Hwf Ha Hs. apply keyboard_rep; [done|]. intros s d l _ Hq. cbn. rewrite Hq, Ha, Hs, Hk.
    destruct (Z.eqb_spec c 0) as [->|]; done.
Qed.

Lemma keyboard_types_witness :
  wp keyboard_handler (λ _ k', ring_wf (shell_st k') ∧
    (ring_chars (shell_st k') = ring_chars (shell_st cold) ∨
     ∃ c, typeable c = true ∧ ring_chars (shell_st k') = ring_chars (shell_st cold) ++ [c])) cold.
Proof. apply keyboard_types. split; closed. Defined.

(** ** The serial port, receiving *)

(** What the UART delivers in one interrupt: [bs] bytes, then "no data"; each
    status and each byte is an answer to one read. *)
Inductive delivers (env : list io_event → Z → Z) : list io_event → list Z → list io_event → Prop :=
  | dl_done log st : st = u8 (env log (COM1 + REG_LSR)) → Z.land st LSR_DATA_READY = 0 →
      delivers env log [] (Inb (COM1 + REG_LSR) st :: log)
  | dl_byte log st b bs log' : st = u8 (env log (COM1 + REG_LSR)) → Z.land st LSR_DATA_READY ≠ 0 →
      b = u8 (env (Inb (COM1 + REG_LSR) st :: log) (COM1 + REG_DATA)) →
      delivers env (Inb (COM1 + REG_DATA) b :: Inb (COM1 + REG_LSR) st :: log) bs log' →
      delivers env log (b :: bs) log'.

Lemma u32_add_succ a n : 0 ≤ n → (a +u 1) +u n = a +u (1 + n).
Proof. intros Hn. unfold u32. rewrite Zplus_mod_idemp_l. f_equal. lia. Qed.

(** C36: the serial interrupt takes every byte the UART has, in order, counts
    it, and puts it into the ring with CR as newline and DEL as backspace; what
    does not fit is dropped.  It ends as soon as the UART has no more. *)
Theorem serial_receives fuel bs log' k :
  ring_wf (shell_st k) →
  0 ≤ rx_count (serial_st k) < 0x100000000 →
  delivers (io_env (mach k)) (io_log (mach k)) bs log' →
  (length bs < fuel)%nat →
  wp (serial_handler fuel) (λ _ k', ring_wf (shell_st k') ∧
    ring_chars (shell_st k') = foldl enqueue (ring_chars (shell_st k)) (serial_char <$> bs) ∧
    rx_count (serial_st k') = rx_count (serial_st k) +u Z.of_nat (length bs) ∧
    io_log (mach k') = log') k.
Proof.
  intros Hwf Hrx Hdel. unfold serial_handler. revert fuel k Hwf Hrx Hdel. induction bs as [|b bs IH]; intros fuel k Hwf Hrx Hdel Hfuel;
    (destruct fuel as [|fuel]; [by cbn in Hfuel; lia|]); cbn [while_fuel]; rewrite wp_bind; unfold serial_step;
    inversion Hdel as [? st Hst Hz|? st ? ? ? Hst Hnz Hb Hrest]; subst.
  - unfold inb. rewrite wp_bind. unfold wp at 1. apply Z.eqb_eq in Hz. rewrite Hz. rewrite !wp_ret.
    split_and!; [done|done| |done]. cbn. by rewrite Z.add_0_r, u32_small.
  - unfold inb. rewrite wp_bind. unfold wp at 1. apply Z.eqb_neq in Hnz. rewrite Hnz.
    rewrite wp_bind. unfold wp at 1. rewrite wp_bind, wp_modify, wp_bind.
    apply push_rep; [done|]. intros s Hs Hq. rewrite wp_ret.
    eapply wp_mono; [apply (IH fuel); [done|apply u32_range|exact Hrest|cbn in Hfuel; lia]|].
    cbn beta. intros [] k' (Hwf' & Hq' & Hrx' & Hl). split_and!; [done| | |done].
    + rewrite Hq'. cbn [shell_st upd_shell_st fmap list_fmap foldl]. by rewrite Hq.
    + rewrite Hrx'. cbn [serial_st upd_shell_st upd_serial_st set_rx_count rx_count upd_mach].
      rewrite u32_add_succ by lia. cbn [length]. by rewrite Nat2Z.inj_succ, Z.add_1_l.
Qed.

(** One byte, a carriage return, waits in the UART. *)
Definition one_byte : kernel :=
  upd_mach (λ m, {| phys := phys m; cr0_pg := cr0_pg m; cr3 := cr3 m; cr2 := cr2 m; regs := regs m; io_log := [];
    io_env := λ log port, if port =? COM1 + REG_DATA then 13 else if (length log <? 2)%nat then 0x61 else 0x60;
    sym := sym m |}) cold.

Lemma serial_receives_witness :
  wp (serial_handler 2) (λ _ k', ring_wf (shell_st k') ∧ ring_chars (shell_st k') = [10] ∧
    rx_count (serial_st k') = 1 ∧
    io_log (mach k') = [Inb 0x3FD 0x60; Inb 0x3F8 13; Inb 0x3FD 0x61]) one_byte.
Proof.
  apply (serial_receives 2 [13] [Inb 0x3FD 0x60; Inb 0x3F8 13; Inb 0x3FD 0x61] one_byte).
  - split; closed.
  - closed.
  - apply (dl_byte _ [] 0x61 13 []); [done|done|done|]. by apply dl_done.
  - by apply Nat.ltb_lt.
Defined.
