(* ===== verification/ShellProps.v ===== *)
(** * The shell: the properties

    String comparison and the split of a line (src/util.c, src/shell.c), the
    line editor as an edit of a string, the calculator end to end, and which
    commands leave the kernel alone. *)
From stdpp Require Import prelude gmap list strings.
From Stdlib Require Import Lia ZArith.
From S2P Require Import Prelude Machine State Util Console Memory Pmm Paging Heap HeapSpec.
From S2P Require Import HeapProof HeapMap Frames Alloc Task TaskProof Input Timer Shell Booted ConsoleProps InputProps.

#[local] Open Scope Z_scope.

(** ** C strings *)

(** The characters of a C string are signed and not NUL. *)
Definition is_str (s : cstr) : Prop := Forall (λ c, -0x80 ≤ c < 0x80 ∧ c ≠ 0) s.

Lemma u8_char_inj x y : -0x80 ≤ x < 0x80 → -0x80 ≤ y < 0x80 → u8 x = u8 y → x = y.
Proof. unfold u8. intros. zlia. Qed.

Lemma u8_char_pos x : -0x80 ≤ x < 0x80 → x ≠ 0 → 0 < u8 x.
Proof. unfold u8. intros. zlia. Qed.

(** The lexicographic order of the bytes. *)
Fixpoint lex_compare (a b : list Z) : comparison :=
  match a, b with
  | [], [] => Eq
  | [], _ => Lt
  | _, [] => Gt
  | x :: a, y :: b => match u8 x ?= u8 y with Eq => lex_compare a b | c => c end
  end.

(** [strcmp] compares C strings in the lexicographic order of their bytes
    taken as unsigned; in particular it answers 0 exactly for equal strings. *)
Theorem strcmp_lexicographic a b :
  is_str a → is_str b →
  (strcmp a b ?= 0) = lex_compare a b ∧ (strcmp a b = 0 ↔ a = b).
Proof.
  unfold is_str. revert b. induction a as [|x a IH]; intros b Ha Hb.
  - destruct b as [|y b]; [by split|]. apply Forall_cons in Hb as [[Hy Hy0] _].
    pose proof (u8_char_pos y Hy Hy0). cbn [strcmp lex_compare deref head default from_option id].
    change (u8 0) with 0. split; [apply Z.compare_lt_iff; lia|]. split; [lia|done].
  - apply Forall_cons in Ha as [[Hx Hx0] Ha]. pose proof (u8_char_pos x Hx Hx0).
    destruct b as [|y b].
    { cbn [strcmp lex_compare deref head default from_option id]. change (u8 0) with 0.
      split; [apply Z.compare_gt_iff; lia|]. split; [lia|done]. }
    apply Forall_cons in Hb as [[Hy Hy0] Hb]. destruct (IH b Ha Hb) as [Hc He].
    cbn [strcmp lex_compare]. rewrite (proj2 (Z.eqb_neq x 0) Hx0). cbn [negb andb]. destruct (Z.eqb_spec x y) as [->|Hne].
    + rewrite Z.compare_refl. split; [done|]. rewrite He. split; [by intros ->|by intros [= ->]].
    + assert (u8 x ≠ u8 y) as Hu by (intros ?; by apply Hne, u8_char_inj).
      split; [|split; [lia|by intros [= ]]].
      destruct (Z.compare_spec (u8 x) (u8 y)); [done|apply Z.compare_lt_iff; lia|apply Z.compare_gt_iff; lia].
Qed.

Lemma strcmp_lexicographic_witness :
  (strcmp (lit "heap") (lit "help") ?= 0) = Lt ∧ (strcmp (lit "heap") (lit "help") = 0 ↔ lit "heap" = lit "help").
Proof. apply (strcmp_lexicographic (lit "heap") (lit "help")); repeat (constructor; [done|]); constructor. Defined.

(** The length of the first word. *)
Fixpoint word_len (line : cstr) : nat :=
  match line with c :: line => if c =? 32 then 0%nat else S (word_len line) | [] => 0%nat end.

Lemma split_cmd_spec room line : is_str line →
  split_cmd room line = (take (room `min` word_len line) line, drop (room `min` word_len line) line).
Proof.
  intros Hs. revert room. induction Hs as [|c line [_ Hc] _ IH]; intros [|room]; [done|done|done|].
  cbn [split_cmd word_len]. apply Z.eqb_neq in Hc. rewrite Hc. cbn [orb].
  destruct (c =? 32); [done|]. rewrite IH. done.
Qed.

(** C39: a line is split after its first word: the word, cut at 31 characters,
    is the command, and what follows the character after it are the arguments.
    (So a word of more than 31 characters loses its 32nd.) *)
Theorem parse_line_spec line :
  is_str line →
  parse_line line = (take (31 `min` word_len line) line, drop (S (31 `min` word_len line)) line).
Proof.
  intros Hs. unfold parse_line. rewrite split_cmd_spec by done. f_equal.
  generalize (31 `min` word_len line)%nat as n. intros n.
  replace (drop (S n) line) with (drop 1 (drop n line)) by (rewrite drop_drop; f_equal; lia).
  set (rest := drop n line).
  assert (is_str rest) as Hr by (by apply Forall_drop). destruct rest as [|c rest]; [done|].
  apply Forall_cons in Hr as [[_ Hc] _]. cbn [deref head default from_option id]. apply Z.eqb_neq in Hc. by rewrite Hc.
Qed.

Lemma parse_line_spec_witness :
  parse_line (lit "calc 2 + 3") = (take (31 `min` word_len (lit "calc 2 + 3")) (lit "calc 2 + 3"),
    drop (S (31 `min` word_len (lit "calc 2 + 3"))) (lit "calc 2 + 3")) ∧
  parse_line (lit "calc 2 + 3") = (lit "calc", lit "2 + 3").
Proof. split; [apply parse_line_spec; repeat (constructor; [done|]); constructor|done]. Defined.

(** ** The line editor *)

(** What is on the line. *)
Definition line_text (s : shell_state) : cstr := take (Z.to_nat (line_len s)) (line_buf s).

Record editor_wf (s : shell_state) : Prop := {
  ed_buf : length (line_buf s) = 128%nat;
  ed_len : 0 ≤ line_len s < LINE_MAX;
  ed_text : is_str (line_text s)
}.

Definition printable (c : Z) : bool := (32 <=? c) && (c <=? 126).

(** One key, newline apart: backspace deletes the last character, a printable
    character is added while the line has fewer than 127, others do nothing. *)
Definition edit (l : cstr) (c : Z) : cstr :=
  if c =? 8 then take (pred (length l)) l
  else if printable c && (Z.of_nat (length l) <? LINE_MAX - 1) then l ++ [c] else l.

(** Only the line and the console differ. *)
Definition typing (k k' : kernel) : Prop :=
  ∃ b n, console_only (upd_shell_st (λ s, set_line_buf b (set_line_len n s)) k) k'.

Lemma console_shell k k' : console_only k k' → shell_st k' = shell_st k.
Proof. by intros (v & s & l & ->). Qed.

#[export] Instance upd_shell_console : Proper (eq ==> console_only ==> console_only) upd_shell_st.
Proof. intros f _ <- k k' (v & s & l & ->). by exists v, s, l. Qed.

Lemma upd_shell_upd f g k : upd_shell_st f (upd_shell_st g k) = upd_shell_st (λ s, f (g s)) k.
Proof. done. Qed.

#[export] Instance typing_preorder : PreOrder typing.
Proof.
  split.
  - intros k. exists (line_buf (shell_st k)), (line_len (shell_st k)). by destruct k as [? ? ? ? ? ? ? ? ? []].
  - intros k1 k2 k3 (b & n & H1) (b' & n' & H2). exists b', n'. by rewrite <- H1 in H2.
Qed.

Lemma console_typing k k' : console_only k k' → typing k k'.
Proof.
  intros H. exists (line_buf (shell_st k)), (line_len (shell_st k)). rewrite <- H. by destruct k as [? ? ? ? ? ? ? ? ? []].
Qed.

Lemma set_line_typing b n k : typing k (upd_shell_st (λ s, set_line_buf b (set_line_len n s)) k).
Proof. by exists b, n. Qed.

Lemma line_text_length s : editor_wf s → Z.of_nat (length (line_text s)) = line_len s.
Proof. intros [Hb Hn _]. unfold line_text, LINE_MAX in *. rewrite length_take. lia. Qed.

Lemma printable_char c : printable c = true → -0x80 ≤ c < 0x80 ∧ c ≠ 0.
Proof. unfold printable. lia. Qed.

Lemma edit_wf l c : is_str l → is_str (edit l c).
Proof.
  intros Hl. unfold edit. case_match; [by apply Forall_take|].
  destruct (printable c) eqn:Hc; [|done]. cbn [andb]. case_match; [|done].
  apply Forall_app. split; [done|]. by apply Forall_singleton, printable_char.
Qed.

Definition deleted (s : shell_state) : shell_state := set_line_len (line_len s - 1) s.
Definition added (c : Z) (s : shell_state) : shell_state :=
  set_line_len (line_len s + 1) (set_line_buf (<[Z.to_nat (line_len s) := c]> (line_buf s)) s).

Lemma deleted_text s : editor_wf s → 0 < line_len s → line_text (deleted s) = edit (line_text s) 8.
Proof.
  intros [Hb Hn _] Hpos. unfold line_text, edit, deleted, LINE_MAX in *. cbn. rewrite length_take, take_take. f_equal. lia.
Qed.

Lemma added_text c s : editor_wf s → line_len s < LINE_MAX - 1 → line_text (added c s) = line_text s ++ [c].
Proof.
  intros [Hb Hn _] Hroom. unfold line_text, added, LINE_MAX in *. cbn.
  replace (Z.to_nat (line_len s + 1)) with (S (Z.to_nat (line_len s))) by lia.
  rewrite (take_S_r _ _ c) by (apply list_lookup_insert_eq; lia). by rewrite take_insert_ge by lia.
Qed.

Section editor.
Context (wait : K ()) (fuel : nat).

Lemma editor_step c (k : kernel) : editor_wf (shell_st k) → c ≠ 10 →
  wp (shell_input_char wait fuel c) (λ _ k', typing k k' ∧ editor_wf (shell_st k') ∧
    line_text (shell_st k') = edit (line_text (shell_st k)) c) k.
Proof.
  intros Hwf Hc. pose proof (line_text_length _ Hwf) as Hlen. pose proof Hwf as [Hb Hn Ht]. unfold LINE_MAX in Hn.
  unfold shell_input_char. apply Z.eqb_neq in Hc. rewrite Hc.
  assert (∀ s m, ConsoleOp m → editor_wf s → line_text s = edit (line_text (shell_st k)) c →
    (∃ b n, s = set_line_buf b (set_line_len n (shell_st k))) →
    wp m (λ (_ : ()) k', typing k k' ∧ editor_wf (shell_st k') ∧
      line_text (shell_st k') = edit (line_text (shell_st k)) c) (upd_shell_st (λ _, s) k)) as Hout.
  { intros s m Hm Hs Htext (b & n & Heq). eapply wp_mono; [apply Hm|]. cbn beta. intros [] k' Hk'.
    rewrite (console_shell _ _ Hk'). split_and!; [|done|done]. exists b, n. rewrite <- Hk'. by rewrite Heq. }
  assert (line_text (shell_st k) = edit (line_text (shell_st k)) c →
    wp (ret tt) (λ (_ : ()) k', typing k k' ∧ editor_wf (shell_st k') ∧
      line_text (shell_st k') = edit (line_text (shell_st k)) c) k) as Hsame by (intros; by rewrite wp_ret).
  unfold edit in Hout, Hsame |- *. destruct (c =? 8) eqn:H8.
  { unfold shell_g. rewrite wp_bind, wp_gets. unfold when. destruct (0 <? line_len (shell_st k)) eqn:Hpos.
    - apply Z.ltb_lt in Hpos. unfold set_len. rewrite wp_bind, wp_modify, s32_small by lia.
      apply (Hout (deleted (shell_st k))); [apply _| |by rewrite deleted_text|].
      + split; cbn; [done|unfold LINE_MAX; lia|]. rewrite deleted_text by done. by apply edit_wf.
      + exists (line_buf (shell_st k)), (line_len (shell_st k) - 1). by destruct (shell_st k).
    - apply Hsame. apply Z.ltb_ge in Hpos. assert (length (line_text (shell_st k)) = 0%nat) as ->%nil_length_inv by lia. done. }
  assert ((c <? 32) || (126 <? c) = negb (printable c)) as -> by (unfold printable; lia).
  destruct (printable c) eqn:Hp; cbn [negb andb] in *; [|by apply Hsame].
  rewrite Hlen in *. unfold shell_g. rewrite wp_bind, wp_gets. unfold when.
  destruct (line_len (shell_st k) <? LINE_MAX - 1) eqn:Hroom; [|by apply Hsame]. apply Z.ltb_lt in Hroom.
  unfold poke_line, set_len. rewrite wp_bind, wp_modify, wp_bind, wp_modify, s32_small by lia.
  apply (Hout (added c (shell_st k))); [apply _| |by apply added_text|].
  - split; cbn; [by rewrite length_insert|unfold LINE_MAX in *; lia|]. rewrite added_text by done.
    apply Forall_app. split; [done|]. by apply Forall_singleton, printable_char.
  - by eexists _, _.
Qed.

(** The text of a line that has been submitted. *)
Lemma c_string_line buf n : is_str (take n buf) → (n < length buf)%nat → c_string (<[n := 0]> buf) = take n buf.
Proof.
  revert buf. induction n as [|n IH]; intros [|c buf] Hs Hn; cbn in *; try lia; [done|].
  apply Forall_cons in Hs as [[_ Hc] Hs]. apply Z.eqb_neq in Hc. rewrite Hc, IH by (done || lia). done.
Qed.

(** Enter is echoed, the line is taken off, and then it is executed. *)
Lemma enter_echo (k : kernel) : editor_wf (shell_st k) →
  ∃ k' k1, putchar 10 k = Ok tt k' ∧ (∃ s, k1 = upd_shell_st (λ _, s) k') ∧
    typing k k1 ∧ editor_wf (shell_st k1) ∧ line_text (shell_st k1) = [] ∧
    shell_input_char wait fuel 10 k = shell_execute wait fuel (line_text (shell_st k)) k1.
Proof.
  intros Hwf. pose proof Hwf as [Hb Hn Ht]. unfold LINE_MAX in Hn.
  destruct (wp_inv _ _ _ (putchar_console 10 k)) as ([] & k' & Hput & Hk').
  pose proof (console_shell _ _ Hk') as Hsh.
  set (b := <[Z.to_nat (line_len (shell_st k)) := 0]> (line_buf (shell_st k))).
  exists k', (upd_shell_st (λ s, set_line_buf b (set_line_len 0 s)) k'). split_and!.
  - done.
  - by eexists.
  - etrans; [by apply console_typing|apply set_line_typing].
  - split; cbn; [|by split|by constructor]. unfold b. by rewrite length_insert.
  - done.
  - unfold shell_input_char. cbn [Z.eqb Pos.eqb]. unfold bind at 1. rewrite Hput.
    unfold shell_g, poke_line, set_len, bind, gets, modify. cbn [upd_shell_st shell_st set_line_buf set_line_len line_buf line_len].
    rewrite Hsh. fold b. replace (c_string b) with (line_text (shell_st k)).
    + f_equal. unfold b. by rewrite <- Hsh.
    + symmetry. unfold b. apply c_string_line; [done|lia].
Qed.

Lemma editor_submit (k : kernel) : editor_wf (shell_st k) →
  ∃ k1, typing k k1 ∧ editor_wf (shell_st k1) ∧ line_text (shell_st k1) = [] ∧
    shell_input_char wait fuel 10 k = shell_execute wait fuel (line_text (shell_st k)) k1.
Proof. intros (k' & k1 & _ & _ & ?)%enter_echo. by exists k1. Qed.

Lemma each_app (f : Z → K ()) l1 l2 k : each f (l1 ++ l2) k = (each f l1 ;;; each f l2) k.
Proof.
  revert k. induction l1 as [|c l1 IH]; intros k; [done|]. cbn [app each]. unfold bind.
  destruct (f c k) as [[] k'| | | |]; [|done..]. apply IH.
Qed.

Lemma bind_ret_tt (m : K ()) k : bind m (λ _, ret tt) k = m k.
Proof. unfold bind, ret. by destruct (m k) as [[] ?| | | |]. Qed.

Lemma type_text t (k : kernel) : editor_wf (shell_st k) → Forall (λ c, c ≠ 10) t →
  wp (each (shell_input_char wait fuel) t) (λ _ k', typing k k' ∧ editor_wf (shell_st k') ∧
    line_text (shell_st k') = foldl edit (line_text (shell_st k)) t) k.
Proof.
  intros Hwf Ht. revert k Hwf. induction Ht as [|c t Hc _ IH]; intros k Hwf; cbn [each]; [by rewrite wp_ret|].
  rewrite wp_bind. eapply wp_mono; [by apply editor_step|]. cbn beta. intros [] k1 (H1 & Hwf1 & Ht1).
  eapply wp_mono; [by apply IH|]. cbn beta. intros [] k2 (H2 & Hwf2 & Ht2).
  split_and!; [by etrans|done|]. cbn [foldl]. by rewrite Ht2, Ht1.
Qed.

(** C22: typing a text and Enter edits the line character by character --
    backspace deletes, a printable character is added while there is room,
    at most 127 of them, never past the buffer -- echoes it, and then executes
    exactly the resulting line, with the line empty again; until then nothing
    but the line and the console changes. *)
Theorem typed_line_executes t (k : kernel) :
  editor_wf (shell_st k) → Forall (λ c, c ≠ 10) t →
  ∃ k1, typing k k1 ∧ editor_wf (shell_st k1) ∧ line_text (shell_st k1) = [] ∧
    each (shell_input_char wait fuel) (t ++ [10]) k =
    shell_execute wait fuel (foldl edit (line_text (shell_st k)) t) k1.
Proof.
  intros Hwf Ht. destruct (wp_inv _ _ _ (type_text t k Hwf Ht)) as ([] & k1 & Hrun & H1 & Hwf1 & Ht1).
  destruct (editor_submit k1 Hwf1) as (k2 & H2 & Hwf2 & Ht2 & Heq).
  exists k2. split_and!; [by etrans|done|done|]. rewrite each_app. unfold bind. rewrite Hrun.
  cbn [each]. rewrite bind_ret_tt. by rewrite Heq, Ht1.
Qed.
End editor.

Lemma typed_line_executes_witness :
  ∃ k1, typing cold k1 ∧ editor_wf (shell_st k1) ∧ line_text (shell_st k1) = [] ∧
    each (shell_input_char (ret tt) 1) (lit "x\bps" ++ [10]) cold =
    shell_execute (ret tt) 1 (lit "ps") k1.
Proof.
  apply (typed_line_executes (ret tt) 1 (lit "x\bps") cold);
    [split; [closed|closed|by apply Forall_nil]|]. repeat (constructor; [done|]); constructor.
Defined.

(** *** What the terminal shows *)

(** The echo of a key, newline apart, when [l] is on the line. *)
Definition echo (l : cstr) (c : Z) : K () :=
  if c =? 8 then when (0 <? Z.of_nat (length l)) backspace
  else when (printable c && (Z.of_nat (length l) <? LINE_MAX - 1)) (putchar c).

Section echo.
Context (wait : K ()) (fuel : nat).

(** A key first changes the line; all the rest is its echo. *)
Lemma key_echo c k : editor_wf (shell_st k) → c ≠ 10 →
  ∃ s, shell_input_char wait fuel c k = echo (line_text (shell_st k)) c (upd_shell_st (λ _, s) k).
Proof.
  intros Hwf Hc. pose proof (line_text_length _ Hwf) as Hlen. pose proof Hwf as [Hb Hn Ht]. unfold LINE_MAX in Hn.
  unfold shell_input_char, echo. rewrite Hlen, (proj2 (Z.eqb_neq c 10)) by done.
  assert (∃ s, Ok (A := ()) tt k = Ok tt (upd_shell_st (λ _, s) k)) as Hsame by (exists (shell_st k); by destruct k).
  assert ((c <? 32) || (126 <? c) = negb (printable c)) as -> by (unfold printable; lia).
  unfold when, shell_g, poke_line, set_len. destruct (c =? 8).
  - unfold bind at 1, gets at 1. destruct (0 <? line_len (shell_st k)); [by eexists|done].
  - destruct (printable c); cbn [negb andb]; [|done]. unfold bind at 1, gets at 1.
    destruct (line_len (shell_st k) <? LINE_MAX - 1); [by eexists|done].
Qed.
End echo.

(** ** The calculator *)

Lemma skip_digits_app ds rest : Forall (λ c, is_digit c = true) ds → is_digit (deref rest) = false →
  skip_digits (ds ++ rest) = rest.
Proof.
  intros Hds Hrest. induction Hds as [|d ds Hd _ IH].
  - destruct rest as [|c rest]; [done|]. cbn in *. by rewrite Hrest.
  - cbn [app skip_digits]. by rewrite Hd.
Qed.

Lemma skip_spaces_word s : deref s ≠ 32 → skip_spaces s = s.
Proof. destruct s as [|c s]; [done|]. intros Hc. cbn in *. apply Z.eqb_neq in Hc. by rewrite Hc. Qed.

Lemma int_chars_head n rest : -0x80000000 < n < 0x80000000 →
  (n < 0 ∧ deref (int_chars n ++ rest) = 45) ∨ (0 ≤ n ∧ 48 ≤ deref (int_chars n ++ rest) ≤ 57).
Proof.
  intros Hn. destruct (int_chars_shape n Hn) as (ds & -> & Hdig & Hne & _). rewrite <- app_assoc.
  destruct (n <? 0) eqn:Hneg; [left; split; [lia|done]|right; split; [lia|cbn [app]]]. by apply digits_head.
Qed.

(** An operator: not a digit, not a space, not the end. *)
Definition is_op (op : Z) : Prop := op = 43 ∨ op = 45 ∨ op = 42 ∨ op = 47.

Lemma calc_parse_spec a op b :
  -0x80000000 < a < 0x80000000 → -0x80000000 < b < 0x80000000 → is_op op →
  calc_parse (int_chars a ++ [32; op; 32] ++ int_chars b) = (a, op, b).
Proof.
  intros Ha Hb Hop. unfold calc_parse. set (rest := [32; op; 32] ++ int_chars b).
  rewrite atoi_int_chars by done.
  assert (skip_spaces (skip_digits (if deref (skip_spaces (int_chars a ++ rest)) =? 45
    then tail (skip_spaces (int_chars a ++ rest)) else skip_spaces (int_chars a ++ rest))) =
    op :: 32 :: int_chars b) as ->.
  { pose proof (int_chars_head a rest Ha) as Hh. rewrite !(skip_spaces_word (int_chars a ++ rest)) by lia.
    destruct (int_chars_shape a Ha) as (ds & Hds & Hdig & Hne & _). rewrite Hds in Hh |- *. rewrite <- app_assoc in Hh |- *.
    assert (skip_digits (ds ++ rest) = rest) as Hskip by (by apply skip_digits_app).
    destruct (a <? 0) eqn:Hneg.
    - cbn [app deref head default from_option id tail Z.eqb Pos.eqb]. rewrite Hskip. unfold rest. cbn [app skip_spaces Z.eqb Pos.eqb].
      destruct Hop as [-> | [-> | [-> | ->]]]; done.
    - cbn [app] in Hh |- *. assert (deref (ds ++ rest) =? 45 = false) as -> by lia. rewrite Hskip. unfold rest.
      cbn [app skip_spaces Z.eqb Pos.eqb]. destruct Hop as [-> | [-> | [-> | ->]]]; done. }
  cbn [deref head default from_option id tail]. assert (negb (op =? 0) = true) as -> by (unfold is_op in Hop; lia).
  assert (skip_spaces (32 :: int_chars b) = int_chars b) as ->.
  { pose proof (int_chars_head b [] Hb) as Hh. rewrite app_nil_r in Hh. cbn [skip_spaces Z.eqb Pos.eqb].
    apply skip_spaces_word. lia. }
  rewrite <- (app_nil_r (int_chars b)). by rewrite atoi_int_chars.
Qed.

(** The value of an expression on 32-bit integers; none for a division by 0. *)
Definition calc_value (a op b : Z) : option Z :=
  if op =? 43 then Some (s32 (a + b))
  else if op =? 45 then Some (s32 (a - b))
  else if op =? 42 then Some (s32 (a * b))
  else if b =? 0 then None else Some (Z.quot a b).

Lemma s32_range x : -0x80000000 ≤ s32 x < 0x80000000.
Proof. unfold s32. pose proof (Z.mod_pos_bound (x + 0x80000000) 0x100000000). lia. Qed.

Lemma calc_value_range a op b v : -0x80000000 < a < 0x80000000 → calc_value a op b = Some v →
  -0x80000000 ≤ v < 0x80000000.
Proof.
  intros Ha. unfold calc_value. repeat case_match; intros [= <-]; try apply s32_range.
  assert (b ≠ 0) as Hb by (by apply Z.eqb_neq). pose proof (Z.quot_abs a b Hb) as Hq.
  assert (Z.quot (Z.abs a) (Z.abs b) ≤ Z.abs a) by (apply Z.quot_le_upper_bound; nia). lia.
Qed.

Lemma print_line s k : Forall (λ c, c ≠ 0) s → (print s ;;; print (lit "\n")) k = print (s ++ [10]) k.
Proof. intros Hs. by rewrite print_app. Qed.

Lemma int_chars_nonzero n : -0x80000000 ≤ n < 0x80000000 → Forall (λ c, c ≠ 0) (int_chars n).
Proof.
  intros Hn. destruct (decide (n = -0x80000000)) as [->|Hne]; [by repeat constructor|].
  destruct (int_chars_shape n ltac:(lia)) as (ds & -> & Hdig & _). apply Forall_app. split.
  - case_match; by repeat constructor.
  - eapply Forall_impl; [exact Hdig|]. cbn. intros c Hc ->. done.
Qed.

(** C34: [calc] computes: given two decimal numbers around one of [+ - * /] it
    prints the value, in 32-bit arithmetic, and a newline; a division by zero
    prints an error.  Not so the smallest integer divided by -1: there the
    processor raises a divide error, which stops the system. *)
Theorem calc_computes :
  (∀ a op b k, -0x80000000 < a < 0x80000000 → -0x80000000 < b < 0x80000000 → is_op op →
     cmd_calc (int_chars a ++ [32; op; 32] ++ int_chars b) k =
     print (match calc_value a op b with
            | Some v => int_chars v ++ [10]
            | None => lit "error: divide by zero\n"
            end) k) ∧
  (∀ k, cmd_calc (lit "-2147483648 / -1") k = Trap 0 0 k).
Proof.
  split; [|by intros k].
  intros a op b k Ha Hb Hop. unfold cmd_calc. rewrite calc_parse_spec by done. cbv zeta beta iota.
  pose proof (calc_value_range a op b) as Hr. unfold calc_value in *.
  assert (∀ v, -0x80000000 ≤ v < 0x80000000 →
    (print_int v ;;; print (lit "\n")) k = print (int_chars v ++ [10]) k) as Hv.
  { intros v Hv. rewrite <- print_line by (by apply int_chars_nonzero). by apply bind_pointwise; [apply print_int_chars|]. }
  destruct (op =? 43) eqn:H1; [by apply Hv, s32_range|]. destruct (op =? 45) eqn:H2; [by apply Hv, s32_range|].
  destruct (op =? 42) eqn:H3; [by apply Hv, s32_range|].
  assert (op =? 47 = true) as -> by (unfold is_op in Hop; lia).
  destruct (b =? 0) eqn:H5; [done|].
  assert (a =? -0x80000000 = false) as -> by lia. cbn [andb]. apply Hv. by apply (Hr _ Ha).
Qed.

Lemma calc_computes_witness :
  cmd_calc (lit "7 - 9") cold = print (lit "-2\n") cold.
Proof. exact (proj1 calc_computes 7 45 9 cold ltac:(lia) ltac:(lia) ltac:(unfold is_op; lia)). Defined.

(** ** What the commands change *)

(** Everything is the same but the console, the log of the ports and CR2. *)
Record kernel_same (k k' : kernel) : Prop := {
  ks_phys : phys (mach k') = phys (mach k);
  ks_cr : cr0_pg (mach k') = cr0_pg (mach k) ∧ cr3 (mach k') = cr3 (mach k);
  ks_regs : regs (mach k') = regs (mach k);
  ks_world : sym (mach k') = sym (mach k) ∧ io_env (mach k') = io_env (mach k);
  ks_mem : mem_st k' = mem_st k;
  ks_pmm : pmm_st k' = pmm_st k;
  ks_paging : paging_st k' = paging_st k;
  ks_heap : heap_st k' = heap_st k;
  ks_sched : sched_st k' = sched_st k;
  ks_idt : idt_st k' = idt_st k;
  ks_shell : shell_st k' = shell_st k;
  ks_ticks : ticks k' = ticks k;
  ks_shift : shift_down k' = shift_down k
}.

#[export] Instance kernel_same_preorder : PreOrder kernel_same.
Proof.
  split; [by intros k; split|]. intros k1 k2 k3 [? [] ? [] ? ? ? ? ? ? ? ? ?] [? [] ? [] ? ? ? ? ? ? ? ? ?].
  split; (split; congruence) || congruence.
Qed.

Notation ReadOnly := (Preserves kernel_same).

Lemma console_same k k' : console_only k k' → kernel_same k k'.
Proof. by intros (v & s & l & ->). Qed.

(** A console operation is read-only. *)
Lemma console_readonly {A} (m : K A) : ConsoleOp m → ReadOnly m.
Proof. intros Hm k. specialize (Hm k). unfold wp in Hm. destruct (m k); [by apply console_same|done..]. Qed.

Section readonly.
#[export] Instance print_readonly s : ReadOnly (print s) := console_readonly _ _.
#[export] Instance print_int_readonly n : ReadOnly (print_int n) := console_readonly _ _.
#[export] Instance print_hex_readonly n : ReadOnly (print_hex n) := console_readonly _ _.
#[export] Instance clear_screen_readonly : ReadOnly clear_screen := console_readonly _ _.
#[export] Instance load_readonly n va : ReadOnly (load n va).
Proof. intros k. unfold load. by destruct (m_load n va (mach k)). Qed.
#[export] Instance divide_error_readonly {A} : ReadOnly (@divide_error A).
Proof. by intros k. Qed.
End readonly.

Ltac readonly := frame_unfold; unfold sched_g, shell_g in *; apply _.

#[export] Instance memory_print_map_readonly : ReadOnly memory_print_map.
Proof. unfold memory_print_map. readonly. Qed.
#[export] Instance paging_translate_readonly v : ReadOnly (paging_translate v).
Proof. unfold paging_translate. readonly. Qed.
#[export] Instance dump_step_readonly s : ReadOnly (dump_step s).
Proof. unfold dump_step. destruct s. readonly. Qed.
#[export] Instance heap_dump_readonly : ReadOnly heap_dump.
Proof. unfold heap_dump. readonly. Qed.
#[export] Instance list_loop_readonly {A} (f : A → Z → K A) a : (∀ a b, ReadOnly (f a b)) → ReadOnly (list_loop f a).
Proof.
  intros Hf. unfold list_loop, heap_fuel. frame_unfold. apply bind_preserves; [apply _..|]. intros h.
  apply bind_preserves; [apply _..|]. intros n. apply while_preserves; [apply _..|]. intros [b x]. apply _.
Qed.
#[export] Instance heap_used_readonly : ReadOnly heap_used.
Proof. unfold heap_used. readonly. Qed.
#[export] Instance heap_free_readonly : ReadOnly heap_free.
Proof. unfold heap_free, heap_size. readonly. Qed.
#[export] Instance heap_blocks_readonly : ReadOnly heap_blocks.
Proof. unfold heap_blocks. readonly. Qed.
#[export] Instance heap_free_blocks_readonly : ReadOnly heap_free_blocks.
Proof. unfold heap_free_blocks. readonly. Qed.
#[export] Instance ps_line_readonly i : ReadOnly (ps_line i).
Proof. unfold ps_line, task_get, task_g. frame_unfold. unfold sched_g. apply _. Qed.

(** The commands that are not queries: they change the system, wait, or end it. *)
Definition changing : list string :=
  ["alloc"; "free"; "map"; "unmap"; "kmalloc"; "kfree"; "fault"; "spawn"; "kill"; "sleep";
   "reboot"; "halt"]%string.

Ltac readonly_cmd c := unfold c; unfold mem_total_kb, mem_usable_kb, mem_highest_addr, pmm_free_frames, pmm_total_frames,
  pmm_used_frames, pmm_bitmap_addr, pmm_bitmap_size, heap_size, heap_break, paging_is_enabled, paging_dir_phys,
  paging_identity_end, paging_table_count, paging_mapped_pages, serial_is_ready, serial_rx_count, serial_tx_count,
  timer_seconds, timer_ticks, task_switches, task_current_id; frame_unfold; unfold sched_g; apply _.

Section each_command.
#[local] Instance help_readonly : ReadOnly cmd_help.
Proof. readonly_cmd cmd_help. Qed.
#[local] Instance about_readonly : ReadOnly cmd_about.
Proof. readonly_cmd cmd_about. Qed.
#[local] Instance version_readonly : ReadOnly cmd_version.
Proof. readonly_cmd cmd_version. Qed.
#[local] Instance banner_readonly : ReadOnly cmd_banner.
Proof. readonly_cmd cmd_banner. Qed.
#[local] Instance echo_readonly a : ReadOnly (cmd_echo a).
Proof. readonly_cmd cmd_echo. Qed.
#[local] Instance calc_readonly a : ReadOnly (cmd_calc a).
Proof. unfold cmd_calc. destruct (calc_parse a) as [[x op] y]. apply _. Qed.
#[local] Instance meminfo_readonly : ReadOnly cmd_meminfo.
Proof. readonly_cmd cmd_meminfo. Qed.
#[local] Instance frames_readonly : ReadOnly cmd_frames.
Proof. readonly_cmd cmd_frames. Qed.
#[local] Instance heap_readonly : ReadOnly cmd_heap.
Proof. readonly_cmd cmd_heap. Qed.
#[local] Instance paging_readonly : ReadOnly cmd_paging.
Proof. readonly_cmd cmd_paging. Qed.
#[local] Instance virt_readonly a : ReadOnly (cmd_virt a).
Proof. readonly_cmd cmd_virt. Qed.
#[local] Instance serial_readonly : ReadOnly cmd_serial.
Proof. readonly_cmd cmd_serial. Qed.
#[local] Instance uptime_readonly : ReadOnly cmd_uptime.
Proof. readonly_cmd cmd_uptime. Qed.
#[local] Instance ps_readonly : ReadOnly cmd_ps.
Proof. readonly_cmd cmd_ps. Qed.

(** C35: a line whose command is not one of alloc, free, map, unmap, kmalloc,
    kfree, fault, spawn, kill, sleep, reboot and halt -- every query, and every
    unknown command -- leaves memory, page tables, heap, frames, tasks, the line
    and the ring as they are, whether it returns or ends in an exception. *)
Theorem readonly_commands wait fuel line k :
  Forall (λ s, is_cmd (parse_line line).1 s = false) changing →
  kernel_same k (final (shell_execute wait fuel line k)).
Proof.
  intros Hc. unfold shell_execute. case_match; [apply (print_readonly _ k)|].
  destruct (parse_line line) as [cmd args]. cbn [fst] in Hc. unfold changing in Hc.
  repeat (apply Forall_cons in Hc as [? Hc]). clear Hc.
  assert (ReadOnly (run_command wait fuel cmd args ;;; shell_prompt)) as Hro; [|apply Hro].
  unfold run_command, cmd_clear, cmd_memmap, shell_prompt. repeat match goal with H : is_cmd _ _ = false |- _ => rewrite H; clear H end.
  apply _.
Qed.
End each_command.

Lemma readonly_commands_witness :
  kernel_same cold (final (shell_execute (ret tt) 1 (lit "ps") cold)).
Proof. apply readonly_commands. repeat constructor. Defined.

(** [reboot] prints its line, pulses the reset line and does not come back. *)
Lemma reboot_resets k : ∃ k1, console_only k k1 ∧
  cmd_reboot k = MachineReset (upd_mach (log_io (Outb KBC_COMMAND KBC_RESET)) k1).
Proof.
  destruct (wp_inv _ _ _ (print_console (lit "Rebooting...\n") k)) as ([] & k1 & Hr & Hc).
  exists k1. split; [exact Hc|]. unfold cmd_reboot, bind. by rewrite Hr.
Qed.
