(* ===== verification/ShellQuery.v ===== *)
(** * Commands that ask

    [Query m]: wherever the memory managers are in order, [m] returns, without
    an exception, and changes nothing but what the console shows.  Most commands
    of src/shell.c are queries, and an instance is found by following their code;
    the loops over the heap and the walk of the page tables are where the
    invariant is needed. *)
From stdpp Require Import prelude gmap list strings.
From Stdlib Require Import Lia ZArith.
From S2P Require Import Prelude Machine State Util Console Memory Pmm Paging Heap HeapSpec.
From S2P Require Import HeapProof HeapMap Frames Alloc Task TaskProof Input Timer Shell HeapProps ShellProps.

#[local] Open Scope Z_scope.

(** The memory managers are in order. *)
Definition managed (k : kernel) : Prop := ∃ U T P bs, heap_inv k U T P bs.

Lemma kernel_same_memory k k' : kernel_same k k' → same_memory k k'.
Proof. intros [? [] _ _ _ ? ? ? _ _ _ _ _]. by split. Qed.

Lemma managed_same k k' : kernel_same k k' → managed k → managed k'.
Proof.
  intros Hs (U & T & P & bs & Hi). exists U, T, P, bs.
  by eapply heap_inv_same_memory; [apply kernel_same_memory|].
Qed.

Class Query {A} (m : K A) : Prop := query k : managed k → wp m (λ _ k', kernel_same k k') k.

Section queries.
#[export] Instance ret_query {A} (a : A) : Query (ret a).
Proof. intros k _. by rewrite wp_ret. Qed.
#[export] Instance gets_query {A} (f : kernel → A) : Query (gets f).
Proof. intros k _. by rewrite wp_gets. Qed.
#[export] Instance bind_query {A B} (m : K A) (f : A → K B) :
  Query m → (∀ a, Query (f a)) → Query (bind m f).
Proof.
  intros Hm Hf k Hk. rewrite wp_bind. eapply wp_mono; [by apply Hm|]. cbn beta. intros a k1 H1.
  eapply wp_mono; [apply Hf; by eapply managed_same|]. cbn beta. intros b k2 H2. by etrans.
Qed.
#[export] Instance when_query b (m : K ()) : Query m → Query (when b m).
Proof. destruct b; [done|]. intros _. apply ret_query. Qed.
#[export] Instance if_query {A} (b : bool) (m1 m2 : K A) : Query m1 → Query m2 → Query (if b then m1 else m2).
Proof. by destruct b. Qed.
#[export] Instance option_query {A B} (o : option B) (f : B → K A) (m : K A) :
  (∀ b, Query (f b)) → Query m → Query (match o with Some b => f b | None => m end).
Proof. by destruct o. Qed.
#[export] Instance for_range_query n lo (body : Z → K ()) : (∀ i, Query (body i)) → Query (for_range n lo body).
Proof. intros. revert lo. induction n as [|n IH]; intros lo; cbn [for_range]; apply _. Qed.

Lemma console_query {A} (m : K A) : ConsoleOp m → Query m.
Proof. intros Hm k _. eapply wp_mono; [apply Hm|]. cbn beta. intros _ k'. apply console_same. Qed.

#[export] Instance print_query s : Query (print s) := console_query _ _.
#[export] Instance print_int_query n : Query (print_int n) := console_query _ _.
#[export] Instance print_hex_query n : Query (print_hex n) := console_query _ _.
#[export] Instance clear_screen_query : Query clear_screen := console_query _ _.

(** What reads the state and leaves it as it is. *)
Lemma reads_query {A} (m : K A) (f : list blk → A) :
  (∀ k U T P bs, heap_inv k U T P bs → wp m (λ r k', r = f bs ∧ k' = k) k) → Query m.
Proof.
  intros Hm k (U & T & P & bs & Hi). eapply wp_mono; [by eapply Hm|]. cbn beta. by intros r k' [_ ->].
Qed.

#[export] Instance heap_size_query : Query heap_size.
Proof. eapply reads_query, heap_size_rep. Qed.
#[export] Instance heap_used_query : Query heap_used.
Proof. eapply reads_query, heap_used_rep. Qed.
#[export] Instance heap_free_query : Query heap_free.
Proof. eapply reads_query, heap_free_rep. Qed.
#[export] Instance heap_blocks_query : Query heap_blocks.
Proof. eapply reads_query, heap_blocks_rep. Qed.
#[export] Instance heap_free_blocks_query : Query heap_free_blocks.
Proof. eapply reads_query, heap_free_blocks_rep. Qed.
End queries.

Ltac query_unfold := frame_unfold; unfold sched_g, shell_g, mem_total_kb, mem_usable_kb, mem_highest_addr,
  pmm_free_frames, pmm_total_frames, pmm_used_frames, pmm_bitmap_addr, pmm_bitmap_size, heap_break,
  paging_is_enabled, paging_dir_phys, paging_identity_end, paging_table_count, paging_mapped_pages,
  serial_is_ready, serial_rx_count, serial_tx_count, timer_seconds, timer_ticks, task_switches, task_current_id.

(** ** The listing of the heap *)

(** The first field of a block header at a position of the list, and the next
    block. *)
Lemma block_next k U T P bs pre b post (Q : Z → kernel → Prop) :
  heap_inv k U T P bs → bs = pre ++ b :: post →
  Q (at_block (pre ++ [b]) post) k → wp (load32 (blk_next (HEAP_START + span pre))) Q k.
Proof.
  intros Hi -> HQ. destruct (model_lay _ _ _ _ _ Hi) as [Hl _].
  destruct (heap_at _ _ _ _ _ _ Hl) as (Hh & Ha & Hs & He & Hq). pose proof (hl_top _ _ _ _ Hl).
  eapply (wp_next (heap_tr P) (brk (heap_st k)) k); [apply Hl|done|heap_lia|heap_lia|exact Hh|].
  destruct post as [|c post]; cbn [at_block] in *; [done|]. rewrite span_app in HQ. cbn [span] in HQ.
  by replace (HEAP_START + span pre + blk_span b) with (HEAP_START + (span pre + (blk_span b + 0))) by lia.
Qed.

(** The body of the loop at a block. *)
Definition dump_line (b shown : Z) : K (Z * Z + Z) :=
  size <- load32 (blk_size b) ;;
  print_int size ;;;
  free <- load32 (blk_free b) ;;
  print (if free =? 0 then lit " bytes  USED\n" else lit " bytes  FREE\n") ;;;
  next <- load32 (blk_next b) ;;
  ret (inl (next, shown + 1)).

Lemma dump_line_spec k U T P bs pre b post shown :
  heap_inv k U T P bs → bs = pre ++ b :: post →
  wp (dump_line (HEAP_START + span pre) shown)
    (λ r k', r = inl (at_block (pre ++ [b]) post, shown + 1) ∧ kernel_same k k') k.
Proof.
  intros Hi Hbs. unfold dump_line. rewrite wp_bind. apply (proj2 (block_fields k U T P bs Hi pre b post _ Hbs)).
  rewrite wp_bind. eapply wp_mono; [apply console_op|]. cbn beta. intros _ k1 H1%console_same.
  pose proof (heap_inv_same_memory _ _ _ _ _ _ (kernel_same_memory _ _ H1) Hi) as Hi1.
  rewrite wp_bind. apply (proj1 (block_fields k1 U T P bs Hi1 pre b post _ Hbs)).
  rewrite wp_bind. eapply wp_mono; [apply console_op|]. cbn beta. intros _ k2 H2%console_same.
  pose proof (heap_inv_same_memory _ _ _ _ _ _ (kernel_same_memory _ _ H2) Hi1) as Hi2.
  rewrite wp_bind. eapply block_next; [exact Hi2|exact Hbs|]. rewrite wp_ret. split; [done|]. by etrans.
Qed.

Lemma dump_step_spec k U T P bs pre post shown :
  heap_inv k U T P bs → bs = pre ++ post → shown ≤ 16 →
  wp (dump_step (at_block pre post, shown)) (λ r k', kernel_same k k' ∧ match r with
    | inl (b, n) => shown < 16 ∧ n = shown + 1 ∧ ∃ pre' post', bs = pre' ++ post' ∧ b = at_block pre' post'
    | inr _ => True end) k.
Proof.
  intros Hi Hbs Hsh. unfold dump_step.
  destruct post as [|b post]; cbn [at_block]; [rewrite Z.eqb_refl; cbn [negb andb]; by rewrite wp_ret|].
  assert (HEAP_START + span pre =? 0 = false) as ->.
  { destruct (model_lay _ _ _ _ _ Hi) as [Hl _]. rewrite Hbs in Hl.
    destruct (heap_at _ _ _ _ _ _ Hl) as (_ & Ha & _). apply Z.eqb_neq. unfold HEAP_START in *. lia. }
  cbn [negb andb]. destruct (Z.ltb_spec shown 16); [|by rewrite wp_ret].
  rewrite wp_bind. eapply wp_mono; [apply console_op|]. cbn beta. intros _ k1 H1%console_same.
  rewrite wp_bind. eapply wp_mono; [apply console_op|]. cbn beta. intros _ k2 H2%console_same.
  rewrite wp_bind. eapply wp_mono; [apply console_op|]. cbn beta. intros _ k3 H3%console_same.
  assert (kernel_same k k3) as H03 by (do 2 (etrans; [done|]); done).
  pose proof (heap_inv_same_memory _ _ _ _ _ _ (kernel_same_memory _ _ H03) Hi) as Hi3.
  eapply wp_mono; [by eapply dump_line_spec|]. cbn beta. intros r k4 [-> H4]. split; [by etrans|].
  split_and!; [lia|done|]. exists (pre ++ [b]), post. by rewrite <- app_assoc.
Qed.

#[export] Instance heap_dump_query : Query heap_dump.
Proof.
  unfold heap_dump, heap_g. apply bind_query; [apply _|]. intros _ k (U & T & P & bs & Hi).
  rewrite wp_bind, wp_gets, (hv_head _ _ _ _ _ Hi), wp_bind.
  apply wp_while_fuel with (variant := λ s _, Z.to_nat (16 - s.2)) (I := λ s k', kernel_same k k' ∧ s.2 ≤ 16 ∧
    ∃ pre post, bs = pre ++ post ∧ s.1 = at_block pre post).
  - split; [done|]. split; [done|]. exists [], bs. split; [done|]. pose proof (hv_ne _ _ _ _ _ Hi). by destruct bs.
  - cbn. lia.
  - intros [b shown] k1 (H1 & Hsh & pre & post & Hbs & Hb). cbn [fst snd] in *. subst b.
    pose proof (heap_inv_same_memory _ _ _ _ _ _ (kernel_same_memory _ _ H1) Hi) as Hi1.
    eapply wp_mono; [by eapply dump_step_spec|]. cbn beta. intros [[b n]|r] k2 [H2 Hr].
    + destruct Hr as (? & -> & ? & ? & ? & ?). cbn [fst snd]. split; [|lia].
      split; [by etrans|]. split; [lia|]. by eexists _, _.
    + assert (kernel_same k k2) as H02 by by etrans.
      eapply wp_mono; [refine (query k2 _); apply (managed_same k); [done|by exists U, T, P, bs]|].
      cbn beta. intros _ k3 H3. by etrans.
Qed.

(** ** Translation *)
Lemma hex_loop_range s n : 0 ≤ n < 0x100000000 → 0 ≤ hex_loop s n < 0x100000000.
Proof.
  revert n. induction s as [|c s IH]; intros n Hn; cbn [hex_loop]; [done|].
  destruct (c =? 0); [done|]. destruct (hex_digit c); [|done]. apply IH, u32_range.
Qed.
Lemma atoi_hex_range s : 0 ≤ atoi_hex s < 0x100000000.
Proof. unfold atoi_hex. by apply hex_loop_range. Qed.

#[global] Typeclasses Opaque paging_translate.
Lemma translate_query v : 0 ≤ v < 0x100000000 → Query (paging_translate v).
Proof.
  intros Hv k (U & T & P & bs & Hi). eapply paging_translate_spec; [apply (hv_paging _ _ _ _ _ Hi)|done|done].
Qed.

(** ** The commands *)
Section commands.
#[export] Instance ps_line_query i : Query (ps_line i).
Proof. unfold ps_line, task_get, task_g. query_unfold. apply _. Qed.
#[export] Instance help_query : Query cmd_help.
Proof. unfold cmd_help. apply _. Qed.
#[export] Instance about_query : Query cmd_about.
Proof. unfold cmd_about. apply _. Qed.
#[export] Instance version_query : Query cmd_version.
Proof. unfold cmd_version. apply _. Qed.
#[export] Instance banner_query : Query cmd_banner.
Proof. unfold cmd_banner. apply _. Qed.
#[export] Instance echo_query a : Query (cmd_echo a).
Proof. unfold cmd_echo. apply _. Qed.
#[export] Instance clear_query : Query cmd_clear.
Proof. unfold cmd_clear. apply _. Qed.
#[export] Instance meminfo_query : Query cmd_meminfo.
Proof. unfold cmd_meminfo. query_unfold. apply _. Qed.
#[export] Instance memmap_query : Query cmd_memmap.
Proof. unfold cmd_memmap, memory_print_map. query_unfold. apply _. Qed.
#[export] Instance frames_query : Query cmd_frames.
Proof. unfold cmd_frames. query_unfold. apply _. Qed.
#[export] Instance heap_query : Query cmd_heap.
Proof. unfold cmd_heap. query_unfold. apply _. Qed.
#[export] Instance paging_query : Query cmd_paging.
Proof. unfold cmd_paging. query_unfold. apply _. Qed.
#[export] Instance virt_query a : Query (cmd_virt a).
Proof. unfold cmd_virt. pose proof (translate_query (atoi_hex a) (atoi_hex_range a)). apply _. Qed.
#[export] Instance serial_query : Query cmd_serial.
Proof. unfold cmd_serial. query_unfold. apply _. Qed.
#[export] Instance uptime_query : Query cmd_uptime.
Proof. unfold cmd_uptime. query_unfold. apply _. Qed.
#[export] Instance ps_query : Query cmd_ps.
Proof. unfold cmd_ps. query_unfold. apply _. Qed.
#[export] Instance prompt_query : Query shell_prompt.
Proof. unfold shell_prompt. apply _. Qed.

(** All divisions but one have a result. *)
Lemma calc_query a : calc_parse a ≠ (-0x80000000, 47, -1) → Query (cmd_calc a).
Proof.
  intros Hc. unfold cmd_calc. destruct (calc_parse a) as [[x op] y]. cbv zeta.
  destruct (op =? 43); [apply _|]. destruct (op =? 45); [apply _|]. destruct (op =? 42); [apply _|].
  destruct (Z.eqb_spec op 47) as [->|]; [|apply _]. destruct (y =? 0); [apply _|].
  destruct (Z.eqb_spec x (-0x80000000)) as [->|]; [|apply _].
  destruct (Z.eqb_spec y (-1)) as [->|]; [done|apply _].
Qed.
End commands.
