(* ===== verification/ShellMemory.v ===== *)
(** * Memory by hand

    The shell lets its user take and return frames, pages and heap blocks
    (src/shell.c: [cmd_alloc], [cmd_free], [cmd_map], [cmd_unmap], [cmd_kmalloc],
    [cmd_kfree]).  Here is what the operations behind these commands do to the
    running system of Multitask.v: under the conditions stated they keep its
    invariant, and no task notices. *)
From stdpp Require Import prelude gmap list strings.
From Stdlib Require Import Lia ZArith.
From S2P Require Import Prelude Machine State Util Console Memory Pmm Paging Heap HeapSpec.
From S2P Require Import HeapProof HeapMap Frames Alloc StackMemory Task TaskProof TaskStacks Multitask.

#[local] Open Scope Z_scope.

Section memory.
(** The boot stack. *)
Context (lo0 hi0 : Z).
Notation system := (system lo0 hi0).
Notation heap_outcome := (heap_outcome lo0 hi0).
Notation boot_stack := (boot_stack lo0 hi0).

Lemma outcome_refl k A : system k A → heap_outcome k k.
Proof. intros Hsy. by split_and!; [exists A|done|intros i _ _]. Qed.

(** The table is the same before and after, so outcomes compose. *)
Lemma outcome_trans k1 k2 k3 : heap_outcome k1 k2 → heap_outcome k2 k3 → heap_outcome k1 k3.
Proof.
  intros (_ & S1 & U1) (HA & S2 & U2). split_and!; [done|congruence|]. intros i Hl Hl'.
  assert (live (sched_st k2) i) by by rewrite S1. etrans; [by apply U1|by apply U2].
Qed.

(** ** Frames and pages *)

(** The system, with the sets and maps the managers' memory represents. *)
Record managers (k : kernel) (A : gmap Z Z) (U : gset Z) (T P : gmap Z Z) (bs : list blk) : Prop := {
  ma_system : system k A;
  ma_heap : heap_inv k U T P bs;
  ma_allocations : allocations bs = A;
  ma_boot : boot_stack k U T P
}.

Lemma system_managers k A : system k A → ∃ U T P bs, managers k A U T P bs.
Proof. intros Hsy. destruct (sy_mem _ _ _ _ Hsy) as (U & T & P & bs & Hi & HA & Hb). by exists U, T, P, bs. Qed.

(** Frames changed hands and pages were mapped or unmapped, but none of them is
    under the heap or the boot stack. *)
Lemma frames_outcome k A U T P bs k' U' T' P' :
  managers k A U T P bs → paging_inv k' U' T' P' → paging_step T' k k' →
  heap_frames k' U' T' P' (brk (heap_st k)) →
  (∀ p, heap_page (brk (heap_st k)) p → P' !! p = P !! p) → boot_stack k' U' T' P' →
  managers k' A U' T' P' bs ∧ heap_outcome k k'.
Proof.
  intros [Hsy Hi HA Hb] Hp' Hs Hf' HP Hb'.
  assert (same_heap P P' k k' (brk (heap_st k))) as Hsame by by eapply same_heap_step.
  assert (heap_inv k' U' T' P' bs) as Hi'.
  { destruct (paging_step_frame _ _ _ Hs) as [Hhs Hpg]. pose proof Hi as [].
    split; rewrite ?Hhs; try done; [by rewrite Hpg|].
    eapply hdrs_ext; [by apply block_ok_sizes| |done]. intros x Hx. apply Hsame. lia. }
  assert (client (boot_bytes lo0 hi0 (vbyte (mach k))) k' A) as Hc.
  { exists U', T', P', bs. split_and!; [done..|]. split; [done|]. intros x Hx.
    rewrite (boot_vbyte _ _ _ _ _ _ _ _ Hi Hb Hx).
    destruct (paging_step_statics _ _ _ Hs) as (Hpd & _ & Hlo & Hhi & _).
    destruct (bt_foreign _ _ _ _ _ _ Hb' x Hx) as (_ & Ho & _).
    apply (gs_mem _ _ _ Hs).
    - intros Hq. apply Ho, owned_bitmap. by rewrite Hlo, Hhi.
    - intros t Ht Hq. apply Ho. eapply owned_table; [done| |done]. unfold is_table in *. by rewrite Hpd. }
  assert (kept A nowhere k k') as Hk.
  { eapply (same_payload_kept k k'); [exact Hi|exact Hi'|by rewrite HA|].
    intros x Hx. apply Hsame. eapply allocated_heap; [exact Hi|by rewrite HA]. }
  assert (memory_only k k') as Hmo by by destruct Hs as [(? & ? & ? & ? & ? & ->) _].
  destruct Hmo as [Hr Hsym _ Hsc _ _ _ _].
  destruct (heap_system lo0 hi0 k A k' A A) as [Hsy' Hu]; try done; try apply (sy_owned _ _ _ _ Hsy).
  split; [by split|]. split_and!; [by exists A|done|done].
Qed.

(** A frame is taken. *)
Lemma alloc_outcome k A U T P bs :
  managers k A U T P bs → wp pmm_alloc_frame (λ r k',
    (r = 0 ∧ k' = k) ∨
    (∃ f, least_free U (total_frames (pmm_st k)) f ∧ r = f * FRAME_SIZE ∧
       managers k' A ({[f]} ∪ U) T P bs ∧ pmm_step k k' ∧ heap_outcome k k')) k.
Proof.
  intros Hm. pose proof (ma_heap _ _ _ _ _ _ Hm) as Hi. pose proof (hv_paging _ _ _ _ _ Hi) as Hp.
  eapply wp_mono; [apply pmm_alloc_frame_rep, (gi_pmm _ _ _ _ Hp)|].
  cbn beta. intros r k' [(f & Hlf & -> & Hr & Hs)|(-> & -> & _)]; [right|by left]. exists f.
  pose proof (inv_grow _ _ _ _ _ _ Hp Hs Hr ltac:(set_solver)) as Hp'.
  pose proof (pmm_step_paging T _ _ Hs) as Hps.
  assert (managers k' A ({[f]} ∪ U) T P bs ∧ heap_outcome k k') as [??]; [|done].
  eapply frames_outcome; [exact Hm|exact Hp'|exact Hps| |done|].
  - pose proof (heap_frames_step _ _ _ _ _ _ _ Hps (hv_frames _ _ _ _ _ Hi)) as [Hh Hpg Hin].
    split; [done| |done]. intros p Hpp. destruct (Hpg p Hpp) as (g & ? & ? & ?). exists g. split_and!; [done|set_solver|done].
  - eapply spared; [apply (ma_boot _ _ _ _ _ _ Hm)|]. eapply spares_paging; [exact Hp'|exact Hps|set_solver| |done].
    intros g _. by rewrite (owned_step T k k').
Qed.

(** A frame is returned: one that neither the managers nor the boot stack need. *)
Definition spare_frame (k : kernel) (T P : gmap Z Z) (f : Z) : Prop :=
  ¬ owned k T f ∧ (∀ p, heap_page (brk (heap_st k)) p → ¬ page_frame P p f) ∧
  ∀ x, lo0 ≤ x < hi0 → x / 0x1000 ≠ f.

Lemma release_outcome k A U T P bs addr :
  managers k A U T P bs → 0 ≤ addr → spare_frame k T P (addr / FRAME_SIZE) →
  wp (pmm_free_frame addr) (λ _ k', heap_outcome k k') k.
Proof.
  intros Hm Ha (Hno & Hnp & Hnb). pose proof (ma_heap _ _ _ _ _ _ Hm) as Hi.
  pose proof (hv_paging _ _ _ _ _ Hi) as Hp. set (f := addr / FRAME_SIZE) in *.
  eapply wp_mono; [apply pmm_free_frame_rep; [apply (gi_pmm _ _ _ _ Hp)|done]|].
  cbn beta. intros _ k' [Hr Hs]. fold f in Hr. pose proof (pmm_step_paging T _ _ Hs) as Hps.
  assert (∀ g, owned k' T g ↔ owned k T g) as How by (intros g; by apply (owned_step T)).
  assert (paging_inv k' (U ∖ {[f]}) T P) as Hp'.
  { eapply inv_pmm_step; [exact Hp|done|done|]. intros g Hg. pose proof (gi_owned _ _ _ _ Hp g Hg).
    assert (g ≠ f) by (by intros ->). set_solver. }
  eapply frames_outcome; [exact Hm|exact Hp'|exact Hps| |done|].
  - destruct (hv_frames _ _ _ _ _ Hi) as [Hh Hpg Hin]. split; [done| |done].
    intros p Hpp. destruct (Hpg p Hpp) as (g & Hg & ? & ?). exists g. rewrite How.
    assert (g ≠ f) by (intros ->; by eapply Hnp). split_and!; [done|set_solver|done].
  - destruct (ma_boot _ _ _ _ _ _ Hm) as [Hrng Hf]. destruct (paging_step_statics _ _ _ Hps) as (_ & Hie & _).
    split; [by rewrite Hie|]. intros x Hx. destruct (Hf x Hx) as (HU & Ho & Hpg).
    pose proof (Hnb x Hx). split_and!; [set_solver|by rewrite How|done].
Qed.

(** *** Mapping a page *)

(** An address that is not mapped lies above the identity map. *)
Lemma unmapped_above k U T P bs virt : heap_inv k U T P bs → 0 ≤ virt < 0x100000000 →
  P !! (virt / 0x1000) = None → iend k ≤ virt.
Proof.
  intros Hi Hv HN. pose proof (gi_core _ _ _ _ (hv_paging _ _ _ _ _ Hi)) as Hc.
  destruct (gc_on _ _ _ Hc (hv_on _ _ _ _ _ Hi)) as [_ Hid]. destruct (gc_end _ _ _ Hc) as [_ Hm].
  apply Z.nlt_ge. intros Hlt. destruct (Hid (virt / 0x1000)) as (e & He & _); [zlia|]. congruence.
Qed.

Lemma managers_range k A U T P bs f : managers k A U T P bs → f ∈ U → 0 ≤ f < 0x100000.
Proof.
  intros Hm Hf. pose proof (gi_pmm _ _ _ _ (hv_paging _ _ _ _ _ (ma_heap _ _ _ _ _ _ Hm))) as Hr.
  pose proof (pr_dom _ _ Hr f Hf). pose proof (pw_total _ (pr_wf _ _ Hr)). lia.
Qed.

Definition mapped_page (virt f : Z) : gmap Z Z → gmap Z Z :=
  <[virt / 0x1000 := map_entry (f * FRAME_SIZE) PAGE_WRITE]>.

Section mapping.
Context (k : kernel) (A : gmap Z Z) (U : gset Z) (T P : gmap Z Z) (bs : list blk) (virt f : Z).
Context (Hm : managers k A U T P bs) (Hf : f ∈ U) (Hsp : spare_frame k T P f).
Context (Hv : 0 ≤ virt < 0x100000000) (HN : P !! (virt / 0x1000) = None).

Lemma mapped_frame : page_frame (mapped_page virt f P) (virt / 0x1000) f.
Proof using All.
  pose proof (managers_range _ _ _ _ _ _ _ Hm Hf). eexists. unfold mapped_page. rewrite lookup_insert_eq.
  split; [done|]. unfold FRAME_SIZE in *.
  destruct (map_entry_spec (f * 4096) PAGE_WRITE) as (_ & _ & ->); [lia|done|zlia].
Qed.

Lemma mapped_other p g : page_frame (mapped_page virt f P) p g → (p = virt / 0x1000 ∧ g = f) ∨ page_frame P p g.
Proof using All.
  intros Hpg. destruct (decide (p = virt / 0x1000)) as [->|Hne].
  - left. split; [done|]. eapply page_frame_inj, mapped_frame. done.
  - right. destruct Hpg as (e & He & Hg). unfold mapped_page in He. rewrite lookup_insert_ne in He by done. by exists e.
Qed.

Lemma heap_page_elsewhere p : heap_page (brk (heap_st k)) p → p ≠ virt / 0x1000.
Proof using All.
  intros Hp ->. destruct (hf_page _ _ _ _ _ (hv_frames _ _ _ _ _ (ma_heap _ _ _ _ _ _ Hm)) _ Hp) as (g & (e & He & _) & _).
  congruence.
Qed.

Lemma map_outcome :
  wp (paging_map virt (f * FRAME_SIZE) PAGE_WRITE) (λ r k', heap_outcome k k' ∧
    ((r = 0 ∧ managers k' A U T P bs ∧ spare_frame k' T P f) ∨
     (r = 1 ∧ ∃ U' T', managers k' A U' T' (mapped_page virt f P) bs ∧
        spare_frame k' T' (mapped_page virt f P) f))) k.
Proof using All.
  pose proof (ma_heap _ _ _ _ _ _ Hm) as Hi. pose proof (hv_paging _ _ _ _ _ Hi) as Hp.
  pose proof (managers_range _ _ _ _ _ _ _ Hm Hf) as Hfr. destruct Hsp as (Hno & Hnp & Hnb).
  eapply wp_mono.
  { apply (paging_map_rep k U T P); [done|done|unfold FRAME_SIZE; lia|done|]. intros _. by eapply unmapped_above. }
  cbn beta. intros r k' [(-> & _ & U' & T' & Hw & Hp' & Hs)|(-> & _ & _ & Hp' & Hs)].
  - assert (U ⊆ U') as HU by (destruct Hw as [(_ & -> & _)|(? & _ & _ & -> & _)]; set_solver).
    assert (∀ g, g ∈ U → owned k' T' g → owned k T g) as How.
    { intros g Hg. rewrite (owned_step T' k k') by done. by eapply owned_new_table. }
    assert (∀ p, heap_page (brk (heap_st k)) p → mapped_page virt f P !! p = P !! p) as Hsame.
    { intros p Hpp%heap_page_elsewhere. unfold mapped_page. by rewrite lookup_insert_ne. }
    destruct (frames_outcome k A U T P bs k' U' T' (mapped_page virt f P)) as [Hm' Ho]; [done|done|done| |done| |].
    + destruct (hv_frames _ _ _ _ _ Hi) as [Hh Hpg Hin]. split; [done| |].
      * intros p Hpp. destruct (Hpg p Hpp) as (g & (e & He & Hge) & HgU & Hgo). exists g. split_and!.
        -- exists e. by rewrite Hsame.
        -- set_solver.
        -- by intros ?%How.
      * intros p q g Hpp Hqq (e & He & Hg) (e' & He' & Hg'). rewrite Hsame in He, He' by done.
        apply (Hin p q g); [done|done|by exists e|by exists e'].
    + destruct (ma_boot _ _ _ _ _ _ Hm) as [Hrng Hfo]. destruct (paging_step_statics _ _ _ Hs) as (_ & Hie & _).
      split; [by rewrite Hie|]. intros x Hx. destruct (Hfo x Hx) as (HxU & Ho & Hpg).
      split_and!; [set_solver|by intros ?%How|]. intros p Hpp [[_ Heq]|Hpf]%mapped_other; [by apply (Hnb x)|by eapply Hpg].
    + split; [done|]. right. split; [done|]. exists U', T'. split; [done|].
      destruct (paging_step_frame _ _ _ Hs) as [Hhs _]. split_and!; [by intros ?%How| |done].
      rewrite Hhs. intros p Hpp [[-> _]|Hpf]%mapped_other; [by eapply heap_page_elsewhere|by eapply Hnp].
  - destruct (frames_outcome k A U T P bs k' U T P) as [Hm' Ho]; [done|done|done| |done| |].
    + by eapply heap_frames_step, (hv_frames _ _ _ _ _ Hi).
    + eapply spared; [apply (ma_boot _ _ _ _ _ _ Hm)|]. eapply spares_paging; [done|done|done| |done].
      intros g _. by rewrite (owned_step T k k').
    + split; [done|]. left. destruct (paging_step_frame _ _ _ Hs) as [Hhs _]. split_and!; [done|done|].
      unfold spare_frame. by rewrite (owned_step T k k'), Hhs.
Qed.
End mapping.

(** *** Unmapping a page *)
Lemma unmap_outcome k A U T P bs virt :
  managers k A U T P bs → 0 ≤ virt < 0x100000000 → iend k ≤ virt →
  ¬ heap_page (brk (heap_st k)) (virt / 0x1000) → is_Some (P !! (virt / 0x1000)) →
  wp (paging_unmap virt) (λ _ k', heap_outcome k k' ∧
    managers k' A U T (delete (virt / 0x1000) P) bs ∧
    ∀ f, spare_frame k T P f → spare_frame k' T (delete (virt / 0x1000) P) f) k.
Proof.
  intros Hm Hv He Hnh HS. pose proof (ma_heap _ _ _ _ _ _ Hm) as Hi. pose proof (hv_paging _ _ _ _ _ Hi) as Hp.
  eapply wp_mono; [by apply (paging_unmap_rep k U T P)|].
  cbn beta. intros r k' [(_ & -> & _ & Hp' & Hs)|(HN & _)]; [|by rewrite HN in HS; destruct HS].
  assert (∀ p g, page_frame (delete (virt / 0x1000) P) p g → page_frame P p g) as Hsub.
  { intros p g (e & [_ He']%lookup_delete_Some & Hg). by exists e. }
  assert (∀ p, heap_page (brk (heap_st k)) p → delete (virt / 0x1000) P !! p = P !! p) as Hsame.
  { intros p Hpp. rewrite lookup_delete_ne; [done|]. by intros <-. }
  destruct (frames_outcome k A U T P bs k' U T (delete (virt / 0x1000) P)) as [Hm' Ho]; [done|done|done| |done| |].
  - destruct (hv_frames _ _ _ _ _ Hi) as [Hh Hpg Hin]. split; [done| |].
    + intros p Hpp. destruct (Hpg p Hpp) as (g & (e & He' & Hge) & HgU & Hgo). exists g.
      rewrite (owned_step T k k') by done. split_and!; [|done|done]. exists e. by rewrite Hsame.
    + intros p q g Hpp Hqq ?%Hsub ?%Hsub. by apply (Hin p q g).
  - eapply spared; [apply (ma_boot _ _ _ _ _ _ Hm)|]. eapply spares_paging; [done|done|done| |].
    + intros g _. by rewrite (owned_step T k k').
    + intros p g _. apply Hsub.
  - destruct (paging_step_frame _ _ _ Hs) as [Hhs _]. split_and!; [done|done|].
    intros f (Hno & Hnp & Hnb). unfold spare_frame. rewrite (owned_step T k k'), Hhs by done.
    split_and!; [done| |done]. intros p Hpp ?%Hsub. by eapply Hnp.
Qed.

(** *** Using a page that is mapped to a spare frame *)
Section page.
Context (k : kernel) (A : gmap Z Z) (U : gset Z) (T P : gmap Z Z) (bs : list blk) (virt f : Z).
Context (Hm : managers k A U T P bs) (Hsp : spare_frame k T P f) (Hpf : page_frame P (virt / 0x1000) f).
Context (Hv : 0 ≤ virt < 0x100000000) (Hal : virt mod 0x1000 = 0).

Definition page_tr : Z → Z := λ a, 0x1000 * f + a mod 0x1000.

Lemma page_image q : image page_tr virt (virt + 4) q → q / 0x1000 = f.
Proof using All. intros (x & Hx & ->). unfold page_tr. zlia. Qed.

Lemma page_window : window page_tr virt (virt + 4) (mach k).
Proof using All.
  pose proof (ma_heap _ _ _ _ _ _ Hm) as Hi. split; [zlia| |].
  - intros a b Ha Hb. unfold page_tr. zlia.
  - intros m' Ha x Hx.
    rewrite (mmu_apart k U T P (image page_tr virt (virt + 4))); [|apply (hv_paging _ _ _ _ _ Hi)
      |apply (hv_on _ _ _ _ _ Hi)|exact Ha|intros q ->%page_image; apply Hsp|zlia].
    rewrite (mmu_lookup k T P x (gi_core _ _ _ _ (hv_paging _ _ _ _ _ Hi)) (hv_on _ _ _ _ _ Hi)) by zlia.
    replace (x / 0x1000) with (virt / 0x1000) by zlia. destruct Hpf as (e & -> & He). cbn. by rewrite He.
Qed.

Lemma page_load (Q : Z → kernel → Prop) : (∀ v, Q v k) → wp (load32 virt) Q k.
Proof using All. intros HQ. eapply wp_load32; [apply page_window|lia|lia|done]. Qed.

Lemma page_store v : wp (store32 virt v) (λ _ k', heap_outcome k k' ∧ managers k' A U T P bs ∧ spare_frame k' T P f) k.
Proof using All.
  pose proof (ma_heap _ _ _ _ _ _ Hm) as Hi. pose proof (ma_boot _ _ _ _ _ _ Hm) as Hb.
  pose proof (ma_system _ _ _ _ _ _ Hm) as Hsy. destruct Hsp as (Hno & Hnp & Hnb).
  eapply wp_store32; [apply page_window|lia|lia|]. intros m' Hst.
  assert (agrees_outside (image page_tr virt (virt + 4)) (mach k) m') as Ha by (eapply stored_image; [exact Hst|lia|lia]).
  destruct (st_phys _ _ _ _ _ _ Hst) as [ph ->].
  set (k' := upd_mach (λ _, set_phys ph (mach k)) k).
  assert (∀ x, HEAP_START ≤ x < brk (heap_st k) → ¬ image page_tr virt (virt + 4) (heap_tr P x)) as Hheap.
  { intros x Hx Hq%page_image. destruct (heap_frame_at _ _ _ _ _ _ (hv_frames _ _ _ _ _ Hi) Hx) as (g & Htr & Hpg & Hp & _).
    apply (Hnp _ Hp). rewrite Htr in Hq. by replace f with g by zlia. }
  assert (heap_inv k' U T P bs) as Hi'.
  { eapply (apart_write k U T P bs _ ph Hi Ha). intros q Hq. split; [by rewrite (page_image _ Hq)|].
    intros (x & Hx & ->). by eapply Hheap. }
  assert (boot_stack k' U T P) as Hb' by by destruct Hb.
  assert (client (boot_bytes lo0 hi0 (vbyte (mach k))) k' A) as Hc.
  { exists U, T, P, bs. split_and!; [done|apply (ma_allocations _ _ _ _ _ _ Hm)|]. split; [done|]. intros x Hx.
    rewrite (boot_vbyte _ _ _ _ _ _ _ _ Hi Hb Hx). apply (ao_rd8 _ _ _ Ha). intros Hq%page_image. by eapply Hnb. }
  assert (kept A nowhere k k') as Hk.
  { eapply (same_payload_kept k k'); [exact Hi|exact Hi'|by rewrite (ma_allocations _ _ _ _ _ _ Hm)|].
    rewrite <- (ma_allocations _ _ _ _ _ _ Hm). intros x Hx. unfold vb. apply (ao_rd8 _ _ _ Ha), Hheap. by eapply allocated_heap. }
  destruct (heap_system lo0 hi0 k A k' A A) as [Hsy' Hu]; try done; try apply (sy_owned _ _ _ _ Hsy).
  assert (managers k' A U T P bs) as Hm' by (split; [done|done|apply (ma_allocations _ _ _ _ _ _ Hm)|done]).
  split; [|done]. split_and!; [by exists A|done|done].
Qed.
End page.

(** ** Blocks of the heap *)

(** An allocation that is not a stack has been written to. *)
Lemma plain_write k A p n s e k' :
  system k A → A !! p = Some n → plain (sched_st k) p → p ≤ s → e ≤ p + n → writes s e k k' → heap_outcome k k'.
Proof.
  intros Hsy HA Hp Hs He Hw. pose proof (sy_mem _ _ _ _ Hsy) as Hc.
  pose proof (stacks_owned_plain _ _ _ Hp (sy_owned _ _ _ _ Hsy)) as Ho. pose proof (al_range _ _ _ _ Hc HA).
  destruct (stack_write lo0 hi0 k A p (p + n) s e k') as [Hc' Hb]; [done|right|done|done|done|].
  { split; [lia|]. exists n. split; [done|lia]. }
  destruct (wr_shape _ _ _ _ Hw) as [ph ->].
  destruct (system_table lo0 hi0 k A Hsy (upd_mach (set_phys ph) k) A (delete p A)) as [Hsy' Hu];
    try done; [apply (sy_wf _ _ _ _ Hsy)|apply (sy_owned _ _ _ _ Hsy)| |].
  - intros x [Hx|Hx]; apply Hb; [left; by eapply allocated_delete| |by right|].
    + destruct Hx as (q & m & [Hne Hq]%lookup_delete_Some & Hx). intros Hx'.
      pose proof (al_disjoint _ _ _ _ _ _ Hc Hq HA (not_eq_sym Hne)). lia.
    + pose proof (boot_below _ _ _ _ _ _ Hc HA). lia.
  - split_and!; [by exists A|done|]. intros i _ Hl. by apply Hu.
Qed.

(** [kmalloc] and the first use of the memory. *)
Lemma kmalloc_fresh_outcome k A size : system k A → 0 < size ≤ KMALLOC_MAX →
  wp (kmalloc size) (λ p k', heap_outcome k k' ∧
    (p = 0 ∨ ∃ A' n, system k' A' ∧ A' !! p = Some n ∧ size ≤ n ∧ plain (sched_st k') p)) k.
Proof.
  intros Hsy Hsz. eapply wp_mono; [apply (al_malloc (inv := client (boot_bytes lo0 hi0 (vbyte (mach k)))) k A size)|].
  - apply client_frozen, (sy_mem _ _ _ _ Hsy).
  - done.
  - cbn beta. intros p k' (Hmo & Hk & Hp). pose proof Hmo as [Hr Hsym _ Hsc _ _ _ _].
    destruct Hp as [[-> Hc]|(n & Hn & HA & Hp & Hc)].
    + split; [|by left]. eapply (heap_outcome_intro lo0 hi0 k A k' A A); try done; apply (sy_owned _ _ _ _ Hsy).
    + assert (stacks_owned (<[p:=n]> A) (sched_st k)) as Ho
        by (eapply stacks_owned_mono, (sy_owned _ _ _ _ Hsy); by apply insert_subseteq).
      destruct (heap_system lo0 hi0 k A k' (<[p:=n]> A) A) as [Hsy' Hu]; try done; [apply (sy_owned _ _ _ _ Hsy)|].
      split; [split_and!; [by eexists|done|done]|]. right. exists (<[p:=n]> A), n.
      split_and!; [done|by rewrite lookup_insert_eq|done|]. rewrite Hsc. intros i Hir Heq.
      destruct (so_alloc _ _ (sy_owned _ _ _ _ Hsy) i Hir ltac:(congruence)) as (m & Hm & _). congruence.
Qed.

Lemma memset_outcome k A p n v count : system k A → A !! p = Some n → plain (sched_st k) p → 0 ≤ count ≤ n →
  wp (memset p v count) (λ _ k', heap_outcome k k') k.
Proof.
  intros Hsy HA Hp Hn. pose proof (sy_mem _ _ _ _ Hsy) as Hc. pose proof (al_range _ _ _ _ Hc HA).
  destruct (stack_window lo0 hi0 k A p (p + n)) as [tr Hw]; [done|right; split; [lia|exists n; split; [done|lia]]|].
  eapply (memset_window tr p (p + n)); [exact Hw|lia|lia|lia|]. intros m' Ha [ph ->] _.
  eapply (plain_write k A p n p (p + count)); [done..|lia|lia|].
  apply (writes_window tr); [|done]. intros x Hx. eapply window_mmu; [exact Hw|lia].
Qed.

(** [kfree] of a pointer that it refuses. *)
Lemma kfree_refused k A ptr : system k A → 0 ≤ ptr < 0x100000000 →
  ptr < HEAP_START + sizeof_block ∨ brk (heap_st k) ≤ ptr ∨ vword (mach k) (ptr - sizeof_block) ≠ BLOCK_MAGIC →
  wp (kfree ptr) (λ r k', r = 0 ∧ console_only k k') k.
Proof.
  intros Hsy Hp Hbad. destruct (sy_mem _ _ _ _ Hsy) as (U & T & P & bs & Hi & _).
  destruct (heap_inv_lay _ _ _ _ _ Hi) as [Hl Hst].
  eapply (kfree_rejects _ _ bs); [done|done|apply (hv_ok _ _ _ _ _ Hi)|done|]. unfold kfree_refuses.
  destruct (decide (HEAP_START + sizeof_block ≤ ptr < brk (heap_st k))) as [Hr|]; [|lia].
  do 3 right. left. destruct Hbad as [?|[?|Hm]]; [lia|lia|].
  rewrite (heap_vword _ _ _ _ _ _ Hi) in Hm; [done|unfold sizeof_block in *; lia..].
Qed.
End memory.
