(* ===== verification/ShellSafe.v ===== *)
(** * What the shell does to the running system

    A line typed at the shell runs as part of the current task, with whatever
    arguments the user chose.  [careful] says which lines are known to do no harm
    in a state: all of them but the commands that stop the machine, wait, or give
    back memory that something still uses.  [shell_harmless]: such a line
    returns, keeps the invariant of the running system, and no task notices,
    except one it was asked to kill. *)
From stdpp Require Import prelude gmap list strings.
From Stdlib Require Import Lia ZArith.
From S2P Require Import Prelude Machine State Util Console Memory Pmm Paging Heap HeapSpec.
From S2P Require Import HeapProof HeapMap Frames Alloc StackMemory Task TaskProof TaskStacks.
From S2P Require Import Input Timer Shell HeapProps ShellProps Multitask ShellQuery ShellMemory.

#[local] Open Scope Z_scope.

Section safe.
(** The boot stack. *)
Context (lo0 hi0 : Z).
Notation system := (system lo0 hi0).
Notation heap_outcome := (heap_outcome lo0 hi0).
Notation managers := (managers lo0 hi0).
Notation spare_frame := (spare_frame lo0 hi0).

(** ** What may be typed *)

(** A frame that nobody needs. *)
Definition idle_frame (k : kernel) (f : Z) : Prop :=
  ∃ A U T P bs, managers k A U T P bs ∧ spare_frame k T P f.

(** A page that the shell refuses to unmap, or that nobody needs. *)
Definition idle_page (k : kernel) (virt : Z) : Prop :=
  ∃ A U T P bs, managers k A U T P bs ∧ ∀ e, P !! (virt / 0x1000) = Some e → virt < iend k ∨
    (¬ heap_page (brk (heap_st k)) (virt / 0x1000) ∧ spare_frame k T P (frame_of e / FRAME_SIZE)).

(** A pointer that [kfree] refuses, or one to memory that is not a stack. *)
Definition releasable (k : kernel) (ptr : Z) : Prop :=
  ptr < HEAP_START + sizeof_block ∨ brk (heap_st k) ≤ ptr ∨
  vword (mach k) (ptr - sizeof_block) ≠ BLOCK_MAGIC ∨
  ∃ A n, system k A ∧ A !! ptr = Some n ∧ plain (sched_st k) ptr.

Record careful (k : kernel) (cmd args : cstr) : Prop := {
  cf_stop : is_cmd cmd "fault" = false ∧ is_cmd cmd "reboot" = false ∧ is_cmd cmd "halt" = false;
  cf_sleep : is_cmd cmd "sleep" = true → atoi args ≤ 0;
  cf_calc : is_cmd cmd "calc" = true → calc_parse args ≠ (-0x80000000, 47, -1);
  cf_kmalloc : is_cmd cmd "kmalloc" = true → atoi args ≤ KMALLOC_MAX;
  cf_free : is_cmd cmd "free" = true → atoi_hex args = 0 ∨ idle_frame k (atoi_hex args / FRAME_SIZE);
  cf_unmap : is_cmd cmd "unmap" = true → idle_page k (Z.land (atoi_hex args) page_mask);
  cf_kfree : is_cmd cmd "kfree" = true → atoi_hex args = 0 ∨ releasable k (atoi_hex args)
}.

(** ** Doing no harm *)

(** The task a line is meant to stop. *)
Definition victim (cmd args : cstr) : option Z :=
  if is_cmd cmd "kill" then Some (u32 (atoi args)) else None.

Record harmless (v : option Z) (k k' : kernel) : Prop := {
  ha_system : ∃ A', system k' A';
  ha_current : current (sched_st k') = current (sched_st k);
  ha_alive i : live (sched_st k) i → v ≠ Some i → live (sched_st k') i;
  ha_unnoticed : unnoticed hi0 k k'
}.

Lemma outcome_harmless v k k' : heap_outcome k k' → harmless v k k'.
Proof. intros (HA & Hs & Hu). split; [done|by rewrite Hs|by rewrite Hs|done]. Qed.

Lemma kernel_same_calm k k' : kernel_same k k' → calm k k'.
Proof. intros Hs. split; [by apply kernel_same_memory|apply (ks_sched _ _ Hs)|apply (ks_regs _ _ Hs)]. Qed.

Lemma same_outcome k A k' : system k A → kernel_same k k' → heap_outcome k k'.
Proof.
  intros Hsy Hc%kernel_same_calm. destruct (calm_system _ _ _ _ _ Hsy Hc) as [Hsy' Hud].
  split_and!; [by exists A|by destruct Hc|]. intros i _ _. apply Hud.
Qed.

Lemma harmless_same v k k1 k2 : harmless v k k1 → kernel_same k1 k2 → harmless v k k2.
Proof.
  intros [[A1 Hsy] Hc Ha Hu] Hs. pose proof (kernel_same_calm _ _ Hs) as Hcalm.
  destruct (calm_system _ _ _ _ _ Hsy Hcalm) as [Hsy' Hud]. pose proof (ks_sched _ _ Hs) as Hsc.
  split; rewrite ?Hsc; [by exists A1|done|done|]. intros i Hl Hl'. rewrite Hsc in Hl'. etrans; [by apply Hu|apply Hud].
Qed.

Lemma system_managed k A : system k A → managed k.
Proof. intros Hsy. destruct (sy_mem _ _ _ _ Hsy) as (U & T & P & bs & Hi & _). by exists U, T, P, bs. Qed.

(** A query, alone and after a change. *)
Lemma query_outcome {B} (m : K B) k A : Query m → system k A → wp m (λ _ k', heap_outcome k k') k.
Proof.
  intros Hm Hsy. eapply wp_mono; [by apply Hm, (system_managed k A)|]. cbn beta. intros _ k'. by eapply same_outcome.
Qed.

Lemma outcome_query {B} (m : K B) k k1 : Query m → heap_outcome k k1 → wp m (λ _ k', heap_outcome k k') k1.
Proof.
  intros Hm Ho. pose proof Ho as ([A Hsy] & _). eapply wp_mono; [by eapply query_outcome|].
  cbn beta. intros _ k'. by apply outcome_trans.
Qed.

Lemma harmless_query {B} (m : K B) v k k1 : Query m → harmless v k k1 → wp m (λ _ k', harmless v k k') k1.
Proof.
  intros Hm Ho. pose proof Ho as [[A Hsy] _ _ _]. eapply wp_mono; [by apply Hm, (system_managed k1 A)|].
  cbn beta. intros _ k'. by apply harmless_same.
Qed.

Ltac asks := query_unfold; apply _.

(** ** The commands *)
Lemma alloc_harmless k A : system k A → wp cmd_alloc (λ _ k', heap_outcome k k') k.
Proof.
  intros Hsy. destruct (system_managers _ _ _ _ Hsy) as (U & T & P & bs & Hm). unfold cmd_alloc. rewrite wp_bind.
  eapply wp_mono; [by eapply alloc_outcome|]. cbn beta. intros r k1 [[-> ->]|(f & _ & _ & _ & _ & Ho)].
  - rewrite Z.eqb_refl. eapply query_outcome; [asks|exact Hsy].
  - apply outcome_query; [asks|done].
Qed.

Lemma free_harmless k A args : system k A → atoi_hex args = 0 ∨ idle_frame k (atoi_hex args / FRAME_SIZE) →
  wp (cmd_free args) (λ _ k', heap_outcome k k') k.
Proof.
  intros Hsy Hf. unfold cmd_free. pose proof (atoi_hex_range args).
  destruct (Z.eqb_spec (atoi_hex args) 0) as [Ha|Ha]; [eapply query_outcome; [asks|exact Hsy]|].
  destruct Hf as [|(A' & U & T & P & bs & Hm & Hsp)]; [done|]. rewrite wp_bind.
  eapply wp_mono; [eapply release_outcome; [exact Hm|lia|exact Hsp]|]. cbn beta. intros _ k1 Ho.
  apply outcome_query; [asks|done].
Qed.

Lemma kmalloc_harmless k A args : system k A → atoi args ≤ KMALLOC_MAX →
  wp (cmd_kmalloc args) (λ _ k', heap_outcome k k') k.
Proof.
  intros Hsy Hn. unfold cmd_kmalloc. destruct (Z.leb_spec (atoi args) 0); [eapply query_outcome; [asks|exact Hsy]|].
  rewrite u32_small by (unfold KMALLOC_MAX in Hn; lia). rewrite wp_bind.
  eapply wp_mono; [eapply kmalloc_fresh_outcome; [exact Hsy|lia]|]. cbn beta.
  intros p k1 (Ho & [->|(A1 & n & Hsy1 & HA & Hsz & Hp)]).
  - rewrite Z.eqb_refl. apply outcome_query; [asks|done].
  - pose proof (al_range _ _ _ _ (sy_mem _ _ _ _ Hsy1) HA). rewrite (proj2 (Z.eqb_neq p 0)) by lia. rewrite wp_bind.
    eapply wp_mono; [eapply memset_outcome; [exact Hsy1|exact HA|exact Hp|lia]|]. cbn beta. intros _ k2 Ho2.
    pose proof (translate_query p ltac:(lia)). apply outcome_query; [asks|exact (outcome_trans lo0 hi0 _ _ _ Ho Ho2)].
Qed.

Lemma kfree_harmless k A args : system k A → atoi_hex args = 0 ∨ releasable k (atoi_hex args) →
  wp (cmd_kfree args) (λ _ k', heap_outcome k k') k.
Proof.
  intros Hsy Hr. unfold cmd_kfree. pose proof (atoi_hex_range args).
  destruct (Z.eqb_spec (atoi_hex args) 0) as [Ha|Ha]; [eapply query_outcome; [asks|exact Hsy]|].
  destruct Hr as [|Hr]; [done|]. rewrite wp_bind.
  assert (wp (kfree (atoi_hex args)) (λ _ k', heap_outcome k k') k) as Hk.
  { destruct Hr as [?|[?|[?|(A' & n & Hsy' & HA & Hp)]]]; [..|by eapply kfree_system].
    all: eapply wp_mono; [eapply kfree_refused; [exact Hsy|lia|auto]|].
    all: cbn beta; intros _ k' [_ Hc]; by eapply same_outcome, console_same. }
  eapply wp_mono; [exact Hk|]. cbn beta. intros r k1 Ho. apply outcome_query; [asks|done].
Qed.

(** *** Pages *)
Lemma page_aligned s : let v := Z.land (atoi_hex s) page_mask in 0 ≤ v < 0x100000000 ∧ v mod 0x1000 = 0.
Proof.
  pose proof (atoi_hex_range s). change page_mask with 0xFFFFF000. cbn zeta. rewrite land_page by done. zlia.
Qed.

Lemma entry_range k U T P bs p e : heap_inv k U T P bs → P !! p = Some e → 0 ≤ e < 0x100000000.
Proof.
  intros Hi He. pose proof (gi_pt _ _ _ _ (hv_paging _ _ _ _ _ Hi)) as Hpt.
  destruct (pt_P _ _ _ _ Hpt _ _ He) as [t HT].
  pose proof (pt_pte _ _ _ _ Hpt _ _ (p mod 1024) HT ltac:(zlia)) as Hpe.
  replace (1024 * (p / 1024) + p mod 1024) with p in Hpe by zlia. rewrite He in Hpe. destruct Hpe as [<- _].
  apply rd32_range.
Qed.

(** A frame address is never the value that means "not mapped". *)
Lemma wp_translate k U T P bs virt (Q : Z → kernel → Prop) :
  heap_inv k U T P bs → 0 ≤ virt < 0x100000000 → virt mod 0x1000 = 0 →
  (P !! (virt / 0x1000) = None → Q PAGE_UNMAPPED k) →
  (∀ e, P !! (virt / 0x1000) = Some e → frame_of e ≠ PAGE_UNMAPPED →
     frame_of e mod 0x1000 = 0 → 0 ≤ frame_of e < 0x100000000 → Q (frame_of e) k) →
  wp (paging_translate virt) Q k.
Proof.
  intros Hi Hv Hal HN HS. eapply paging_translate_spec; [apply (hv_paging _ _ _ _ _ Hi)|done|].
  destruct (P !! (virt / 0x1000)) as [e|] eqn:He; [|by apply HN].
  pose proof (entry_range _ _ _ _ _ _ _ Hi He) as Hr. destruct (frame_of_aligned e Hr) as (Hm & ? & _).
  rewrite Hal, Z.add_0_r. apply HS; [done|unfold PAGE_UNMAPPED; zlia|done|lia].
Qed.

(** The end of [cmd_map]. *)
Lemma map_report k0 k A U T P bs virt f (m : Z → K ()) :
  heap_outcome k0 k → managers k A U T P bs → spare_frame k T P f → page_frame P (virt / 0x1000) f →
  0 ≤ virt < 0x100000000 → virt mod 0x1000 = 0 → (∀ v, Query (m v)) →
  wp (store32 virt 0x1234ABCD ;;; print (lit "mapped ") ;;; print_hex virt ;;; print (lit " -> ") ;;;
      print_hex (f * FRAME_SIZE) ;;; print (lit "\nwrote 0x1234ABCD, read back ") ;;;
      v <- load32 virt ;; m v) (λ _ k', heap_outcome k0 k') k.
Proof.
  intros Ho Hm Hsp Hpf Hv Hal HQ. rewrite wp_bind.
  eapply wp_mono; [by eapply page_store|]. cbn beta. intros _ k1 (Ho1 & Hm1 & Hsp1).
  pose proof (outcome_trans lo0 hi0 _ _ _ Ho Ho1) as Ho01. clear Ho Ho1 Hm Hsp k.
  assert (∀ (s r : K ()) k, heap_outcome k0 k → managers k A U T P bs → spare_frame k T P f →
    (∀ k', heap_outcome k0 k' → managers k' A U T P bs → spare_frame k' T P f → wp r (λ _ k', heap_outcome k0 k') k') →
    wp s (λ _ k', console_only k k') k → wp (s ;;; r) (λ _ k', heap_outcome k0 k') k) as Hsay.
  { intros s r k Ho Hm Hsp Hr Hs. rewrite wp_bind. eapply wp_mono; [exact Hs|]. cbn beta. intros _ k' Hc.
    pose proof (console_same _ _ Hc) as Hks. pose proof (kernel_same_memory _ _ Hks) as Hsm.
    pose proof (ma_system _ _ _ _ _ _ _ _ Hm) as Hsy. destruct Hm as [_ Hi HA Hb]. apply Hr.
    - eapply outcome_trans; [exact Ho|by eapply same_outcome].
    - split; [|by eapply heap_inv_same_memory|done|].
      + by eapply calm_system, kernel_same_calm.
      + eapply spared; [exact Hb|]. by destruct Hsm; apply spares_ext.
    - destruct Hsm as [_ _ _ Hpm Hpa Hh]. unfold Multitask.live in *. destruct Hsp as (? & ? & ?).
      split_and!; [|by rewrite Hh|done]. unfold owned, is_table, pdir, bm_lo, bm_hi in *. by rewrite Hpm, Hpa. }
  apply Hsay; [done..| |apply console_op]. clear dependent k1. intros k1 Ho1 Hm1 Hsp1.
  apply Hsay; [done..| |apply console_op]. clear dependent k1. intros k1 Ho1 Hm1 Hsp1.
  apply Hsay; [done..| |apply console_op]. clear dependent k1. intros k1 Ho1 Hm1 Hsp1.
  apply Hsay; [done..| |apply console_op]. clear dependent k1. intros k1 Ho1 Hm1 Hsp1.
  apply Hsay; [done..| |apply console_op]. clear dependent k1. intros k1 Ho1 Hm1 Hsp1.
  rewrite wp_bind. eapply page_load; [exact Hm1|exact Hsp1|done..|]. intros v. by apply outcome_query.
Qed.

Lemma map_harmless k A args : system k A → wp (cmd_map args) (λ _ k', heap_outcome k k') k.
Proof.
  intros Hsy. destruct (system_managers _ _ _ _ Hsy) as (U & T & P & bs & Hm).
  pose proof (ma_heap _ _ _ _ _ _ _ _ Hm) as Hi. unfold cmd_map. destruct (page_aligned args) as [Hv Hal].
  set (virt := Z.land (atoi_hex args) page_mask) in *.
  destruct (virt =? 0); [eapply query_outcome; [asks|exact Hsy]|]. rewrite wp_bind.
  eapply wp_translate; [exact Hi|done|done| |].
  2:{ intros e _ Hne _ _. rewrite (proj2 (Z.eqb_neq _ _)) by done. eapply query_outcome; [asks|exact Hsy]. }
  intros HN. rewrite Z.eqb_refl. cbn [negb]. rewrite wp_bind.
  eapply wp_mono; [by eapply alloc_outcome|]. cbn beta. intros r k1 [[-> ->]|(f & Hlf & -> & Hm1 & Hs & Ho)].
  { rewrite Z.eqb_refl. eapply query_outcome; [asks|exact Hsy]. }
  destruct Hlf as (Hf0 & HfU & _). pose proof (hv_paging _ _ _ _ _ Hi) as Hp.
  destruct (fresh_frame _ _ _ _ _ Hp Hf0 HfU) as (Hfpos & _).
  rewrite (proj2 (Z.eqb_neq (f * FRAME_SIZE) 0)) by (unfold FRAME_SIZE; lia).
  assert (spare_frame k1 T P f) as Hsp.
  { pose proof (pmm_step_paging T _ _ Hs) as Hps. destruct (paging_step_frame _ _ _ Hps) as [Hhs _].
    unfold ShellMemory.spare_frame. rewrite (owned_step T k k1), Hhs by done. split_and!.
    - by intros ?%(gi_owned _ _ _ _ Hp).
    - intros p Hpp Hpf. destruct (hf_page _ _ _ _ _ (hv_frames _ _ _ _ _ Hi) p Hpp) as (g & Hg & HgU & _).
      by rewrite (page_frame_inj _ _ _ _ Hpf Hg) in HfU.
    - intros x Hx <-. by destruct (bt_foreign _ _ _ _ _ _ (ma_boot _ _ _ _ _ _ _ _ Hm) x Hx). }
  rewrite wp_bind. eapply wp_mono; [eapply (map_outcome lo0 hi0 k1 A ({[f]} ∪ U) T P bs virt f); [exact Hm1|set_solver|done..]|].
  cbn beta. intros r k2 (Ho2 & [(-> & Hm2 & Hsp2)|(-> & U' & T' & Hm2 & Hsp2)]).
  - change (0 =? 0) with true. cbv iota. rewrite wp_bind.
    eapply wp_mono; [eapply release_outcome; [exact Hm2|unfold FRAME_SIZE; lia|]|].
    { replace (f * FRAME_SIZE / FRAME_SIZE) with f by (unfold FRAME_SIZE; zlia). exact Hsp2. }
    cbn beta. intros _ k3 Ho3. apply outcome_query; [asks|].
    exact (outcome_trans _ _ _ _ _ Ho (outcome_trans _ _ _ _ _ Ho2 Ho3)).
  - change (1 =? 0) with false. cbv iota.
    eapply map_report; [exact (outcome_trans _ _ _ _ _ Ho Ho2)|exact Hm2|exact Hsp2| |done|done|intros v; asks].
    eapply mapped_frame; [exact Hm1|set_solver|done..].
Qed.

Lemma unmap_harmless k A args : system k A → idle_page k (Z.land (atoi_hex args) page_mask) →
  wp (cmd_unmap args) (λ _ k', heap_outcome k k') k.
Proof.
  intros Hsy (A' & U & T & P & bs & Hm & Hidle). pose proof (ma_heap _ _ _ _ _ _ _ _ Hm) as Hi. unfold cmd_unmap.
  destruct (page_aligned args) as [Hv Hal]. set (virt := Z.land (atoi_hex args) page_mask) in *. rewrite wp_bind.
  eapply wp_translate; [exact Hi|done|done| |].
  { intros _. rewrite Z.eqb_refl. eapply query_outcome; [asks|exact Hsy]. }
  intros e He Hne Hfm Hfr. rewrite (proj2 (Z.eqb_neq _ _)) by done.
  unfold paging_identity_end, paging_g. rewrite wp_bind, wp_gets. fold (iend k).
  destruct (Z.ltb_spec virt (iend k)) as [|Hge]; [eapply query_outcome; [asks|exact Hsy]|].
  destruct (Hidle e He) as [?|[Hnh Hsp]]; [lia|]. rewrite wp_bind.
  eapply wp_mono; [eapply unmap_outcome; [exact Hm|done|done|done|by eexists]|]. cbn beta.
  intros _ k1 (Ho1 & Hm1 & Hsp1). rewrite wp_bind. change page_mask with 0xFFFFF000. rewrite land_page by done.
  rewrite Hfm, Z.sub_0_r. eapply wp_mono; [eapply release_outcome; [exact Hm1|lia|by apply Hsp1]|].
  cbn beta. intros _ k2 Ho2. apply outcome_query; [asks|exact (outcome_trans _ _ _ _ _ Ho1 Ho2)].
Qed.

(** *** Tasks *)
Lemma create_alive k A nm entry : system k A →
  wp (task_create nm entry) (λ _ k', ∀ i, live (sched_st k) i → live (sched_st k') i) k.
Proof.
  intros Hsy. pose proof (sy_wf _ _ _ _ Hsy) as Hw.
  eapply wp_mono; [eapply (task_create_owned (inv := client (boot_stack lo0 hi0)) k A);
    [apply (sy_mem _ _ _ _ Hsy)|exact Hw|apply (sy_owned _ _ _ _ Hsy)]|].
  cbn beta. intros r k' (_ & _ & [(_ & _ & _ & ->)|(stack & n & (Hr & _) & _ & _ & _ & _ & _ & ->)]) i [Hi Hl]; [done|].
  split; [done|]. rewrite task_at_put by (done || lia). cbn [current put set_tasks].
  case_decide; [by left|done].
Qed.

Lemma kill_alive k id : sched_wf (sched_st k) → 0 ≤ id →
  wp (task_kill id) (λ _ k', ∀ i, live (sched_st k) i → i ≠ id → live (sched_st k') i) k.
Proof.
  intros Hw Hid. unfold task_kill, task_g, sched_g.
  destruct ((id =? 0) || (MAX_TASKS <=? id)) eqn:Hr; [by rewrite wp_ret|].
  apply orb_false_iff in Hr as [?%Z.eqb_neq ?%Z.leb_gt].
  rewrite wp_bind, wp_gets. case_bool_decide as Hu; [by rewrite wp_ret|].
  unfold upd_task. rewrite wp_bind, wp_modify, put_alter. intros i [Hi Hl] Hne. split; [done|].
  cbn [sched_st upd_sched_st]. rewrite task_at_put by (done || lia). by rewrite decide_False.
Qed.

Lemma spawn_harmless k A args : system k A → wp (cmd_spawn args) (λ _ k', harmless None k k') k.
Proof.
  intros Hsy. unfold cmd_spawn, task_spawn_counter. cbv zeta. set (nm := if negb _ then _ else _).
  rewrite !wp_bind. unfold on_mach. rewrite wp_gets.
  eapply wp_mono; [apply (wp_conj _ _ _ _ (task_create_system lo0 hi0 k A nm _ Hsy) (create_alive k A nm _ Hsy))|].
  cbn beta. intros r k1 [(HA & Hc & Hu & _) Hal]. apply harmless_query; [asks|]. split; [done|done|auto|done].
Qed.

Lemma kill_harmless k A args : system k A → wp (cmd_kill args) (λ _ k', harmless (Some (u32 (atoi args))) k k') k.
Proof.
  intros Hsy. unfold cmd_kill. pose proof (u32_range (atoi args)). cbv zeta. rewrite wp_bind.
  eapply wp_mono; [apply (wp_conj _ _ _ _ (task_kill_system lo0 hi0 k A (u32 (atoi args)) Hsy ltac:(lia))
    (kill_alive k (u32 (atoi args)) (sy_wf _ _ _ _ Hsy) ltac:(lia)))|].
  cbn beta. intros r k1 [(HA & Hc & Hu) Hal]. apply harmless_query; [asks|].
  split; [by exists A|done| |done]. intros i Hl Hne. apply Hal; [done|congruence].
Qed.

(** ** Any careful line *)
Lemma command_harmless wait fuel k A cmd args : system k A → careful k cmd args →
  wp (run_command wait fuel cmd args) (λ _ k', harmless (victim cmd args) k k') k.
Proof.
  intros Hsy [(Hfault & Hreboot & Hhalt) Hsleep Hcalc Hkm Hfree Hunmap Hkf]. unfold run_command. rewrite Hfault, Hreboot, Hhalt.
  assert (∀ m : K (), Query m → wp m (λ _ k', harmless (victim cmd args) k k') k) as Hq.
  { intros m Hm. eapply wp_mono; [by eapply query_outcome|]. cbn beta. intros _ k'. apply outcome_harmless. }
  assert (∀ m : K (), wp m (λ _ k', heap_outcome k k') k → wp m (λ _ k', harmless (victim cmd args) k k') k) as Ho.
  { intros m Hm. eapply wp_mono; [exact Hm|]. cbn beta. intros _ k'. apply outcome_harmless. }
  do 5 (case_match; [apply Hq, _|]).
  case_match; [by apply Hq, calc_query, Hcalc|].
  do 4 (case_match; [apply Hq, _|]).
  case_match; [by apply Ho, (alloc_harmless k A)|].
  case_match; [by apply Ho, (free_harmless k A), Hfree|].
  case_match; [apply Hq, _|].
  case_match; [by apply Ho, (kmalloc_harmless k A), Hkm|].
  case_match; [by apply Ho, (kfree_harmless k A), Hkf|].
  do 2 (case_match; [apply Hq, _|]).
  case_match; [by apply Ho, (map_harmless k A)|].
  case_match; [by apply Ho, (unmap_harmless k A), Hunmap|].
  do 3 (case_match; [apply Hq, _|]).
  case_match.
  { eapply wp_mono; [by eapply (spawn_harmless k A)|]. cbn beta. intros _ k' [HA Hc Hal Hu]. split; auto. }
  destruct (is_cmd cmd "kill") eqn:Hkill.
  { unfold victim. rewrite Hkill. by eapply kill_harmless. }
  case_match; [|apply Hq, _].
  apply Hq. unfold cmd_sleep. rewrite (proj2 (Z.leb_le _ _)) by by apply Hsleep. apply _.
Qed.

Lemma shell_harmless wait fuel k A line : system k A → careful k (parse_line line).1 (parse_line line).2 →
  wp (shell_execute wait fuel line) (λ _ k', harmless (victim (parse_line line).1 (parse_line line).2) k k') k.
Proof.
  intros Hsy Hc. unfold shell_execute. case_match.
  - eapply wp_mono; [by eapply query_outcome; [apply _|]|]. cbn beta. intros _ k'. apply outcome_harmless.
  - destruct (parse_line line) as [cmd args]. cbn [fst snd] in *. rewrite wp_bind.
    eapply wp_mono; [by eapply command_harmless|]. cbn beta. intros _ k1. apply harmless_query, _.
Qed.
End safe.
