(* ===== verification/Running.v ===== *)
(** * The running system

    [step]: what can happen next, as one relation between states of the kernel.
    The current task computes, an interrupt is handled, or the current task calls
    the kernel or executes a careful line of the shell.  Every step keeps the
    invariant [system] of Multitask.v, and [seen] says what it means for each
    task; from there, what a task finds when it has waited any number of steps. *)
From stdpp Require Import prelude gmap list strings.
From Stdlib Require Import Lia ZArith.
From S2P Require Import Prelude Machine State Util Console Memory Pmm Paging Heap HeapSpec.
From S2P Require Import HeapProof HeapMap Frames Alloc StackMemory Task TaskProof TaskStacks.
From S2P Require Import Input Timer Interrupts Shell Multitask ShellQuery ShellMemory ShellSafe.

#[local] Open Scope Z_scope.

Section running.
(** The boot stack. *)
Context (lo0 hi0 : Z).
Notation system := (system lo0 hi0).
Notation runs := (runs lo0 hi0).
Notation room := (room lo0).
Notation heap_outcome := (heap_outcome lo0 hi0).
Notation careful := (careful lo0 hi0).
Notation back := (back lo0 hi0).
Notation scheduled := (scheduled lo0 hi0).
Notation undisturbed := (undisturbed hi0).
Notation paused := (paused hi0).
Notation unnoticed := (unnoticed hi0).
(** One step: the current task computes, an interrupt is handled, or the current
    task calls the kernel or executes a line of the shell. *)
Inductive step : kernel → kernel → Prop :=
  | step_run k k' : runs k k' → step k k'
  | step_irq k fuel r k' : room k → irq_handler fuel r k = Ok tt k' → step k k'
  | step_yield k k' : room k → task_yield k = Ok tt k' → step k k'
  | step_exit k k' : current (sched_st k) ≠ 0 → task_exit k = Ok tt k' → step k k'
  | step_enable k on k' : scheduler_enable on k = Ok tt k' → step k k'
  | step_create k nm entry r k' : task_create nm entry k = Ok r k' → step k k'
  | step_kill k id r k' : 0 ≤ id → task_kill id k = Ok r k' → step k k'
  | step_malloc k size p k' : 0 < size ≤ KMALLOC_MAX → kmalloc size k = Ok p k' → step k k'
  | step_free k A p n r k' : system k A → A !! p = Some n → plain (sched_st k) p →
      kfree p k = Ok r k' → step k k'
  | step_store k A p n a v k' : system k A → A !! p = Some n → plain (sched_st k) p →
      p ≤ a → a + 4 ≤ p + n → store32 a v k = Ok tt k' → step k k'
  | step_shell k wait fuel line k' : careful k (parse_line line).1 (parse_line line).2 →
      shell_execute wait fuel line k = Ok tt k' → step k k'.

(** What a step means for the tasks that are alive before and after. *)
Definition seen (k k' : kernel) : Prop :=
  ∀ i, live (sched_st k) i → live (sched_st k') i →
    if decide (i = current (sched_st k) ∧ i ≠ current (sched_st k')) then paused i k k'
    else i ≠ current (sched_st k) → undisturbed i k k'.

Lemma unnoticed_seen k k' : current (sched_st k') = current (sched_st k) → unnoticed k k' → seen k k'.
Proof. intros Hc Hu i Hl Hl'. rewrite decide_False by (rewrite Hc; naive_solver). intros _. by apply Hu. Qed.

Lemma scheduled_seen k k' : scheduled k k' → seen k k'.
Proof. intros [_ H] i _ Hl. destruct (H i Hl) as [_ Hi]. by case_decide. Qed.

Lemma heap_outcome_seen k k' : heap_outcome k k' → (∃ A', system k' A') ∧ seen k k'.
Proof. intros (HA & Hs & Hu). split; [done|]. apply unnoticed_seen; [by rewrite Hs|done]. Qed.

Lemma step_system k A k' : system k A → step k k' → (∃ A', system k' A') ∧ seen k k'.
Proof.
  intros Hsy Hst. destruct Hst as [k k' Hr|k fuel r k' Hroom Hm|k k' Hroom Hm|k k' Hc Hm|k on k' Hm|k nm e r k' Hm|k id r k' Hid Hm|
    k size p k' Hsz Hm|k A' p n r k' Hsy' HA Hp Hm|k A' p n a v k' Hsy' HA Hp H1 H2 Hm|k wait fuel line k' Hcf Hm].
  - destruct (runs_system _ _ _ _ _ Hsy Hr) as (Hs & Hc & Hu). split; [by exists A|]. intros i Hl _.
    rewrite decide_False by (rewrite Hc; naive_solver). by apply Hu.
  - pose proof (irq_scheduled _ _ _ _ _ _ _ Hsy Hroom Hm) as H. split; [apply H|by apply scheduled_seen].
  - pose proof (task_yield_system _ _ _ _ Hsy Hroom) as H. apply (wp_result _ _ _ _ _ H) in Hm.
    split; [apply Hm|by apply scheduled_seen].
  - pose proof (task_exit_system _ _ _ _ Hsy Hc) as H. apply (wp_result _ _ _ _ _ H) in Hm as (Hsy' & Hc' & Hu).
    split; [by exists A|]. intros i _ Hl. rewrite decide_False by (rewrite Hc'; naive_solver). by apply Hu.
  - injection Hm as <-. destruct (sched_system _ _ (set_sched_enabled on) k A Hsy) as [Hsy' Hu]; try done.
    { apply set_enabled_wf, (sy_wf _ _ _ _ Hsy). }
    split; [by exists A|]. apply unnoticed_seen; [done|]. intros i _ Hl. by apply Hu.
  - pose proof (task_create_system _ _ _ _ nm e Hsy) as H. apply (wp_result _ _ _ _ _ H) in Hm as (HA & Hc & Hu & _).
    split; [done|by apply unnoticed_seen].
  - pose proof (task_kill_system _ _ _ _ id Hsy Hid) as H. apply (wp_result _ _ _ _ _ H) in Hm as (HA & Hc & Hu).
    split; [by exists A|by apply unnoticed_seen].
  - pose proof (kmalloc_system _ _ _ _ _ Hsy Hsz) as H. by apply (wp_result _ _ _ _ _ H) in Hm as ?%heap_outcome_seen.
  - pose proof (kfree_system _ _ _ _ _ _ Hsy' HA Hp) as H. by apply (wp_result _ _ _ _ _ H) in Hm as ?%heap_outcome_seen.
  - pose proof (store_system _ _ _ _ _ _ _ v Hsy' HA Hp H1 H2) as H. by apply (wp_result _ _ _ _ _ H) in Hm as ?%heap_outcome_seen.
  - pose proof (shell_harmless _ _ wait fuel _ _ _ Hsy Hcf) as H. apply (wp_result _ _ _ _ _ H) in Hm as [HA Hc _ Hu].
    split; [done|by apply unnoticed_seen].
Qed.

Lemma steps_system k k' : rtc step k k' → (∃ A, system k A) → ∃ A, system k' A.
Proof. induction 1 as [|k1 k2 k3 H12 _ IH]; [done|]. intros [A Hsy]. apply IH. by eapply step_system. Qed.

(** A step during which task [i] waits, and stays alive. *)
Definition waits (i : Z) (k k' : kernel) : Prop :=
  step k k' ∧ i ≠ current (sched_st k) ∧ i ≠ current (sched_st k') ∧
  live (sched_st k) i ∧ live (sched_st k') i.

(** Whatever the others do, and however long, a waiting task keeps its
    registers and its stack. *)
Lemma waits_undisturbed i k k' : rtc (waits i) k k' → (∃ A, system k A) →
  (∃ A, system k' A) ∧ undisturbed i k k'.
Proof.
  induction 1 as [|k1 k2 k3 (Hst & Hn & Hn' & Hl & Hl') _ IH]; [done|]. intros [A Hsy].
  destruct (step_system _ _ _ Hsy Hst) as [HA Hseen]. destruct (IH HA) as [HA' Hu].
  split; [done|]. etrans; [|exact Hu]. specialize (Hseen i Hl Hl'). rewrite decide_False in Hseen by naive_solver.
  by apply Hseen.
Qed.

(** The step that gives it the processor. *)
Lemma resumed i k k' A : system k A → step k k' → i ≠ current (sched_st k) → i = current (sched_st k') →
  live (sched_st k) i → (∃ A', system k' A') ∧ undisturbed i k k' ∧ regs (mach k') = view k i.
Proof.
  intros Hsy Hst Hn -> Hl. destruct (step_system _ _ _ Hsy Hst) as [[A' Hsy'] Hseen].
  pose proof (Hseen _ Hl (live_current _ _ _ _ Hsy')) as Hu. rewrite decide_False in Hu by naive_solver.
  specialize (Hu Hn). split_and!; [by exists A'|done|]. by rewrite <- (ud_view _ _ _ _ Hu), view_current.
Qed.

Lemma waits_end i k k' : rtc (waits i) k k' → i ≠ current (sched_st k) → live (sched_st k) i →
  i ≠ current (sched_st k') ∧ live (sched_st k') i.
Proof. induction 1 as [|k1 k2 k3 (_ & _ & Hn & _ & Hl) _ IH]; [done|]. intros _ _. by apply IH. Qed.

Lemma away_and_back i k1 k2 k3 k4 A : system k2 A → paused i k1 k2 →
  i ≠ current (sched_st k2) → live (sched_st k2) i →
  rtc (waits i) k2 k3 → step k3 k4 → current (sched_st k4) = i → back i k1 k4.
Proof.
  intros Hsy [V1 T1 B1] Hn Hl Hw Hst Hc. destruct (waits_end _ _ _ Hw Hn Hl) as [Hn3 Hl3].
  destruct (waits_undisturbed _ _ _ Hw) as [[A3 Hsy3] [V2 T2 B2]]; [by exists A|].
  destruct (resumed i _ _ _ Hsy3 Hst Hn3 (eq_sym Hc) Hl3) as (HA & [V3 T3 B3] & Hr).
  assert (stack_hi hi0 (sched_st k4) i = stack_hi hi0 (sched_st k1) i) as Hhi by congruence.
  split; [done|congruence| |done|].
  - unfold stack_lo, stack_hi in *. destruct (i =? 0); [done|lia].
  - assert (r_esp (view k2 i) = r_esp (view k1 i) - 8) as He by by rewrite V1.
    intros x Hx. rewrite B3, B2, B1; rewrite ?V2, ?T2, ?T1; try lia; done.
Qed.
End running.
