(* ===== verification/DeviceProps.v ===== *)
(** * Interrupts and sleeping: the properties

    The interrupt table, the acknowledgement of interrupts and the report of an
    exception (src/idt.c, src/isr.c, the handler of page faults in src/paging.c),
    and how long [timer_sleep] waits (src/timer.c). *)
From stdpp Require Import prelude gmap list strings pretty.
From Stdlib Require Import Lia ZArith.
From S2P Require Import Prelude Machine State Util Console Memory Pmm Paging Heap HeapSpec.
From S2P Require Import HeapProof HeapMap Frames Alloc Task TaskProof TaskStacks Input Timer Interrupts Shell Boot Booted.
From S2P Require Import ConsoleProps ShellProps.

#[local] Open Scope Z_scope.

(** ** The interrupt table *)

(** The stub that handles vector [i]: src/isr.asm has one per vector. *)
Definition stub_of (i : Z) : string := if i <? 32 then "isr" +:+ pretty i else "irq" +:+ pretty (i - 32).

(** The gate [isr_install] makes for vector [i] on a machine linked as [m]. *)
Definition gate_of (m : machine) (i : Z) : idt_entry := make_gate (sym m (stub_of i)) 0x08 0x8E.

Definition full_table (m : machine) : list idt_entry := (gate_of m <$> seqZ 0 48) ++ replicate 208 no_gate.

(** The halves of an address in a gate make up the address. *)
Lemma gate_base_make base sel fl : 0 ≤ base < 0x100000000 → gate_base (make_gate base sel fl) = base.
Proof.
  intros Hb. unfold gate_base, make_gate. cbn [base_low base_high]. change 0xFFFF with (Z.ones 16).
  rewrite !Z.land_ones, Z.shiftr_div_pow2 by lia. change (2 ^ 16) with 0x10000. zlia.
Qed.

(** Installing a list of gates. *)
Definition put_gate (m : machine) (t : list idt_entry) (g : Z * string) : list idt_entry :=
  <[Z.to_nat (u8 g.1) := make_gate (sym m g.2) 0x08 0x8E]> t.

Lemma set_gates_eq l k :
  set_gates l k = Ok tt (upd_idt_st (λ s, set_idt_table (foldl (put_gate (mach k)) (idt_table s) l) s) k).
Proof.
  revert k. induction l as [|[num stub] l IH]; intros k; [by destruct k as [? ? ? ? ? ? ? ? [] ?]|].
  cbn [set_gates foldl]. unfold on_mach, idt_set_gate, bind, gets, modify. rewrite IH. done.
Qed.

Lemma clear_gates_rep n (Q : () → kernel → Prop) k : (n ≤ length (idt_table (idt_st k)))%nat →
  Q tt (upd_idt_st (λ s, set_idt_table (replicate n no_gate ++ drop n (idt_table s)) s) k) →
  wp (for_range n 0 (λ i, modify (upd_idt_st (λ s, set_idt_table (<[Z.to_nat i := no_gate]> (idt_table s)) s)))) Q k.
Proof.
  intros Hn HQ.
  apply (wp_for_range (λ i k', k' = upd_idt_st (λ s,
    set_idt_table (replicate (Z.to_nat i) no_gate ++ drop (Z.to_nat i) (idt_table s)) s) k)).
  - by destruct k as [? ? ? ? ? ? ? ? [] ?].
  - intros i k' Hi ->. rewrite wp_modify. unfold upd_idt_st. cbn. f_equal. unfold set_idt_table. cbn. f_equal.
    replace (Z.to_nat (i + 1)) with (S (Z.to_nat i)) by lia. set (j := Z.to_nat i).
    assert (j < length (idt_table (idt_st k)))%nat as Hj by lia.
    destruct (lookup_lt_is_Some_2 _ _ Hj) as [g Hg]. rewrite (drop_S _ g) by done.
    rewrite insert_app_r_alt, length_replicate, Nat.sub_diag by (rewrite length_replicate; lia). cbn [insert list_insert].
    by rewrite replicate_S_end, <- app_assoc.
  - intros k' ->. by rewrite Z.add_0_l, Nat2Z.id.
Qed.

Lemma length_put_gates m l t : length (foldl (put_gate m) t l) = length t.
Proof. revert t. induction l as [|g l IH]; intros t; [done|]. cbn [foldl]. rewrite IH. apply length_insert. Qed.

(** A run of [n] gates from vector [b] on. *)
Lemma put_run m (st : Z → string) b n t j : 0 ≤ b → b + Z.of_nat n ≤ 256 → length t = 256%nat →
  foldl (put_gate m) t ((λ i, (b + i, st i)) <$> seqZ 0 (Z.of_nat n)) !! j =
  if decide (b ≤ Z.of_nat j < b + Z.of_nat n) then Some (make_gate (sym m (st (Z.of_nat j - b))) 0x08 0x8E) else t !! j.
Proof.
  intros Hb Hn Hl. induction n as [|n IH].
  { by rewrite decide_False by lia. }
  rewrite Nat2Z.inj_succ, <- Z.add_1_r, seqZ_app, fmap_app, foldl_app by lia.
  rewrite (seqZ_cons (0 + Z.of_nat n)), (seqZ_nil (Z.succ _)) by lia. cbn [fmap list_fmap foldl]. unfold put_gate at 1. cbn [fst snd].
  rewrite u8_small, Z.add_0_l by lia. set (t' := foldl _ t _) in *.
  assert (length t' = 256%nat) as Hl' by (by unfold t'; rewrite length_put_gates).
  destruct (decide (j = Z.to_nat (b + Z.of_nat n))) as [->|Hne].
  - rewrite list_lookup_insert_eq by lia. rewrite decide_True by lia. do 4 f_equal. lia.
  - rewrite list_lookup_insert_ne, IH by lia. destruct (decide (b ≤ Z.of_nat j < b + Z.of_nat n));
      [by rewrite decide_True by lia|by rewrite decide_False by lia].
Qed.

Lemma put_run_Z m (st : Z → string) b n t j : 0 ≤ b → 0 ≤ n → b + n ≤ 256 → length t = 256%nat →
  foldl (put_gate m) t ((λ i, (b + i, st i)) <$> seqZ 0 n) !! j =
  if decide (b ≤ Z.of_nat j < b + n) then Some (make_gate (sym m (st (Z.of_nat j - b))) 0x08 0x8E) else t !! j.
Proof. intros Hb Hn Hbn Hl. rewrite <- (Z2Nat.id n) by done. apply put_run; [done|lia|done]. Qed.

(** The lists of [gates] for any naming of the stubs. *)
Lemma table_of_gates m (f g : Z → string) :
  foldl (put_gate m) (replicate 256 no_gate) (((λ i, (i, f i)) <$> seqZ 0 32) ++ ((λ i, (32 + i, g i)) <$> seqZ 0 16)) =
  ((λ i, make_gate (sym m (if i <? 32 then f i else g (i - 32))) 0x08 0x8E) <$> seqZ 0 48) ++ replicate 208 no_gate.
Proof.
  apply list_eq. intros j. rewrite foldl_app.
  rewrite (put_run_Z m g 32 16) by (by rewrite ?length_put_gates, ?length_replicate).
  change (λ i, (i, f i)) with (λ i, (0 + i, f i)).
  rewrite (put_run_Z m f 0 32) by (by rewrite ?length_replicate).
  destruct (decide (j < 48)%nat).
  - rewrite lookup_app_l by (by rewrite length_fmap, length_seqZ). rewrite list_lookup_fmap, lookup_seqZ_lt by lia.
    rewrite Z.add_0_l. cbn [fmap option_fmap option_map]. destruct (decide (j < 32)%nat).
    + rewrite decide_False, decide_True, Z.sub_0_r by lia. by rewrite (proj2 (Z.ltb_lt _ _)) by lia.
    + rewrite decide_True by lia. by rewrite (proj2 (Z.ltb_ge _ _)) by lia.
  - rewrite !decide_False by lia. rewrite lookup_app_r by (rewrite length_fmap, length_seqZ; lia).
    rewrite length_fmap, length_seqZ. destruct (decide (j < 256)%nat).
    + rewrite !lookup_replicate_2 by lia. done.
    + rewrite !lookup_ge_None_2 by (rewrite length_replicate; lia). done.
Qed.

Lemma full_table_eq m : foldl (put_gate m) (replicate 256 no_gate) gates = full_table m.
Proof. exact (table_of_gates m (λ i, "isr" +:+ pretty i) (λ i, "irq" +:+ pretty i)). Qed.

Definition idt_ready (m : machine) (s : idt_state) : Prop :=
  idt_table s = full_table m ∧ idtr s = Some (8 * IDT_ENTRIES - 1, sym m "idt").

Lemma idt_install_rep (Q : () → kernel → Prop) k : length (idt_table (idt_st k)) = 256%nat →
  (∀ s, idt_table s = replicate 256 no_gate → idtr s = Some (8 * IDT_ENTRIES - 1, sym (mach k) "idt") →
     Q tt (upd_idt_st (λ _, s) k)) →
  wp idt_install Q k.
Proof.
  intros Hl HQ. unfold idt_install, on_mach. wp_go.
  apply clear_gates_rep; [cbn; rewrite Hl; by vm_compute|]. wp_go.
  match goal with |- Q tt (upd_idt_st ?f (upd_idt_st ?g (upd_idt_st ?h ?k'))) =>
    apply (HQ (f (g (h (idt_st k'))))) end; [|done].
  cbn [idt_table set_idtr set_idt_table set_idtp_base set_idtp_limit upd_idt_st idt_st].
  by rewrite drop_ge, app_nil_r by (by rewrite Hl).
Qed.

(** Output to a port only extends the log, whatever was in it. *)
Lemma wp_outb_log p v l (Q : () → kernel → Prop) k :
  p ≠ KBC_COMMAND → (∀ l, Q tt (upd_mach (set_log l) k)) → wp (outb p v) Q (upd_mach (set_log l) k).
Proof. intros Hp HQ. rewrite outb_writes by done. apply (HQ (Outb p (u8 v) :: l)). Qed.

Lemma set_log_id k : upd_mach (set_log (io_log (mach k))) k = k.
Proof. by destruct k as [[]]. Qed.

Lemma pic_remap_rep (Q : () → kernel → Prop) k :
  (∀ l, Q tt (upd_mach (set_log l) k)) → wp pic_remap Q k.
Proof.
  intros HQ. unfold pic_remap. rewrite <- (set_log_id k). generalize (io_log (mach k)).
  do 9 (intros ?; rewrite wp_bind; apply wp_outb_log; [done|]; cbn beta).
  intros ?. by apply wp_outb_log; [done|].
Qed.

Lemma isr_install_rep (Q : () → kernel → Prop) s k :
  idt_table s = replicate 256 no_gate → idtr s = Some (8 * IDT_ENTRIES - 1, sym (mach k) "idt") →
  (∀ s l, idt_ready (mach k) s → Q tt (upd_idt_st (λ _, s) (upd_mach (set_log l) k))) →
  wp isr_install Q (upd_idt_st (λ _, s) k).
Proof.
  intros Ht Hr HQ. unfold isr_install. rewrite wp_bind.
  apply pic_remap_rep. intros l. eapply wp_ok; [apply set_gates_eq|].
  apply (HQ (set_idt_table (foldl (put_gate (mach k)) (idt_table s) gates) s) l).
  split; [|done]. cbn [idt_table set_idt_table]. rewrite Ht. apply full_table_eq.
Qed.

(** After [idt_install] and [isr_install] the processor's IDTR points at a
    table of 256 gates in which vectors 0 to 47 are present 32-bit interrupt
    gates (flags 8E) in the kernel code segment whose address, put together
    from its halves, is that of the vector's own stub; all other vectors are
    not present.  Only the table and the PIC are touched. *)
Theorem idt_installed k :
  length (idt_table (idt_st k)) = 256%nat →
  (∀ s, 0 ≤ sym (mach k) s < 0x100000000) →
  wp (idt_install ;;; isr_install) (λ _ k', (∃ s l, k' = upd_idt_st (λ _, s) (upd_mach (set_log l) k)) ∧
    idtr (idt_st k') = Some (2047, sym (mach k) "idt") ∧ length (idt_table (idt_st k')) = 256%nat ∧
    ∀ i, 0 ≤ i < 256 → ∃ g, idt_table (idt_st k') !! Z.to_nat i = Some g ∧
      (i < 48 → gate_base g = sym (mach k) (stub_of i) ∧ selector g = 8 ∧ flags g = 0x8E) ∧
      (48 ≤ i → g = no_gate)) k.
Proof.
  intros Hl Hsym. rewrite wp_bind. apply idt_install_rep; [done|]. intros s0 Ht0 Hr0.
  apply isr_install_rep; [done..|]. intros s l [Ht Hr]. cbn [idt_st upd_idt_st].
  split_and!; [by eexists _, _|done|by rewrite Ht|].
  intros i Hi. rewrite Ht. unfold full_table. destruct (decide (i < 48)).
  - exists (gate_of (mach k) i). split_and!; [|intros _|lia].
    + rewrite lookup_app_l by (rewrite length_fmap, length_seqZ; lia).
      by rewrite list_lookup_fmap, lookup_seqZ_lt, Z.add_0_l, Z2Nat.id by lia.
    + split; [apply gate_base_make, Hsym|done].
  - exists no_gate. split_and!; [|lia|done].
    rewrite lookup_app_r by (rewrite length_fmap, length_seqZ; lia). rewrite length_fmap, length_seqZ.
    apply lookup_replicate_2. lia.
Qed.

(** Linked with the stubs 16 bytes apart, in the order of their names' length. *)
Definition with_idt : kernel :=
  upd_idt_st (set_idt_table (replicate 256 no_gate)) (upd_mach (λ m,
    {| phys := phys m; cr0_pg := cr0_pg m; cr3 := cr3 m; cr2 := cr2 m; regs := regs m; io_log := io_log m;
       io_env := io_env m; sym := λ s, 0x100000 + 16 * (Z.of_nat (String.length s) mod 0x1000) |}) cold).

Lemma with_idt_sym s : 0 ≤ sym (mach with_idt) s < 0x100000000.
Proof. cbn [with_idt mach upd_idt_st upd_mach sym]. zlia. Qed.

Lemma idt_installed_witness :
  wp (idt_install ;;; isr_install) (λ _ k', (∃ s l, k' = upd_idt_st (λ _, s) (upd_mach (set_log l) with_idt)) ∧
    idtr (idt_st k') = Some (2047, sym (mach with_idt) "idt") ∧ length (idt_table (idt_st k')) = 256%nat ∧
    ∀ i, 0 ≤ i < 256 → ∃ g, idt_table (idt_st k') !! Z.to_nat i = Some g ∧
      (i < 48 → gate_base g = sym (mach with_idt) (stub_of i) ∧ selector g = 8 ∧ flags g = 0x8E) ∧
      (48 ≤ i → g = no_gate)) with_idt.
Proof. apply idt_installed; [done|apply with_idt_sym]. Defined.

(** ** Acknowledging interrupts *)

(** The log of the ports grows. *)
Definition log_grows (k k' : kernel) : Prop := ∃ l, io_log (mach k') = l ++ io_log (mach k).
#[export] Instance log_grows_preorder : PreOrder log_grows.
Proof.
  split; [by intros k; exists []|]. intros k1 k2 k3 [l1 H1] [l2 H2]. exists (l2 ++ l1). by rewrite H2, H1, app_assoc.
Qed.

Section log_ops.
#[export] Instance outb_log p v : Preserves log_grows (outb p v).
Proof. apply outb_preserves. intros k. by exists [Outb p (u8 v)]. Qed.
#[export] Instance inb_log p : Preserves log_grows (inb p).
Proof. intros k. by eexists [_]. Qed.
#[export] Instance load_log n va : Preserves log_grows (load n va).
Proof. intros k. exists []. unfold load. by destruct (m_load n va (mach k)). Qed.
#[export] Instance store_log n va v : Preserves log_grows (store n va v).
Proof. intros k. exists []. unfold store, m_store. by destruct (mmu_list (mach k) n va). Qed.
#[export] Instance upd_vga_log f : Preserves log_grows (modify (upd_vga_st f)).
Proof. intros k. by exists []. Qed.
#[export] Instance upd_serial_log f : Preserves log_grows (modify (upd_serial_st f)).
Proof. intros k. by exists []. Qed.
#[export] Instance upd_sched_log f : Preserves log_grows (modify (upd_sched_st f)).
Proof. intros k. by exists []. Qed.
#[export] Instance upd_shell_log f : Preserves log_grows (modify (upd_shell_st f)).
Proof. intros k. by exists []. Qed.
#[export] Instance upd_ticks_log f : Preserves log_grows (modify (upd_ticks f)).
Proof. intros k. by exists []. Qed.
#[export] Instance upd_shift_log f : Preserves log_grows (modify (upd_shift_down f)).
Proof. intros k. by exists []. Qed.
#[export] Instance upd_regs_log f : Preserves log_grows (upd_regs f).
Proof. intros k. by exists []. Qed.
End log_ops.

Ltac log_op := frame_unfold; unfold sched_g, shell_g, task_g, upd_task, reg in *; apply _.

#[export] Instance tx_log c : Preserves log_grows (tx c).
Proof. unfold tx, tx_wait. log_op. Qed.
#[export] Instance serial_write_char_log c : Preserves log_grows (serial_write_char c).
Proof. unfold serial_write_char. log_op. Qed.
#[export] Instance putchar_log c : Preserves log_grows (putchar c).
Proof. unfold putchar, scroll. log_op. Qed.
#[export] Instance print_log s : Preserves log_grows (print s).
Proof. unfold print. apply _. Qed.
#[export] Instance print_hex_log n : Preserves log_grows (print_hex n).
Proof. unfold print_hex. log_op. Qed.
#[export] Instance coalesce_log : Preserves log_grows coalesce.
Proof. unfold coalesce, coalesce_step, coalesce_test, swallow_next, heap_fuel. log_op. Qed.
#[export] Instance kfree_log p : Preserves log_grows (kfree p).
Proof. unfold kfree. log_op. Qed.
#[export] Instance reap_log : Preserves log_grows reap.
Proof. unfold reap, reap_slot. log_op. Qed.
#[export] Instance switch_to_log n : Preserves log_grows (switch_to n).
Proof.
  unfold switch_to, call_context_switch, context_switch, popa, pusha, push, pop, store_task_esp. log_op.
Qed.
#[export] Instance timer_tick_log : Preserves log_grows timer_tick.
Proof. unfold timer_tick, scheduler_tick, pick_next. log_op. Qed.
#[export] Instance shell_push_char_log c : Preserves log_grows (shell_push_char c).
Proof. unfold shell_push_char. log_op. Qed.
#[export] Instance keyboard_handler_log : Preserves log_grows keyboard_handler.
Proof. unfold keyboard_handler. log_op. Qed.
#[export] Instance serial_handler_log n : Preserves log_grows (serial_handler n).
Proof. unfold serial_handler, serial_step. log_op. Qed.

(** C33: an interrupt is acknowledged before its handler does anything: whatever
    the vector, and in every outcome -- the handler returns, switches to
    another task, or faults -- the first port operations are the end-of-
    interrupt to the slave PIC, for vectors from 40 on only, and to the master. *)
Theorem irq_acknowledged_first fuel r k :
  ∃ l, io_log (mach (final (irq_handler fuel r k))) =
    l ++ Outb 0x20 0x20 :: (if 40 <=? int_no r then [Outb 0xA0 0x20] else []) ++ io_log (mach k).
Proof.
  set (k1 := if 40 <=? int_no r then upd_mach (log_io (Outb 0xA0 0x20)) k else k).
  set (rest := if int_no r =? 32 then timer_tick else if int_no r =? 33 then keyboard_handler
    else if int_no r =? 36 then serial_handler fuel else ret tt).
  assert (Preserves log_grows rest) as Hrest by (unfold rest; apply _).
  assert (irq_handler fuel r k = rest (upd_mach (log_io (Outb 0x20 0x20)) k1)) as ->.
  { unfold irq_handler, k1, when. fold rest. by destruct (40 <=? int_no r). }
  destruct (Hrest (upd_mach (log_io (Outb 0x20 0x20)) k1)) as [l Hl]. exists l. rewrite Hl. unfold k1.
  by destruct (40 <=? int_no r).
Qed.


(** ** Sleeping *)
Section sleeping.
(** What comes back from [hlt]: the timer fires, or one of finitely many other
    interrupts ([others] counts those still to come before the next tick). *)
Context (wait : K ()) (others : kernel → nat) (bound : nat).
Context (others_bound : ∀ k, (others k ≤ bound)%nat).
Context (wait_ticks : ∀ k, 0 ≤ ticks k < 0xFFFFFFFF →
  wp wait (λ _ k', ticks k < ticks k' < 0x100000000 ∨ (ticks k' = ticks k ∧ (others k' < others k)%nat)) k).

Lemma sleep_until fuel target k :
  0 ≤ ticks k → 0 ≤ target < 0x100000000 → (Z.to_nat (target - ticks k) * S bound + others k < fuel)%nat →
  wp (while_fuel fuel (sleep_step wait target) tt) (λ _ k', target ≤ ticks k') k.
Proof using All.
  intros Hk Ht Hfuel.
  apply (wp_while_fuel (λ (_ : ()) k', 0 ≤ ticks k')
    (λ _ k', Z.to_nat (target - ticks k') * S bound + others k')%nat); [done|done|].
  intros [] k1 Hk1. unfold sleep_step. wp_go. destruct (ticks k1 <? target) eqn:Hlt.
  - apply Z.ltb_lt in Hlt. wp_go. eapply wp_mono; [apply wait_ticks; lia|]. cbn beta. intros [] k2 H. rewrite wp_ret.
    pose proof (others_bound k2).
    destruct H as [[Hlo Hhi]|[-> Hd]]; [|lia]. split; [lia|].
    assert (S (Z.to_nat (target - ticks k2)) ≤ Z.to_nat (target - ticks k1))%nat by lia. nia.
  - apply Z.ltb_ge in Hlt. by rewrite wp_ret.
Qed.

(** Less than a tick: no wait at all. *)
Lemma sleep_short fuel ms k : 0 ≤ ticks k < 0x100000000 → 0 ≤ ms < 10 → timer_sleep wait (S fuel) ms k = Ok tt k.
Proof using Type.
  intros Hk Hms. unfold timer_sleep, bind, gets. cbn [while_fuel]. unfold sleep_step, bind, gets, sleep_target.
  assert ((ms *u TIMER_HZ) / 1000 = 0) as -> by (unfold TIMER_HZ; rewrite u32_small by lia; zlia).
  by rewrite Z.add_0_r, u32_small, Z.ltb_irrefl by lia.
Qed.

(** Milliseconds, of which [ticks] counts the tens. *)
Context (clock : kernel → Z) (clock_ticks : ∀ k, ticks k = clock k / 10).

(** C40: as long as the arithmetic does not wrap, [timer_sleep] returns, however
    many other interrupts wake the processor up, and not before ms/10 ticks,
    rounded down, have been counted.  Since the first of them may be about to come
    already, this is less than what is asked for, but by less than 20 ms; and a
    sleep of less than 10 ms returns at once, without waiting at all. *)
Theorem timer_sleep_waits fuel ms k :
  0 ≤ ticks k → 0 ≤ ms → ms * TIMER_HZ < 0x100000000 → ticks k + ms / 10 < 0x100000000 →
  (Z.to_nat (ms / 10) * S bound + bound < fuel)%nat →
  wp (timer_sleep wait fuel ms) (λ _ k', ticks k + ms / 10 ≤ ticks k' ∧
    ms - 20 < clock k' - clock k ∧ (ms < 10 → k' = k)) k.
Proof using All.
  unfold TIMER_HZ. intros Hk Hms Hmul Hsum Hfuel.
  assert (wp (timer_sleep wait fuel ms) (λ _ k', ticks k + ms / 10 ≤ ticks k') k) as Hwp.
  { unfold timer_sleep, sleep_target, TIMER_HZ. wp_go.
    assert ((ms *u 100) / 1000 = ms / 10) as -> by (rewrite u32_small by lia; zlia).
    rewrite u32_small by zlia. apply sleep_until; [done|zlia|].
    replace (ticks k + ms / 10 - ticks k) with (ms / 10) by lia. pose proof (others_bound k). lia. }
  eapply wp_mono; [apply wp_eqn, Hwp|]. cbn beta. intros [] k' [Hrun Ht]. split_and!; [done| |].
  - pose proof (clock_ticks k) as H1. pose proof (clock_ticks k') as H2. rewrite H1, H2 in Ht. zlia.
  - intros Hlt. destruct fuel as [|fuel]; [lia|]. rewrite sleep_short in Hrun by zlia. congruence.
Qed.
End sleeping.

Definition one_tick : K () := modify (upd_ticks (λ t, t +u 1)).

Lemma timer_sleep_waits_witness :
  wp (timer_sleep one_tick 51 500) (λ _ k', ticks cold + 500 / 10 ≤ ticks k' ∧
    500 - 20 < 10 * ticks k' - 10 * ticks cold ∧ (500 < 10 → k' = cold)) cold ∧
  wp (timer_sleep one_tick 51 9) (λ _ k', ticks cold + 9 / 10 ≤ ticks k' ∧
    9 - 20 < 10 * ticks k' - 10 * ticks cold ∧ (9 < 10 → k' = cold)) cold.
Proof.
  assert (∀ k, 0 ≤ ticks k < 0xFFFFFFFF → wp one_tick (λ _ k', ticks k < ticks k' < 0x100000000 ∨
    (ticks k' = ticks k ∧ (0 < 0)%nat)) k) as Hw.
  { intros k Hk. unfold one_tick. rewrite wp_modify. left. cbn [ticks upd_ticks]. rewrite u32_small; lia. }
  assert (∀ k, ticks k = 10 * ticks k / 10) as Hc by (intros k; zlia).
  split; apply (timer_sleep_waits one_tick (λ _, 0%nat) 0 (λ _, le_n 0) Hw (λ k, 10 * ticks k) Hc);
    first [done|apply Nat.ltb_lt; reflexivity].
Defined.

(** A sleep of more than 42,949,672 ms wraps in the multiplication:
    42,949,673 ms return at once, without waiting for a single interrupt. *)
Theorem timer_sleep_wraps wait fuel k :
  0 ≤ ticks k < 0x100000000 → timer_sleep wait (S fuel) 42949673 k = Ok tt k.
Proof.
  intros Hk. unfold timer_sleep, bind, gets. cbn [while_fuel]. unfold sleep_step, bind, gets, sleep_target.
  change ((42949673 *u TIMER_HZ) / 1000) with 0. rewrite Z.add_0_r, u32_small, Z.ltb_irrefl by lia. done.
Qed.

Lemma timer_sleep_wraps_witness : timer_sleep halt_forever 1 42949673 cold = Ok tt cold.
Proof. by apply timer_sleep_wraps. Defined.

(** ** Exceptions *)

(** [m] prints the characters [s]. *)
Record says (m : K ()) (s : cstr) : Prop := {
  sa_prints k : m k = print s k;
  sa_chars : Forall (λ c, c ≠ 0) s
}.

Lemma says_print s : forallb (λ c, negb (c =? 0)) s = true → says (print s) s.
Proof.
  intros Hs. split; [done|]. apply Forall_forall. intros c Hc ->. rewrite forallb_forall in Hs.
  by specialize (Hs 0 (proj1 (list_elem_of_In _ _) Hc)).
Qed.
Lemma says_int n : -0x80000000 ≤ n < 0x80000000 → says (print_int n) (int_chars n).
Proof. intros Hn. split; [intros k; by apply print_int_chars|by apply int_chars_nonzero]. Qed.
Lemma says_hex n : says (print_hex n) (hex_string n).
Proof. split; [intros k; apply print_hex_chars|apply hex_string_nonzero]. Qed.
Lemma says_when (b : bool) m s : says m s → says (when b m) (if b then s else []).
Proof. intros Hm. destruct b; [done|]. by split; [|constructor]. Qed.
Lemma says_bind m1 m2 s1 s2 : says m1 s1 → says m2 s2 → says (m1 ;;; m2) (s1 ++ s2).
Proof.
  intros [H1 F1] [H2 F2]. split; [|by apply Forall_app]. intros k. rewrite print_app by done.
  by apply bind_pointwise; [|intros _ k'].
Qed.

(** [m] prints [s] and stops the processor. *)
Definition dies (m : K ()) (s : cstr) : Prop := ∀ k, m k = (print s ;;; halt_forever) k.

Lemma dies_last m s : says m s → dies (m ;;; halt_forever) s.
Proof. intros [Hm _] k. by apply bind_pointwise. Qed.
Lemma dies_bind m1 m2 s1 s2 : says m1 s1 → dies m2 s2 → dies (m1 ;;; m2) (s1 ++ s2).
Proof.
  intros [H1 F1] H2 k. unfold bind at 2. rewrite print_app by done. unfold bind. rewrite H1.
  destruct (print s1 k) as [[] k'| | | |]; [|done..]. apply H2.
Qed.

(** The words for what [page_fault_handler] was told. *)
Definition fault_cause (err : Z) : cstr :=
  (if negb (Z.land err 0x1 =? 0) then lit "protection violation" else lit "page not present") ++ lit ", " ++
  (if negb (Z.land err 0x2 =? 0) then lit "on write" else lit "on read") ++ lit ", " ++
  (if negb (Z.land err 0x4 =? 0) then lit "user mode" else lit "kernel mode") ++
  (if negb (Z.land err 0x10 =? 0) then lit ", instruction fetch" else []).
Definition fault_report (addr err : Z) : cstr :=
  lit "\n*** PAGE FAULT ***\n" ++ lit "  address : " ++ hex_string addr ++ lit "\n  cause   : " ++
  fault_cause err ++ lit "\n  code    : " ++ hex_string err ++ lit "\n".
Definition exception_report (r : registers) : cstr :=
  lit "\n*** CPU EXCEPTION " ++ int_chars (int_no r) ++ lit ": " ++
  (if int_no r <? 32 then default [] (exception_names !! Z.to_nat (int_no r)) else lit "unknown") ++
  lit " ***\n  eip: " ++ hex_string (State.eip r) ++ lit "  err: " ++ hex_string (err_code r) ++
  lit "\nSystem halted.\n".

Ltac speak := first [apply says_hex | apply says_int; lia | apply says_print; by repeat case_match | apply says_when; speak].

Lemma fault_says err k : page_fault_handler err k = print (fault_report (cr2 (mach k)) err) k.
Proof.
  unfold page_fault_handler, read_cr2, on_mach. unfold bind at 1, gets at 1.
  match goal with |- ?m k = _ => assert (says m (fault_report (cr2 (mach k)) err)) as Hs end; [|apply Hs].
  unfold fault_report, fault_cause. rewrite <- !app_assoc.
  repeat (apply says_bind; [speak|]). speak.
Qed.

Lemma exception_name_says n : 0 ≤ n →
  says (print (if n <? 32 then default [] (exception_names !! Z.to_nat n) else lit "unknown"))
    (if n <? 32 then default [] (exception_names !! Z.to_nat n) else lit "unknown").
Proof.
  intros Hn. apply says_print. destruct (n <? 32); [|done].
  destruct (exception_names !! Z.to_nat n) as [s|] eqn:Hs; [|done]. cbn [default from_option id].
  assert (Forall (λ s, forallb (λ c, negb (c =? 0)) s = true) exception_names) as Hall by (by vm_compute; repeat constructor).
  rewrite Forall_lookup in Hall. by eapply Hall.
Qed.

(** The part of the handler that every exception but a breakpoint reaches. *)
Lemma exception_dies r : 0 ≤ int_no r < 0x80000000 → dies
  (print (lit "\n*** CPU EXCEPTION ") ;;; print_int (int_no r) ;;; print (lit ": ") ;;;
   print (if int_no r <? 32 then default [] (exception_names !! Z.to_nat (int_no r)) else lit "unknown") ;;;
   print (lit " ***\n  eip: ") ;;; print_hex (State.eip r) ;;; print (lit "  err: ") ;;; print_hex (err_code r) ;;;
   print (lit "\nSystem halted.\n") ;;; halt_forever) (exception_report r).
Proof.
  intros Hn. unfold exception_report. do 3 (apply dies_bind; [speak|]).
  apply dies_bind; [apply exception_name_says; lia|]. do 4 (apply dies_bind; [speak|]). apply dies_last. speak.
Qed.

Lemma dies_after (b : bool) (m1 m2 : K ()) s1 s2 k k' :
  m1 k = print s1 k → Forall (λ c, c ≠ 0) s1 → dies m2 s2 →
  print ((if b then s1 else []) ++ s2) k = Ok tt k' → (when b m1 ;;; m2) k = Halted k'.
Proof.
  intros H1 F1 H2 Hk. unfold when. destruct b.
  - rewrite print_app in Hk by done. unfold bind in *. rewrite H1.
    destruct (print s1 k) as [[] k1| | | |]; [|done..]. rewrite H2. unfold bind. by rewrite Hk.
  - cbn [app] in Hk. unfold bind, ret. rewrite H2. unfold bind. by rewrite Hk.
Qed.

Lemma fault_report_chars addr err : Forall (λ c, c ≠ 0) (fault_report addr err).
Proof.
  unfold fault_report, fault_cause. rewrite !Forall_app.
  split_and!; try apply hex_string_nonzero; repeat case_match; by vm_compute; repeat constructor.
Qed.

(** C19: every exception but the breakpoint is fatal, and says why: the handler
    prints its number, its name, where it happened and its error code -- for a
    page fault, first the address from CR2 and what was tried -- and stops the
    processor; nothing but the console has changed. *)
Theorem exception_reported r k :
  int_no r ≠ 3 → 0 ≤ int_no r < 0x80000000 →
  ∃ k', print ((if int_no r =? 14 then fault_report (cr2 (mach k)) (err_code r) else []) ++ exception_report r) k = Ok tt k' ∧
    isr_handler r k = Halted k' ∧ console_only k k'.
Proof.
  intros H3 Hn. destruct (wp_inv _ _ _ (print_console
    ((if int_no r =? 14 then fault_report (cr2 (mach k)) (err_code r) else []) ++ exception_report r) k)) as ([] & k' & Hk & Hc).
  exists k'. split_and!; [done| |done]. unfold isr_handler. rewrite (proj2 (Z.eqb_neq _ 3) H3).
  exact (dies_after _ _ _ _ _ _ _ (fault_says _ _) (fault_report_chars _ _) (exception_dies r Hn) Hk).
Qed.

(** A write to 0xDEADB000 from 0x1234, what the command [fault] does. *)
Definition deadb_fault : registers := Registers 0x10 0 0 0 0 0 0 0 0 14 2 0x1234 8 0x202 0 0.

Lemma exception_reported_witness :
  fault_report 0xDEADB000 2 ++ exception_report deadb_fault =
    lit "\n*** PAGE FAULT ***\n  address : 0xDEADB000\n  cause   : page not present, on write, kernel mode\n  code    : 0x00000002\n\n*** CPU EXCEPTION 14: page fault ***\n  eip: 0x00001234  err: 0x00000002\nSystem halted.\n" ∧
  ∃ k', print ((if int_no deadb_fault =? 14 then fault_report (cr2 (mach (upd_mach (set_cr2 0xDEADB000) cold))) (err_code deadb_fault)
      else []) ++ exception_report deadb_fault) (upd_mach (set_cr2 0xDEADB000) cold) = Ok tt k' ∧
    isr_handler deadb_fault (upd_mach (set_cr2 0xDEADB000) cold) = Halted k' ∧
    console_only (upd_mach (set_cr2 0xDEADB000) cold) k'.
Proof.
  split; [vm_compute; reflexivity|].
  exact (exception_reported deadb_fault (upd_mach (set_cr2 0xDEADB000) cold) ltac:(discriminate) ltac:(cbn; lia)).
Defined.
