(* ===== verification/BootProps.v ===== *)
(** * Booting: the properties

    The memory map GRUB leaves (src/memory.c), and the boot sequence
    (src/kernel.c), which puts the guarantees of the components together. *)
From stdpp Require Import prelude gmap list strings pretty.
From Stdlib Require Import Lia ZArith.
From S2P Require Import Prelude Machine State Util Console Memory Pmm Paging Heap HeapSpec.
From S2P Require Import HeapProof HeapMap Frames Alloc StackMemory Task TaskProof TaskStacks Multitask Input Timer Interrupts Shell Boot Booted DeviceProps.

#[local] Open Scope Z_scope.

(** ** The memory map *)

(** One entry of the map: base, length and type. *)
Definition mmap_entry : Type := Z * Z * Z.

(** The map lies in memory from [e] up to [stop] and consists of these entries,
    each [size + 4] bytes long. *)
Inductive mmap_at (m : machine) (stop : Z) : Z → list mmap_entry → Prop :=
  | mm_done e : stop ≤ e → mmap_at m stop e []
  | mm_entry e addr len type size es :
      0 ≤ e < stop → 0 ≤ size → e + size + 4 < 0x100000000 →
      m_load 8 (e + entry_addr) m = inr addr → m_load 8 (e + entry_len) m = inr len →
      m_load 4 (e + entry_type) m = inr type → m_load 4 (e + entry_size) m = inr size →
      entry_type ≤ size + 4 →
      mmap_at m stop (e + size + 4) es →
      mmap_at m stop e ((u32 addr, u32 len, type) :: es).

Definition add_entry (s : memory_state) (e : mmap_entry) : memory_state :=
  let '(base, len, type) := e in memory_add base len type s.

Lemma wp_load n a v (Q : Z → kernel → Prop) k : m_load n a (mach k) = inr v → Q v k → wp (load n a) Q k.
Proof. intros Hl HQ. unfold wp, load. by rewrite Hl. Qed.

Lemma memory_entries fuel stop e es (Q : () → kernel → Prop) k :
  mmap_at (mach k) stop e es → Z.of_nat fuel > Z.max 0 (stop - e) → 
  Q tt (upd_mem_st (λ s, foldl add_entry s es) k) → wp (while_fuel fuel (memory_entry stop) e) Q k.
Proof.
  intros Hm. remember (mach k) as m eqn:Hmach. revert fuel k Hmach.
  induction Hm as [e He|e addr len type size es He Hsz Hend Ha Hl Ht Hs Hmin Hm IH]; intros [|fuel] k -> Hfuel HQ; try lia;
    cbn [while_fuel]; rewrite wp_bind; unfold memory_entry at 1.
  - apply Z.ltb_ge in He. rewrite He, !wp_ret. cbn in HQ. by destruct k as [? [] ? ? ? ? ? ? ? ? ? ?].
  - rewrite (proj2 (Z.ltb_lt e stop)) by lia. unfold entry_addr, entry_len, entry_type, entry_size in *.
    rewrite (u32_small (e + 4)), (u32_small (e + 12)), (u32_small (e + 20)), (u32_small (e + 0)) by lia.
    rewrite wp_bind. apply (wp_load _ _ addr); [done|]. rewrite wp_bind. apply (wp_load _ _ len); [done|].
    rewrite wp_bind. apply (wp_load _ _ type); [done|]. rewrite wp_bind, wp_modify.
    rewrite wp_bind. apply (wp_load _ _ size); [done|]. rewrite wp_ret.
    rewrite (u32_small (e + size)), (u32_small (e + size + 4)) by lia.
    apply IH; [done|lia|]. exact HQ.
Qed.

(** The information structure at [mbi] has a memory map with these entries. *)
Definition mmap_info (m : machine) (mbi : Z) (es : list mmap_entry) : Prop :=
  ∃ fl start len, 0 ≤ mbi < 0xFFFFFF00 ∧ 0 ≤ start ∧ 0 ≤ len ∧ start + len < 0x100000000 ∧
    m_load 4 (mbi + mbi_flags) m = inr fl ∧ Z.testbit fl 6 = true ∧
    m_load 4 (mbi + mbi_mmap_addr) m = inr start ∧ m_load 4 (mbi + mbi_mmap_length) m = inr len ∧
    mmap_at m (start + len) start es.

Lemma memory_init_rep k mbi es : mmap_info (mach k) mbi es →
  wp (memory_init mbi) (λ _ k', k' = upd_mem_st (λ s, foldl add_entry s es) k) k.
Proof.
  intros (fl & start & len & Hmbi & Hs0 & Hl0 & Hsl & Hfl & Hbit & Hstart & Hlen & Hm).
  unfold memory_init, mbi_flags, mbi_mmap_addr, mbi_mmap_length in *.
  rewrite (u32_small (mbi + 0)), (u32_small (mbi + 44)), (u32_small (mbi + 48)), wp_bind by lia.
  apply (wp_load _ _ fl); [done|].
  assert (Z.land fl (Z.shiftl 1 6) =? 0 = false) as ->.
  { apply Z.eqb_neq. intros Hz. apply (f_equal (λ x, Z.testbit x 6)) in Hz. by rewrite Z.land_spec, Hbit in Hz. }
  rewrite wp_bind. apply (wp_load _ _ start); [done|]. rewrite wp_bind. apply (wp_load _ _ len); [done|].
  rewrite u32_small by lia. by apply (memory_entries _ _ _ es); [|lia|].
Qed.

(** What the statics hold after a list of entries. *)
Definition kb (e : mmap_entry) : Z := e.1.2 / 1024.
Definition usable (e : mmap_entry) : bool := e.2 =? 1.
Definition total (f : mmap_entry → Z) (es : list mmap_entry) : Z := foldl (λ t e, t + f e) 0 es.
Definition recorded (e : mmap_entry) : region := Region e.1.1 e.1.2 e.2.

Record map_of (es : list mmap_entry) (s : memory_state) : Prop := {
  mp_count : region_count s = Z.min MAX_REGIONS (Z.of_nat (length es));
  mp_regions : regions s = take 32 ((recorded <$> es) ++ replicate 32 (Region 0 0 0));
  mp_total : total_kb s = u32 (total kb es);
  mp_usable : usable_kb s = u32 (total (λ e, if usable e then kb e else 0) es);
  mp_highest : highest s = foldl (λ h e, if usable e then Z.max h (e.1.1 +u e.1.2) else h) 0 es
}.

Lemma u32_add_l x y : u32 x +u y = u32 (x + y).
Proof. unfold u32. by rewrite Zplus_mod_idemp_l. Qed.

Lemma replicate_insert {A} (x y : A) l n i : i = length l → (i < n)%nat →
  <[i := y]> (take n (l ++ replicate n x)) = take n ((l ++ [y]) ++ replicate n x).
Proof.
  intros -> Hn. rewrite <- take_insert_lt by done. destruct n as [|n]; [lia|]. cbn [replicate].
  rewrite <- (Nat.add_0_r (length l)), insert_app_r, <- app_assoc. cbn [app insert list_insert].
  change (x :: replicate n x) with (replicate (S n) x). rewrite (replicate_S_end n x), app_comm_cons, (app_assoc l), (take_app_le (l ++ y :: replicate n x)); [done|].
  rewrite length_app. cbn. rewrite length_replicate. lia.
Qed.

Lemma map_of_snoc es e s : map_of es s → map_of (es ++ [e]) (add_entry s e).
Proof.
  intros [Hc Hr Ht Hu Hh]. destruct e as [[base len] type].
  assert (region_count (add_entry s (base, len, type)) = Z.min MAX_REGIONS (Z.of_nat (length (es ++ [(base, len, type)]))) ∧
    regions (add_entry s (base, len, type)) =
      take 32 ((recorded <$> (es ++ [(base, len, type)])) ++ replicate 32 (Region 0 0 0))) as [Hc' Hr'].
  { rewrite length_app, fmap_app. unfold add_entry, memory_add, MAX_REGIONS in *. cbn [length fmap list_fmap].
    destruct (region_count s <? 32) eqn:Hlt.
    - apply Z.ltb_lt in Hlt. repeat case_match; cbn [regions region_count set_highest set_usable_kb set_total_kb set_region_count set_regions];
        (split; [lia|]); rewrite Hr; apply replicate_insert; rewrite ?length_fmap; lia.
    - apply Z.ltb_ge in Hlt. repeat case_match; cbn [regions region_count set_highest set_usable_kb set_total_kb];
        (split; [lia|]); rewrite Hr, !take_app_le by (rewrite ?length_app, ?length_fmap; cbn; lia); reflexivity. }
  split; [exact Hc'|exact Hr'| | |]; clear Hc' Hr'; unfold total; rewrite ?foldl_app; cbn [foldl];
    fold (total kb es); fold (total (λ e, if usable e then kb e else 0) es); unfold add_entry, memory_add, usable, kb; cbn [fst snd];
    destruct (region_count s <? MAX_REGIONS); destruct (type =? 1);
    cbn [total_kb usable_kb highest set_highest set_usable_kb set_total_kb set_region_count set_regions];
    rewrite ?Ht, ?Hu, ?u32_add_l, ?Z.add_0_r; try done;
    try (case_match; cbn [total_kb usable_kb highest set_highest set_usable_kb set_total_kb set_region_count set_regions];
      rewrite ?Ht, ?Hu, ?u32_add_l; done);
    unfold usable in Hh; rewrite <- Hh; case_match eqn:Hlt; cbn [highest set_highest set_usable_kb set_total_kb set_region_count set_regions]; lia.
Qed.

Definition fresh_map (s : memory_state) : Prop :=
  total_kb s = 0 ∧ usable_kb s = 0 ∧ highest s = 0 ∧ region_count s = 0 ∧ regions s = replicate 32 (Region 0 0 0).

Lemma map_of_fold es s : fresh_map s → map_of es (foldl add_entry s es).
Proof.
  intros (Ht & Hu & Hh & Hc & Hr). induction es as [|e es IH] using rev_ind; [by split|].
  rewrite foldl_app. by apply map_of_snoc.
Qed.

(** C30: [memory_init] reads the map GRUB left, entry by entry, and terminates:
    it records the first 32 regions in order and never writes past the array,
    and adds up the sizes of all of them, the usable ones, and the highest
    usable address, in 32-bit arithmetic; nothing else changes. *)
Theorem memory_init_reads k mbi es :
  mmap_info (mach k) mbi es → fresh_map (mem_st k) →
  wp (memory_init mbi) (λ _ k', map_of es (mem_st k') ∧ k' = upd_mem_st (λ _, mem_st k') k) k.
Proof.
  intros Hi Hf. eapply wp_mono; [by apply memory_init_rep|]. cbn beta. intros [] k' ->.
  split; [|done]. by apply map_of_fold.
Qed.

(** A machine with one megabyte, whose map is at 0x600. *)
Definition grub_ram : gmap Z Z :=
  write_list (seqZ 0x500 4) (le_split 4 0x40) (write_list (seqZ 0x52C 8) (le_split 4 24 ++ le_split 4 0x600)
    (write_list (seqZ 0x600 24) (le_split 4 20 ++ le_split 8 0 ++ le_split 8 0x40000 ++ le_split 4 1) ∅)).
Definition reset : kernel :=
  upd_mem_st (λ _, {| total_kb := 0; usable_kb := 0; highest := 0; region_count := 0;
                      regions := replicate 32 (Region 0 0 0) |}) (upd_mach (set_phys grub_ram) cold).
Definition grub_map : list mmap_entry := [(0, 0x40000, 1)].

Lemma reset_info : mmap_info (mach reset) 0x500 grub_map.
Proof.
  exists 0x40, 0x600, 24. split_and!; try (by vm_compute).
  change grub_map with [(u32 0, u32 0x40000, 1)].
  apply (mm_entry _ _ 0x600 0 0x40000 1 20); try (by vm_compute). by apply mm_done.
Qed.

Lemma memory_init_reads_witness :
  wp (memory_init 0x500) (λ _ k', map_of grub_map (mem_st k') ∧ k' = upd_mem_st (λ _, mem_st k') reset) reset.
Proof. apply memory_init_reads; [exact reset_info|done]. Defined.

(** ** The boot sequence *)

#[export] Instance serial_init_console : ConsoleOp serial_init.
Proof. unfold serial_init, serial_g. apply _. Qed.

Lemma console_step {A} (m : K A) `{!ConsoleOp m} k0 (Q : A → kernel → Prop) k :
  console_only k0 k → (∀ a k', console_only k0 k' → Q a k') → wp m Q k.
Proof. intros Hk HQ. eapply wp_mono; [apply console_op|]. cbn beta. intros a k' H. apply HQ. by etrans. Qed.

Lemma console_start {A} (m : K A) (Q : A → kernel → Prop) k : (∀ k', console_only k k' → wp m Q k') → wp m Q k.
Proof. intros H. by apply H. Qed.

(** Past the console operations at the head; [H] relates the state to the last
    one that mattered. *)
Ltac console_step1 H :=
  rewrite wp_bind;
  lazymatch goal with |- wp ?m _ _ =>
    let C := fresh in assert (ConsoleOp m) as C by apply _; eapply (@console_step _ m C _ _ _ H); clear C H end;
  intros ? ? H; cbv beta.
Ltac console_steps H := repeat console_step1 H.

(** A state with the same machine (console apart) and other statics. *)
Lemma console_same_memory k k' : console_only k k' → same_memory k k'.
Proof. by intros (v & s & l & ->). Qed.

(** What the devices are after the boot. *)
Record devices_ready (m : machine) (k : kernel) : Prop := {
  dr_idt : idt_ready m (idt_st k);
  dr_sched : booted_sched (sched_st k);
  dr_interrupts : Z.testbit (r_eflags (regs (mach k))) 9 = true
}.

(** What they need: arrays of the declared sizes, the initial quantum. *)
Record statics_ok (k : kernel) : Prop := {
  so_tasks : length (tasks (sched_st k)) = 8%nat;
  so_bases i : stack_base (task_at (sched_st k) i) = 0;
  so_quantum : quantum_left (sched_st k) = TASK_QUANTUM;
  so_idt : length (idt_table (idt_st k)) = 256%nat
}.

#[export] Instance shell_init_console : ConsoleOp shell_init.
Proof. unfold shell_init, shell_prompt. apply _. Qed.
#[export] Instance timer_init_console : ConsoleOp timer_init.
Proof. unfold timer_init. apply _. Qed.

Record boot_frame (k k' : kernel) : Prop := {
  bf_memory : same_memory k k';
  bf_map : mem_st k' = mem_st k;
  bf_shell : shell_st k' = shell_st k;
  bf_ticks : ticks k' = ticks k
}.

#[export] Instance boot_frame_trans : Transitive boot_frame.
Proof. intros k1 k2 k3 [] []. split; [by etrans|congruence..]. Qed.

Lemma console_frame k k' : console_only k k' →
  boot_frame k k' ∧ idt_st k' = idt_st k ∧ sched_st k' = sched_st k ∧ regs (mach k') = regs (mach k).
Proof. by intros (v & s & l & ->). Qed.

Definition sched_only (k k' : kernel) : Prop := ∃ s, k' = upd_sched_st (λ _, s) k.
#[export] Instance sched_only_preorder : PreOrder sched_only.
Proof. split; [intros k; exists (sched_st k); by destruct k|]. intros k1 k2 k3 [s ->] [s' ->]. by exists s'. Qed.
#[export] Instance upd_sched_only f : Preserves sched_only (modify (upd_sched_st f)).
Proof. intros k. by exists (f (sched_st k)). Qed.
#[export] Instance scheduler_init_only : Preserves sched_only scheduler_init.
Proof. unfold scheduler_init, upd_task. apply _. Qed.

Lemma boot_devices_rep k : statics_ok k →
  wp boot_devices (λ _ k', devices_ready (mach k) k' ∧ boot_frame k k' ∧
    regs (mach k') = interruptible (regs (mach k)) ∧
    ∀ i, 1 ≤ i < MAX_TASKS → stack_base (task_at (sched_st k') i) = 0) k.
Proof.
  intros [Ht Hb Hq Hl]. unfold boot_devices, serial_is_ready, serial_g.
  rewrite wp_bind. apply idt_install_rep; [done|]. intros s0 Ht0 Hr0.
  rewrite wp_bind. apply isr_install_rep; [done..|]. intros s l Hidt.
  set (k1 := upd_idt_st (λ _, s) (upd_mach (set_log l) k)). assert (boot_frame k k1) as H1 by done.
  assert (idt_st k1 = s) as Hi1 by done. assert (tasks (sched_st k1) = tasks (sched_st k)) as Ht1 by done.
  assert (quantum_left (sched_st k1) = quantum_left (sched_st k) ∧ regs (mach k1) = regs (mach k)) as [Hq1 Hr1] by done.
  assert (∀ i, stack_base (task_at (sched_st k1) i) = 0) as Hb1 by exact Hb. clearbody k1.
  rewrite wp_bind. eapply wp_mono.
  { apply (wp_preserves sched_only scheduler_init), (scheduler_init_rep k1); [by rewrite Ht1|by rewrite Hq1]. }
  cbn beta. intros [] k2 [(Hsched & _ & Hb2) [s2 Hk2]].
  assert (boot_frame k1 k2 ∧ idt_st k2 = idt_st k1 ∧ regs (mach k2) = regs (mach k1)) as (H2 & Hi2 & Hr2)
    by (by rewrite Hk2). clear Hk2.
  apply console_start. intros k3 H3.
  console_steps H3. lazymatch type of H3 with console_only _ ?k' => rename k' into k4 end.
  unfold sti, upd_regs, upd_machine. rewrite wp_bind, wp_modify. set (k5 := upd_mach _ k4).
  destruct (console_frame _ _ H3) as (Hf3 & Hi3 & Hs3 & Hr3).
  assert (boot_frame k4 k5 ∧ idt_st k5 = idt_st k4 ∧ sched_st k5 = sched_st k4 ∧
    regs (mach k5) = interruptible (regs (mach k4)) ∧
    Z.testbit (r_eflags (regs (mach k5))) 9 = true) as (Hf4 & Hi4 & Hs4 & Hr4 & He4).
  { split_and!; [done..|]. change (Z.testbit (Z.lor (r_eflags (regs (mach k4))) 0x200) 9 = true). rewrite Z.lor_spec. apply orb_true_r. }
  clearbody k5. clear H3. apply console_start. intros k6 H5.
  console_steps H5. eapply (console_step _ _ _ _ H5). intros _ k7 H7.
  destruct (console_frame _ _ H7) as (Hf7 & Hi7 & Hs7 & He7). split_and!.
  - split; [by rewrite Hi7, Hi4, Hi3, Hi2, Hi1|by rewrite Hs7, Hs4, Hs3|by rewrite He7].
  - etrans; [exact H1|]. etrans; [exact H2|]. etrans; [exact Hf3|]. by etrans.
  - by rewrite He7, Hr4, Hr3, Hr2, Hr1.
  - intros i Hi. rewrite Hs7, Hs4, Hs3, Hb2 by done. apply Hb1.
Qed.

(** *** Memory *)

(** The machine when the frame allocator starts, given the memory map: enough
    address space and RAM, the bitmap inside the window that will be mapped,
    and free frames for the directory, the first page tables and the heap's first
    pages (16, and room for the tables that map them). *)
Record ram_ok (k : kernel) : Prop := {
  ro_pmm : pmm_boot k;
  ro_highest : 0 < highest (mem_st k);
  ro_bitmap : boot_bitmap k + boot_size k ≤ boot_iend k;
  ro_counts : table_count (paging_st k) = 0 ∧ mapped_pages (paging_st k) = 0;
  ro_free : ∃ L, NoDup L ∧ (∀ f, f ∈ L → last_reserved k < f < boot_pages k ∧
    usable_frame (mem_st k) (region_count (mem_st k)) f) ∧ 33 + tables_for (boot_pages k) ≤ Z.of_nat (length L)
}.

Lemma ram_ok_console k k' : console_only k k' → ram_ok k → ram_ok k'.
Proof. intros (v & s & l & ->) [[] ? ? ? ?]. by split. Qed.

Lemma last_reserved_nonneg k : pmm_boot k → 0 ≤ last_reserved k ∧ 0 ≤ boot_bitmap k.
Proof.
  intros [_ Hh _ Hk Hr]. pose proof (page_up_spec _ Hk) as Hp. unfold FRAME_SIZE in *. specialize (Hp ltac:(lia)) as [Hp _].
  unfold last_reserved, boot_bitmap, boot_size, boot_total, FRAME_SIZE. zlia.
Qed.

(** What the frame allocator leaves is what paging starts from. *)
Lemma paging_boot_ready k k' U :
  ram_ok k → pmm_only k k' → bitmap (pmm_st k') = boot_bitmap k → bitmap_size (pmm_st k') = boot_size k →
  total_frames (pmm_st k') = boot_total k → pmm_rep k' U →
  (∀ f, 0 ≤ f < boot_total k → (f ∈ U ↔ f ≤ last_reserved k ∨ ¬ usable_frame (mem_st k) (region_count (mem_st k)) f)) →
  paging_boot k' U ∧ bm_hi k' ≤ boot_iend k' ∧
  33 + tables_for (boot_pages k') ≤ Z.of_nat (size (free_below U (boot_pages k'))).
Proof.
  intros [Hpm Hh Hbm Hcnt (L & HL & HLf & Hlen)] (p & ph & ->) Hb Hs Ht HU HUf.
  pose proof (last_reserved_nonneg k Hpm) as [Hl0 Hb0]. set (k' := upd_pmm_st _ _) in *.
  assert (boot_pages k' = boot_pages k ∧ boot_iend k' = boot_iend k) as [Hbp Hbi] by done.
  assert (boot_pages k ≤ boot_total k) as Hpt.
  { unfold boot_pages, boot_total, boot_iend, PAGE_SIZE, FRAME_SIZE. zlia. }
  assert (boot_iend k ≤ boot_total k * 0x1000) as Hit by (unfold boot_iend, boot_total, PAGE_SIZE, FRAME_SIZE; lia).
  assert (∀ a, boot_bitmap k ≤ a < boot_bitmap k + boot_size k → a / 0x1000 ∈ U) as Hbits.
  { intros a Ha. apply HUf; [zlia|]. left. unfold last_reserved, FRAME_SIZE. zlia. }
  split_and!.
  - split; try done.
    + apply Hpm.
    + split; [exact Hh|]. exact (proj2 (pb_highest _ Hpm)).
    + apply HUf; [|by left]. destruct L as [|f L]; [cbn in Hlen; unfold tables_for, boot_pages, boot_iend, PAGE_SIZE, IDENTITY_BYTES in Hlen; zlia|].
      destruct (HLf f ltac:(left)) as [? _]. lia.
    + intros a. unfold bm_lo, bm_hi. rewrite Hb, Hs. apply Hbits.
  - unfold bm_hi. by rewrite Hb, Hs.
  - rewrite Hbp. etrans; [exact Hlen|]. rewrite <- (size_list_to_set (C := gset Z)) by done.
    apply inj_le, subseteq_size. intros f Hf%elem_of_list_to_set. destruct (HLf f Hf) as [Hr Hus].
    apply elem_of_free_below. split; [lia|]. intros HfU. apply HUf in HfU; [|lia]. destruct HfU; [lia|done].
Qed.

Lemma pmm_rep_console k k' U : console_only k k' → pmm_rep k U → pmm_rep k' U.
Proof.
  intros (v & s & l & ->) HU. apply (pmm_rep_ext k); [done|done| |done].
  eapply window_step; [apply (pw_window _ (pr_wf _ _ HU))|]. by split.
Qed.

Lemma paging_boot_console k k' U : console_only k k' → paging_boot k U → paging_boot k' U.
Proof.
  intros Hc [HU ? ? ? ? ? ?]. pose proof (pmm_rep_console _ _ _ Hc HU). destruct Hc as (v & s & l & ->). by split.
Qed.

Lemma paging_inv_console k k' U T P : console_only k k' → paging_inv k U T P → paging_inv k' U T P.
Proof. intros (v & s & l & ->). by apply paging_inv_ext. Qed.

#[export] Instance upd_machine_cr_memory pg c : MemoryOp (upd_machine (set_cr pg c)).
Proof. by intros k. Qed.
#[export] Instance pmm_init_memory : MemoryOp pmm_init.
Proof. unfold pmm_init, pmm_init_region, frame_mark_used, frame_mark_free, frame_test, mem_highest_addr, mem_region_count,
  mem_region_type, mem_region_base, mem_region_len. memory_op. Qed.
#[export] Instance paging_init_memory : MemoryOp paging_init.
Proof. unfold paging_init, identity_page, mem_highest_addr. unfold paging_g, mem_g. apply _. Qed.
#[export] Instance heap_init_memory : MemoryOp heap_init.
Proof. unfold heap_init. memory_op. Qed.

(** Setting up frames and pages does not touch the heap's statics. *)
Definition same_heap (k k' : kernel) : Prop := heap_st k' = heap_st k.
#[export] Instance same_heap_preorder : PreOrder same_heap.
Proof. split; [done|]. unfold same_heap. intros k1 k2 k3. congruence. Qed.
Section same_heap_ops.
#[export] Instance console_same_heap {A} (m : K A) : ConsoleOp m → Preserves same_heap m | 10.
Proof.
  intros Hm k. specialize (Hm k). unfold wp in Hm. destruct (m k) as [a k'| | | |]; [|done..]. by destruct Hm as (v & s & l & ->).
Qed.
#[export] Instance load_same_heap n va : Preserves same_heap (load n va).
Proof. intros k. unfold load. by destruct (m_load n va (mach k)). Qed.
#[export] Instance store_same_heap n va v : Preserves same_heap (store n va v).
Proof. intros k. unfold store, m_store. by destruct (mmu_list (mach k) n va). Qed.
#[export] Instance upd_pmm_same_heap f : Preserves same_heap (modify (upd_pmm_st f)).
Proof. by intros k. Qed.
#[export] Instance upd_paging_same_heap f : Preserves same_heap (modify (upd_paging_st f)).
Proof. by intros k. Qed.
#[export] Instance upd_mach_same_heap f : Preserves same_heap (modify (upd_mach f)).
Proof. by intros k. Qed.
End same_heap_ops.
#[export] Instance paging_init_same_heap : Preserves same_heap paging_init.
Proof.
  unfold paging_init, identity_page, mem_highest_addr, memset, paging_map, get_table, flush_tlb_page, pmm_alloc_frame,
    pmm_alloc_word, pmm_alloc_bit, frame_mark_used, frame_test. frame_unfold. apply _.
Qed.

Lemma mmap_at_log m l stop e es : mmap_at m stop e es → mmap_at (set_log l m) stop e es.
Proof. induction 1; [by apply mm_done|by eapply mm_entry]. Qed.

Lemma mmap_info_console k k' mbi es : console_only k k' → mmap_info (mach k) mbi es → mmap_info (mach k') mbi es.
Proof.
  intros (v & s & l & ->) (fl & start & len & ? & ? & ? & ? & ? & ? & ? & ? & Hm).
  exists fl, start, len. split_and!; try (done || lia). by apply mmap_at_log.
Qed.

(** The kernel state with the memory map read. *)
Definition after_map (es : list mmap_entry) (k : kernel) : kernel := upd_mem_st (λ s, foldl add_entry s es) k.

Lemma after_map_console es k k' : console_only k k' → console_only (after_map es k) (after_map es k').
Proof. intros (v & s & l & ->). by exists v, s, l. Qed.

(** The boot stack (src/boot.asm reserves it in the kernel image) lies from
    [lo0] to [hi0]. *)
Section boot.
Context (lo0 hi0 : Z).

(** What a boot starts from: the statics as the loader clears them, the stack
    pointer in the boot stack, and a machine with enough memory for the map it
    reports. *)
Record bootable (es : list mmap_entry) (mbi : Z) (k : kernel) : Prop := {
  bt_statics : statics_ok k;
  bt_fresh : fresh_map (mem_st k);
  bt_heap : heap_ready (heap_st k) = 0;
  bt_info : mmap_info (mach k) mbi es;
  bt_ram : ram_ok (after_map es k);
  bt_image : 0x1000 ≤ lo0 ∧ hi0 ≤ kernel_end (mach k);
  bt_esp : lo0 ≤ r_esp (regs (mach k)) ≤ hi0;
  bt_regs : regs_ok (regs (mach k))
}.

Lemma bootable_console es mbi k k' : console_only k k' → bootable es mbi k → bootable es mbi k'.
Proof.
  intros Hc [Hs Hf Hh Hi Hr ? ? ?]. pose proof (mmap_info_console _ _ _ _ Hc Hi).
  pose proof (ram_ok_console _ _ (after_map_console es _ _ Hc) Hr). destruct Hc as (v & s & l & ->).
  split; [by destruct Hs|done..].
Qed.

(** What a boot leads to. *)
Record system_up (es : list mmap_entry) (k k' : kernel) : Prop := {
  su_map : map_of es (mem_st k');
  su_paging : cr0_pg (mach k') = true;
  su_memory : ∃ U T P, heap_inv k' U T P [initial_block];
  su_tasks : system lo0 hi0 k' ∅ ∧ regs (mach k') = interruptible (regs (mach k));
  su_devices : devices_ready (mach k) k';
  su_input : shell_st k' = shell_st k ∧ ticks k' = ticks k
}.

(** The parts of the state that the memory managers leave alone. *)
Record untouched (k k' : kernel) : Prop := {
  ut_sym : sym (mach k') = sym (mach k);
  ut_mem : mem_st k' = mem_st k;
  ut_sched : sched_st k' = sched_st k;
  ut_idt : idt_st k' = idt_st k;
  ut_shell : shell_st k' = shell_st k;
  ut_ticks : ticks k' = ticks k;
  ut_regs : regs (mach k') = regs (mach k)
}.
#[export] Instance untouched_trans : Transitive untouched.
Proof. intros k1 k2 k3 [] []. split; congruence. Qed.
Lemma memory_untouched k k' : memory_only k k' → untouched k k'.
Proof. by intros []. Qed.
Lemma console_untouched k k' : console_only k k' → untouched k k'.
Proof. by intros (v & s & l & ->). Qed.

(** The first state of the running system: one task, on the boot stack. *)
Lemma system_booted k U T P : heap_inv k U T P [initial_block] → boot_stack lo0 hi0 k U T P →
  booted_sched (sched_st k) → (∀ i, 1 ≤ i < MAX_TASKS → stack_base (task_at (sched_st k) i) = 0) →
  regs_ok (regs (mach k)) → lo0 ≤ r_esp (regs (mach k)) ≤ hi0 → system lo0 hi0 k ∅.
Proof.
  intros Hi Hb (Hw & Hc & _ & Hu) Hbase Hr He.
  assert (∀ i, live (sched_st k) i → i = 0) as Hl.
  { intros i [Hi' [Hl%runnable_cases| ->]]; [|done]. destruct (decide (i = 0)) as [|Hne]; [done|].
    rewrite Hu in Hl by lia. by destruct Hl. }
  split; [by exists U, T, P, [initial_block]|done|by apply slots_unused| | |done|by rewrite Hc].
  - intros i Hi' ->%Hl. lia.
  - intros i ->%Hl. by rewrite Hc.
Qed.

Lemma boot_stack_ext k k' U T P :
  phys (mach k') = phys (mach k) → pmm_st k' = pmm_st k → paging_st k' = paging_st k →
  boot_stack lo0 hi0 k U T P → boot_stack lo0 hi0 k' U T P.
Proof. intros. by eapply spared, spares_ext. Qed.

(** From the heap on. *)
Lemma boot_from_heap es k0 k U T P : statics_ok k0 → map_of es (mem_st k0) → heap_ready (heap_st k) = 0 →
  regs_ok (regs (mach k0)) → lo0 ≤ r_esp (regs (mach k0)) ≤ hi0 →
  untouched k0 k → paging_inv k U T P → cr0_pg (mach k) = true → boot_stack lo0 hi0 k U T P →
  32 ≤ spare_frames k U →
  wp (heap_init ;;;
      print (lit "Kernel heap ready at ") ;;; print_hex HEAP_START ;;; print (lit " (") ;;;
      n <- heap_size ;; print_int (n / 1024) ;;; print (lit " KB mapped).\n") ;;; boot_devices)
    (λ _ k', system_up es k0 k') k.
Proof.
  intros Hst Hmap Hh0 Hrok Hesp Hut Hi Hon Hbs Hroom. unfold heap_size, heap_g. rewrite wp_bind.
  eapply wp_mono; [apply (wp_preserves memory_only heap_init), (heap_init_rep k U T P Hi Hon)|].
  cbn beta. intros [] k1 [(U1 & T1 & P1 & _ & Hsp & [Hmem|[? _]]) Hmo]; [|lia].
  pose proof (spared _ _ _ _ _ _ _ _ Hbs Hsp) as Hbs1.
  apply console_start. intros k2 H1.
  console_steps H1. lazymatch type of H1 with console_only _ ?k' => rename k' into k3 end.
  assert (untouched k0 k3) as Hut3.
  { etrans; [exact Hut|]. etrans; [by apply memory_untouched|by apply console_untouched]. }
  pose proof (heap_inv_console _ _ _ _ _ _ H1 Hmem) as Hmem3.
  assert (boot_stack lo0 hi0 k3 U1 T1 P1) as Hbs3
    by (destruct H1 as (v & s & l & ->); by eapply boot_stack_ext; [..|exact Hbs1]).
  clear H1 Hmem Hbs1. destruct Hut3 as [Hsym Hms Hsc Hid Hsh Hti Hrg].
  eapply wp_mono; [apply boot_devices_rep|].
  { destruct Hst as [? ? ? ?]. split; congruence. }
  cbn beta. intros [] k4 ([[Hit Hir] Hsch Hint] & [Hsm Hmm Hss Htt] & Hr4 & Hb4).
  pose proof (heap_inv_same_memory _ _ _ _ _ _ Hsm Hmem3) as Hmem4. rewrite Hrg in Hr4. split.
  - by rewrite Hmm, Hms.
  - apply (hv_on _ _ _ _ _ Hmem4).
  - by exists U1, T1, P1.
  - split; [|done]. eapply system_booted; [exact Hmem4|destruct Hsm; by eapply boot_stack_ext; [..|exact Hbs3]|done|done| |].
    + rewrite Hr4. by apply interruptible_ok.
    + by rewrite Hr4.
  - split; [|done|done]. split; [|by rewrite Hir, Hsym]. rewrite Hit. unfold full_table, gate_of. by rewrite Hsym.
  - split; congruence.
Qed.

#[local] Typeclasses Opaque memory_init pmm_init paging_init heap_init boot_devices.

(** The image below the bitmap is reserved. *)
Lemma image_reserved k k1 (U : gset Z) : ram_ok k → 0x1000 ≤ lo0 ∧ hi0 ≤ kernel_end (mach k) →
  bitmap (pmm_st k1) = boot_bitmap k → bitmap_size (pmm_st k1) = boot_size k →
  total_frames (pmm_st k1) = boot_total k →
  (∀ f, 0 ≤ f < boot_total k → (f ∈ U ↔ f ≤ last_reserved k ∨ ¬ usable_frame (mem_st k) (region_count (mem_st k)) f)) →
  hi0 ≤ bm_lo k1 ∧ bm_lo k1 mod 0x1000 = 0 ∧ bm_lo k1 ≤ bm_hi k1 ∧
  ∀ x, lo0 ≤ x < hi0 → x / 0x1000 ∈ U.
Proof.
  intros [Hpm Hh Hbm _ _] [Hlo Hhi] Hb Hs Ht HU. pose proof (last_reserved_nonneg k Hpm) as [_ Hb0].
  destruct (page_up_spec (kernel_end (mach k))) as [Hpu Hal]; [apply Hpm|destruct Hpm; unfold FRAME_SIZE in *; lia|].
  fold (boot_bitmap k) in Hpu, Hal. unfold bm_hi, bm_lo. rewrite Hb, Hs. unfold FRAME_SIZE in *.
  assert (0 ≤ boot_size k) by (unfold boot_size, boot_total, FRAME_SIZE; zlia).
  split_and!; [lia|done|lia|]. intros x Hx.
  assert (boot_iend k ≤ boot_total k * 0x1000) by (unfold boot_iend, boot_total, PAGE_SIZE, FRAME_SIZE; lia).
  apply HU; [zlia|]. left. unfold last_reserved, FRAME_SIZE. zlia.
Qed.

(** So the boot stack is nobody else's once paging is on. *)
Lemma image_foreign k1 k4 (U U4 : gset Z) T4 P4 :
  0x1000 ≤ lo0 ≤ hi0 → (hi0 ≤ bm_lo k1 ∧ bm_lo k1 mod 0x1000 = 0 ∧ bm_lo k1 ≤ bm_hi k1 ∧
    ∀ x, lo0 ≤ x < hi0 → x / 0x1000 ∈ U) →
  bm_hi k1 ≤ boot_iend k1 → U ⊆ U4 → iend k4 = boot_iend k1 →
  (∀ f, f ∈ U → f ≠ 0 → owned k4 T4 f → ∃ a, bm_lo k1 ≤ a < bm_hi k1 ∧ f = a / 0x1000) →
  (∀ p, P4 !! p = if decide (0 ≤ p < boot_pages k1) then Some (identity_entry p) else None) →
  boot_stack lo0 hi0 k4 U4 T4 P4.
Proof.
  intros Hr (Hbl & Hal & Hlh & HU) Hbi HUU Hie Hown HP. split; [rewrite Hie; lia|]. intros x Hx. split_and!.
  - by apply HUU, HU.
  - intros Ho. destruct (Hown _ (HU x Hx) ltac:(zlia) Ho) as (a & Ha & Heq). zlia.
  - intros p Hp (e & He & _). rewrite HP in He. case_decide as Hd; [|done].
    revert Hp Hd. unfold heap_page, HEAP_START, boot_pages, boot_iend, IDENTITY_BYTES, PAGE_SIZE. intros. zlia.
Qed.

(** From the frame allocator on. *)
Lemma boot_from_frames es k0 k : statics_ok k0 → map_of es (mem_st k0) → heap_ready (heap_st k) = 0 →
  regs_ok (regs (mach k0)) → lo0 ≤ r_esp (regs (mach k0)) ≤ hi0 →
  untouched k0 k → ram_ok k → 0x1000 ≤ lo0 ∧ hi0 ≤ kernel_end (mach k) →
  wp (pmm_init ;;;
      print (lit "Physical allocator online: ") ;;; n <- pmm_free_frames ;; print_int n ;;;
      print (lit " free frames (") ;;; n <- pmm_free_frames ;; print_int ((n *u 4) / 1024) ;;;
      print (lit " MB).\n") ;;;
      paging_init ;;;
      print (lit "Paging enabled: identity map 0 - ") ;;; n <- paging_identity_end ;; print_hex n ;;;
      print (lit " (") ;;; n <- paging_table_count ;; print_int n ;;; print (lit " page tables).\n") ;;;
      heap_init ;;;
      print (lit "Kernel heap ready at ") ;;; print_hex HEAP_START ;;; print (lit " (") ;;;
      n <- heap_size ;; print_int (n / 1024) ;;; print (lit " KB mapped).\n") ;;; boot_devices)
    (λ _ k', system_up es k0 k') k.
Proof.
  intros Hst Hmap Hh0 Hrok Hesp Hut Hram Himg. unfold pmm_free_frames, paging_identity_end, paging_table_count, pmm_g, paging_g.
  rewrite wp_bind. eapply wp_mono; [apply (wp_preserves memory_only pmm_init), (pmm_init_rep k (ro_pmm _ Hram))|].
  cbn beta. intros [] k1 [(Hpm & _ & Hb & Hs & Ht & U & HU & HUf) Hmo].
  destruct (paging_boot_ready k k1 U Hram Hpm Hb Hs Ht HU HUf) as (Hpb & Hbm & Hfree).
  pose proof (image_reserved k k1 U Hram Himg Hb Hs Ht HUf) as Himg1.
  assert (heap_ready (heap_st k1) = 0) as Hh1 by (by destruct Hpm as (p & ph & ->)).
  assert (untouched k0 k1) as Hut1 by (etrans; [exact Hut|by apply memory_untouched]). clear Hpm Hmo Hb Hs Ht HU HUf.
  apply console_start. intros k2 H1.
  console_steps H1. lazymatch type of H1 with console_only _ ?k' => rename k' into k3 end.
  assert (untouched k0 k3) as Hut3 by (etrans; [exact Hut1|by apply console_untouched]).
  pose proof (paging_boot_console _ _ _ H1 Hpb) as Hpb3.
  assert (heap_ready (heap_st k3) = 0 ∧ bm_hi k3 = bm_hi k1 ∧ boot_iend k3 = boot_iend k1 ∧
    boot_pages k3 = boot_pages k1 ∧ bm_lo k3 = bm_lo k1) as (Hh3 & Hb3 & Hi3 & Hp3 & Hl3) by (by destruct H1 as (v & s & l & ->)).
  clear H1 Hut1 Hpb. rewrite wp_bind.
  eapply wp_mono; [apply (wp_preserves same_heap paging_init), (wp_preserves memory_only paging_init),
    (paging_init_rep k3 U Hpb3); rewrite ?Hb3, ?Hi3, ?Hp3; [done|lia]|].
  cbn beta. intros [] k4 [[(U4 & T4 & P4 & Hinv & HU4 & Hon & _ & Hie & _ & Hown & Hsz & HP4) Hmo] Hhp].
  rewrite Hp3 in Hsz, HP4. rewrite Hb3, Hl3 in Hown. rewrite Hi3 in Hie.
  assert (boot_stack lo0 hi0 k4 U4 T4 P4) as Hbs4.
  { apply image_foreign with (k1 := k1) (U := U); try done. lia. }
  assert (32 ≤ spare_frames k4 U4) as Hroom4 by lia.
  assert (untouched k0 k4) as Hut4 by (etrans; [exact Hut3|by apply memory_untouched]).
  assert (heap_ready (heap_st k4) = 0) as Hh4 by (by rewrite Hhp). clear Hmo Hhp Hut3 Hh3 Hpb3.
  apply console_start. intros k5 H5.
  console_steps H5. lazymatch type of H5 with console_only _ ?k' => rename k' into k6 end.
  pose proof (paging_inv_console _ _ _ _ _ H5 Hinv) as Hinv6.
  assert (untouched k0 k6) as Hut6 by (etrans; [exact Hut4|by apply console_untouched]).
  assert (heap_ready (heap_st k6) = 0 ∧ cr0_pg (mach k6) = true ∧ boot_stack lo0 hi0 k6 U4 T4 P4 ∧
    32 ≤ spare_frames k6 U4) as (Hh6 & Hon6 & Hbs6 & Hroom6).
  { destruct H5 as (v & s & l & ->). split_and!; [done|done| |done]. by eapply boot_stack_ext; [..|exact Hbs4]. }
  by apply (boot_from_heap es k0 k6 U4 T4 P4).
Qed.

Lemma kernel_boot_up es mbi k :
  bootable es mbi k → wp (kernel_boot MULTIBOOT_MAGIC mbi) (λ _ k', system_up es k k') k.
Proof.
  intros Hb.
  unfold kernel_boot. change (negb (MULTIBOOT_MAGIC =? MULTIBOOT_MAGIC)) with false. cbv iota.
  apply console_start. intros k0 H0.
  console_steps H0. lazymatch type of H0 with console_only _ ?k' => rename k' into k1 end.
  destruct (bootable_console _ _ _ _ H0 Hb) as [Hst Hfr Hh Hinfo Hram Himg Hesp Hrok].
  assert (sym (mach k1) = sym (mach k) ∧ shell_st k1 = shell_st k ∧ ticks k1 = ticks k ∧
    regs (mach k1) = regs (mach k)) as (Hsy & Hsh & Hti & Hrg)
    by (by destruct H0 as (v & s & l & ->)).
  unfold boot_rest, mem_usable_kb, mem_g. rewrite wp_bind. eapply wp_mono; [by apply memory_init_rep|].
  cbn beta. intros [] k2 ->. fold (after_map es k1). set (k2 := after_map es k1) in *.
  assert (map_of es (mem_st k2)) as Hmap by (by apply map_of_fold).
  assert (statics_ok k2) as Hst2 by (by destruct Hst). assert (heap_ready (heap_st k2) = 0) as Hh2 by done.
  assert (sym (mach k2) = sym (mach k) ∧ shell_st k2 = shell_st k ∧ ticks k2 = ticks k) as (Hsy2 & Hsh2 & Hti2) by done.
  assert (regs (mach k2) = regs (mach k)) as Hrg2 by done.
  assert (regs_ok (regs (mach k2)) ∧ lo0 ≤ r_esp (regs (mach k2)) ≤ hi0) as [Hrok2 Hesp2] by done.
  assert (kernel_end (mach k2) = kernel_end (mach k1)) as Hke2 by done. rewrite <- Hke2 in Himg. clear Hke2.
  clearbody k2. apply console_start. intros k3 H3.
  console_steps H3. lazymatch type of H3 with console_only _ ?k' => rename k' into k4 end.
  eapply wp_mono; [apply (boot_from_frames es k2 k4)|]; [done|done| |done|done|by apply console_untouched|by eapply ram_ok_console| |].
  { by destruct H3 as (v & s & l & ->). } { by destruct H3 as (v & s & l & ->). }
  cbn beta. intros [] k9 [? ? ? [? Hrg9] [[Hit Hir] ? ?] [? ?]].
  split; [done|done|done|split; [done|congruence]| |split; congruence].
  split; [|done|done]. split; [|by rewrite Hir, Hsy2]. rewrite Hit. unfold full_table, gate_of. by rewrite Hsy2.
Qed.

(** C1: booted by a Multiboot loader on a machine with enough memory, the
    kernel comes up: [kernel_boot] returns with the memory map read, paging on,
    the heap holding one free block, the scheduler running the kernel as task 0
    on the boot stack and nothing else ([system], the invariant that multitasking
    keeps), every gate of the interrupt table installed, interrupts enabled and
    the registers otherwise as they were, and the input untouched.  Booted by
    anything else it prints an error and halts. *)
Theorem kernel_boots es mbi magic k :
  bootable es mbi k →
  (magic = MULTIBOOT_MAGIC → wp (kernel_boot magic mbi) (λ _ k', system_up es k k') k) ∧
  (magic ≠ MULTIBOOT_MAGIC → ∃ k', kernel_boot magic mbi k = Halted k' ∧ console_only k k').
Proof.
  intros Hb. split.
  - intros ->. by apply kernel_boot_up.
  - unfold kernel_boot. intros Hne%Z.eqb_neq. rewrite Hne. cbn [negb].
    assert (ConsoleOp (serial_init ;;; clear_screen ;;; print (lit "JarvisOS 1.0.0 booting...\n") ;;;
      print (lit "FATAL: not booted by a Multiboot loader.\n"))) as Hc by apply _.
    destruct (wp_inv _ _ _ (Hc k)) as ([] & k' & Heq & Hk'). exists k'. split; [|done]. revert Heq.
    unfold bind. destruct (serial_init k) as [[] k1| | | |]; [|done..]. destruct (clear_screen k1) as [[] k2| | | |]; [|done..].
    destruct (print (lit "JarvisOS 1.0.0 booting...\n") k2) as [[] k3| | | |]; [|done..]. by intros ->.
Qed.
End boot.

Lemma reset_bootable : bootable 0x2000 0x2800 grub_map 0x500 reset.
Proof.
  split; [|done|done|exact reset_info| |closed|closed|].
  { split; [done| |done|done]. intros i. unfold task_at.
    destruct (tasks (sched_st reset) !! Z.to_nat i) as [t|] eqn:Ht; [|done].
    change (replicate 8 no_task !! Z.to_nat i = Some t) in Ht. by apply lookup_replicate in Ht as [-> _]. }
  2: { repeat (constructor; [cbn; lia|]). constructor. }
  split.
  - split; [done|by vm_compute| |by vm_compute|by vm_compute].
    assert (Forall (λ r, 0 ≤ r_base r < 0x100000000 ∧ 0 ≤ r_len r < 0x100000000)
      (regions (mem_st (after_map grub_map reset)))) as Hf.
    { repeat (constructor; [cbn; lia|]). constructor. }
    intros r. unfold region_at. destruct (regions _ !! _) as [x|] eqn:Hx; [|cbn; lia].
    by eapply (Forall_lookup_1 _ _ _ _ Hf) in Hx.
  - by vm_compute.
  - by vm_compute.
  - done.
  - exists (seqZ 4 60). split_and!.
    + apply NoDup_seqZ.
    + intros f Hf%elem_of_seqZ.
      change (last_reserved (after_map grub_map reset)) with 3. change (boot_pages (after_map grub_map reset)) with 64.
      split; [lia|]. exists 0. split; [by vm_compute|]. split; [by vm_compute|].
      change (0 / 0x1000 ≤ f < 0 / 0x1000 + 0x40000 / 0x1000). zlia.
    + by vm_compute.
Qed.

Lemma kernel_boots_witness :
  wp (kernel_boot 0x2BADB002 0x500) (λ _ k', system_up 0x2000 0x2800 grub_map reset k') reset.
Proof. exact (proj1 (kernel_boots 0x2000 0x2800 grub_map 0x500 0x2BADB002 reset reset_bootable) eq_refl). Defined.
