(* ===== verification/MultitaskProps.v ===== *)
(** * What a task can rely on

    The theorems about the running system, from boot on: the invariant of every
    reachable state, what a tick does to the tasks, what a task finds when it
    gets the processor back, how a new task begins, and that an interrupt, with
    everything that other tasks do before it returns, leaves no trace. *)
From stdpp Require Import prelude gmap list strings.
From Stdlib Require Import Lia ZArith.
From S2P Require Import Prelude Machine State Util Console Memory Pmm Paging Heap HeapSpec.
From S2P Require Import HeapProof HeapMap Frames Alloc StackMemory Task TaskProof TaskStacks.
From S2P Require Import Input Timer Interrupts Stubs Multitask Preemption Shell Boot Booted.
From S2P Require Import ConsoleProps BootProps ShellProps ShellMemory ShellSafe Running.

#[local] Open Scope Z_scope.

(** ** A small run *)
Definition up : kernel := run_state (kernel_boot MULTIBOOT_MAGIC 0x500) reset.
(** A task was created, *)
Definition created : kernel := run_state (task_create (lit "worker") 0x5000) up.
(** got the processor, *)
Definition working : kernel := run_state task_yield created.
(** was interrupted by the timer, which left it the processor, *)
Definition timer_frame : registers := Registers 0x10 0 0 0 0 0 0 0 0 32 0 0 8 0x202 0 0.
Definition ticked : kernel := run_state (irq_handler 0 timer_frame) working.
(** and gave it back. *)
Definition back_home : kernel := run_state task_yield ticked.

(** Did it return, and with what? *)
Definition result_of {A} (m : K A) (k : kernel) : option A :=
  match m k with Ok a _ => Some a | _ => None end.

Lemma ran {A} (m : K A) k k' a : k' = run_state m k → result_of m k = Some a → m k = Ok a k'.
Proof. intros ->. unfold result_of, run_state. destruct (m k); naive_solver. Qed.

Lemma up_eq : up = run_state (kernel_boot MULTIBOOT_MAGIC 0x500) reset.
Proof. reflexivity. Qed.

(** What the witnesses need to know of these states, computed once. *)
Definition created_table : sched_state := Eval vm_compute in sched_st created.
Definition working_table : sched_state := Eval vm_compute in sched_st working.
Definition ticked_table : sched_state := Eval vm_compute in sched_st ticked.
Definition worker_top : Z := first_esp (HEAP_START + 16) + 40.
Definition task_after (m : K ()) (k : kernel) : option Z :=
  match m k with Ok _ k' => Some (current (sched_st k')) | _ => None end.

Lemma run_facts :
  (result_of (task_create (lit "worker") 0x5000) up = Some 1 ∧ result_of task_yield created = Some tt ∧
   result_of (irq_handler 0 timer_frame) working = Some tt ∧ result_of task_yield ticked = Some tt) ∧
  (sched_st created = created_table ∧ sched_st working = working_table ∧ sched_st ticked = ticked_table ∧
   current (sched_st back_home) = 0) ∧
  (current (sched_st up) = 0 ∧ regs (mach up) = demo_regs ∧ regs (mach created) = demo_regs ∧
   r_esp (regs (mach working)) = worker_top ∧ r_eip (regs (mach working)) = 0x5000 ∧
   r_esp (regs (mach ticked)) = worker_top) ∧
  (sym (mach up) "isr_common_stub" = 0x1000 ∧ sym (mach created) "irq_common_stub" = 0x1000 ∧
   task_after (irq_call 8 0 (flat 0x10) 32) created = Some 0).
Proof. closed. Qed.

Lemma created_eq : task_create (lit "worker") 0x5000 up = Ok 1 created.
Proof. destruct run_facts as ((H & _) & _). exact (ran _ _ _ _ eq_refl H). Qed.
Lemma working_eq : task_yield created = Ok tt working.
Proof. destruct run_facts as ((_ & H & _) & _). exact (ran _ _ _ _ eq_refl H). Qed.
Lemma ticked_eq : irq_handler 0 timer_frame working = Ok tt ticked.
Proof. destruct run_facts as ((_ & _ & H & _) & _). exact (ran _ _ _ _ eq_refl H). Qed.
Lemma back_home_eq : task_yield ticked = Ok tt back_home.
Proof. destruct run_facts as ((_ & _ & _ & H) & _). exact (ran _ _ _ _ eq_refl H). Qed.
#[global] Opaque up created working ticked back_home.

Lemma up_system : system 0x2000 0x2800 up ∅.
Proof.
  destruct (wp_run_state _ _ _ _ up_eq (kernel_boot_up 0x2000 0x2800 grub_map 0x500 reset reset_bootable)) as [? H].
  exact (proj1 (su_tasks _ _ _ _ _ H)).
Qed.
Lemma created_running : ∃ A, system 0x2000 0x2800 created A.
Proof.
  destruct (step_system 0x2000 0x2800 up ∅ created up_system) as [H _]; [|exact H].
  eapply step_create, created_eq.
Qed.

(** Facts about these states, one by one. *)
Lemma at_created : sched_st created = created_table ∧ regs (mach created) = demo_regs.
Proof. destruct run_facts as (_ & (H1 & _) & (_ & _ & H2 & _) & _). exact (conj H1 H2). Qed.
Lemma created_room : room 0x2000 created.
Proof. unfold room. destruct at_created as [-> ->]. closed. Qed.
Lemma working_room : room 0x2000 working.
Proof.
  unfold room. destruct run_facts as (_ & (_ & -> & _) & (_ & _ & _ & -> & _) & _). closed.
Qed.
Lemma ticked_room : room 0x2000 ticked.
Proof.
  unfold room. destruct run_facts as (_ & (_ & _ & -> & _) & (_ & _ & _ & _ & _ & ->) & _). closed.
Qed.

(** ** The invariant *)

(** C2: from boot on, whatever the tasks compute on their stacks, whatever they
    ask of the kernel, whichever careful lines of the shell they execute and
    whichever interrupts arrive, every state reached
    satisfies the invariant [system]: the frame allocator, the page tables and
    the heap are in order, every live task has a stack of its own, and what a
    waiting task left on it is complete.  In particular two tasks never share a
    byte of stack. *)
Theorem running_system lo0 hi0 es mbi k0 :
  bootable lo0 hi0 es mbi k0 →
  wp (kernel_boot MULTIBOOT_MAGIC mbi) (λ _ k, ∀ k', rtc (step lo0 hi0) k k' →
    (∃ A, system lo0 hi0 k' A) ∧
    ∀ i j x, live (sched_st k') i → live (sched_st k') j → i ≠ j →
      stack_lo lo0 (sched_st k') i ≤ x < stack_hi hi0 (sched_st k') i →
      ¬ stack_lo lo0 (sched_st k') j ≤ x < stack_hi hi0 (sched_st k') j) k0.
Proof.
  intros Hb. eapply wp_mono; [by apply kernel_boot_up|]. cbn beta. intros _ k Hup k' Hst.
  destruct (su_tasks _ _ _ _ _ Hup) as [Hsy _].
  destruct (steps_system lo0 hi0 _ _ Hst) as [A Hsy']; [by exists ∅|]. split; [by exists A|].
  intros i j x Hi Hj Hne Hx Hx'. by eapply (live_disjoint lo0 hi0 k' A Hsy' i j x).
Qed.

Lemma running_system_witness :
  rtc (step 0x2000 0x2800) up back_home ∧
  wp (kernel_boot MULTIBOOT_MAGIC 0x500) (λ _ k, ∀ k', rtc (step 0x2000 0x2800) k k' →
    (∃ A, system 0x2000 0x2800 k' A) ∧
    ∀ i j x, live (sched_st k') i → live (sched_st k') j → i ≠ j →
      stack_lo 0x2000 (sched_st k') i ≤ x < stack_hi 0x2800 (sched_st k') i →
      ¬ stack_lo 0x2000 (sched_st k') j ≤ x < stack_hi 0x2800 (sched_st k') j) reset.
Proof.
  split; [|exact (running_system 0x2000 0x2800 grub_map 0x500 reset reset_bootable)].
  eapply rtc_l; [eapply step_create, created_eq|].
  eapply rtc_l; [eapply step_yield; [exact created_room|exact working_eq]|].
  eapply rtc_l; [eapply step_irq; [exact working_room|exact ticked_eq]|].
  eapply rtc_l; [eapply step_yield; [exact ticked_room|exact back_home_eq]|]. apply rtc_refl.
Defined.

(** ** Ticks and yields *)

(** C9: with 48 bytes of stack left, a timer interrupt and a yield return, keep
    the invariant, and no task comes alive by them.  The task that had the
    processor and lost it is left inside the call of [context_switch], with all
    its registers and its stack; every other live task, the one that gets the
    processor included, keeps its registers and every byte of its stack. *)
Theorem scheduling_is_private lo0 hi0 k A fuel fr :
  system lo0 hi0 k A → room lo0 k → int_no fr = 32 →
  wp (irq_handler fuel fr) (λ _ k', scheduled lo0 hi0 k k') k ∧
  wp task_yield (λ _ k', scheduled lo0 hi0 k k') k.
Proof. intros Hsy Hr Hn. split; [by eapply timer_irq_system|by eapply task_yield_system]. Qed.

Lemma scheduling_is_private_witness : ∃ A,
  system 0x2000 0x2800 created A ∧
  wp (irq_handler 0 timer_frame) (λ _ k', scheduled 0x2000 0x2800 created k') created ∧
  wp task_yield (λ _ k', scheduled 0x2000 0x2800 created k') created.
Proof.
  destruct created_running as [A Hsy]. exists A. split; [exact Hsy|].
  apply (scheduling_is_private 0x2000 0x2800 created A 0 timer_frame); [exact Hsy|exact created_room|reflexivity].
Defined.

(** ** Losing the processor and getting it back *)

(** C3: a task that loses the processor, by whatever step, and gets it back after
    any number of steps of the others (ticks, interrupts, yields, tasks created,
    killed and reaped, memory allocated, written and freed, careful lines of the
    shell), finds every register as it was, its stack pointer two words lower (it
    is inside [context_switch(&old_esp, new_esp)]), and every byte of its stack
    unchanged. *)
Theorem resumes_exactly lo0 hi0 i k1 A k2 k3 k4 :
  system lo0 hi0 k1 A → i = current (sched_st k1) →
  step lo0 hi0 k1 k2 → current (sched_st k2) ≠ i → live (sched_st k2) i →
  rtc (waits lo0 hi0 i) k2 k3 → step lo0 hi0 k3 k4 → current (sched_st k4) = i →
  regs (mach k4) = in_call (regs (mach k1)) ∧
  stack_hi hi0 (sched_st k4) i = stack_hi hi0 (sched_st k1) i ∧
  ∀ x, r_esp (regs (mach k1)) ≤ x < stack_hi hi0 (sched_st k1) i → vbyte (mach k4) x = vbyte (mach k1) x.
Proof.
  intros Hsy -> H12 Hn Hl Hw H34 Hc. destruct (step_system _ _ _ _ _ Hsy H12) as [[A2 Hsy2] Hseen].
  pose proof (Hseen _ (live_current _ _ _ _ Hsy) Hl) as Hp. rewrite decide_True in Hp by done.
  destruct (away_and_back _ _ _ _ _ _ _ _ Hsy2 Hp (not_eq_sym Hn) Hl Hw H34 Hc) as [_ Hr _ Hhi Hb].
  by rewrite view_current in *.
Qed.

Lemma ticked_waits : waits 0x2000 0x2800 0 working ticked.
Proof.
  split; [eapply step_irq; [exact working_room|exact ticked_eq]|].
  destruct run_facts as (_ & (_ & -> & -> & _) & _).
  split; [closed|]. split; [closed|]. split; (split; [closed|left; reflexivity]).
Qed.

Lemma resumes_exactly_witness :
  regs (mach back_home) = in_call (regs (mach created)) ∧
  stack_hi 0x2800 (sched_st back_home) 0 = stack_hi 0x2800 (sched_st created) 0 ∧
  ∀ x, r_esp (regs (mach created)) ≤ x < stack_hi 0x2800 (sched_st created) 0 →
    vbyte (mach back_home) x = vbyte (mach created) x.
Proof.
  destruct created_running as [A Hsy]. destruct run_facts as (_ & (Hct & Hwt & _ & Hb) & _).
  apply (resumes_exactly 0x2000 0x2800 0 created A working ticked back_home).
  - exact Hsy.
  - rewrite Hct. reflexivity.
  - eapply step_yield; [exact created_room|exact working_eq].
  - rewrite Hwt. closed.
  - rewrite Hwt. split; [closed|left; reflexivity].
  - eapply rtc_l; [exact ticked_waits|apply rtc_refl].
  - eapply step_yield; [exact ticked_room|exact back_home_eq].
  - exact Hb.
Defined.

(** ** A new task *)

(** C8: [task_create] keeps the invariant, and no task that was alive notices.
    If it returns an index, that slot had no live task, and when the new task
    first gets the processor, however many steps of others later, it begins at
    [entry] with interrupts enabled, all other registers zero, and its stack
    pointer one word below the top of its own stack, where the address of
    [task_exit] lies for it to return to. *)
Theorem new_task_begins lo0 hi0 k A nm entry :
  system lo0 hi0 k A →
  wp (task_create nm entry) (λ r k1,
    (∃ A1, system lo0 hi0 k1 A1) ∧ unnoticed hi0 k k1 ∧
    (r = -1 ∨ 1 ≤ r < MAX_TASKS ∧ ¬ live (sched_st k) r ∧
      ∀ k2 k3, rtc (waits lo0 hi0 r) k1 k2 → step lo0 hi0 k2 k3 → current (sched_st k3) = r →
        let top := stack_hi hi0 (sched_st k3) r in
        regs (mach k3) = entry_regs (u32 entry) (top - 4) ∧
        vword (mach k3) (top - 4) = u32 (sym (mach k) "task_exit"))) k.
Proof.
  intros Hsy. eapply wp_mono; [by eapply task_create_system|].
  cbn beta. intros r k1 ([A1 Hsy1] & _ & Hu & Hr). split; [by exists A1|]. split; [done|].
  destruct Hr as [|(Hr & Hn & [Hl Hw Hv Hx])]; [by left|]. right. split_and!; [lia|lia|done|].
  intros k2 k3 Hws Hst Hc. cbn zeta. destruct (waits_end _ _ _ _ _ Hws Hw Hl) as [Hn2 Hl2].
  destruct (waits_undisturbed _ _ _ _ _ Hws) as [[A2 Hsy2] [V2 T2 B2]]; [by exists A1|].
  destruct (resumed _ _ r _ _ _ Hsy2 Hst Hn2 (eq_sym Hc) Hl2) as (_ & [V3 T3 B3] & Hregs).
  rewrite T3, T2. split; [congruence|]. rewrite <- Hx. apply vword_ext. intros x Hx'.
  rewrite V2, Hv in B3. rewrite Hv in B2. cbn [r_esp entry_regs] in *. rewrite B3 by lia. apply B2. lia.
Qed.

Lemma new_task_begins_witness :
  wp (task_create (lit "worker") 0x5000) (λ r k1,
    (∃ A1, system 0x2000 0x2800 k1 A1) ∧ unnoticed 0x2800 up k1 ∧
    (r = -1 ∨ 1 ≤ r < MAX_TASKS ∧ ¬ live (sched_st up) r ∧
      ∀ k2 k3, rtc (waits 0x2000 0x2800 r) k1 k2 → step 0x2000 0x2800 k2 k3 → current (sched_st k3) = r →
        let top := stack_hi 0x2800 (sched_st k3) r in
        regs (mach k3) = entry_regs (u32 0x5000) (top - 4) ∧
        vword (mach k3) (top - 4) = u32 (sym (mach up) "task_exit"))) up ∧
  r_eip (regs (mach working)) = 0x5000.
Proof.
  destruct run_facts as (_ & _ & (_ & _ & _ & _ & Hip & _) & _). split; [|exact Hip].
  exact (new_task_begins 0x2000 0x2800 up ∅ (lit "worker") 0x5000 up_system).
Defined.

(** ** Interrupts *)

(** C4: an interrupt request, taken at any moment with 112 bytes of stack left,
    is invisible to the task it interrupts.  The timer's handler returns; if a
    handler returns to the interrupted task, the rest of the stub brings back all
    registers, flags, segments and the code the task was at, with its stack
    unchanged; and if the timer gave the processor away, this is so when the task
    gets it back, whatever the other tasks did meanwhile. *)
Theorem preemption_invisible lo0 hi0 cs_sel ds k A fuel n :
  0 ≤ cs_sel < 0x100000000 → 0 ≤ ds < 0x10000 → 0 ≤ n < 0x100000000 →
  0 ≤ sym (mach k) "irq_common_stub" < 0x100000000 → system lo0 hi0 k A →
  stack_lo lo0 (sched_st k) (current (sched_st k)) + 112 ≤ r_esp (regs (mach k)) →
  let i := current (sched_st k) in
  (n = 32 → ∃ k2, irq_call cs_sel fuel (flat ds) n k = Ok tt k2) ∧
  ∀ k2, irq_call cs_sel fuel (flat ds) n k = Ok tt k2 →
    (current (sched_st k2) = i → continues hi0 cs_sel ds k k2) ∧
    (current (sched_st k2) ≠ i → live (sched_st k2) i →
     ∀ k3 k4, rtc (waits lo0 hi0 i) k2 k3 → step lo0 hi0 k3 k4 → current (sched_st k4) = i →
       r_esp (regs (mach k4)) = r_esp (regs (mach k)) - 72 ∧ continues hi0 cs_sel ds k k4).
Proof.
  intros Hcs Hds Hn Hsym Hsy Hroom i.
  destruct (irq_entered lo0 hi0 cs_sel ds Hcs Hds k A Hsy Hsym n Hn Hroom) as (p & k1 & fr & He & Hfr & Hsy1 & Hr1 & Hcall).
  rewrite Hcall. split.
  { intros ->. pose proof (timer_irq_system lo0 hi0 fuel fr k1 A Hsy1 Hr1 Hfr) as H.
    destruct (wp_inv _ _ _ H) as ([] & k2 & Hk2 & _). by exists k2. }
  intros k2 Hk2. pose proof (irq_scheduled _ _ _ _ _ _ _ Hsy1 Hr1 Hk2) as Hs. split.
  { intros Hc. eapply (stayed_continues lo0 hi0 "irq_common_stub") with (n := n) (p := p); try done. lia. }
  intros Hc Hl k3 k4 Hw Hst Hc4. pose proof Hs as [[A2 Hsy2] Hseen]. destruct (Hseen i Hl) as [_ Hp].
  rewrite decide_True in Hp by (rewrite (en_table _ _ _ _ _ _ _ _ _ He); naive_solver).
  pose proof (away_and_back _ _ _ _ _ _ _ _ Hsy2 Hp (not_eq_sym Hc) Hl Hw Hst Hc4) as Hb.
  eapply (back_continues lo0 hi0 "irq_common_stub") with (n := n) (p := p); try done; [lia|].
  destruct (ba_system _ _ _ _ _ Hb) as [A4 Hsy4]. fold i. rewrite <- Hc4. by eapply live_current.
Qed.

Lemma preemption_invisible_witness :
  ∃ k2, irq_call 8 0 (flat 0x10) 32 created = Ok tt k2 ∧ continues 0x2800 8 0x10 created k2.
Proof.
  destruct created_running as [A Hsy]. destruct at_created as [Hct Hcr].
  destruct run_facts as (_ & _ & _ & (_ & Hsym & Ht0)).
  destruct (preemption_invisible 0x2000 0x2800 8 0x10 created A 0 32) as [Ht Hk];
    [closed|closed|closed|rewrite Hsym; closed|exact Hsy|rewrite Hct, Hcr; closed|].
  destruct (Ht eq_refl) as [k2 Hk2]. exists k2. split; [exact Hk2|]. apply (Hk k2 Hk2).
  unfold task_after in Ht0. rewrite Hk2 in Ht0. injection Ht0 as Ht0. rewrite Ht0, Hct. reflexivity.
Defined.

(** What the console drivers keep, and the device log. *)
Definition same_console (k k' : kernel) : Prop :=
  vga_st k' = vga_st k ∧ serial_st k' = serial_st k ∧ io_log (mach k') = io_log (mach k).

Lemma console_calm k k' : console_only k k' → calm k k'.
Proof. by intros (v & s & l & ->). Qed.

Lemma bind_three {A B} (m1 m2 : K ()) (m3 : K A) (f : A → K B) k a k1 :
  (m1 ;;; m2 ;;; m3) k = Ok a k1 → (m1 ;;; m2 ;;; (x <- m3 ;; f x)) k = f a k1.
Proof.
  unfold bind. destruct (m1 k) as [[] k'| | | |]; [|done..]. destruct (m2 k') as [[] k''| | | |]; [|done..]. by intros ->.
Qed.

Lemma breakpoint_reported fr k : int_no fr = 3 → wp (isr_handler fr) (λ _ k',
  print (lit "[breakpoint at " ++ hex_string (State.eip fr) ++ lit "]\n") k = Ok tt k' ∧ console_only k k') k.
Proof.
  intros Hn. assert (isr_handler fr k = print (lit "[breakpoint at " ++ hex_string (State.eip fr) ++ lit "]\n") k) as Heq.
  { unfold isr_handler. rewrite Hn. change (3 =? 3) with true. cbv iota.
    rewrite print_app by (vm_compute; repeat constructor; discriminate).
    apply bind_pointwise; [done|]. intros _ k1. rewrite print_app by apply hex_string_nonzero.
    apply bind_pointwise; [apply print_hex_chars|done]. }
  assert (ConsoleOp (print (lit "[breakpoint at " ++ hex_string (State.eip fr) ++ lit "]\n"))) as Hc by apply _.
  specialize (Hc k). unfold wp in *. rewrite Heq. destruct (print _ k) as [[] k'| | | |]; try done.
Qed.

(** C18: a breakpoint ([int3]) with 64 bytes of stack left is reported on the
    console, with the address it was hit at, and nothing else: execution goes on
    behind it with all registers, flags, segments and the stack as they were. *)
Theorem breakpoint_resumes lo0 hi0 cs_sel ds k A :
  0 ≤ cs_sel < 0x100000000 → 0 ≤ ds < 0x10000 →
  0 ≤ sym (mach k) "isr_common_stub" < 0x100000000 → system lo0 hi0 k A →
  stack_lo lo0 (sched_st k) (current (sched_st k)) + 64 ≤ r_esp (regs (mach k)) →
  wp (take_breakpoint cs_sel (flat ds)) (λ sc k3,
    sc = (flat ds, cs_sel) ∧ regs (mach k3) = regs (mach k) ∧ sched_st k3 = sched_st k ∧
    (∀ x, r_esp (regs (mach k)) ≤ x < stack_hi hi0 (sched_st k) (current (sched_st k)) →
       vbyte (mach k3) x = vbyte (mach k) x) ∧
    ∃ k1 k2, same_console k k1 ∧ same_console k2 k3 ∧
      print (lit "[breakpoint at " ++ hex_string (r_eip (regs (mach k))) ++ lit "]\n") k1 = Ok tt k2) k.
Proof.
  intros Hcs Hds Hsym Hsy Hroom.
  destruct (entered_frame lo0 hi0 "isr_common_stub" cs_sel ds Hcs Hds k A Hsy Hsym Hroom 3 ltac:(lia))
    as (p & k1 & fr & Hent & Hload & He & Hfr & Hip & Hsy1).
  destruct (wp_inv _ _ _ (breakpoint_reported fr k1 Hfr)) as ([] & k2 & Hk2 & Hp & Hc). rewrite Hip in Hp.
  assert (continues hi0 cs_sel ds k k2) as Hcont.
  { eapply (stayed_continues lo0 hi0 "isr_common_stub") with (n := 3) (p := p) (k1 := k1); try done.
    - eapply calm_scheduled; [exact Hsy1|by apply console_calm].
    - destruct (console_calm _ _ Hc) as [_ -> _]. by rewrite (en_table _ _ _ _ _ _ _ _ _ He). }
  assert (take_breakpoint cs_sel (flat ds) k = common_leave k2) as Heq.
  { unfold take_breakpoint, isr_common_stub. etrans; [by eapply bind_three, Hent|].
    unfold bind. by rewrite Hload, Hk2. }
  pose proof (Hcont (regs (mach k2))) as Hl. rewrite at_regs_id in Hl. unfold wp in *. rewrite Heq.
  assert (r_esp (regs (mach k2)) = r_esp (regs (mach k)) - 64) as Hesp.
  { destruct (console_calm _ _ Hc) as [_ _ ->]. by rewrite (en_regs _ _ _ _ _ _ _ _ _ He). }
  specialize (Hl Hesp). destruct (common_leave k2) as [sc k3| | | |]; [|done..].
  destruct Hl as (-> & -> & Hb). split_and!; [done|done| |done|].
  - destruct (console_calm _ _ Hc) as [_ Hs _]. cbn. by rewrite Hs, (en_table _ _ _ _ _ _ _ _ _ He).
  - exists k1, k2. split_and!; [|done|done]. by destruct (en_shape _ _ _ _ _ _ _ _ _ He) as (ph & ->).
Qed.


Lemma breakpoint_resumes_witness :
  wp (take_breakpoint 8 (flat 0x10)) (λ sc k3,
    sc = (flat 0x10, 8) ∧ regs (mach k3) = regs (mach up) ∧ sched_st k3 = sched_st up ∧
    (∀ x, r_esp (regs (mach up)) ≤ x < stack_hi 0x2800 (sched_st up) (current (sched_st up)) →
       vbyte (mach k3) x = vbyte (mach up) x) ∧
    ∃ k1 k2, same_console up k1 ∧ same_console k2 k3 ∧
      print (lit "[breakpoint at " ++ hex_string (r_eip (regs (mach up))) ++ lit "]\n") k1 = Ok tt k2) up ∧
  hex_string (r_eip (regs (mach up))) = lit "0x00001234".
Proof.
  destruct run_facts as (_ & _ & (Hc & Hr & _) & (Hsym & _)).
  split; [|rewrite Hr; reflexivity].
  apply (breakpoint_resumes 0x2000 0x2800 8 0x10 up ∅);
    [closed|closed|rewrite Hsym; closed|exact up_system|rewrite Hc, Hr; closed].
Defined.
