(* ===== verification/HeapRace.v ===== *)
(** * A tick inside the heap

    Nothing in heap.c disables interrupts, and the timer interrupt itself frees
    memory (src/task.c:77).  [coalesce] first tests two neighbours and then merges
    them ([coalesce_step] of Heap.v is [coalesce_test] followed by [swallow_next]).
    Here the timer interrupt is taken between the two: what the list of blocks
    becomes, and what [kmalloc] hands out from it. *)
From stdpp Require Import prelude gmap list strings.
From Stdlib Require Import Lia ZArith.
From S2P Require Import Prelude Machine State Util Console Memory Pmm Paging Heap HeapSpec.
From S2P Require Import HeapProof HeapMap Frames Alloc StackMemory Task TaskProof TaskStacks.
From S2P Require Import Input Timer Interrupts Stubs Multitask Preemption Shell Boot Booted.
From S2P Require Import HeapProps ConsoleProps BootProps MultitaskProps.

#[local] Open Scope Z_scope.

(** ** The list of blocks *)

(** Joining a list that ends in [b] with one that starts with a used block. *)
Lemma coalesced_join pre b c post : coalesced (pre ++ [b]) → bfree c = false → coalesced (c :: post) →
  coalesced (pre ++ b :: c :: post).
Proof.
  intros Hpre Hc Hpost. induction pre as [|d pre IH].
  - cbn [app coalesced]. split; [|done]. rewrite Hc. naive_solver.
  - destruct pre as [|e pre]; cbn [app coalesced] in *; naive_solver.
Qed.

(** What freeing the stack [s] leaves: three neighbours have become one. *)
Definition four (a b s c : blk) : Z := bsz a + blk_span b + blk_span s + blk_span c.

Lemma release_stack pre a b s c post : bfree a = true → bfree b = true → bfree c = false →
  coalesced (pre ++ [a]) → coalesced (c :: post) →
  coalesce_spec (pre ++ a :: b :: Blk (bsz s) true :: c :: post) =
  pre ++ Blk (bsz a + blk_span b + blk_span s) true :: c :: post.
Proof.
  intros Ha Hb Hc Hpre Hpost. rewrite <- (coalesce_spec_merge pre a b) by done.
  rewrite <- (coalesce_spec_merge pre) by done. cbn [bsz].
  replace (bsz a + (sizeof_block + bsz b) + (sizeof_block + bsz s)) with (bsz a + blk_span b + blk_span s)
    by (unfold blk_span; lia).
  apply coalesce_spec_id, coalesced_join; [|done..]. by apply (coalesced_snoc_free pre a).
Qed.

(** [swallow_next] does not look at the flags. *)
Lemma swallow_inv k U T P pre b c post : heap_inv k U T P (pre ++ b :: c :: post) →
  wp (swallow_next (HEAP_START + span pre)) (λ _ k',
    heap_inv k' U T P (pre ++ Blk (bsz b + blk_span c) (bfree b) :: post)) k.
Proof.
  intros Hi. destruct (heap_inv_lay _ _ _ _ _ Hi) as [Hl _]. pose proof (hv_ok _ _ _ _ _ Hi) as Hok.
  set (W := λ x, HEAP_START + span pre ≤ x < HEAP_START + span pre + sizeof_block).
  eapply wp_mono; [eapply (swallow_rep _ _ W k k pre b c post Hl); [apply heap_step_refl|done]|].
  cbn beta. intros _ k' [Hl' Hs]. eapply heap_inv_step; [exact Hi|exact Hs|exact Hl'|].
  rewrite !Forall_app, !Forall_cons in *. destruct Hok as (? & [? ?] & [? ?] & ?).
  split_and!; [done| |done]. split; cbn [bsz]; heap_unfold; zlia.
Qed.

(** A request that fills a free block exactly, when none before fits. *)
Lemma fit_exactly k U T P pre n post (lo hi : Z) : heap_inv k U T P (pre ++ Blk n true :: post) →
  Forall (λ x, fits n x = false) pre → n ≤ KMALLOC_MAX →
  HEAP_START + span pre + sizeof_block ≤ lo → hi ≤ HEAP_START + span pre + sizeof_block + n →
  wp (kmalloc n) (λ p _, p ≤ lo ∧ hi ≤ p + n) k.
Proof.
  intros Hi Hfit Hmax Hlo Hhi. pose proof (hv_ok _ _ _ _ _ Hi) as Hok.
  rewrite Forall_app, Forall_cons in Hok. destruct Hok as (_ & [Hn8 Hn] & _). cbn [bsz] in *.
  eapply wp_mono; [eapply kmalloc_rep; [exact Hi|lia]|]. intros p k' (U' & T' & P' & _ & _ & H).
  destruct (align8_spec n) as ([? ?] & ? & _); [lia|unfold KMALLOC_MAX in *; lia|].
  assert (align8 n = n) as Ha by zlia. rewrite Ha, first_fit_skip in H by done.
  cbn [first_fit bfree bsz andb] in H. rewrite (proj2 (Z.leb_le _ _)) in H by lia. cbn in H.
  destruct H as [-> _]. lia.
Qed.

(** ** One task is reaped *)
Definition freed (i : Z) (s : sched_state) : sched_state :=
  put i (set_state TASK_UNUSED) (put i (set_stack_base 0) s).

Lemma freed_other s i j : 0 ≤ i → 0 ≤ j → j ≠ i → task_at (freed i s) j = task_at s j.
Proof.
  intros Hi Hj Hne. unfold freed, task_at, put. cbn. by rewrite !list_lookup_alter_ne by lia.
Qed.

Lemma reap_slot_skip i k : 1 ≤ i < MAX_TASKS → ¬ reapable (sched_st k) i → wp (reap_slot i) (λ _ k', k' = k) k.
Proof.
  intros Hi Hno. unfold reap_slot, task_g, sched_g. wp_go. unfold when.
  case_match eqn:Hc; [|by rewrite wp_ret]. destruct Hno. apply andb_true_iff in Hc as [Hd Hn].
  apply bool_decide_eq_true in Hd. by split_and!; [lia|lia|done|apply negb_true_iff, Z.eqb_neq in Hn].
Qed.

Section reaping.
Context (k : kernel) (i : Z) (Q : kernel → Prop).
Context (Hwf : sched_wf (sched_st k)) (Hreap : reapable (sched_st k) i)
  (Honly : ∀ j, reapable (sched_st k) j → j = i) (Hstack : stack_base (task_at (sched_st k) i) ≠ 0)
  (Hfree : wp (kfree (stack_base (task_at (sched_st k) i))) (λ _ k', Q k') k).

Definition reaped (k' : kernel) : Prop :=
  ∃ k1, Q k1 ∧ same_memory k1 k' ∧ sched_st k' = freed i (sched_st k).

Lemma reap_slot_frees : wp (reap_slot i) (λ _ k', reaped k') k.
Proof using All.
  destruct Hreap as (Hi & Hd & Hne). unfold reap_slot, task_g, sched_g. wp_go.
  rewrite bool_decide_eq_true_2, (proj2 (Z.eqb_neq _ _)) by done. cbn [andb negb when].
  rewrite wp_bind, wp_gets, wp_bind, (proj2 (Z.eqb_neq _ 0)) by done. cbn [negb when]. wp_go.
  eapply wp_mono; [apply (wp_preserves memory_only (kfree _) _ k Hfree)|].
  cbn beta. intros _ k1 [HQ Hm]. unfold upd_task. wp_go. exists k1. split_and!; [done|by split|].
  cbn. by rewrite (mo_sched _ _ Hm).
Qed.

Lemma reap_single : wp reap (λ _ k', reaped k') k.
Proof using All.
  pose proof Hreap as (Hi & _). unfold reap.
  apply (wp_for_range (λ j k', (j ≤ i ∧ k' = k) ∨ (i < j ∧ reaped k'))).
  - left. split; [lia|done].
  - intros j k' Hj. change (Z.of_nat (Z.to_nat (MAX_TASKS - 1))) with 7 in Hj.
    assert (1 ≤ j < MAX_TASKS) as Hj' by (unfold MAX_TASKS; lia). intros [[Hle ->]|[Hlt Hr]].
    + destruct (decide (j = i)) as [->|Hne].
      * eapply wp_mono; [apply reap_slot_frees|]. cbn beta. intros _ k'. right. split; [lia|done].
      * eapply wp_mono; [apply reap_slot_skip; [done|by intros ?%Honly]|].
        cbn beta. intros _ k' ->. left. split; [lia|done].
    + eapply wp_mono; [apply reap_slot_skip; [done|]|].
      * destruct Hr as (k1 & _ & _ & ->). intros (_ & Hd & Hn). rewrite freed_other in Hd by lia.
        destruct (Z.lt_irrefl i). rewrite <- (Honly j) at 2; [done|]. by split_and!; [lia|lia|..].
      * cbn beta. intros _ k'' ->. right. split; [lia|done].
  - intros k' [[? _]|[_ Hr]]; [|done]. change (Z.of_nat (Z.to_nat (MAX_TASKS - 1))) with 7 in *. unfold MAX_TASKS in *. lia.
Qed.
End reaping.

(** The timer interrupt, while the current task has quantum left. *)
Lemma tick_reaps k i Q fuel r : int_no r = 32 → sched_enabled (sched_st k) ≠ 0 → 1 < quantum_left (sched_st k) →
  sched_wf (sched_st k) → reapable (sched_st k) i → (∀ j, reapable (sched_st k) j → j = i) →
  stack_base (task_at (sched_st k) i) ≠ 0 →
  (∀ k0, same_memory k k0 → wp (kfree (stack_base (task_at (sched_st k) i))) (λ _ k', Q k') k0) →
  wp (irq_handler fuel r) (λ _ k', ∃ k1, Q k1 ∧ same_memory k1 k') k.
Proof.
  intros Hr Hen Hq Hwf Hreap Honly Hsb Hfree. unfold irq_handler, timer_tick. rewrite Hr. cbn [when Z.leb Z.eqb Z.compare Pos.compare Pos.compare_cont Pos.eqb].
  rewrite outb_writes by done. wp_go. set (k0 := upd_ticks _ _).
  assert (same_memory k k0) as Hsm by by split. assert (sched_st k0 = sched_st k) as Hs0 by done.
  unfold scheduler_tick, sched_g. rewrite wp_bind, wp_gets, Hs0, (proj2 (Z.eqb_neq _ 0)) by done. rewrite wp_bind.
  eapply wp_mono; [apply (reap_single k0 i Q); rewrite ?Hs0; auto|].
  cbn beta. intros _ k1 (k2 & HQ & Hsm1 & Hs1). rewrite wp_bind, wp_gets, Hs1.
  change (quantum_left (freed i _)) with (quantum_left (sched_st k)). rewrite (proj2 (Z.ltb_lt _ _)) by done.
  rewrite wp_modify. exists k2. split; [done|]. by destruct Hsm1.
Qed.

(** ** The race *)

(** C17: the heap is not safe from the timer.  Let [kfree] have marked a block [a]
    free, and its loop [coalesce] have reached it; let the next block [b] be free,
    behind it lie the stack [s] of a dead task, and behind that a block [c] that is
    in use.  The test says: merge.  Without an interrupt the merge joins [a] and
    [b], and [c] stays.  But if the timer interrupt comes first, it reaps the task,
    and freeing the stack already merges [a], [b] and [s]: the test is stale, the
    merge swallows [c], which nobody has freed, and a request of the right size is
    given memory that contains all of [c]. *)
Theorem tick_corrupts_heap k U T P pre a b s c post i fuel r :
  let at_a := HEAP_START + span pre in
  let at_s := at_a + blk_span a + blk_span b + sizeof_block in
  let at_c := at_s + bsz s + sizeof_block in
  heap_inv k U T P (pre ++ a :: b :: s :: c :: post) →
  bfree a = true → bfree b = true → bfree s = false → bfree c = false →
  coalesced (pre ++ [a]) → coalesced (c :: post) →
  Forall (λ x, fits (four a b s c) x = false) pre → four a b s c ≤ KMALLOC_MAX →
  sched_wf (sched_st k) → sched_enabled (sched_st k) ≠ 0 → 1 < quantum_left (sched_st k) →
  reapable (sched_st k) i → (∀ j, reapable (sched_st k) j → j = i) →
  stack_base (task_at (sched_st k) i) = at_s → int_no r = 32 →
  wp (coalesce_test at_a) (λ t k', t = Merge ∧ k' = k) k ∧
  wp (swallow_next at_a) (λ _ k',
    heap_inv k' U T P (pre ++ Blk (bsz a + blk_span b) true :: s :: c :: post)) k ∧
  wp (irq_handler fuel r ;;; swallow_next at_a) (λ _ k',
    heap_inv k' U T P (pre ++ Blk (four a b s c) true :: post) ∧
    wp (kmalloc (four a b s c)) (λ p _, p ≤ at_c ∧ at_c + bsz c ≤ p + four a b s c) k') k.
Proof.
  intros at_a at_s at_c Hi Ha Hb Hs Hc Hpre Hpost Hfit Hmax Hwf Hen Hq Hreap Honly Hsb Hr.
  destruct (heap_inv_lay _ _ _ _ _ Hi) as [Hl _]. pose proof (hv_ok _ _ _ _ _ Hi) as Hok. split; [|split].
  - eapply wp_mono; [by eapply (coalesce_test_rep _ _ pre a (b :: s :: c :: post))|].
    cbn beta. intros t k' [-> ->]. by rewrite Ha, Hb.
  - eapply wp_mono; [by eapply swallow_inv|]. cbn beta. intros _ k'. by rewrite Ha.
  - rewrite wp_bind. assert (0 < at_s) as Hpos.
    { destruct (heap_at _ _ pre a (b :: s :: c :: post) k Hl) as (_ & H1 & H2 & _).
      rewrite !Forall_app, !Forall_cons in Hok. destruct Hok as (_ & _ & [? _] & _). unfold at_s, at_a. heap_unfold. lia. }
    eapply wp_mono; [apply (tick_reaps k i (λ k', heap_inv k' U T P
      (pre ++ Blk (bsz a + blk_span b + blk_span s) true :: c :: post))); rewrite ?Hsb; try done; [lia|]|].
    + intros k0 Hsm. eapply wp_mono; [eapply (kfree_accepts_rep k0 U T P); [by eapply heap_inv_same_memory|]|].
      * pose proof (release_at (pre ++ [a; b]) s (c :: post) HEAP_START) as Hrel.
        rewrite span_app, <- !app_assoc in Hrel. cbn [span app] in Hrel.
        replace (HEAP_START + (span pre + (blk_span a + (blk_span b + 0))) + sizeof_block) with at_s in Hrel
          by (unfold at_s, at_a; lia). apply Hrel; [|done].
        apply sizes_ok_app. rewrite !Forall_app, !Forall_cons in Hok. destruct Hok as (Hp & Hka & Hkb & _).
        split; apply block_ok_sizes; [done|]. by repeat (apply Forall_cons; split).
      * cbn beta. intros _ k' (_ & Hi' & _). by rewrite <- (release_stack pre a b s c post).
    + cbn beta. intros _ k1 (k2 & Hi2 & Hsm). pose proof (heap_inv_same_memory _ _ _ _ _ _ Hsm Hi2) as Hi1.
      eapply wp_mono; [by eapply swallow_inv|]. cbn beta. intros _ k3 Hi3. cbn [bsz bfree] in Hi3.
      split; [exact Hi3|]. eapply fit_exactly; [exact Hi3|done|done|..];
        rewrite !Forall_app, !Forall_cons in Hok; destruct Hok as (_ & [? _] & [? _] & [? _] & _);
        fold at_a; unfold at_c, at_s, four; heap_unfold; lia.
Qed.

(** ** An instance

    Four blocks are taken, the second is given back, and [kfree] of the first has
    come as far as its loop; the third is the stack of the dead task 1. *)
Definition heap_is (k : kernel) (bs : list blk) : Prop := ∃ U T P, heap_inv k U T P bs.

Lemma heap_is_alloc k bs size p bs' : heap_is k bs → 0 < size ≤ KMALLOC_MAX →
  first_fit (align8 size) HEAP_START bs = Some (p, bs') → heap_is (run_state (kmalloc size) k) bs'.
Proof.
  intros (U & T & P & H) Hs Hff.
  destruct (wp_run_state _ _ _ _ eq_refl (kmalloc_rep k U T P bs size H Hs)) as (r & U' & T' & P' & _ & _ & Hr).
  rewrite Hff in Hr. destruct Hr as [_ Hr]. by exists U', T', P'.
Qed.

Lemma heap_is_free k bs ptr bs' : heap_is k bs → release ptr HEAP_START bs = Some bs' →
  heap_is (run_state (kfree ptr) k) (coalesce_spec bs').
Proof.
  intros (U & T & P & H) Hrel.
  destruct (wp_run_state _ _ _ _ eq_refl (kfree_accepts_rep k U T P bs bs' ptr H Hrel)) as (r & _ & Hr & _).
  by exists U, T, P.
Qed.

Lemma heap_is_mark k b post : heap_is k (b :: post) → bfree b = false →
  heap_is (run_state (store32 (blk_free HEAP_START) 1) k) (Blk (bsz b) true :: post).
Proof.
  intros (U & T & P & H) Hb. destruct (heap_inv_lay _ _ _ _ _ H) as [Hl _]. pose proof (hv_ok _ _ _ _ _ H) as Hok.
  pose proof (release_rep _ _ k [] b post Hl Hb) as Hw. cbn [span app] in Hw. rewrite Z.add_0_r in Hw.
  destruct (wp_run_state _ _ _ _ eq_refl Hw) as ([] & Hl' & Hs).
  exists U, T, P. eapply heap_inv_step; [exact H|exact Hs|exact Hl'|].
  apply Forall_cons in Hok as [? ?]. by apply Forall_cons.
Qed.

Definition dead_stack : Z := HEAP_START + 176.
Definition race_table : sched_state :=
  {| tasks := set_state TASK_RUNNING no_task :: Task 0 dead_stack 1 [] TASK_DEAD 0 0 :: replicate 6 no_task;
     current := 0; sched_enabled := 1; switches := 0; quantum_left := TASK_QUANTUM |}.

Definition before_race : kernel :=
  run_state (store32 (blk_free HEAP_START) 1)
    (run_state (kfree (HEAP_START + 96)) (run_state (kmalloc 64) (run_state (kmalloc TASK_STACK_SIZE)
      (run_state (kmalloc 64) (run_state (kmalloc 64) booted))))).
Definition half_freed : kernel := upd_sched_st (λ _, race_table) before_race.

Lemma half_freed_eq : half_freed = upd_sched_st (λ _, race_table) before_race.
Proof. reflexivity. Qed.
Lemma half_freed_table : sched_st half_freed = race_table.
Proof. reflexivity. Qed.
#[global] Opaque half_freed.

Lemma same_memory_sched s k : same_memory k (upd_sched_st (λ _, s) k).
Proof. by split. Qed.

Lemma half_freed_is : heap_is half_freed
  [Blk 64 true; Blk 64 true; Blk TASK_STACK_SIZE false; Blk 64 false; Blk 57072 true].
Proof.
  rewrite half_freed_eq.
  pose proof (heap_is_alloc _ _ 64 _ _ booted_inv ltac:(done) eq_refl) as H1.
  pose proof (heap_is_alloc _ _ 64 _ _ H1 ltac:(done) eq_refl) as H2.
  pose proof (heap_is_alloc _ _ TASK_STACK_SIZE _ _ H2 ltac:(done) eq_refl) as H3.
  pose proof (heap_is_alloc _ _ 64 _ _ H3 ltac:(done) eq_refl) as H4.
  pose proof (heap_is_free _ _ (HEAP_START + 96) _ H4 eq_refl) as H5.
  destruct (heap_is_mark _ (Blk 64 false) [Blk 64 true; Blk TASK_STACK_SIZE false; Blk 64 false; Blk 57072 true] H5 eq_refl)
    as (U & T & P & H).
  exists U, T, P. exact (heap_inv_same_memory _ _ _ _ _ _ (same_memory_sched race_table _) H).
Qed.

Lemma race_task i : 0 ≤ i < MAX_TASKS → i = 0 ∨ i = 1 ∨ task_at race_table i = no_task.
Proof.
  intros Hi. destruct (decide (i = 0)), (decide (i = 1)); [auto..|]. right; right.
  unfold task_at. replace (Z.to_nat i) with (S (S (Z.to_nat (i - 2)))) by lia.
  change (default no_task (replicate 6 no_task !! Z.to_nat (i - 2)) = no_task).
  by destruct (replicate 6 no_task !! Z.to_nat (i - 2)) eqn:H; [apply lookup_replicate_1 in H as [-> _]|].
Qed.

Lemma race_wf : sched_wf race_table.
Proof.
  split; [done|done| |by left|done| |done]; intros i Hi Hs; destruct (race_task i Hi) as [->|[->|H]]; try done;
    by rewrite H in Hs.
Qed.

Lemma race_reap i : reapable race_table i ↔ i = 1.
Proof.
  split; [|intros ->; by split_and!].
  intros (Hi & Hd & _). destruct (race_task i) as [->|[->|H]]; [lia|done|done|]. by rewrite H in Hd.
Qed.

Lemma tick_corrupts_heap_witness : ∃ U T P,
  heap_inv half_freed U T P
    [Blk 64 true; Blk 64 true; Blk TASK_STACK_SIZE false; Blk 64 false; Blk 57072 true] ∧
  wp (irq_handler 0 timer_frame ;;; swallow_next HEAP_START) (λ _ k',
    heap_inv k' U T P [Blk 8432 true; Blk 57072 true] ∧
    wp (kmalloc 8432) (λ p _, p ≤ HEAP_START + 8384 ∧ HEAP_START + 8384 + 64 ≤ p + 8432) k') half_freed.
Proof.
  destruct half_freed_is as (U & T & P & H). exists U, T, P. split; [exact H|].
  refine (proj2 (proj2 (tick_corrupts_heap half_freed U T P [] (Blk 64 true) (Blk 64 true)
    (Blk TASK_STACK_SIZE false) (Blk 64 false) [Blk 57072 true] 1 0 timer_frame H eq_refl eq_refl eq_refl eq_refl
    I _ _ _ _ _ _ _ _ _ eq_refl))); rewrite ?half_freed_table; clear H.
  - by split; [intros []|].
  - by constructor.
  - done.
  - apply race_wf.
  - done.
  - done.
  - by apply race_reap.
  - by intros j ?%race_reap.
  - done.
Defined.
