(* ===== verification/ShellSession.v ===== *)
(** * A session at the console

    The loop [shell_poll] of src/shell.c against the running system: the
    characters that the interrupt handlers left in the ring are edited into lines
    and executed.  When the lines are gentle -- harmless in any state -- the loop
    returns with the ring empty, and the system and its tasks are as if nobody
    had been at the keyboard. *)
From stdpp Require Import prelude gmap list strings.
From Stdlib Require Import Lia ZArith.
From S2P Require Import Prelude Machine State Util Console Memory Pmm Paging Heap HeapSpec.
From S2P Require Import HeapProof HeapMap Frames Alloc StackMemory Task TaskProof TaskStacks.
From S2P Require Import Input Timer Shell HeapProps InputProps ShellProps Multitask ShellQuery ShellMemory ShellSafe.
From S2P Require Import Interrupts Boot Booted BootProps MultitaskProps.

#[local] Open Scope Z_scope.

(** ** Commands leave the line and the ring alone *)
Definition same_input (k k' : kernel) : Prop := shell_st k' = shell_st k.
Notation NoInput := (Preserves same_input).

#[export] Instance same_input_preorder : PreOrder same_input.
Proof. split; [done|]. unfold same_input. congruence. Qed.

Lemma memory_no_input {A} (m : K A) : MemoryOp m → NoInput m.
Proof. intros Hm k. apply (mo_shell _ _ (Hm k)). Qed.

Section no_input.
#[local] Instance memory_op_no_input {A} (m : K A) : MemoryOp m → NoInput m := memory_no_input m.
#[export] Instance clear_screen_no_input : NoInput clear_screen.
Proof. apply memory_no_input. unfold clear_screen. memory_op. Qed.
#[export] Instance print_no_input s : NoInput (print s) := memory_no_input _ _.
#[export] Instance print_int_no_input n : NoInput (print_int n) := memory_no_input _ _.
#[export] Instance print_hex_no_input n : NoInput (print_hex n) := memory_no_input _ _.
#[export] Instance load_no_input n a : NoInput (load n a) := memory_no_input _ _.
#[export] Instance store_no_input n a v : NoInput (store n a v) := memory_no_input _ _.
#[export] Instance outb_no_input p v : NoInput (outb p v) := memory_no_input _ _.
#[export] Instance pmm_alloc_no_input : NoInput pmm_alloc_frame := memory_no_input _ _.
#[export] Instance pmm_free_no_input a : NoInput (pmm_free_frame a) := memory_no_input _ _.
#[export] Instance kmalloc_no_input n : NoInput (kmalloc n) := memory_no_input _ _.
#[export] Instance kfree_no_input p : NoInput (kfree p) := memory_no_input _ _.
#[export] Instance memset_no_input d v n : NoInput (memset d v n) := memory_no_input _ _.
#[export] Instance paging_map_no_input v p f : NoInput (paging_map v p f) := memory_no_input _ _.
End no_input.

#[export] Instance upd_sched_no_input f : NoInput (modify (upd_sched_st f)).
Proof. by intros k. Qed.
#[export] Instance upd_paging_no_input f : NoInput (modify (upd_paging_st f)).
Proof. by intros k. Qed.
#[export] Instance log_no_input e : NoInput (modify (upd_mach (log_io e))).
Proof. by intros k. Qed.
#[export] Instance halt_no_input {A} : NoInput (@halt_forever A).
Proof. by intros k. Qed.
#[export] Instance divide_no_input {A} : NoInput (@divide_error A).
Proof. by intros k. Qed.

(** What is read-only keeps the input too. *)
Lemma readonly_no_input {A} (m : K A) : Preserves kernel_same m → NoInput m.
Proof. intros Hm k. apply (ks_shell _ _ (Hm k)). Qed.

#[export] Instance get_table_no_input v c : NoInput (get_table v c) := memory_no_input _ _.
#[export] Instance translate_no_input v : NoInput (paging_translate v) := readonly_no_input _ _.
#[export] Instance paging_unmap_no_input v : NoInput (paging_unmap v).
Proof. unfold paging_unmap, flush_tlb_page. frame_unfold. apply _. Qed.
#[export] Instance heap_free_no_input : NoInput heap_free := readonly_no_input _ _.
#[export] Instance heap_used_no_input : NoInput heap_used := readonly_no_input _ _.
#[export] Instance heap_blocks_no_input : NoInput heap_blocks := readonly_no_input _ _.
#[export] Instance heap_free_blocks_no_input : NoInput heap_free_blocks := readonly_no_input _ _.
#[export] Instance heap_dump_no_input : NoInput heap_dump := readonly_no_input _ _.
#[export] Instance ps_line_no_input i : NoInput (ps_line i) := readonly_no_input _ _.
#[export] Instance memory_print_map_no_input : NoInput memory_print_map := readonly_no_input _ _.
#[export] Instance task_create_no_input nm e : NoInput (task_create nm e).
Proof.
  unfold task_create, find_slot, task_g, sched_g, upd_task, on_mach.
  assert (∀ vs sp, NoInput (push_words sp vs)) as Hp.
  { induction vs as [|v vs IH]; intros sp; cbn [push_words]; unfold store32; apply _. }
  apply _.
Qed.
#[export] Instance task_kill_no_input id : NoInput (task_kill id).
Proof. unfold task_kill, task_g, sched_g, upd_task. apply _. Qed.

Ltac no_input := query_unfold; unfold heap_size, upd_task, task_g; query_unfold; apply _.

Section commands.
#[export] Instance calc_no_input a : NoInput (cmd_calc a).
Proof. unfold cmd_calc. destruct (calc_parse a) as [[x op] y]. apply _. Qed.
#[export] Instance meminfo_no_input : NoInput cmd_meminfo.
Proof. unfold cmd_meminfo. no_input. Qed.
#[export] Instance frames_no_input : NoInput cmd_frames.
Proof. unfold cmd_frames. no_input. Qed.
#[export] Instance alloc_no_input : NoInput cmd_alloc.
Proof. unfold cmd_alloc. no_input. Qed.
#[export] Instance free_no_input a : NoInput (cmd_free a).
Proof. unfold cmd_free. no_input. Qed.
#[export] Instance heap_no_input : NoInput cmd_heap.
Proof. unfold cmd_heap. no_input. Qed.
#[export] Instance cmd_kmalloc_no_input a : NoInput (cmd_kmalloc a).
Proof. unfold cmd_kmalloc. no_input. Qed.
#[export] Instance cmd_kfree_no_input a : NoInput (cmd_kfree a).
Proof. unfold cmd_kfree. no_input. Qed.
#[export] Instance paging_no_input : NoInput cmd_paging.
Proof. unfold cmd_paging. no_input. Qed.
#[export] Instance virt_no_input a : NoInput (cmd_virt a).
Proof. unfold cmd_virt. no_input. Qed.
#[export] Instance map_no_input a : NoInput (cmd_map a).
Proof. unfold cmd_map. no_input. Qed.
#[export] Instance unmap_no_input a : NoInput (cmd_unmap a).
Proof. unfold cmd_unmap. no_input. Qed.
#[export] Instance fault_no_input : NoInput cmd_fault.
Proof. unfold cmd_fault. no_input. Qed.
#[export] Instance serial_no_input : NoInput cmd_serial.
Proof. unfold cmd_serial. no_input. Qed.
#[export] Instance uptime_no_input : NoInput cmd_uptime.
Proof. unfold cmd_uptime. no_input. Qed.
#[export] Instance ps_no_input : NoInput cmd_ps.
Proof. unfold cmd_ps. no_input. Qed.
#[export] Instance spawn_no_input a : NoInput (cmd_spawn a).
Proof. unfold cmd_spawn, task_spawn_counter. no_input. Qed.
#[export] Instance kill_no_input a : NoInput (cmd_kill a).
Proof. unfold cmd_kill. no_input. Qed.
End commands.

Lemma shell_no_input wait fuel line :
  (is_cmd (parse_line line).1 "sleep" = true → atoi (parse_line line).2 ≤ 0) →
  NoInput (shell_execute wait fuel line).
Proof.
  intros Hs. unfold shell_execute, shell_prompt. destruct (deref line =? 0); [apply _|].
  destruct (parse_line line) as [cmd args]. cbn [fst snd] in Hs. apply bind_preserves; [apply _| |apply _].
  unfold run_command, cmd_clear, cmd_memmap. do 25 (apply if_preserves; [apply _|]).
  destruct (is_cmd cmd "sleep"); [|apply _].
  unfold cmd_sleep. rewrite (proj2 (Z.leb_le _ _)) by by apply Hs. apply _.
Qed.

(** ** Gentle lines *)

(** The lines that are careful in any state. *)
Definition gentle (line : cstr) : bool :=
  let '(cmd, args) := parse_line line in
  negb (is_cmd cmd "fault") && negb (is_cmd cmd "reboot") && negb (is_cmd cmd "halt") && negb (is_cmd cmd "unmap") &&
  implb (is_cmd cmd "sleep") (atoi args <=? 0) &&
  implb (is_cmd cmd "calc") (negb (bool_decide (calc_parse args = (-0x80000000, 47, -1)))) &&
  implb (is_cmd cmd "kmalloc") (atoi args <=? KMALLOC_MAX) &&
  implb (is_cmd cmd "free") (atoi_hex args =? 0) &&
  implb (is_cmd cmd "kfree") (atoi_hex args <? HEAP_START + sizeof_block).

Lemma gentle_careful lo0 hi0 k line : gentle line = true →
  careful lo0 hi0 k (parse_line line).1 (parse_line line).2.
Proof.
  unfold gentle. destruct (parse_line line) as [cmd args]. rewrite !andb_true_iff, !negb_true_iff, !implb_true_iff.
  intros ((((((((? & ?) & ?) & Hun) & Hs) & Hc) & Hm) & Hf) & Hk). split; cbn [fst snd]; try done.
  - intros ?%Hs. lia.
  - intros ?%Hc. by case_bool_decide.
  - intros ?%Hm. lia.
  - intros ?%Hf. left. lia.
  - by rewrite Hun.
  - intros ?%Hk. right. left. lia.
Qed.

Lemma gentle_no_input wait fuel line : gentle line = true → NoInput (shell_execute wait fuel line).
Proof. intros Hg. apply shell_no_input. by destruct (gentle_careful 0 0 cold line Hg). Qed.

(** The lines that a text submits when [l] is already on the line, and what is
    on the line after it. *)
Fixpoint submitted (l : cstr) (t : list Z) : list cstr :=
  match t with [] => [] | c :: t => if c =? 10 then l :: submitted [] t else submitted (edit l c) t end.
Fixpoint pending (l : cstr) (t : list Z) : cstr :=
  match t with [] => l | c :: t => if c =? 10 then pending [] t else pending (edit l c) t end.

Section session.
(** The boot stack, and what [sleep] would wait on. *)
Context (lo0 hi0 : Z) (wait : K ()) (fuel : nat).
Notation system := (system lo0 hi0).

(** [dialogue l t k k']: from [k] to [k'] the text [t] was handled, with [l] on the
    line at first.  Each key is echoed, exactly as [echo] says, and Enter executes
    the line as it stands, in the state reached; nothing else happens but to the
    buffers of the input themselves ([dialogue_input]). *)
Inductive dialogue : cstr → list Z → kernel → kernel → Prop :=
  | dialogue_end l k : dialogue l [] k k
  | dialogue_input s l t k k' : dialogue l t (upd_shell_st (λ _, s) k) k' → dialogue l t k k'
  | dialogue_key l c t k k1 k' :
      c ≠ 10 → echo l c k = Ok tt k1 → dialogue (edit l c) t k1 k' → dialogue l (c :: t) k k'
  | dialogue_enter l t k k1 s k2 k' :
      putchar 10 k = Ok tt k1 → shell_execute wait fuel l (upd_shell_st (λ _, s) k1) = Ok tt k2 →
      dialogue [] t k2 k' → dialogue l (10 :: t) k k'.

(** The lines [ls] were executed between [k] and [k']: the invariant is kept, and
    every task that was alive, and that no line was meant to kill, still is, with
    its registers and its stack. *)
Record undisturbing (ls : list cstr) (k k' : kernel) : Prop := {
  un_system : ∃ A, system k' A;
  un_current : current (sched_st k') = current (sched_st k);
  un_tasks i : live (sched_st k) i → Forall (λ l, victim (parse_line l).1 (parse_line l).2 ≠ Some i) ls →
    live (sched_st k') i ∧ undisturbed hi0 i k k'
}.

Lemma undisturbing_trans ls1 ls2 k1 k2 k3 :
  undisturbing ls1 k1 k2 → undisturbing ls2 k2 k3 → undisturbing (ls1 ++ ls2) k1 k3.
Proof.
  intros [_ C1 T1] [A2 C2 T2]. split; [done|congruence|]. intros i Hl [H1 H2]%Forall_app.
  destruct (T1 i Hl H1) as [Hl' U1]. destruct (T2 i Hl' H2) as [? U2]. split; [done|by etrans].
Qed.

Lemma calm_undisturbing k A k' : system k A → calm k k' → undisturbing [] k k'.
Proof.
  intros Hsy Hc. destruct (calm_system _ _ _ _ _ Hsy Hc) as [Hsy' Hud]. destruct Hc as [_ Hs _].
  split; [by exists A|by rewrite Hs|]. intros i Hl _. by rewrite Hs.
Qed.

Definition same_ring (s s' : shell_state) : Prop :=
  ring s' = ring s ∧ ring_head s' = ring_head s ∧ ring_tail s' = ring_tail s.

Lemma typing_quiet k k' : typing k k' → calm k k' ∧ same_ring (shell_st k) (shell_st k').
Proof. by intros (b & n & v & s & l & ->). Qed.

Lemma unchanged_ring s s' : same_ring s s' → ring_wf s → ring_wf s' ∧ ring_chars s' = ring_chars s.
Proof.
  intros (Hr & Hh & Ht) [??]. split; [by split; rewrite ?Hr, ?Hh, ?Ht|].
  unfold ring_chars, ring_count, ring_at. by rewrite Hr, Hh, Ht.
Qed.

(** One character. *)
Lemma key_session c k A : system k A → editor_wf (shell_st k) →
  (c = 10 → gentle (line_text (shell_st k)) = true) →
  wp (shell_input_char wait fuel c) (λ _ k', undisturbing (if c =? 10 then [line_text (shell_st k)] else []) k k' ∧
    editor_wf (shell_st k') ∧ same_ring (shell_st k) (shell_st k') ∧
    line_text (shell_st k') = (if c =? 10 then [] else edit (line_text (shell_st k)) c) ∧
    ∀ t k2, dialogue (line_text (shell_st k')) t k' k2 → dialogue (line_text (shell_st k)) (c :: t) k k2) k.
Proof.
  intros Hsy Hwf Hg. destruct (Z.eqb_spec c 10) as [->|Hc].
  - destruct (enter_echo wait fuel k Hwf) as (k0 & k1 & Hput & (s & ->) & Hty & Hwf1 & Ht1 & Heq).
    set (k1 := upd_shell_st _ k0) in *.
    destruct (typing_quiet _ _ Hty) as [Hcalm Hring]. pose proof (calm_undisturbing _ _ _ Hsy Hcalm) as Hu1.
    pose proof (un_system _ _ _ Hu1) as [A1 Hsy1]. specialize (Hg eq_refl). set (l := line_text (shell_st k)) in *.
    pose proof (shell_harmless lo0 hi0 wait fuel k1 A1 l Hsy1 (gentle_careful _ _ _ _ Hg)) as Hex.
    pose proof (gentle_no_input wait fuel l Hg) as Hni.
    apply (wp_preserves same_input _) in Hex. unfold wp in *. rewrite Heq.
    destruct (shell_execute wait fuel l k1) as [[] k2| | | |] eqn:Hrun; [|done..].
    destruct Hex as [[Hsy2 Hcur Hal Hun] Hin]. unfold same_input in Hin. rewrite Hin.
    assert (∀ t k3, dialogue (line_text (shell_st k1)) t k2 k3 → dialogue l (10 :: t) k k3) as Hd
      by (intros t k3 Hd; rewrite Ht1 in Hd; by eapply dialogue_enter).
    split_and!; [|done..].
    eapply (undisturbing_trans [] [l]); [exact Hu1|]. split; [done|done|].
    intros i Hl [Hv _]%Forall_cons. pose proof (Hal i Hl Hv). split; [done|by apply Hun].
  - destruct (wp_inv _ _ _ (editor_step wait fuel c k Hwf Hc)) as ([] & k' & Hrun & Hty & Hwf' & Ht').
    eapply wp_ok; [exact Hrun|].
    destruct (typing_quiet _ _ Hty) as [Hcalm Hring]. split_and!; [by eapply calm_undisturbing|done..|].
    intros t k2 Hd. rewrite Ht' in Hd. destruct (key_echo wait fuel c k Hwf Hc) as [s Hs].
    eapply dialogue_input, dialogue_key; [done|rewrite <- Hs; exact Hrun|exact Hd].
Qed.

(** One turn of the loop takes the first character. *)
Lemma poll_turn c q k : ring_wf (shell_st k) → ring_chars (shell_st k) = c :: q →
  ∃ k1, calm k k1 ∧ k1 = upd_shell_st (λ _, popped (shell_st k)) k ∧
    poll_step wait fuel tt k = (shell_input_char wait fuel c ;;; ret (inl tt)) k1.
Proof.
  intros Hwf Hq. assert (ring_tail (shell_st k) ≠ ring_head (shell_st k)) as Hne
    by (intros He%ring_empty; [by rewrite He in Hq|done]).
  assert (c = ring_at (shell_st k) 0) as -> by (rewrite popped_chars in Hq by done; congruence).
  exists (upd_shell_st popped k). split_and!; [done|done|]. unfold poll_step, shell_g.
  unfold bind at 1, gets at 1. unfold bind at 1, gets at 1. rewrite (proj2 (Z.eqb_neq _ _)) by done.
  unfold bind at 1, gets at 1. unfold bind at 1, modify at 1. rewrite <- ring_at_first by done.
  destruct Hwf as [? ? Ht]. unfold RING_SIZE in Ht. rewrite u32_small by lia. done.
Qed.

Lemma poll_session q : ∀ k A turns, system k A → editor_wf (shell_st k) → ring_wf (shell_st k) →
  ring_chars (shell_st k) = q → Forall (λ l, gentle l = true) (submitted (line_text (shell_st k)) q) →
  (length q < turns)%nat →
  wp (shell_poll wait fuel turns) (λ _ k', undisturbing (submitted (line_text (shell_st k)) q) k k' ∧
    ring_chars (shell_st k') = [] ∧ dialogue (line_text (shell_st k)) q k k' ∧
    line_text (shell_st k') = pending (line_text (shell_st k)) q) k.
Proof.
  induction q as [|c q IH]; intros k A [|turns] Hsy Hed Hwf Hq Hg Hn; cbn [length] in Hn; try lia;
    unfold shell_poll; cbn [while_fuel]; rewrite wp_bind.
  - unfold poll_step, shell_g. rewrite wp_bind, wp_gets, wp_bind, wp_gets.
    rewrite (proj2 (Z.eqb_eq _ _)) by by apply ring_empty. rewrite !wp_ret.
    split_and!; [by eapply calm_undisturbing|done|constructor|done].
  - destruct (poll_turn c q k Hwf Hq) as (k1 & Hcalm & Hk1 & Heq).
    assert (shell_st k1 = popped (shell_st k)) as Hs1 by by rewrite Hk1.
    assert (∀ l t k', dialogue l t k1 k' → dialogue l t k k') as Hd1
      by (intros l t k' Hd; rewrite Hk1 in Hd; by eapply dialogue_input).
    pose proof (calm_undisturbing _ _ _ Hsy Hcalm) as Hu1. pose proof (un_system _ _ _ Hu1) as [A1 Hsy1].
    assert (line_text (shell_st k1) = line_text (shell_st k)) as Hl1 by by rewrite Hs1.
    assert (editor_wf (shell_st k1)) as Hed1 by (rewrite Hs1; by destruct Hed).
    assert (ring_wf (shell_st k1) ∧ ring_chars (shell_st k1) = q) as [Hwf1 Hq1].
    { rewrite Hs1. split; [by apply popped_wf|]. rewrite popped_chars in Hq; [congruence|done|].
      intros He%ring_empty; [by rewrite He in Hq|done]. }
    unfold wp at 1. rewrite Heq. fold (wp (shell_input_char wait fuel c ;;; ret (inl tt))
      (λ r k', wp (match r with inl a' => while_fuel turns (poll_step wait fuel) a' | inr b => ret b end)
        (λ _ k', undisturbing (submitted (line_text (shell_st k)) (c :: q)) k k' ∧
          ring_chars (shell_st k') = [] ∧ dialogue (line_text (shell_st k)) (c :: q) k k' ∧
          line_text (shell_st k') = pending (line_text (shell_st k)) (c :: q)) k') k1).
    rewrite wp_bind, <- Hl1 in *. clear Hl1.
    eapply wp_mono; [eapply (key_session c k1 A1); [done|done|]|].
    { intros ->. cbn [submitted] in Hg. by apply Forall_cons in Hg as [? _]. }
    cbn beta. intros _ k2 (Hu2 & Hed2 & Hr2 & Ht2 & Hd2). rewrite wp_ret.
    destruct (unchanged_ring _ _ Hr2 Hwf1) as [Hwf2 Hq2]. pose proof (un_system _ _ _ Hu2) as [A2 Hsy2].
    eapply wp_mono; [eapply (IH k2 A2 turns); [done|done|done|congruence| |lia]|].
    + rewrite Ht2. cbn [submitted] in Hg. destruct (c =? 10); [by apply Forall_cons in Hg as [_ Hg]|done].
    + cbn beta. intros _ k3 (Hu3 & Hr3 & Hd3%Hd2%Hd1 & H3). rewrite Ht2 in Hu3, H3. cbn [submitted pending].
      pose proof (undisturbing_trans _ _ _ _ _ Hu1 (undisturbing_trans _ _ _ _ _ Hu2 Hu3)) as Hu.
      destruct (c =? 10); done.
Qed.
End session.

(** ** The properties *)

(** C12: a careful line of the shell -- every command but [fault], [reboot] and
    [halt], which end the system on purpose, with any arguments, as long as it does
    not wait, divide INT_MIN by -1, ask for more than KMALLOC_MAX bytes or give back
    memory in use -- returns, keeps the invariant of the running system, leaves
    every task alive but the one it was told to kill, and no task finds a register
    or a byte of its stack changed. *)
Theorem shell_line_harmless lo0 hi0 wait fuel k A line :
  system lo0 hi0 k A → careful lo0 hi0 k (parse_line line).1 (parse_line line).2 →
  wp (shell_execute wait fuel line) (λ _ k', (∃ A', system lo0 hi0 k' A') ∧
    current (sched_st k') = current (sched_st k) ∧
    ∀ i, live (sched_st k) i → victim (parse_line line).1 (parse_line line).2 ≠ Some i →
      live (sched_st k') i ∧ undisturbed hi0 i k k') k.
Proof.
  intros Hsy Hc. eapply wp_mono; [by eapply shell_harmless|]. cbn beta.
  intros _ k' [HA Hcur Hal Hun]. split_and!; [done|done|]. intros i Hl Hv. pose proof (Hal i Hl Hv).
  split; [done|by apply Hun].
Qed.

(** [kmalloc 64] while the worker of [created] is alive, and [map], which takes a
    frame and a page table. *)
Lemma shell_line_harmless_witness : ∃ A, system 0x2000 0x2800 created A ∧
  wp (shell_execute (ret tt) 0 (lit "kmalloc 64")) (λ _ k', (∃ A', system 0x2000 0x2800 k' A') ∧
    current (sched_st k') = current (sched_st created) ∧
    ∀ i, live (sched_st created) i → None ≠ Some i → live (sched_st k') i ∧ undisturbed 0x2800 i created k') created ∧
  wp (shell_execute (ret tt) 0 (lit "map 0xD0000000")) (λ _ k', (∃ A', system 0x2000 0x2800 k' A') ∧
    current (sched_st k') = current (sched_st created) ∧
    ∀ i, live (sched_st created) i → None ≠ Some i → live (sched_st k') i ∧ undisturbed 0x2800 i created k') created.
Proof.
  destruct created_running as [A Hsy]. exists A. split; [exact Hsy|]. split.
  - apply (shell_line_harmless 0x2000 0x2800 (ret tt) 0 created A (lit "kmalloc 64")); [exact Hsy|].
    apply gentle_careful. reflexivity.
  - apply (shell_line_harmless 0x2000 0x2800 (ret tt) 0 created A (lit "map 0xD0000000")); [exact Hsy|].
    apply gentle_careful. reflexivity.
Defined.

(** C11: the loop at the kernel's heart: whatever characters have been received, if
    the lines they submit are gentle, [shell_poll] handles them one after the
    other and returns with the ring empty and the unfinished rest on the line:
    what happens in between is exactly the [dialogue] of that text, in which each
    key is echoed and each Enter executes the line edited so far.  It needs one
    turn more than there are characters.  The invariant is kept, and every task that
    was alive and that no line was meant to kill still is, with its registers and
    its stack. *)
Theorem console_session lo0 hi0 wait fuel turns k A :
  system lo0 hi0 k A → editor_wf (shell_st k) → ring_wf (shell_st k) →
  let l := line_text (shell_st k) in
  let q := ring_chars (shell_st k) in
  Forall (λ l, gentle l = true) (submitted l q) → (length q < turns)%nat →
  wp (shell_poll wait fuel turns) (λ _ k', dialogue wait fuel l q k k' ∧
    undisturbing lo0 hi0 (submitted l q) k k' ∧
    ring_chars (shell_st k') = [] ∧ line_text (shell_st k') = pending l q) k.
Proof.
  intros Hsy Hed Hwf l q Hg Hn. eapply wp_mono; [by eapply (poll_session lo0 hi0 wait fuel q k A)|].
  cbn beta. intros _ k' (? & ? & ? & ?). done.
Qed.

(** Two lines and the beginning of a third, typed while the worker waits. *)
Definition session_input : shell_state := {| line_buf := replicate 128 0; line_len := 0;
  ring := lit "alloc\nkill 1\nme" ++ replicate 241 0; ring_head := 15; ring_tail := 0 |}.
Definition at_keyboard : kernel := upd_shell_st (λ _, session_input) created.

Lemma new_input_calm s k : calm k (upd_shell_st (λ _, s) k).
Proof. done. Qed.
Lemma at_keyboard_input : shell_st at_keyboard = session_input.
Proof. reflexivity. Qed.
Lemma at_keyboard_system : ∃ A, system 0x2000 0x2800 at_keyboard A.
Proof.
  destruct created_running as [A Hsy]. exists A. exact (proj1 (calm_system _ _ _ _ _ Hsy (new_input_calm session_input created))).
Qed.
#[global] Opaque at_keyboard.

Lemma session_lines :
  submitted (line_text session_input) (ring_chars session_input) = [lit "alloc"; lit "kill 1"] ∧
  pending (line_text session_input) (ring_chars session_input) = lit "me".
Proof. split; vm_compute; reflexivity. Qed.

Lemma console_session_witness :
  submitted (line_text session_input) (ring_chars session_input) = [lit "alloc"; lit "kill 1"] ∧
  pending (line_text session_input) (ring_chars session_input) = lit "me" ∧
  wp (shell_poll (ret tt) 0 16) (λ _ k',
    dialogue (ret tt) 0 (line_text (shell_st at_keyboard)) (ring_chars (shell_st at_keyboard)) at_keyboard k' ∧
    undisturbing 0x2000 0x2800
      (submitted (line_text (shell_st at_keyboard)) (ring_chars (shell_st at_keyboard))) at_keyboard k' ∧
    ring_chars (shell_st k') = [] ∧
    line_text (shell_st k') = pending (line_text (shell_st at_keyboard)) (ring_chars (shell_st at_keyboard))) at_keyboard.
Proof.
  split; [apply session_lines|]. split; [apply session_lines|].
  destruct at_keyboard_system as [A Hsy].
  apply (console_session 0x2000 0x2800 (ret tt) 0 16 at_keyboard A Hsy); rewrite at_keyboard_input.
  - split; [reflexivity|split; [discriminate|reflexivity]|apply Forall_nil_2].
  - split; [reflexivity|split; [discriminate|reflexivity]|split; [discriminate|reflexivity]].
  - rewrite (proj1 session_lines). repeat (apply Forall_cons_2; [vm_compute; reflexivity|]). apply Forall_nil_2.
  - apply Nat.ltb_lt. vm_compute. reflexivity.
Defined.

(** ** The heap can be unmapped *)
Lemma load_unmapped va k : mmu (mach k) va = None → load32 va k = Trap 14 0 (upd_mach (set_cr2 va) k).
Proof. intros Hm. unfold load32, load, m_load. cbn [mmu_list]. by rewrite Hm. Qed.

Lemma kmalloc_unmapped k size :
  heap_ready (heap_st k) = 1 → heap_head (heap_st k) = HEAP_START → HEAP_START ≤ brk (heap_st k) → size ≠ 0 →
  mmu (mach k) (HEAP_START + 12) = None → kmalloc size k = Trap 14 0 (upd_mach (set_cr2 (HEAP_START + 12)) k).
Proof.
  intros Hr Hh Hb Hs Hm. unfold kmalloc, heap_g. unfold bind at 1, gets at 1. rewrite Hr, (proj2 (Z.eqb_neq size 0)) by done.
  cbn [Z.eqb orb]. cbv iota. generalize (align8 size). intros n. cbn [for_find].
  assert (search n k = Trap 14 0 (upd_mach (set_cr2 (HEAP_START + 12)) k)) as Hsearch.
  { unfold search, heap_fuel, heap_g, bind, gets, ret. rewrite Hh.
    assert (∃ m, Z.to_nat ((brk (heap_st k) - HEAP_START) / sizeof_block + 2) = S m) as [m ->].
    { exists (Z.to_nat ((brk (heap_st k) - HEAP_START) / sizeof_block + 1)).
      pose proof (Z.div_pos (brk (heap_st k) - HEAP_START) sizeof_block ltac:(lia) eq_refl). lia. }
    cbn [while_fuel]. unfold search_step. change (HEAP_START =? 0) with false. cbv iota. unfold bind.
    change (blk_free HEAP_START) with (HEAP_START + 12). by rewrite load_unmapped. }
  unfold bind. by rewrite Hsearch.
Qed.

(** [unmap] of the first page of the heap. *)
Lemma unmap_heap k U T P bs : heap_inv k U T P bs →
  wp (cmd_unmap (lit "0xC0000000")) (λ _ k', heap_st k' = heap_st k ∧ mmu (mach k') (HEAP_START + 12) = None) k.
Proof.
  intros Hi. pose proof (hv_paging _ _ _ _ _ Hi) as Hp. pose proof (hv_frames _ _ _ _ _ Hi) as Hf.
  pose proof (gi_end _ _ _ _ Hp) as [He _]. pose proof (span_bound _ _ _ _ _ Hi) as [_ Hbrk].
  assert (heap_page (brk (heap_st k)) (HEAP_START / 0x1000)) as Hpage.
  { destruct (hf_hi _ _ _ _ _ Hf) as [Hr Hm]. pose proof (heap_inv_sizes _ _ _ _ _ Hi) as Hs.
    pose proof (hv_ne _ _ _ _ _ Hi). destruct bs as [|b bs']; [done|]. apply Forall_cons in Hs as [Hb Hs].
    pose proof (span_nonneg _ Hs). cbn [span] in Hbrk. unfold blk_span, sizeof_block in Hbrk. hm_lia. }
  destruct (hf_page _ _ _ _ _ Hf _ Hpage) as (f & (e & HPe & Hfe) & HfU & Hfo).
  unfold cmd_unmap. change (Z.land (atoi_hex (lit "0xC0000000")) page_mask) with HEAP_START. rewrite wp_bind.
  eapply wp_translate; [exact Hi|done|done|congruence|]. intros e' He' Hne Hal Hr.
  rewrite (proj2 (Z.eqb_neq _ _)) by done. unfold paging_identity_end, paging_g. rewrite wp_bind, wp_gets. fold (iend k).
  rewrite (proj2 (Z.ltb_ge _ _)) by (unfold HEAP_START, IDENTITY_BYTES in *; lia). rewrite wp_bind.
  eapply wp_mono; [apply (paging_unmap_rep k U T P HEAP_START Hp); [done|]|].
  { intros _. unfold HEAP_START, IDENTITY_BYTES in *. lia. }
  cbn beta. intros r k1 [(_ & _ & _ & Hp1 & Hs1)|(HN & _)]; [|congruence].
  destruct (paging_step_frame _ _ _ Hs1) as [Hh1 Hg1]. rewrite wp_bind.
  change page_mask with 0xFFFFF000. rewrite land_page by done. rewrite Hal, Z.sub_0_r.
  assert (frame_of e' / FRAME_SIZE = f) as Hff.
  { rewrite HPe in He'. injection He' as <-. rewrite Hfe. unfold FRAME_SIZE. zlia. }
  eapply wp_mono; [apply pmm_free_frame_rep; [apply (gi_pmm _ _ _ _ Hp1)|lia]|].
  cbn beta. rewrite Hff. intros _ k2 [Hr2 Hs2].
  assert (paging_inv k2 (U ∖ {[f]}) T (delete (HEAP_START / 0x1000) P)) as Hp2.
  { eapply inv_pmm_step; [exact Hp1|done|done|]. intros g Hg. pose proof (gi_owned _ _ _ _ Hp1 g Hg).
    assert (g ≠ f) by (intros ->; by apply Hfo, (owned_step T k k1)). set_solver. }
  assert (heap_st k2 = heap_st k ∧ cr0_pg (mach k2) = true) as [Hh2 Hon2].
  { destruct (paging_step_frame _ _ _ (pmm_step_paging T _ _ Hs2)) as [-> ->].
    split; [done|]. rewrite Hg1. apply (hv_on _ _ _ _ _ Hi). }
  assert (∀ m : K (), ConsoleOp m → wp m (λ _ k', heap_st k' = heap_st k ∧ mmu (mach k') (HEAP_START + 12) = None) k2) as Hsay.
  { intros m Hm. eapply wp_mono; [apply Hm|]. cbn beta. intros _ k3 (v & s & l & ->). split; [done|].
    change (mmu (mach k2) (HEAP_START + 12) = None).
    rewrite (mmu_lookup _ _ _ _ (gi_core _ _ _ _ Hp2) Hon2) by done.
    change ((HEAP_START + 12) / 0x1000) with (HEAP_START / 0x1000). by rewrite lookup_delete_eq. }
  apply Hsay, _.
Qed.

(** C20: [unmap] protects the identity map -- an address in it is refused, and
    nothing changes -- but not the heap: the line [unmap 0xC0000000] is accepted
    in every state in which the heap is in order, and after it every call of
    [kmalloc] raises a page fault at the first header, which stops the system. *)
Theorem unmap_breaks_heap wait fuel k :
  managed k →
  (∀ args, Z.land (atoi_hex args) page_mask < iend k → wp (cmd_unmap args) (λ _ k', kernel_same k k') k) ∧
  wp (shell_execute wait fuel (lit "unmap 0xC0000000")) (λ _ k', ∀ size, 0 < size →
    kmalloc size k' = Trap 14 0 (upd_mach (set_cr2 (HEAP_START + 12)) k')) k.
Proof.
  intros (U & T & P & bs & Hi). pose proof (ex_intro _ U (ex_intro _ T (ex_intro _ P (ex_intro _ bs Hi))) : managed k) as Hm.
  split.
  - intros args Hlt. destruct (page_aligned args) as [Hv Hal]. unfold cmd_unmap.
    set (virt := Z.land (atoi_hex args) page_mask) in *. rewrite wp_bind.
    eapply wp_translate; [exact Hi|done|done| |].
    + intros _. rewrite Z.eqb_refl. by apply (query (m := print _)).
    + intros e _ Hne _ _. rewrite (proj2 (Z.eqb_neq _ _)) by done.
      unfold paging_identity_end, paging_g. rewrite wp_bind, wp_gets. fold (iend k).
      rewrite (proj2 (Z.ltb_lt _ _)) by done. by apply (query (m := print _)).
  - change (shell_execute wait fuel (lit "unmap 0xC0000000")) with (cmd_unmap (lit "0xC0000000") ;;; shell_prompt).
    rewrite wp_bind. eapply wp_mono; [by eapply unmap_heap|]. cbn beta. intros _ k1 [Hh Hmm].
    eapply wp_mono; [apply (print_console _ k1)|]. cbn beta. intros _ k2 (v & s & l & ->) size Hsz.
    pose proof (hf_hi _ _ _ _ _ (hv_frames _ _ _ _ _ Hi)) as [Hr _].
    apply kmalloc_unmapped; cbn [heap_st upd_vga_st upd_serial_st upd_mach]; rewrite ?Hh; try lia; try done.
    + apply (hv_ready _ _ _ _ _ Hi).
    + apply (hv_head _ _ _ _ _ Hi).
Qed.

Lemma unmap_breaks_heap_witness :
  (∀ args, Z.land (atoi_hex args) page_mask < iend booted → wp (cmd_unmap args) (λ _ k', kernel_same booted k') booted) ∧
  wp (shell_execute (ret tt) 0 (lit "unmap 0xC0000000")) (λ _ k', ∀ size, 0 < size →
    kmalloc size k' = Trap 14 0 (upd_mach (set_cr2 (HEAP_START + 12)) k')) booted.
Proof.
  apply (unmap_breaks_heap (ret tt) 0 booted). destruct booted_inv as (U & T & P & H). exists U, T, P, [initial_block]. exact H.
Defined.
